(* ===== verification/_CoqProject ===== *)
-Q . S2P
Prelude.v
Bytes.v
Crypto.v
Bft.v
BftFacts.v
Coordinator.v
CoordinatorFacts.v
Demo.v
Slashing.v
Codec.v
ToyRlp.v
Secp.v
Tx.v
Transfer.v
Trie.v
Receipt.v
Block.v
ChainSync.v
ChainSpec.v
Engine.v
VNode.v
Consensus.v
EngineFacts.v
EngineProps.v
EngineDemo.v
ConsensusBft.v
Wire.v
Capacity.v
Gossip.v
GossipProps.v
BftProps.v
Htlc.v
Federation.v
Storage.v
Kademlia.v
Ssz.v
RlpUint.v
P2p.v
Discovery.v
DiscoveryNode.v
DiscoveryProps.v
Transport.v
TransportProps.v
Release.v
ReleaseStore.v
ReleaseStoreProps.v
ReleaseNode.v
ReleaseProps.v
ReleaseNet.v
StateDb.v
Wasm.v
Evm.v
Tables.v
Staking.v
Governance.v
GovernanceProps.v
Dpos.v
Simulate.v
Precompile.v
Frames.v
TxPool.v
NodeExec.v
Microchain.v
NodeState.v
Queries.v
NodeSim.v
NodeProps.v
NodeIndex.v
NodeDemo.v
QueriesProps.v
DposProps.v
Rotation.v
Bootstrap.v
Cli.v
Funding.v
Wallet.v
ValidatorLoop.v
SlashProps.v
LoopProps.v
LoopDemo.v
