(* ===== verification/Prelude.v ===== *)
(** * The aii node: a verification library

    This library models the consensus, execution, storage, networking and release parts of
    the aii blockchain node (the Rust workspace under [src/crates]) and proves what makes
    them correct.  Every definition is a translation of the code that its file's comment
    names, and keeps the code's name; a method is [Type_method] or [method], a field keeps
    its name.  This first file holds what all others share.

    ** The program and the files

    A validating node is a loop ([main.rs]) around a gossip driver, a BFT engine, a block
    store with its state, and a mempool:

    - Finality.  [Bft] is [aii-consensus-bft/src/bft.rs]: validator set, stake-weighted
      leader draw, votes, talliers, certificates.  [Coordinator] is one height
      ([coordinator.rs]), [Engine] the chain of heights ([engine.rs]), [Slashing] the
      equivocation detector, [Wire] the message format, [Gossip] the driver that reads
      messages from the transport, feeds the engine and broadcasts its votes, [Capacity] the
      bandwidth budget.  [BftFacts], [CoordinatorFacts], [EngineFacts] hold the invariants,
      [BftProps], [EngineProps], [GossipProps] the properties.  [Consensus] is the trait of
      [aii-consensus-iface] as a class with its laws, a driver proved against it, and the
      development and proof-of-authority engines as instances; [ConsensusBft] is the BFT one.
    - Data.  [Codec], [RlpUint] are the codec library as an interface and the helpers over
      it; [Tx], [Receipt], [Block] the types of [aii-block] with codecs, hashes, signer
      recovery and blooms; [Ssz] the codec of [aii-codec]; [Trie] the Merkle Patricia roots;
      [Secp], [Crypto] the wrappers of [aii-crypto]; [Transfer] the wallet's own encoder.
    - State.  [Storage] is [aii-storage] (backend trait, memory backend), [StateDb] the
      accounts of [aii-state], [Evm] the adapter of [aii-evm], [Tables] the typed tables in
      one column family, [Staking], [Governance], [Dpos], [Precompile] the tables of
      [aii-node] and the calls that reach them, [Rotation] the step from an election to the
      engine.  The stake table, governance, elections and the block records share one store
      that is passed explicitly, so what one writes the others read; [Simulate] and [Frames]
      say which rows an action reads and writes.
    - Node.  [NodeExec] has the two executions of a body, [NodeState] the block index,
      [commit_block] and [recover], [TxPool] the mempool and the admission of raw
      transactions, [ValidatorLoop] the loop itself and its start.  [Bootstrap] leads there: the
      keystores and the genesis file that the command line makes, and the engine's
      configuration built from them ([bft_bootstrap.rs]).  [Queries]
      has the query methods behind the RPC with their handlers, and the download of a peer's
      chain by a node that joins ([sync.rs]).  [NodeSim], [NodeProps], [NodeIndex],
      [LoopProps], [SlashProps], [DposProps], [QueriesProps] prove about them.
    - Network.  [P2p] is the framed message format, [Transport] the relaying transport with
      its ring of hashes, [Discovery] the signed packets, [DiscoveryNode] the responder and
      the query of [discovery_bootstrap.rs], [Kademlia] the routing table, [ChainSync] the
      download machine of [aii-net-sync].
    - Releases.  [Release] is the signed manifest, [ReleaseStore] the files (cache,
      replacement of the running binary, rollback, boot record, restart log) and the stall
      watchdog, [ReleaseNode] the node's methods and the RPC handlers before them, [ReleaseNet]
      the propagation to the update peers and the poller, on a network of such nodes.
    - Sub-chains and the command line: [Wasm] is what a contract of a sub-chain may do
      ([aii-wasm], [aii-wasm-state]); [Cli] the committee runs, the sub-chain that anchors its
      head in a parent and its operator's file, [Funding] the commands that credit a state
      or fund accounts ([aii-cli]), [Wallet] the keys, encrypted keystores and mnemonics of
      [aii-wallet] with the account commands.
    - Beside the node: [ChainSpec], [Htlc], [Federation], [Microchain], [VNode] (with the
      ERC-20 helpers).

    ** What the theorems show

    - Safety of finality: two certificates share stake of more than a third
      ([quorum_intersection]); a harvested block carries a certificate that verifies
      ([harvest_finalizes]); heads form a chain ([heads_form_chain]); no message makes the
      engine or the driver panic ([engine_never_panics], [tick_never_panics]); the drain of
      early votes returns ([drain_terminates]); a round refines an abstract view
      ([coordinator_refines_view]); conflicting votes are reported once and for all
      ([detector_reports_conflicts]).
    - Start: the keys the operators generate and the genesis file of their public keys boot
      engines that agree on the set and sign with its keys ([generated_keys_boot]).
    - Progress: an honest round commits ([honest_round_commits]), a follower accepts its
      leader's block ([follower_accepts_leader]), a payload reaches every connected node and
      the relaying stops ([relay_reaches_all]).
    - Composition: the node applies exactly what the engine finalised, and they agree on the
      head ([node_follows_engine]); an election reaches the engine ([election_reaches_engine]);
      evidence reaches the stake table ([evidence_punished]); the header a leader proposes
      carries the roots that committing computes ([proposal_equals_commit],
      [header_locks_to_execution]).
    - State: the stake table refines a finite map ([stake_table_refines]), the block index is
      consistent and bounded ([index_consistent]), proposals are decided by stake
      ([tally_decides]), the subsidy is capped ([emission_capped]).  A contract that collects
      its writes and has them committed is one that writes in place ([wasm_refines_direct]).
    - Queries: a node that downloads a peer's chain ends in the peer's state
      ([cold_join_copies_chain]), unless the peer has dropped a block it needs
      ([cold_join_past_retention]); [eth_getLogs] misses no log of a stored receipt
      ([committed_logs_found]).
    - Formats: wire messages, transactions, blocks, SSZ, frames and discovery packets read
      back; decoders never panic.
    - Commands: a sub-chain flushes at the multiples of its interval, with the hash of the
      block ([subchain_flushes_anchor]); its operator's file reads back
      ([subchain_state_survives]); a pressure run of an honest committee commits every height
      ([pressure_run_succeeds]); a credit adds exactly the amount ([state_credit_exact]); what
      a funding run sends, the balance covers ([funding_is_covered]); the keystore of a new
      account carries its address and opens with its password ([account_keystore_opens]).
    - Discovery and releases: a query learns what a seed knows ([query_learns_peers]); the
      running binary is replaced whole or not at all under every schedule of faults
      ([install_all_or_nothing]); a binary that was not there at the start is a signed one
      ([only_signed_binaries_run]); on a disk that works restarts are limited
      ([restarts_rate_limited]); an announced manifest reaches every node
      that the update peers lead to, and the propagation ends ([release_reaches_all]).
    - Some theorems state behaviour that the code has and its documentation does not want:
      [restart_resets_genesis_accounts], [zero_interval_panics], [abort_in_start_hidden], [flooded_responder_silent],
      [release_version_unchecked], [stale_rollback_undone], [poll_leaves_binary_missing],
      [unlogged_restarts_unlimited], [claim_after_timeout], [duplicate_logs_lost],
      [nonce_never_checked], [precompile_moves_no_value], [sync_checks_numbers_only],
      [old_height_proposal_accepted], [timeout_loses_commit].

    ** Conventions

    - Integers are [N] and wrap where the source's do: the release profile has no overflow
      checks, and the 256-bit integers of [ruint] wrap.  [wrapping_add] and [wrapping_mul]
      are [+] and [*] of the source, [saturating_add] and [checked_add] the methods so named.
      Where the source's types bound a value the hypothesis says so ([tx_wf], [Packet_wf]).
    - A fallible function returns [res]: [Ok], [Err] or [Panic] ([expect], [unwrap], a slice
      out of range).  [action] threads the store through such functions, [io] a file system.
    - A method with a lock for its whole run is a function on the state; tasks and messages
      are folds over what arrives, or steps of a network ([deliver]).
    - A call into a contract is the finite tree of the imports it makes ([guest]): the engine's
      fuel bounds it, so the tree is inductive and every run ends.
    - A file system is a map of files with a schedule of faults: an operation may fail,
      leaving nothing or a part of what it writes; a crash is a schedule that fails from a
      point on.
    - Loops that the source does not bound take fuel, and a lemma says that the fuel given is
      enough: the drain of early votes (each pass consumes a vote), the trie (each level
      strips a nibble), text (each character takes a byte), RLP lists and connections (each item takes a byte), the tick's inbox.

    Third-party code is a class, its documented behaviour a class of laws, with a toy
    instance that proves the laws satisfiable and lets the theorems be evaluated: [Primitives]
    (BLS, VRF, Keccak) with [KeyCodec] (secret keys), [K256], [Rlp], [RlpUint], [Revm],
    [KvBackend], [HexCrate], [UintText] (256-bit text), [ReleaseCrypto] (Ed25519, SHA-256),
    [ReleaseJson], [Wasmtime], [WalletCrates] (scrypt, AES, BIP-39 and BIP-32).  The files and modules named [Demo] and
    [Toy] hold the instances and the theorems' instances on them.

    ** What is not modelled

    RocksDB and its snapshots (the same interface as the memory backend), the Noise
    handshake and its sessions, sockets and dialling, the JSON, HTTP and command-line layers,
    metrics and log lines are I/O or third-party code; random bytes are arguments.  Of the network: the transport's channel to its writers is unbounded
    and links do not fail; paths have no directories or links; IPv6 addresses no scope.  The
    executor that puts real roots into proposed headers is modelled and proved, but the
    program never sets it.  Locks are not modelled, nor are two methods that interleave; the
    responder and the refresh of [DiscoveryNode] and the tasks of [ReleaseNet] take turns, and the files of [Bootstrap] are their values.

    Left for later: the hardware probe of [aii-onboarding], the dial targets of the transport, the load generators of the command line,
    the tools of [aii-mcp], two methods of the node that interleave. *)
From stdpp Require Import base tactics gmap numbers sorting list.
From Stdlib Require Import ZArith NArith Lia.
From Stdlib.Init Require Import Byte.

#[global] Open Scope N_scope.

(** ** Machine integers *)

(** Unsigned integers are [N]; the width appears where the source wraps,
    saturates or checks.  The modulus of the width [w] is written out. *)
Abbreviation u32_mod := 4294967296%N (only parsing).
Abbreviation u64_mod := 18446744073709551616%N (only parsing).
Abbreviation u128_mod := 340282366920938463463374607431768211456%N (only parsing).
Abbreviation u256_mod := 115792089237316195423570985008687907853269984665640564039457584007913129639936%N (only parsing).

Definition wrapping_add (m a b : N) : N := (a + b) mod m.
Definition wrapping_mul (m a b : N) : N := (a * b) mod m.
Definition checked_add (m a b : N) : option N :=
  if a + b <? m then Some (a + b) else None.
Definition checked_mul (m a b : N) : option N :=
  if a * b <? m then Some (a * b) else None.
Definition checked_sub (a b : N) : option N := if b <=? a then Some (a - b) else None.
Definition saturating_add (m a b : N) : N := N.min (a + b) (m - 1).
Definition saturating_mul (m a b : N) : N := N.min (a * b) (m - 1).
Definition saturating_sub (a b : N) : N := a - b.

(** Rust's [a as usize] / [len()] bridge between [N] and list positions. *)
Definition len {A} (l : list A) : N := N.of_nat (length l).

Lemma len_app {A} (l k : list A) : len (l ++ k) = len l + len k.
Proof. unfold len. rewrite length_app. lia. Qed.

Lemma to_nat_len {A} (l : list A) : N.to_nat (len l) = length l.
Proof. apply Nat2N.id. Qed.

Lemma checked_add_Some m a b c :
  checked_add m a b = Some c <-> c = a + b /\ a + b < m.
Proof.
  unfold checked_add. destruct (N.ltb_spec (a + b) m); split; intros Hc;
    simplify_eq; try lia; try (destruct Hc; subst; done); done.
Qed.

Lemma checked_add_None m a b : checked_add m a b = None <-> m <= a + b.
Proof.
  unfold checked_add. destruct (N.ltb_spec (a + b) m); split; intros; try done; lia.
Qed.

Lemma saturating_add_small m a b : a + b < m -> saturating_add m a b = a + b.
Proof. unfold saturating_add. lia. Qed.

Lemma saturating_add_le m a b : 0 < m -> saturating_add m a b < m.
Proof. unfold saturating_add. lia. Qed.

Lemma saturating_u64 a b : saturating_add u64_mod a b < u64_mod.
Proof. by apply saturating_add_le. Qed.

Lemma saturating_u256 a b : saturating_add u256_mod a b < u256_mod.
Proof. by apply saturating_add_le. Qed.

Lemma saturating_mul_small m a b : a * b < m -> saturating_mul m a b = a * b.
Proof. unfold saturating_mul. lia. Qed.

Lemma wrapping_add_small m a b : a + b < m -> wrapping_add m a b = a + b.
Proof. intros. unfold wrapping_add. by rewrite N.mod_small. Qed.

Lemma wrapping_mul_small m a b : a * b < m -> wrapping_mul m a b = a * b.
Proof. intros. unfold wrapping_mul. by rewrite N.mod_small. Qed.

(** [lia] with the equations of the divisions and remainders of the goal. *)
Ltac div_lia := zify; Z.to_euclidean_division_equations; lia.

(** ** Outcomes *)

(** The outcome of a Rust call: a value, a returned error, or a panic (an
    out-of-range slice, a failed [unwrap]/[expect]). *)
Inductive res (E A : Type) : Type :=
| Ok (a : A)
| Err (e : E)
| Panic.
Arguments Ok {E A} a.
Arguments Err {E A} e.
Arguments Panic {E A}.

#[export] Instance res_eq_dec {E A} `{EqDecision E, EqDecision A} : EqDecision (res E A).
Proof. solve_decision. Defined.

#[export] Instance res_ret {E} : MRet (res E) := fun A a => Ok a.
#[export] Instance res_bind {E} : MBind (res E) := fun A B f r =>
  match r with Ok a => f a | Err e => Err e | Panic => Panic end.
#[export] Instance res_fmap {E} : FMap (res E) := fun A B f r =>
  match r with Ok a => Ok (f a) | Err e => Err e | Panic => Panic end.

(** [.map_err(|_| e)], [.ok_or(e)] and [.expect(..)]. *)
Definition map_err {E E' A} (f : E -> E') (r : res E A) : res E' A :=
  match r with Ok a => Ok a | Err e => Err (f e) | Panic => Panic end.
Definition ok_or {E A} (o : option A) (e : E) : res E A :=
  match o with Some a => Ok a | None => Err e end.
Definition expect {E A} (o : option A) : res E A :=
  match o with Some a => Ok a | None => Panic end.
Definition guard_err {E} (b : bool) (e : E) : res E unit :=
  if b then Err e else Ok tt.

Definition is_ok {E A} (r : res E A) : bool :=
  match r with Ok _ => true | _ => false end.

Section res_lemmas.
Context {E A B : Type}.

Lemma bind_Ok (r : res E A) (f : A -> res E B) b :
  r ≫= f = Ok b <-> exists a, r = Ok a /\ f a = Ok b.
Proof. destruct r; cbn; naive_solver. Qed.

Lemma bind_Err (r : res E A) (f : A -> res E B) e :
  r ≫= f = Err e <-> r = Err e \/ exists a, r = Ok a /\ f a = Err e.
Proof. destruct r; cbn; naive_solver. Qed.

Lemma bind_Panic (r : res E A) (f : A -> res E B) :
  r ≫= f = Panic <-> r = Panic \/ exists a, r = Ok a /\ f a = Panic.
Proof. destruct r; cbn; naive_solver. Qed.

Lemma ok_or_Ok (o : option A) (e : E) a : ok_or o e = Ok a <-> o = Some a.
Proof. destruct o; cbn; naive_solver. Qed.

Lemma expect_Ok (o : option A) a : expect (E := E) o = Ok a <-> o = Some a.
Proof. destruct o; cbn; naive_solver. Qed.

Lemma guard_err_Ok (b : bool) (e : E) u : guard_err b e = Ok u <-> b = false.
Proof. destruct b, u; cbn; naive_solver. Qed.

Lemma guard_err_Err (b : bool) (e e' : E) : guard_err b e = Err e' <-> b = true /\ e = e'.
Proof. destruct b; cbn; naive_solver. Qed.

Lemma map_err_Ok {E'} (f : E -> E') (r : res E A) a : map_err f r = Ok a <-> r = Ok a.
Proof. destruct r; cbn; naive_solver. Qed.

(** The value of a result that is known to be one. *)
Definition res_or (d : A) (r : res E A) : A := match r with Ok a => a | _ => d end.

Lemma is_ok_res_or d (r : res E A) : is_ok r = true -> r = Ok (res_or d r).
Proof. by destruct r. Qed.
End res_lemmas.

(** Take a successful run of a monadic computation apart. *)
Ltac inv_ok :=
  repeat match goal with
  | H : _ ≫= _ = Ok _ |- _ => apply bind_Ok in H as (? & ? & H)
  | H : guard_err _ _ = Ok _ |- _ => apply guard_err_Ok in H
  | H : ok_or _ _ = Ok _ |- _ => apply ok_or_Ok in H
  | H : expect _ = Ok _ |- _ => apply expect_Ok in H
  | H : map_err _ _ = Ok _ |- _ => apply map_err_Ok in H
  | H : mret _ = Ok _ |- _ => injection H as H
  | H : Ok _ = Ok _ |- _ => injection H as H
  | H : Err _ = Ok _ |- _ => discriminate H
  | H : Panic = Ok _ |- _ => discriminate H
  | H : unit |- _ => destruct H
  end.

(** ** Weighted sums over lists of positions

    Stake sums: [weight f l] adds [f i] for the positions [i] of [l]. *)
Definition weight {A} (f : A -> N) (l : list A) : N := foldr (fun i acc => f i + acc) 0 l.

Section weight.
Context {A : Type} (f : A -> N).

Lemma weight_nil : weight f [] = 0.
Proof. done. Qed.

Lemma weight_cons i l : weight f (i :: l) = f i + weight f l.
Proof. done. Qed.

Lemma weight_app l k : weight f (l ++ k) = weight f l + weight f k.
Proof. induction l as [|i l IH]; cbn; [done|]. fold (weight f). unfold weight in *. lia. Qed.

Lemma weight_perm l k : l ≡ₚ k -> weight f l = weight f k.
Proof. induction 1; unfold weight in *; cbn in *; lia. Qed.

Lemma weight_map {B} (g : B -> A) l : weight f (g <$> l) = weight (fun x => f (g x)) l.
Proof. induction l; unfold weight in *; cbn in *; congruence. Qed.

Lemma weight_ext (g : A -> N) l : (forall i, i ∈ l -> f i = g i) -> weight f l = weight g l.
Proof.
  induction l as [|i l IH]; intros H; [done|]. rewrite weight_cons, IH by set_solver.
  unfold weight. cbn. rewrite (H i) by set_solver. done.
Qed.

Lemma weight_filter_le (P : A -> Prop) `{forall i, Decision (P i)} l :
  weight f (filter P l) <= weight f l.
Proof.
  induction l as [|i l IH]; [done|]. rewrite filter_cons. case_decide; unfold weight in *; cbn in *; lia.
Qed.

(** Two sub-collections overlap at least in what they exceed the whole by. *)
Lemma weight_filter_overlap (P Q : A -> Prop)
    `{forall i, Decision (P i)} `{forall i, Decision (Q i)} l :
  weight f (filter P l) + weight f (filter Q l) <=
  weight f l + weight f (filter (fun i => P i /\ Q i) l).
Proof.
  induction l as [|i l IH]; [done|]. rewrite !filter_cons.
  repeat case_decide; unfold weight in *; cbn in *; try lia; exfalso; tauto.
Qed.

(** A duplicate-free selection of positions of [l] weighs at most [l]. *)
Lemma weight_subset_le `{EqDecision A} (k l : list A) :
  NoDup k -> (forall i, i ∈ k -> i ∈ l) -> NoDup l -> weight f k <= weight f l.
Proof.
  intros Hk Hkl Hl. rewrite (weight_perm k (filter (fun i => i ∈ k) l)).
  - apply weight_filter_le.
  - apply NoDup_Permutation; [done|by apply NoDup_filter|].
    intros i. rewrite list_elem_of_filter. naive_solver.
Qed.
End weight.

(** ** Lists *)

Lemma filter_all {A} (Q : A -> Prop) `{forall x, Decision (Q x)} (l : list A) :
  Forall Q l -> filter Q l = l.
Proof.
  induction 1 as [|x l Hx _ IH]; [done|]. rewrite filter_cons_True by done. by rewrite IH.
Qed.

Lemma filter_none {A} (Q : A -> Prop) `{forall x, Decision (Q x)} (l : list A) :
  Forall (fun x => ~ Q x) l -> filter Q l = [].
Proof. induction 1 as [|x l Hx _ IH]; [done|]. by rewrite filter_cons_False. Qed.

(** ** Lexicographic order and the stable sort

    Rust compares slices lexicographically, and [sort_by] is stable; the sort is
    insertion sort, which puts an item before the later ones it ties with. *)
Fixpoint lex_le (a b : list N) : bool :=
  match a, b with
  | [], _ => true
  | _ :: _, [] => false
  | x :: a, y :: b => if x <? y then true else if x =? y then lex_le a b else false
  end.

Lemma lex_le_total a b : lex_le a b = true \/ lex_le b a = true.
Proof.
  revert b. induction a as [|x a IH]; intros [|y b]; cbn; auto.
  destruct (N.ltb_spec x y), (N.ltb_spec y x); auto.
  assert (x = y) as -> by lia. rewrite N.eqb_refl. apply IH.
Qed.

Lemma lex_le_refl a : lex_le a a = true.
Proof. by destruct (lex_le_total a a). Qed.

Lemma lex_le_antisym a b : lex_le a b = true -> lex_le b a = true -> a = b.
Proof.
  revert b. induction a as [|x a IH]; intros [|y b]; cbn; try done.
  destruct (N.ltb_spec x y), (N.ltb_spec y x), (N.eqb_spec x y), (N.eqb_spec y x);
    subst; try lia; try done. intros. f_equal. by apply IH.
Qed.

Lemma lex_le_trans a b c : lex_le a b = true -> lex_le b c = true -> lex_le a c = true.
Proof.
  revert b c. induction a as [|x a IH]; intros [|y b] [|z c]; cbn; try done.
  destruct (N.ltb_spec x y), (N.ltb_spec y z), (N.ltb_spec x z), (N.eqb_spec x y), (N.eqb_spec y z),
    (N.eqb_spec x z); subst; try lia; try done. apply IH.
Qed.

Section sort.
Context {A : Type} (le : A -> A -> bool).

Fixpoint insert_by (x : A) (l : list A) : list A :=
  match l with
  | [] => [x]
  | y :: l => if le x y then x :: y :: l else y :: insert_by x l
  end.

Definition sort_by (l : list A) : list A := foldr insert_by [] l.

Lemma insert_by_perm x l : insert_by x l ≡ₚ x :: l.
Proof.
  induction l as [|y l IH]; cbn; [done|]. destruct (le x y); [done|]. rewrite IH. constructor.
Qed.

Lemma sort_by_perm l : sort_by l ≡ₚ l.
Proof. induction l as [|x l IH]; cbn; [done|]. by rewrite insert_by_perm, IH. Qed.

Context (le_total : forall x y, le x y = true \/ le y x = true)
  (le_trans : forall x y z, le x y = true -> le y z = true -> le x z = true).

Abbreviation sorted := (StronglySorted (fun x y => le x y = true)).

Lemma insert_by_sorted x l : sorted l -> sorted (insert_by x l).
Proof.
  induction 1 as [|y l Hs IH Hy]; cbn; [by repeat constructor|].
  destruct (le x y) eqn:E.
  - constructor; [by constructor|]. constructor; [done|].
    eapply Forall_impl; [exact Hy|]. intros z Hz. by eapply le_trans.
  - constructor; [done|]. rewrite (insert_by_perm x l). constructor; [|done].
    by destruct (le_total x y); [congruence|].
Qed.

Lemma sort_by_sorted l : sorted (sort_by l).
Proof. induction l; cbn; [constructor|]. by apply insert_by_sorted. Qed.

(** The sort is a function of the collection where ties are equal. *)
Lemma sort_by_unique l k :
  l ≡ₚ k -> (forall x y, x ∈ l -> y ∈ l -> le x y = true -> le y x = true -> x = y) ->
  sort_by l = sort_by k.
Proof.
  intros Hp Ha. eapply StronglySorted_unique_strong; [|apply sort_by_sorted..|].
  - intros x y Hx Hy. rewrite sort_by_perm in Hx, Hy. rewrite <-Hp in Hy. by apply Ha.
  - by rewrite !sort_by_perm.
Qed.
End sort.

(** A list whose keys are distinct has one entry per key. *)
Lemma NoDup_fst_inj {A B} (g : A -> B) (l : list A) x y :
  NoDup (g <$> l) -> x ∈ l -> y ∈ l -> g x = g y -> x = y.
Proof.
  induction l as [|z l IH]; cbn; [set_solver|]. intros [Hz Hl]%NoDup_cons.
  intros [->|Hx]%elem_of_cons [->|Hy]%elem_of_cons Heq; [done|..|by apply IH].
  - exfalso. apply Hz. apply list_elem_of_fmap. by exists y.
  - exfalso. apply Hz. apply list_elem_of_fmap. by exists x.
Qed.

(** [Iterator::take_while] *)
Fixpoint take_while {A} (f : A -> bool) (l : list A) : list A :=
  match l with
  | [] => []
  | x :: l => if f x then x :: take_while f l else []
  end.

(** On a list where [f] never comes back once lost, it is the filter. *)
Lemma take_while_filter {A} (f : A -> bool) (l : list A) :
  StronglySorted (fun x y => f y = true -> f x = true) l ->
  take_while f l = filter (fun x => f x = true) l.
Proof.
  induction 1 as [|x l Hs IH Hx]; [done|]. cbn [take_while]. rewrite filter_cons.
  destruct (f x) eqn:E; case_decide; try congruence. symmetry. apply filter_none.
  eapply Forall_impl; [exact Hx|]. intros y Hy Hf. by apply Hy in Hf.
Qed.

Lemma lex_le_prefix p x y :
  lex_le p x = true -> lex_le x y = true -> p `prefix_of` y -> p `prefix_of` x.
Proof.
  revert x y. induction p as [|a p IH]; intros x y Hpx Hxy Hp; [apply prefix_nil|].
  destruct Hp as [k ->]. destruct x as [|b x]; [done|]. cbn in *.
  destruct (N.ltb_spec a b), (N.ltb_spec b a), (N.eqb_spec a b), (N.eqb_spec b a);
    subst; try done; try lia.
  apply prefix_cons. apply (IH x (p ++ k)); [done..|]. by exists k.
Qed.

Lemma lex_le_of_prefix p x : p `prefix_of` x -> lex_le p x = true.
Proof.
  intros [k ->]. induction p as [|a p IH]; [done|]. cbn.
  rewrite N.ltb_irrefl, N.eqb_refl. exact IH.
Qed.

Lemma StronglySorted_impl_Forall {A} (Q : A -> Prop) (R R' : A -> A -> Prop) (l : list A) :
  Forall Q l -> StronglySorted R l -> (forall x y, Q x -> R x y -> R' x y) -> StronglySorted R' l.
Proof.
  intros HQ Hs HR. induction Hs as [|x l Hs IH Hx]; [constructor|].
  apply Forall_cons in HQ as [Hq HQ]. constructor; [by apply IH|].
  eapply Forall_impl; [exact Hx|]. intros y. by apply HR.
Qed.

Lemma Forall_filter_self {A} (Q : A -> Prop) `{forall x, Decision (Q x)} (l : list A) :
  Forall Q (filter Q l).
Proof. apply Forall_forall. intros x Hx%list_elem_of_filter. tauto. Qed.

(** Entries with distinct keys have images with distinct keys. *)
Lemma NoDup_omap_keys {A K X : Type} (f : A -> option X) (g : A -> K) (h : X -> K) (l : list A) :
  NoDup (g <$> l) -> (forall x y, x ∈ l -> f x = Some y -> g x = h y) -> NoDup (h <$> omap f l).
Proof.
  intros Hn. induction l as [|x l IH]; intros Hf; [constructor|]. apply NoDup_cons in Hn as [Hx Hl].
  assert (NoDup (h <$> omap f l)) as Hi by (apply IH; [done|]; intros; apply Hf; set_solver).
  cbn. destruct (f x) as [y|] eqn:E; [|done]. cbn. constructor; [|done].
  rewrite <-(Hf x y ltac:(set_solver) E). intros (z & He & (w & Hw & Hfw)%list_elem_of_omap)%list_elem_of_fmap.
  apply Hx. rewrite He, <-(Hf w z ltac:(set_solver) Hfw). by apply list_elem_of_fmap_2.
Qed.

(** ** Operations on a shared store

    A method that reads and writes a store [S] and may fail; what was written
    before a failure stays written. *)
Definition action (S E A : Type) : Type := S -> S * res E A.

#[export] Instance action_ret {S E} : MRet (action S E) := fun A a s => (s, Ok a).
#[export] Instance action_bind {S E} : MBind (action S E) := fun A B f m s =>
  let '(s, r) := m s in
  match r with Ok a => f a s | Err e => (s, Err e) | Panic => (s, Panic) end.

Definition reading {S E A} (f : S -> res E A) : action S E A := fun s => (s, f s).
Definition failing {S E A} (e : E) : action S E A := fun s => (s, Err e).

Lemma action_bind_Ok {S E A B} (m : action S E A) (f : A -> action S E B) s s' a :
  m s = (s', Ok a) -> (m ≫= f) s = f a s'.
Proof. intros Hm. unfold mbind, action_bind. by rewrite Hm. Qed.

(** A successful sequence, taken apart. *)
Lemma bind_action_Ok {S E A C} (m : action S E A) (f : A -> action S E C) s s' c :
  (m ≫= f) s = (s', Ok c) -> exists s1 a, m s = (s1, Ok a) /\ f a s1 = (s', Ok c).
Proof. unfold mbind, action_bind. destruct (m s) as [s1 [a|e|]]; naive_solver. Qed.

Lemma action_bind_Err {S E A B} (m : action S E A) (f : A -> action S E B) s s' e :
  m s = (s', Err e) -> (m ≫= f) s = (s', Err e).
Proof. intros Hm. unfold mbind, action_bind. by rewrite Hm. Qed.

Lemma reading_Ok {S E A} (f : S -> res E A) s a : f s = Ok a -> reading f s = (s, Ok a).
Proof. intros Hf. unfold reading. by rewrite Hf. Qed.
