(* ===== verification/Bytes.v ===== *)
(** * Bytes: fixed-size byte arrays, big- and little-endian integers, slices

    [[u8; n]] of the source is [array n]: a byte list with a computable proof of
    its length, so that equality is decidable and every value has the right
    size by its type.  [uN::to_be_bytes] / [from_be_bytes] (and the little-endian
    pair) are [be_bytes] / [be_value] ([le_bytes] / [le_value]) with their round
    trips.  [&bytes[a..a+n]] followed by [try_into().unwrap()] is [slice_array]:
    it panics when the range does not fit. *)
From stdpp Require Import base tactics gmap countable numbers strings list.
From Stdlib Require Import NArith Lia Eqdep_dec.
From Stdlib.Init Require Import Byte.
From Stdlib.Strings Require Byte.
From S2P Require Import Prelude.

Abbreviation bytes := (list byte).

(** ** Bytes as numbers *)

Definition byte_of_N (x : N) : byte :=
  match Byte.of_N (x mod 256) with Some b => b | None => x00 end.

Lemma to_N_lt b : Byte.to_N b < 256.
Proof. pose proof (Byte.to_N_bounded b). lia. Qed.

Lemma to_N_byte_of_N x : Byte.to_N (byte_of_N x) = x mod 256.
Proof.
  unfold byte_of_N. destruct (Byte.of_N (x mod 256)) as [b|] eqn:E.
  - by apply Byte.to_of_N.
  - apply Byte.of_N_None_iff in E. pose proof (N.mod_lt x 256). lia.
Qed.

Lemma byte_of_N_to_N b : byte_of_N (Byte.to_N b) = b.
Proof.
  unfold byte_of_N. rewrite N.mod_small by apply to_N_lt. by rewrite Byte.of_to_N.
Qed.

#[export] Instance to_N_inj : Inj (=) (=) Byte.to_N.
Proof. intros a b H. rewrite <-(byte_of_N_to_N a), <-(byte_of_N_to_N b). by rewrite H. Qed.

#[export] Instance byte_eq_dec : EqDecision byte := Byte.byte_eq_dec.
#[export] Program Instance byte_countable : Countable byte :=
  inj_countable Byte.to_N (fun x => Some (byte_of_N x)) _.
Next Obligation. intros b. cbn. by rewrite byte_of_N_to_N. Qed.

(** ** Integers as bytes *)

Fixpoint le_bytes (n : nat) (x : N) : bytes :=
  match n with
  | O => []
  | S n => byte_of_N x :: le_bytes n (x / 256)
  end.

Fixpoint le_value (l : bytes) : N :=
  match l with
  | [] => 0
  | b :: l => Byte.to_N b + 256 * le_value l
  end.

Definition be_bytes (n : nat) (x : N) : bytes := rev (le_bytes n x).
Definition be_value (l : bytes) : N := le_value (rev l).
#[global] Arguments be_bytes : simpl never.
#[global] Arguments be_value : simpl never.

Lemma length_le_bytes n x : length (le_bytes n x) = n.
Proof. revert x. induction n; intros; cbn; auto. Qed.

Lemma length_be_bytes n x : length (be_bytes n x) = n.
Proof. unfold be_bytes. by rewrite length_rev, length_le_bytes. Qed.

Lemma le_value_bytes n x : le_value (le_bytes n x) = x mod 256 ^ N.of_nat n.
Proof.
  revert x. induction n as [|n IH]; intros x; cbn [le_bytes le_value].
  - by rewrite N.mod_1_r.
  - rewrite IH, to_N_byte_of_N, Nat2N.inj_succ, N.pow_succ_r by lia.
    rewrite (N.Div0.mod_mul_r x 256). lia.
Qed.

Lemma le_bytes_value l : le_bytes (length l) (le_value l) = l.
Proof.
  induction l as [|b l IH]; cbn [le_bytes le_value length]; [done|].
  pose proof (to_N_lt b).
  f_equal.
  - apply to_N_inj. rewrite to_N_byte_of_N, N.mul_comm, N.Div0.mod_add.
    by rewrite N.mod_small.
  - rewrite N.mul_comm, N.div_add, N.div_small by lia. by rewrite N.add_0_l.
Qed.

Lemma le_value_lt l : le_value l < 256 ^ N.of_nat (length l).
Proof.
  rewrite <-(le_bytes_value l) at 1. rewrite le_value_bytes.
  apply N.mod_lt, N.pow_nonzero. lia.
Qed.

Lemma be_value_bytes n x : be_value (be_bytes n x) = x mod 256 ^ N.of_nat n.
Proof. unfold be_value, be_bytes. by rewrite rev_involutive, le_value_bytes. Qed.

Lemma be_bytes_value l : be_bytes (length l) (be_value l) = l.
Proof.
  unfold be_value, be_bytes. rewrite <-length_rev, le_bytes_value. apply rev_involutive.
Qed.

Lemma be_value_lt l : be_value l < 256 ^ N.of_nat (length l).
Proof. unfold be_value. rewrite <-length_rev. apply le_value_lt. Qed.

Lemma be_value_small n x : x < 256 ^ N.of_nat n -> be_value (be_bytes n x) = x.
Proof. intros. by rewrite be_value_bytes, N.mod_small. Qed.

Lemma le_value_small n x : x < 256 ^ N.of_nat n -> le_value (le_bytes n x) = x.
Proof. intros. by rewrite le_value_bytes, N.mod_small. Qed.

Lemma be_value_inj l k : length l = length k -> be_value l = be_value k -> l = k.
Proof. intros Hl Hv. rewrite <-(be_bytes_value l), <-(be_bytes_value k). congruence. Qed.

Lemma be_bytes_inj n x y :
  x < 256 ^ N.of_nat n -> y < 256 ^ N.of_nat n -> be_bytes n x = be_bytes n y -> x = y.
Proof.
  intros Hx Hy H. rewrite <-(be_value_small n x), <-(be_value_small n y) by done. by rewrite H.
Qed.

(** ** Fixed-size arrays *)

Record array (n : nat) : Type := Array {
  arr_bytes : bytes;
  arr_len : (length arr_bytes =? n)%nat = true
}.
Arguments Array {n} _ _.
Arguments arr_bytes {n} _.
Arguments arr_len {n} _.

Lemma arr_length {n} (a : array n) : length (arr_bytes a) = n.
Proof. apply Nat.eqb_eq, arr_len. Qed.

Lemma arr_ext {n} (a b : array n) : arr_bytes a = arr_bytes b -> a = b.
Proof.
  destruct a as [l Hl], b as [k Hk]; cbn. intros ->. f_equal. apply UIP_dec, bool_dec.
Qed.

#[export] Instance arr_bytes_inj {n} : Inj (=) (=) (@arr_bytes n).
Proof. intros a b. apply arr_ext. Qed.

#[export] Instance array_eq_dec {n} : EqDecision (array n).
Proof.
  refine (fun a b => cast_if (decide (arr_bytes a = arr_bytes b))).
  - abstract by apply arr_ext.
  - abstract (intros ->; done).
Defined.

(** [slice.try_into()] *)
Definition arr_of {n} (l : bytes) : option (array n) :=
  match (length l =? n)%nat as b return (length l =? n)%nat = b -> option (array n) with
  | true => fun H => Some (Array l H)
  | false => fun _ => None
  end eq_refl.

Lemma arr_of_Some {n} (l : bytes) (a : array n) : arr_of l = Some a <-> arr_bytes a = l.
Proof.
  assert (Hgen : forall b (H : (length l =? n)%nat = b),
    (match b as b return (length l =? n)%nat = b -> option (array n) with
     | true => fun H => Some (Array l H) | false => fun _ => None end) H = Some a
    <-> arr_bytes a = l).
  { intros [] H; split.
    - intros [=<-]. done.
    - intros Ha. f_equal. by apply arr_ext.
    - done.
    - intros <-. by rewrite (arr_len a) in H. }
  apply Hgen.
Qed.

Lemma arr_of_arr_bytes {n} (a : array n) : arr_of (arr_bytes a) = Some a.
Proof. by apply arr_of_Some. Qed.

Lemma arr_of_is_Some {n} (l : bytes) : length l = n -> is_Some (arr_of (n := n) l).
Proof.
  intros H. exists (Array l (proj2 (Nat.eqb_eq _ _) H)). by apply arr_of_Some.
Qed.

Lemma arr_of_None {n} (l : bytes) : length l <> n -> arr_of (n := n) l = None.
Proof.
  intros H. destruct (arr_of l) as [a|] eqn:E; [|done].
  apply arr_of_Some in E. subst. by rewrite arr_length in H.
Qed.

#[export] Program Instance array_countable {n} : Countable (array n) :=
  inj_countable arr_bytes arr_of _.
Next Obligation. intros. apply arr_of_arr_bytes. Qed.

(** [x.to_be_bytes()] as an array; the width is part of the type. *)
Definition be_array (n : nat) (x : N) : array n :=
  Array (be_bytes n x) (proj2 (Nat.eqb_eq _ _) (length_be_bytes n x)).

Definition zero_array (n : nat) : array n := be_array n 0.

Lemma arr_value_lt {n} (a : array n) : be_value (arr_bytes a) < 256 ^ N.of_nat n.
Proof. rewrite <-(arr_length a) at 2. apply be_value_lt. Qed.

(** ** Slices *)

(** [bytes[off..off + n].to_vec()] *)
Definition slice {E} (l : bytes) (off n : nat) : res E bytes :=
  if (off + n <=? length l)%nat then Ok (take n (drop off l)) else Panic.

(** [bytes[off..off + n].try_into().unwrap()] *)
Definition slice_array {E} (n : nat) (l : bytes) (off : nat) : res E (array n) :=
  s ← slice l off n; expect (arr_of s).

(** [uN::from_be_bytes(bytes[off..off + n].try_into().unwrap())] *)
Definition slice_be {E} (n : nat) (l : bytes) (off : nat) : res E N :=
  s ← slice l off n; mret (be_value s).

Lemma length_slice_take (l : bytes) off n :
  (off + n <= length l)%nat -> length (take n (drop off l)) = n.
Proof. intros. rewrite length_take, length_drop. lia. Qed.

Lemma slice_in {E} l off n :
  (off + n <= length l)%nat -> slice (E := E) l off n = Ok (take n (drop off l)).
Proof. intros H. unfold slice. by rewrite (proj2 (Nat.leb_le _ _) H). Qed.

Lemma slice_array_in {E} n l off :
  (off + n <= length l)%nat ->
  exists a : array n, slice_array (E := E) n l off = Ok a /\ arr_bytes a = take n (drop off l).
Proof.
  intros H. unfold slice_array. rewrite slice_in by done. cbn.
  destruct (arr_of_is_Some (take n (drop off l)) (length_slice_take _ _ _ H)) as [a Ha].
  exists a. rewrite Ha. split; [done|]. by apply arr_of_Some.
Qed.

Lemma slice_be_in {E} n l off :
  (off + n <= length l)%nat ->
  slice_be (E := E) n l off = Ok (be_value (take n (drop off l))).
Proof. intros H. unfold slice_be. by rewrite slice_in. Qed.

(** Reading back one field of a concatenation: [pre] is what precedes it. *)
Lemma slice_app {E} (pre mid post : bytes) off n :
  off = length pre -> n = length mid ->
  slice (E := E) (pre ++ mid ++ post) off n = Ok mid.
Proof.
  intros -> ->. rewrite slice_in by (rewrite !length_app; lia).
  by rewrite drop_app_length, take_app_length.
Qed.

Lemma slice_array_app {E} n (pre post : bytes) (a : array n) off :
  off = length pre ->
  slice_array (E := E) n (pre ++ arr_bytes a ++ post) off = Ok a.
Proof.
  intros ->. unfold slice_array. rewrite slice_app by (rewrite ?arr_length; done). cbn.
  by rewrite arr_of_arr_bytes.
Qed.

Lemma slice_be_app {E} n (pre post : bytes) x off :
  off = length pre -> x < 256 ^ N.of_nat n ->
  slice_be (E := E) n (pre ++ be_bytes n x ++ post) off = Ok x.
Proof.
  intros -> Hx. unfold slice_be. rewrite slice_app by (rewrite ?length_be_bytes; done). cbn.
  by rewrite be_value_small.
Qed.

(** ** Reading with a cursor

    The field at [off] is what the bytes from [off] on start with. *)
Section cursor.
Context {E : Type}.
Implicit Types (l rest : bytes) (off n : nat).

Lemma drop_cons_le l off n (mid rest : bytes) :
  drop off l = mid ++ rest -> length mid = n -> (0 < n)%nat -> (off + n <= length l)%nat.
Proof.
  intros H Hn Hpos. pose proof (f_equal length H) as Hl. rewrite length_drop, length_app in Hl. lia.
Qed.

Lemma cursor_next l off n (mid rest : bytes) :
  drop off l = mid ++ rest -> length mid = n -> drop (off + n) l = rest.
Proof. intros H <-. by rewrite <-drop_drop, H, drop_app_length. Qed.

Lemma slice_cursor l off n (mid rest : bytes) :
  drop off l = mid ++ rest -> length mid = n -> (off <= length l)%nat ->
  slice (E := E) l off n = Ok mid /\ drop (off + n) l = rest.
Proof.
  intros H Hn Hoff. split; [|by eapply cursor_next].
  pose proof (f_equal length H) as Hl. rewrite length_drop, length_app in Hl.
  rewrite slice_in by lia. rewrite H, <-Hn. by rewrite take_app_length.
Qed.

Lemma slice_be_cursor l off n x rest :
  drop off l = be_bytes n x ++ rest -> x < 256 ^ N.of_nat n -> (0 < n)%nat ->
  slice_be (E := E) n l off = Ok x /\ drop (off + n) l = rest.
Proof.
  intros H Hx Hn. pose proof (drop_cons_le l off n _ _ H (length_be_bytes n x) Hn).
  destruct (slice_cursor l off n _ _ H (length_be_bytes n x)) as [Hs Hd]; [lia|].
  split; [|done]. unfold slice_be. rewrite Hs. cbn. by rewrite be_value_small.
Qed.

Lemma slice_array_cursor n l off (a : array n) rest :
  drop off l = arr_bytes a ++ rest -> (0 < n)%nat ->
  slice_array (E := E) n l off = Ok a /\ drop (off + n) l = rest.
Proof.
  intros H Hn. pose proof (drop_cons_le l off n _ _ H (arr_length a) Hn).
  destruct (slice_cursor l off n _ _ H (arr_length a)) as [Hs Hd]; [lia|].
  split; [|done]. unfold slice_array. rewrite Hs. cbn. by rewrite arr_of_arr_bytes.
Qed.

Lemma slice_Ok l off n s :
  slice (E := E) l off n = Ok s ->
  drop off l = s ++ drop (off + n) l /\ length s = n /\ (off + n <= length l)%nat.
Proof.
  unfold slice. destruct (Nat.leb_spec (off + n) (length l)); [|done]. intros [= <-].
  split_and!; [|by apply length_slice_take|done].
  rewrite <-drop_drop. by rewrite take_drop.
Qed.

Lemma slice_be_Ok n l off x :
  slice_be (E := E) n l off = Ok x ->
  drop off l = be_bytes n x ++ drop (off + n) l /\ x < 256 ^ N.of_nat n.
Proof.
  unfold slice_be. intros (s & Hs & [= <-])%bind_Ok. apply slice_Ok in Hs as (Hd & <- & _).
  split; [|apply be_value_lt]. by rewrite be_bytes_value.
Qed.

Lemma slice_array_Ok n l off (a : array n) :
  slice_array (E := E) n l off = Ok a -> drop off l = arr_bytes a ++ drop (off + n) l.
Proof.
  unfold slice_array. intros (s & Hs & Ha%expect_Ok)%bind_Ok. apply arr_of_Some in Ha as ->.
  by apply slice_Ok in Hs as (Hd & _).
Qed.

Lemma slice_fits l off n : (off + n <= length l)%nat -> slice (E := E) l off n <> Panic.
Proof. intros. by rewrite slice_in. Qed.

Lemma slice_be_fits n l off : (off + n <= length l)%nat -> slice_be (E := E) n l off <> Panic.
Proof. intros. by rewrite slice_be_in. Qed.

Lemma slice_array_fits n l off :
  (off + n <= length l)%nat -> slice_array (E := E) n l off <> Panic.
Proof. intros H. by destruct (slice_array_in (E := E) n l off H) as (a & -> & _). Qed.
End cursor.

#[export] Hint Rewrite @length_le_bytes @length_be_bytes @arr_length @length_app @length_take
  @length_drop : len.

(** ** UTF-8

    A Rust [String] is a byte string in UTF-8; [utf8_valid] is the check the standard
    library makes: well-formed sequences, no overlong forms, no surrogates, nothing
    above U+10FFFF. *)
Definition in_range (lo hi : N) (b : byte) : bool := (lo <=? Byte.to_N b) && (Byte.to_N b <=? hi).

Abbreviation continuation := (in_range 128 191).

Fixpoint utf8_valid (s : bytes) : bool :=
  match s with
  | [] => true
  | a :: s =>
      if in_range 0 127 a then utf8_valid s
      else if in_range 194 223 a then
        match s with
        | b :: s => continuation b && utf8_valid s
        | _ => false
        end
      else if in_range 224 239 a then
        match s with
        | b :: c :: s =>
            (if in_range 224 224 a then in_range 160 191 b
             else if in_range 237 237 a then in_range 128 159 b
             else continuation b) && continuation c && utf8_valid s
        | _ => false
        end
      else if in_range 240 244 a then
        match s with
        | b :: c :: d :: s =>
            (if in_range 240 240 a then in_range 144 191 b
             else if in_range 244 244 a then in_range 128 143 b
             else continuation b) && continuation c && continuation d && utf8_valid s
        | _ => false
        end
      else false
  end.

(** ASCII is UTF-8. *)
Lemma utf8_ascii s : Forall (fun b => Byte.to_N b < 128) s -> utf8_valid s = true.
Proof.
  induction 1 as [|b s Hb _ IH]; [done|]. cbn [utf8_valid]. unfold in_range at 1.
  rewrite (proj2 (N.leb_le 0 _)), (proj2 (N.leb_le _ 127)) by lia. done.
Qed.

(** ** Text

    A Rust string is its bytes.  [format!("{:x}", n)] and [to_string] are [to_radix],
    [u64::from_str_radix] is [from_str_radix]; the crate [hex] is third-party. *)
Abbreviation text := bytes.
Definition str (s : string) : text := String.list_byte_of_string s.

Class HexCrate := {
  hex_encode : bytes -> bytes;
  hex_decode : bytes -> option bytes
}.

(** The digits [0-9a-f], as one character does. *)
Definition radix_digit (d : N) : byte := byte_of_N (if d <? 10 then 48 + d else 87 + d).

Fixpoint to_radix_loop (radix : N) (fuel : nat) (n : N) (acc : bytes) : bytes :=
  match fuel with
  | O => acc
  | S fuel =>
      let acc := radix_digit (n mod radix) :: acc in
      if n / radix =? 0 then acc else to_radix_loop radix fuel (n / radix) acc
  end.

(** A number has at most as many digits as it has bits. *)
Definition to_radix (radix n : N) : bytes := to_radix_loop radix (S (N.to_nat (N.log2 n))) n [].

Definition to_digit (radix : N) (c : byte) : option N :=
  let n := Byte.to_N c in
  let d := if (48 <=? n) && (n <=? 57) then n - 48
           else if (65 <=? n) && (n <=? 90) then n - 55
           else if (97 <=? n) && (n <=? 122) then n - 87
           else radix in
  if d <? radix then Some d else None.

(** Each digit is added with overflow checks. *)
Fixpoint parse_digits (radix acc : N) (s : bytes) : option N :=
  match s with
  | [] => Some acc
  | c :: s =>
      d ← to_digit radix c;
      let acc := acc * radix + d in
      if u64_mod <=? acc then None else parse_digits radix acc s
  end.

(** A sign [+] is allowed before at least one digit. *)
Definition from_str_radix (radix : N) (s : bytes) : option N :=
  match s with
  | [] => None
  | c :: rest =>
      if bool_decide (c = x2b) then if bool_decide (rest = []) then None else parse_digits radix 0 rest
      else parse_digits radix 0 s
  end.

(** [strip_prefix("0x")] *)
Definition strip_0x (s : bytes) : option bytes :=
  match s with x30 :: x78 :: s => Some s | _ => None end.

(** [s.strip_prefix("0x").unwrap_or(s)] *)
Definition strip_or (s : text) : text := default s (strip_0x s).

(** [trim_start_matches("0x")] strips the prefix as often as it is there. *)
Fixpoint trim_0x (s : bytes) : bytes :=
  match s with
  | x30 :: x78 :: s' => trim_0x s'
  | _ => s
  end.

Definition prefix_0x (s : bytes) : bytes := x30 :: x78 :: s.

Definition lower (c : byte) : byte :=
  if (65 <=? Byte.to_N c) && (Byte.to_N c <=? 90) then byte_of_N (Byte.to_N c + 32) else c.

(** The ASCII [to_lowercase], which agrees with the Unicode one on hexadecimal text. *)
Definition to_lowercase (s : bytes) : bytes := lower <$> s.

(** What is assumed of the crate: lower-case digits, two for each byte, that read back in
    either case. *)
Class HexLaws (C : HexCrate) : Prop := {
  hex_roundtrip : forall b, hex_decode (hex_encode b) = Some b;
  hex_decode_lower : forall s, hex_decode (to_lowercase s) = hex_decode s;
  hex_digits : forall b, Forall (fun c => 48 <= Byte.to_N c <= 57 \/ 97 <= Byte.to_N c <= 102) (hex_encode b);
  hex_length : forall b, length (hex_encode b) = (2 * length b)%nat
}.

Lemma to_digit_radix radix d : radix <= 16 -> d < radix -> to_digit radix (radix_digit d) = Some d.
Proof.
  intros Hr Hd. assert (d < 16) as H16 by lia. unfold to_digit.
  assert (Byte.to_N (radix_digit d) = if d <? 10 then 48 + d else 87 + d) as ->.
  { unfold radix_digit. rewrite to_N_byte_of_N. apply N.mod_small. destruct (N.ltb_spec d 10); lia. }
  destruct (N.ltb_spec d 10).
  - rewrite (proj2 (N.leb_le 48 (48 + d))), (proj2 (N.leb_le (48 + d) 57)) by lia. cbn [andb].
    replace (48 + d - 48) with d by lia. by rewrite (proj2 (N.ltb_lt _ _)).
  - rewrite (proj2 (N.leb_gt (87 + d) 57)) by lia. rewrite andb_false_r.
    rewrite (proj2 (N.leb_gt (87 + d) 90)) by lia. rewrite andb_false_r.
    rewrite (proj2 (N.leb_le 97 (87 + d))), (proj2 (N.leb_le (87 + d) 122)) by lia. cbn [andb].
    replace (87 + d - 87) with d by lia. by rewrite (proj2 (N.ltb_lt _ _)).
Qed.

Lemma parse_to_radix_loop radix fuel : forall n acc,
  2 <= radix <= 16 -> n < u64_mod -> n < 2 ^ N.of_nat fuel ->
  (0 < fuel)%nat -> parse_digits radix 0 (to_radix_loop radix fuel n acc) = parse_digits radix n acc.
Proof.
  induction fuel as [|fuel IH]; intros n acc Hr Hn Hf Hpos; [lia|]. cbn [to_radix_loop].
  assert (n mod radix < radix) as Hd by (apply N.mod_lt; lia).
  pose proof (N.div_mod n radix ltac:(lia)) as Hdm.
  assert (n / radix <= n / 2) as Hhalf by (apply N.div_le_compat_l; lia).
  assert (n / 2 < 2 ^ N.of_nat fuel) as Hlt.
  { apply N.Div0.div_lt_upper_bound. rewrite Nat2N.inj_succ, N.pow_succ_r' in Hf. lia. }
  assert (forall m s, m < u64_mod -> m = n / radix ->
    parse_digits radix m (radix_digit (n mod radix) :: s) = parse_digits radix n s) as Hstep.
  { intros m s _ ->. cbn [parse_digits]. rewrite to_digit_radix by lia. cbn [mbind option_bind].
    replace (n / radix * radix + n mod radix) with n by lia. by rewrite (proj2 (N.leb_gt _ _)). }
  assert (n / radix <= n) by (apply N.Div0.div_le_upper_bound; nia).
  destruct (N.eqb_spec (n / radix) 0) as [E|E].
  - apply Hstep; lia.
  - destruct fuel as [|fuel].
    { change (2 ^ N.of_nat 0) with 1 in Hlt. exfalso. revert E Hhalf Hlt. generalize (n / radix), (n / 2). lia. }
    rewrite IH; [apply Hstep; lia|done|lia| |lia].
    by apply (N.le_lt_trans _ (n / 2)).
Qed.

Lemma radix_digit_sign d : d < 16 -> radix_digit d <> x2b.
Proof.
  intros Hd Heq. apply (f_equal Byte.to_N) in Heq. unfold radix_digit in Heq.
  rewrite to_N_byte_of_N in Heq. change (Byte.to_N x2b) with 43 in Heq.
  destruct (N.ltb_spec d 10); rewrite N.mod_small in Heq; lia.
Qed.

Lemma to_radix_loop_head radix fuel : forall n acc, 2 <= radix <= 16 -> (0 < fuel)%nat ->
  exists d s, d < 16 /\ to_radix_loop radix fuel n acc = radix_digit d :: s.
Proof.
  induction fuel as [|fuel IH]; intros n acc Hr Hpos; [lia|]. cbn [to_radix_loop].
  assert (n mod radix < radix) by (apply N.mod_lt; lia).
  destruct (n / radix =? 0); [by exists (n mod radix), acc; split; [lia|]|].
  destruct fuel as [|fuel]; [by exists (n mod radix), acc; split; [lia|]|]. apply IH; lia.
Qed.

(** What was formatted parses back. *)
Lemma from_str_to_radix radix n : 2 <= radix <= 16 -> n < u64_mod ->
  from_str_radix radix (to_radix radix n) = Some n.
Proof.
  intros Hr Hn. unfold to_radix.
  assert (n < 2 ^ N.of_nat (S (N.to_nat (N.log2 n)))) as Hb.
  { rewrite Nat2N.inj_succ, N2Nat.id. destruct (decide (n = 0)) as [->|]; [done|].
    apply N.log2_spec. lia. }
  pose proof (parse_to_radix_loop radix (S (N.to_nat (N.log2 n))) n [] Hr Hn Hb ltac:(lia)) as Hp.
  destruct (to_radix_loop_head radix (S (N.to_nat (N.log2 n))) n [] Hr ltac:(lia)) as (d & s & Hd & E).
  rewrite E in *. unfold from_str_radix. rewrite bool_decide_eq_false_2 by (by apply radix_digit_sign).
  exact Hp.
Qed.

(** Encoded text is lower case and has no prefix to trim. *)
Section hex_text.
Context `{X : HexCrate} `{!HexLaws X}.

Lemma lower_hex b : to_lowercase (hex_encode b) = hex_encode b.
Proof.
  unfold to_lowercase. rewrite <-(list_fmap_id (hex_encode b)) at 2. apply list_fmap_ext.
  intros i c Hc. pose proof (hex_digits b) as Hall. rewrite Forall_lookup in Hall.
  specialize (Hall i c Hc). unfold lower.
  destruct (N.leb_spec 65 (Byte.to_N c)), (N.leb_spec (Byte.to_N c) 90); cbn; try done. lia.
Qed.

Lemma trim_hex b : trim_0x (hex_encode b) = hex_encode b.
Proof.
  pose proof (hex_digits b) as Hall. destruct (hex_encode b) as [|c [|c' s]] eqn:E; [done|by destruct c|].
  apply Forall_cons in Hall as [_ [Hc' _]%Forall_cons].
  cbn [trim_0x]. destruct c; try done. destruct c'; try done. exfalso. cbn in Hc'. lia.
Qed.

(** [format!("0x{}", hex::encode(b))] *)
Definition hex_bytes (b : bytes) : text := prefix_0x (hex_encode b).

Lemma strip_hex_bytes b : strip_or (hex_bytes b) = hex_encode b.
Proof. done. Qed.

Lemma trim_hex_bytes b : trim_0x (hex_bytes b) = hex_encode b.
Proof. unfold hex_bytes, prefix_0x. cbn [trim_0x]. apply trim_hex. Qed.
End hex_text.

(** *** A codec that has the laws *)
Module ToyHex.
Definition nibble (c : byte) : option N :=
  let n := Byte.to_N c in
  if (48 <=? n) && (n <=? 57) then Some (n - 48)
  else if (65 <=? n) && (n <=? 70) then Some (n - 55)
  else if (97 <=? n) && (n <=? 102) then Some (n - 87)
  else None.

Fixpoint to_hex (b : bytes) : bytes :=
  match b with
  | [] => []
  | c :: b => radix_digit (Byte.to_N c / 16) :: radix_digit (Byte.to_N c mod 16) :: to_hex b
  end.

Fixpoint of_hex (s : bytes) : option bytes :=
  match s with
  | [] => Some []
  | h :: l :: s => h ← nibble h; l ← nibble l; b ← of_hex s; Some (byte_of_N (16 * h + l) :: b)
  | _ => None
  end.

Lemma nibble_digits c :
  (h ← nibble (radix_digit (Byte.to_N c / 16)); l ← nibble (radix_digit (Byte.to_N c mod 16)); Some (byte_of_N (16 * h + l)))
    = Some c.
Proof. destruct c; reflexivity. Qed.

Lemma of_to_hex b : of_hex (to_hex b) = Some b.
Proof.
  induction b as [|c b IH]; [done|]. cbn [to_hex of_hex]. pose proof (nibble_digits c) as Hc.
  destruct (nibble (radix_digit (Byte.to_N c / 16))) as [h|]; cbn in *; [|done].
  destruct (nibble (radix_digit (Byte.to_N c mod 16))) as [l|]; cbn in *; [|done].
  rewrite IH. cbn. congruence.
Qed.

Lemma nibble_lower c : nibble (lower c) = nibble c.
Proof. destruct c; reflexivity. Qed.

Lemma of_hex_lower_aux n : forall s, (length s <= n)%nat -> of_hex (to_lowercase s) = of_hex s.
Proof.
  induction n as [|n IH]; intros [|h [|l s]] Hlen; cbn [length] in Hlen; try lia; try done.
  change (to_lowercase (h :: l :: s)) with (lower h :: lower l :: to_lowercase s). cbn [of_hex].
  rewrite !nibble_lower, IH by lia. done.
Qed.

Lemma digit_range n : n < 16 -> 48 <= Byte.to_N (radix_digit n) <= 57 \/ 97 <= Byte.to_N (radix_digit n) <= 102.
Proof.
  intros Hn. unfold radix_digit. destruct (N.ltb_spec n 10); rewrite to_N_byte_of_N, N.mod_small by lia; lia.
Qed.

#[export] Instance hex : HexCrate := {| hex_encode := to_hex; hex_decode := of_hex |}.

#[export] Instance hex_laws : HexLaws hex.
Proof.
  split; cbn.
  - apply of_to_hex.
  - intros s. by eapply of_hex_lower_aux.
  - intros b. induction b as [|c b IH]; [constructor|]. cbn [to_hex].
    pose proof (to_N_lt c). repeat (constructor; [apply digit_range; div_lia|]). done.
  - intros b. induction b as [|c b IH]; [done|]. cbn [to_hex length]. rewrite IH. lia.
Qed.
End ToyHex.
