(* ===== verification/Crypto.v ===== *)
(** * Crypto: the signature, VRF and hash functions the protocol calls

    [src/crates/aii-crypto] wraps three third-party crates: [blst] (BLS12-381),
    [schnorrkel] with [merlin] transcripts (VRF) and [tiny-keccak].  Those are
    the fields of the class [Primitives]; the wrappers of [bls.rs], [vrf.rs] and
    [keccak.rs] (input checks, error mapping) are definitions over them.  The
    documented behaviour the protocol relies on is the class [PrimitiveLaws].
    [Toy] instantiates both with concrete functions, so that every theorem that
    assumes the laws can be evaluated. *)
From stdpp Require Import base tactics numbers strings list.
From Stdlib Require Import NArith Lia.
From S2P Require Import Prelude Bytes.

Abbreviation H256 := (array 32).
Abbreviation Address := (array 20).

(** [vrf.rs]: the 96-byte wire form of a VRF proof. *)
Record VrfProof := mkVrfProof { pre_output : array 32; proof : array 64 }.

#[export] Instance VrfProof_eq_dec : EqDecision VrfProof.
Proof. solve_decision. Defined.

(** [error.rs] *)
Inductive CryptoError :=
| InvalidEncoding (what : string)
| BadSignature
| HexError (what : string)
| BadLength (expected got : N)
| Ed25519Error (what : string).

(** The functions of [blst], [schnorrkel]/[merlin] and [tiny-keccak]. *)
Class Primitives := {
  bls_pk : Type;
  bls_sk : Type;
  bls_sig : Type;
  blst_sk_to_pk : bls_sk -> bls_pk;
  blst_sign : bls_sk -> bytes -> bls_sig;
  blst_verify : bls_sig -> bytes -> bls_pk -> bool;
  blst_aggregate : list bls_sig -> option bls_sig;
  blst_fast_aggregate_verify : bls_sig -> bytes -> list bls_pk -> bool;
  (** the sum of the keys is the point at infinity, which [blst] rejects *)
  blst_pks_cancel : list bls_pk -> bool;
  blst_pk_compress : bls_pk -> array 48;
  blst_pk_from_bytes : array 48 -> option bls_pk;
  blst_sig_compress : bls_sig -> array 96;
  blst_sig_from_bytes : array 96 -> option bls_sig;

  vrf_pk : Type;
  vrf_sk : Type;
  sr_preout : Type;
  sr_proof : Type;
  sr_inout : Type;
  merlin_transcript : Type;
  merlin_input : bytes -> merlin_transcript;
  sr_to_public : vrf_sk -> vrf_pk;
  sr_vrf_sign : vrf_sk -> merlin_transcript -> sr_inout * sr_proof;
  sr_vrf_verify : vrf_pk -> merlin_transcript -> sr_preout -> sr_proof -> option sr_inout;
  sr_output : sr_inout -> sr_preout;
  sr_make_bytes : sr_inout -> array 32;
  sr_preout_to_bytes : sr_preout -> array 32;
  sr_preout_from_bytes : array 32 -> option sr_preout;
  sr_proof_to_bytes : sr_proof -> array 64;
  sr_proof_from_bytes : array 64 -> option sr_proof;
  sr_pk_from_bytes : array 32 -> option vrf_pk;

  tiny_keccak : bytes -> array 32;

  #[global] bls_pk_eq_dec :: EqDecision bls_pk;
  #[global] bls_sig_eq_dec :: EqDecision bls_sig
}.

(** ** [keccak.rs] *)
Definition keccak256 `{Primitives} (input : bytes) : H256 := tiny_keccak input.

(** ** [bls.rs] *)
Module bls.
Section bls.
Context `{Primitives}.

Definition public_key (sk : bls_sk) : bls_pk := blst_sk_to_pk sk.
Definition sign (sk : bls_sk) (msg : bytes) : bls_sig := blst_sign sk msg.

Definition PublicKey_from_compressed (b : array 48) : res CryptoError bls_pk :=
  ok_or (blst_pk_from_bytes b) (InvalidEncoding "BLS pubkey decompression failed").
Definition PublicKey_to_compressed (pk : bls_pk) : array 48 := blst_pk_compress pk.
Definition Signature_from_compressed (b : array 96) : res CryptoError bls_sig :=
  ok_or (blst_sig_from_bytes b) (InvalidEncoding "BLS signature decompression failed").
Definition Signature_to_compressed (s : bls_sig) : array 96 := blst_sig_compress s.

Definition verify (s : bls_sig) (msg : bytes) (pk : bls_pk) : res CryptoError unit :=
  if blst_verify s msg pk then Ok tt else Err BadSignature.

Definition aggregate_signatures (sigs : list bls_sig) : res CryptoError bls_sig :=
  match sigs with
  | [] => Err (InvalidEncoding "BLS aggregate requires at least one signature")
  | _ => ok_or (blst_aggregate sigs) BadSignature
  end.

Definition fast_aggregate_verify (agg : bls_sig) (msg : bytes) (pks : list bls_pk)
    : res CryptoError unit :=
  match pks with
  | [] => Err (InvalidEncoding "fast_aggregate_verify requires at least one pubkey")
  | _ => if blst_fast_aggregate_verify agg msg pks then Ok tt else Err BadSignature
  end.
End bls.
End bls.

(** ** [vrf.rs] *)
Module vrf.
Section vrf.
Context `{Primitives}.

Definition decoding_failed : CryptoError := InvalidEncoding "schnorrkel VRF decoding failed".

Definition PublicKey_from_bytes (b : array 32) : res CryptoError vrf_pk :=
  ok_or (sr_pk_from_bytes b) decoding_failed.

Definition prove (sk : vrf_sk) (input : bytes) : VrfProof * array 32 :=
  let '(io, p) := sr_vrf_sign sk (merlin_input input) in
  (mkVrfProof (sr_preout_to_bytes (sr_output io)) (sr_proof_to_bytes p), sr_make_bytes io).

Definition verify (pk : vrf_pk) (input : bytes) (pf : VrfProof) : res CryptoError (array 32) :=
  pre_out ← ok_or (sr_preout_from_bytes (pre_output pf)) decoding_failed;
  p ← ok_or (sr_proof_from_bytes (proof pf)) decoding_failed;
  io ← ok_or (sr_vrf_verify pk (merlin_input input) pre_out p) BadSignature;
  mret (sr_make_bytes io).
End vrf.
End vrf.

(** ** What the protocol relies on *)
Class PrimitiveLaws (P : Primitives) : Prop := {
  (** a signature verifies under the signer's public key *)
  blst_sign_verify : forall sk msg, blst_verify (blst_sign sk msg) msg (blst_sk_to_pk sk) = true;
  (** aggregation fails only on an encoding that is not a group element *)
  blst_aggregate_ok : forall sigs, sigs <> [] ->
    Forall (fun s => exists msg pk, blst_verify s msg pk = true) sigs ->
    is_Some (blst_aggregate sigs);
  (** signatures over one message aggregate to a signature of all the keys *)
  blst_aggregate_verifies : forall sigs pks msg agg,
    Forall2 (fun s pk => blst_verify s msg pk = true) sigs pks ->
    blst_aggregate sigs = Some agg -> blst_pks_cancel pks = false ->
    blst_fast_aggregate_verify agg msg pks = true;
  (** keys are summed: their order does not matter *)
  blst_fast_aggregate_perm : forall s msg pks pks', pks ≡ₚ pks' ->
    blst_fast_aggregate_verify s msg pks = blst_fast_aggregate_verify s msg pks';
  blst_pks_cancel_perm : forall pks pks', pks ≡ₚ pks' -> blst_pks_cancel pks = blst_pks_cancel pks';
  blst_sig_roundtrip : forall s, blst_sig_from_bytes (blst_sig_compress s) = Some s;
  (** the public key of a secret key decodes from its compressed form *)
  blst_pk_roundtrip : forall sk,
    blst_pk_from_bytes (blst_pk_compress (blst_sk_to_pk sk)) = Some (blst_sk_to_pk sk);
  (** an honest VRF proof verifies and yields the prover's output *)
  sr_vrf_complete : forall sk t io p, sr_vrf_sign sk t = (io, p) ->
    exists io', sr_vrf_verify (sr_to_public sk) t (sr_output io) p = Some io' /\
      sr_make_bytes io' = sr_make_bytes io;
  sr_preout_roundtrip : forall o, sr_preout_from_bytes (sr_preout_to_bytes o) = Some o;
  sr_proof_roundtrip : forall p, sr_proof_from_bytes (sr_proof_to_bytes p) = Some p
}.

Section wrappers.
Context `{HL : PrimitiveLaws}.

Lemma vrf_prove_verify sk input :
  vrf.verify (sr_to_public sk) input (vrf.prove sk input).1 = Ok (vrf.prove sk input).2.
Proof.
  unfold vrf.verify, vrf.prove. destruct (sr_vrf_sign sk (merlin_input input)) as [io p] eqn:E.
  cbn. rewrite sr_preout_roundtrip, sr_proof_roundtrip. cbn.
  by destruct (sr_vrf_complete _ _ _ _ E) as (io' & -> & <-).
Qed.

Lemma bls_sign_verify sk msg : bls.verify (bls.sign sk msg) msg (bls.public_key sk) = Ok tt.
Proof. unfold bls.verify, bls.sign, bls.public_key. by rewrite blst_sign_verify. Qed.

Lemma bls_verify_Ok s msg pk u : bls.verify s msg pk = Ok u <-> blst_verify s msg pk = true.
Proof. unfold bls.verify. destruct u, (blst_verify s msg pk); naive_solver. Qed.

Lemma bls_aggregate_Ok sigs agg :
  bls.aggregate_signatures sigs = Ok agg <-> sigs <> [] /\ blst_aggregate sigs = Some agg.
Proof. destruct sigs; cbn; [naive_solver|]. rewrite ok_or_Ok. naive_solver. Qed.

Lemma bls_fast_aggregate_Ok s msg pks u :
  bls.fast_aggregate_verify s msg pks = Ok u <->
  pks <> [] /\ blst_fast_aggregate_verify s msg pks = true.
Proof.
  destruct u, pks as [|pk pks]; cbn [bls.fast_aggregate_verify]; [naive_solver|].
  destruct (blst_fast_aggregate_verify s msg (pk :: pks)); naive_solver.
Qed.
End wrappers.

(** ** A concrete instance

    A linear scheme: a key is a number, a signature the product of the key with
    the message read as a number, aggregation is addition.  It has the algebra
    of BLS and none of its security, which is enough to run the protocol. *)
Module Toy.
Definition M : N := 256 ^ 96.
Definition msg_value (m : bytes) : N := be_value m + 1.

Definition sum (l : list N) : N := foldr N.add 0 l.

Definition pk_value (pk : array 48) : N := be_value (arr_bytes pk).
Definition sig_of (k : N) (m : bytes) : array 96 := be_array 96 (k * msg_value m).

Definition digest (m : bytes) : array 32 := be_array 32 (be_value m mod (2 ^ 256 - 189)).
Definition vrf_out (pk : array 32) (t : bytes) : array 32 :=
  be_array 32 (be_value (arr_bytes pk) + be_value t).

#[export] Instance prims : Primitives := {|
  bls_pk := array 48; bls_sk := array 48; bls_sig := array 96;
  blst_sk_to_pk sk := sk;
  blst_sign sk m := sig_of (pk_value sk) m;
  blst_verify s m pk := bool_decide (s = sig_of (pk_value pk) m);
  blst_aggregate l := Some (be_array 96 (sum (map (fun s => be_value (arr_bytes s)) l)));
  blst_fast_aggregate_verify s m pks := bool_decide (s = sig_of (sum (map pk_value pks)) m);
  blst_pks_cancel _ := false;
  blst_pk_compress pk := pk; blst_pk_from_bytes := Some;
  blst_sig_compress s := s; blst_sig_from_bytes := Some;
  vrf_pk := array 32; vrf_sk := array 32;
  sr_preout := array 32; sr_proof := array 64; sr_inout := array 32;
  merlin_transcript := bytes; merlin_input m := m;
  sr_to_public sk := sk;
  sr_vrf_sign sk t := (vrf_out sk t, zero_array 64);
  sr_vrf_verify pk t o p := if bool_decide (o = vrf_out pk t) then Some o else None;
  sr_output io := io; sr_make_bytes io := io;
  sr_preout_to_bytes o := o; sr_preout_from_bytes := Some;
  sr_proof_to_bytes p := p; sr_proof_from_bytes := Some;
  sr_pk_from_bytes := Some;
  tiny_keccak := digest;
|}.

Lemma be_array_ext n x y :
  x mod 256 ^ N.of_nat n = y mod 256 ^ N.of_nat n -> be_array n x = be_array n y.
Proof.
  intros H. apply arr_ext. cbn. apply be_value_inj; [by rewrite !length_be_bytes|].
  by rewrite !be_value_bytes.
Qed.

Lemma sum_perm l k : l ≡ₚ k -> sum l = sum k.
Proof. unfold sum. induction 1; cbn; lia. Qed.

Lemma aggregate_sum (sigs : list (array 96)) pks m :
  Forall2 (fun s pk => bool_decide (s = sig_of (pk_value pk) m) = true) sigs pks ->
  sum (map (fun s => be_value (arr_bytes s)) sigs) mod M = (sum (map pk_value pks) * msg_value m) mod M.
Proof.
  assert (HM : M <> 0) by (by vm_compute).
  induction 1 as [|s pk sigs pks Hs _ IH]; [done|].
  apply bool_decide_eq_true in Hs. subst s.
  cbn [map sum foldr]. fold sum. cbn [sig_of be_array arr_bytes].
  rewrite be_value_bytes. change (256 ^ N.of_nat 96) with M.
  rewrite N.mul_add_distr_r, <-N.Div0.add_mod_idemp_r.
  change (foldr N.add 0) with sum. rewrite IH.
  by rewrite <-N.Div0.add_mod.
Qed.

#[export] Instance laws : PrimitiveLaws prims.
Proof.
  split; intros; cbn [blst_verify blst_sign blst_sk_to_pk blst_aggregate prims
    blst_fast_aggregate_verify blst_sig_from_bytes sr_vrf_sign sr_vrf_verify sr_to_public
    sr_output sr_make_bytes blst_sig_compress blst_pks_cancel] in *.
  - by apply bool_decide_eq_true.
  - eauto.
  - simplify_eq. apply bool_decide_eq_true, be_array_ext. by apply aggregate_sum.
  - by rewrite (sum_perm (map pk_value pks) (map pk_value pks')) by by apply Permutation_map.
  - done.
  - done.
  - done.
  - simplify_eq. eexists. by rewrite bool_decide_eq_true_2.
  - done.
  - done.
Qed.
End Toy.
