(* ===== verification/Bft.v ===== *)
(** * Bft: validator set, leader selection, votes, tallies and certificates

    Models [src/crates/aii-consensus-bft/src/bft.rs] and the error type of
    [lib.rs].  The source has the PRE-VOTE and the PRE-COMMIT half as two copies
    of the same code that differ in the signed domain; here the vote, the tallier
    and the certificate are indexed by the phase [vote_kind], and the two copies
    are its two instances. *)
From stdpp Require Import base tactics gmap numbers strings list.
From Stdlib Require Import NArith Lia.
From S2P Require Import Prelude Bytes Crypto.

(** ** Phases and errors *)

Inductive Phase := AwaitingProposal | Prevoting | Precommitting | Committed.

#[export] Instance Phase_eq_dec : EqDecision Phase.
Proof. solve_decision. Defined.

Inductive BftError :=
| Overflow
| EmptyValidatorSet
| ValidatorSetTooLarge (got max : N)
| TotalStakeOverflow
| ZeroTotalStake
| WrongBlockHash
| WrongHeight
| WrongRound
| ValidatorIndexOutOfBounds (index size : N)
| DuplicateVote (index : N)
| InvalidBlsSignature
| InvalidVrfProof
| WrongPhase (expected actual : Phase)
| NotSingleValidator (size : N)
| NoActiveCoordinator
| NotLeader (round expected : N)
| InvalidValidatorPubkey (index : N) (kind : string)
| ProposalHashMismatch
| InvalidProposalBody (msg : string)
| ActiveRoundInProgress.

#[export] Instance BftError_eq_dec : EqDecision BftError.
Proof. solve_decision. Defined.

Definition MAX_VALIDATORS : N := 128.

Section bft.
Context `{Primitives}.

(** ** Validator sets *)

Record Validator := mkValidator {
  v_bls_pubkey : bls_pk;
  v_vrf_pubkey : vrf_pk;
  v_stake : N
}.

Record ValidatorSet := mkValidatorSet {
  validators : list Validator;
  total_stake : N
}.

(** [for v in &validators { total = total.checked_add(v.stake)?; }] *)
Fixpoint add_stakes (total : N) (vs : list Validator) : res BftError N :=
  match vs with
  | [] => Ok total
  | v :: vs =>
      total ← ok_or (checked_add u64_mod total (v_stake v)) TotalStakeOverflow;
      add_stakes total vs
  end.

Definition ValidatorSet_new (vs : list Validator) : res BftError ValidatorSet :=
  _ ← guard_err (len vs =? 0) EmptyValidatorSet;
  _ ← guard_err (MAX_VALIDATORS <? len vs) (ValidatorSetTooLarge (len vs) MAX_VALIDATORS);
  total ← add_stakes 0 vs;
  _ ← guard_err (total =? 0) ZeroTotalStake;
  mret (mkValidatorSet vs total).

Definition size (vs : ValidatorSet) : N := len (validators vs).

(** [(self.total_stake * 2) / 3 + 1]: the product is a [u64] and wraps. *)
Definition quorum_threshold (vs : ValidatorSet) : N :=
  wrapping_mul u64_mod (total_stake vs) 2 / 3 + 1.

Definition get (vs : ValidatorSet) (index : N) : option Validator :=
  validators vs !! N.to_nat index.

(** ** Leader selection *)

(** The 44-byte buffer [height_be8 ‖ round_be4 ‖ seed]. *)
Definition leader_buf (height round : N) (seed : array 32) : bytes :=
  be_bytes 8 height ++ be_bytes 4 round ++ arr_bytes seed.

(** The [for] loop: first index whose running stake exceeds [pick]. *)
Fixpoint leader_scan (pick cum : N) (i : nat) (vs : list Validator) : option nat :=
  match vs with
  | [] => None
  | v :: vs =>
      let cum := saturating_add u64_mod cum (v_stake v) in
      if pick <? cum then Some i else leader_scan pick cum (S i) vs
  end.

Definition leader_of_pick (vs : ValidatorSet) (pick : N) : nat :=
  default (length (validators vs) - 1)%nat (leader_scan pick 0 0 (validators vs)).

Definition leader_pick (vs : ValidatorSet) (height round : N) (seed : array 32) : N :=
  be_value (take 8 (arr_bytes (keccak256 (leader_buf height round seed)))) mod total_stake vs.

Definition select_leader (vs : ValidatorSet) (height round : N) (seed : array 32) : nat :=
  leader_of_pick vs (leader_pick vs height round seed).

(** ** Leader proofs *)

Record LeaderProof := mkLeaderProof { vrf_proof : VrfProof; vrf_output : array 32 }.

#[export] Instance LeaderProof_eq_dec : EqDecision LeaderProof.
Proof. solve_decision. Defined.

Definition LeaderProof_input (height round : N) (seed : array 32) : array 32 :=
  keccak256 (leader_buf height round seed).

Definition LeaderProof_produce (sk : vrf_sk) (height round : N) (seed : array 32) : LeaderProof :=
  let '(pf, out) := vrf.prove sk (arr_bytes (LeaderProof_input height round seed)) in
  mkLeaderProof pf out.

Definition LeaderProof_verify (self : LeaderProof) (pk : vrf_pk) (height round : N)
    (seed : array 32) : res BftError unit :=
  recovered ← map_err (fun _ => InvalidVrfProof)
    (vrf.verify pk (arr_bytes (LeaderProof_input height round seed)) (vrf_proof self));
  guard_err (negb (bool_decide (recovered = vrf_output self))) InvalidVrfProof.

(** ** Votes *)

Inductive vote_kind := KPrevote | KPrecommit.

Definition PREVOTE_DOMAIN : bytes := String.list_byte_of_string "AII-PREVOTE".
Definition PRECOMMIT_DOMAIN : bytes := String.list_byte_of_string "AII-PRECOMMIT".

Definition vote_domain (k : vote_kind) : bytes :=
  match k with KPrevote => PREVOTE_DOMAIN | KPrecommit => PRECOMMIT_DOMAIN end.

Record vote (k : vote_kind) := mkVote {
  vote_block_hash : H256;
  vote_height : N;
  vote_round : N;
  vote_index : N;
  vote_sig : bls_sig
}.

Definition vote_preimage (k : vote_kind) (block_hash : H256) (height round : N) : bytes :=
  vote_domain k ++ arr_bytes block_hash ++ be_bytes 8 height ++ be_bytes 4 round.

Definition vote_digest (k : vote_kind) (block_hash : H256) (height round : N) : H256 :=
  keccak256 (vote_preimage k block_hash height round).

Definition vote_sign (k : vote_kind) (sk : bls_sk) (block_hash : H256)
    (height round validator_index : N) : vote k :=
  let d := vote_digest k block_hash height round in
  mkVote k block_hash height round validator_index (bls.sign sk (arr_bytes d)).

Definition PrevoteVote : Type := vote KPrevote.
Definition PrecommitVote : Type := vote KPrecommit.
Definition PrevoteVote_digest := vote_digest KPrevote.
Definition PrecommitVote_digest := vote_digest KPrecommit.
Definition PrevoteVote_sign := vote_sign KPrevote.
Definition PrecommitVote_sign := vote_sign KPrecommit.

(** ** Talliers *)

Inductive TallyState := Accepted | ReachedQuorum.

Record Tallier (k : vote_kind) := mkTallier {
  t_block_hash : H256;
  t_height : N;
  t_round : N;
  t_vs : ValidatorSet;
  received : gset N;
  t_sigs : list bls_sig;
  t_pubkeys : list bls_pk;
  t_bitmap : N;
  stake_collected : N
}.

Definition Tallier_new (k : vote_kind) (block_hash : H256) (height round : N)
    (vs : ValidatorSet) : Tallier k :=
  mkTallier k block_hash height round vs ∅ [] [] 0 0.

(** The six checks of [submit], in order; the validator that voted. *)
Definition check_vote {k} (t : Tallier k) (v : vote k) : res BftError Validator :=
  _ ← guard_err (negb (bool_decide (vote_block_hash k v = t_block_hash k t))) WrongBlockHash;
  _ ← guard_err (negb (vote_height k v =? t_height k t)) WrongHeight;
  _ ← guard_err (negb (vote_round k v =? t_round k t)) WrongRound;
  _ ← guard_err (size (t_vs k t) <=? vote_index k v)
        (ValidatorIndexOutOfBounds (vote_index k v) (size (t_vs k t)));
  _ ← guard_err (bool_decide (vote_index k v ∈ received k t)) (DuplicateVote (vote_index k v));
  val ← expect (get (t_vs k t) (vote_index k v));
  _ ← map_err (fun _ => InvalidBlsSignature)
        (bls.verify (vote_sig k v)
           (arr_bytes (vote_digest k (t_block_hash k t) (t_height k t) (t_round k t)))
           (v_bls_pubkey val));
  mret val.

(** The mutations that follow the checks; [1u128 << i] masks its amount. *)
Definition accept_vote {k} (t : Tallier k) (v : vote k) (val : Validator) : Tallier k :=
  mkTallier k (t_block_hash k t) (t_height k t) (t_round k t) (t_vs k t)
    ({[ vote_index k v ]} ∪ received k t)
    (t_sigs k t ++ [vote_sig k v])
    (t_pubkeys k t ++ [v_bls_pubkey val])
    (N.lor (t_bitmap k t) (N.shiftl 1 (vote_index k v mod 128)))
    (saturating_add u64_mod (stake_collected k t) (v_stake val)).

Definition Tallier_submit {k} (t : Tallier k) (v : vote k)
    : Tallier k * res BftError TallyState :=
  match check_vote t v with
  | Ok val =>
      let t := accept_vote t v val in
      (t, Ok (if quorum_threshold (t_vs k t) <=? stake_collected k t
              then ReachedQuorum else Accepted))
  | Err e => (t, Err e)
  | Panic => (t, Panic)
  end.

(** ** Certificates *)

Record Certificate (k : vote_kind) := mkCertificate {
  c_block_hash : H256;
  c_height : N;
  c_round : N;
  signer_bitmap : N;
  aggregated_sig : bls_sig
}.

Definition Tallier_certificate {k} (t : Tallier k) : option (Certificate k) :=
  if stake_collected k t <? quorum_threshold (t_vs k t) then None
  else match bls.aggregate_signatures (t_sigs k t) with
       | Ok agg => Some (mkCertificate k (t_block_hash k t) (t_height k t) (t_round k t)
                           (t_bitmap k t) agg)
       | _ => None
       end.

(** [(bitmap >> i) & 1 == 1] *)
Definition bit_set (bitmap : N) (i : nat) : bool :=
  N.land (N.shiftr bitmap (N.of_nat i)) 1 =? 1.

(** The [for i in 0..n] loop of [verify]. *)
Fixpoint collect_signers (bitmap : N) (i : nat) (vs : list Validator)
    (pks : list bls_pk) (stake : N) : list bls_pk * N :=
  match vs with
  | [] => (pks, stake)
  | v :: vs =>
      if bit_set bitmap i
      then collect_signers bitmap (S i) vs (pks ++ [v_bls_pubkey v])
             (saturating_add u64_mod stake (v_stake v))
      else collect_signers bitmap (S i) vs pks stake
  end.

Definition Certificate_verify {k} (self : Certificate k) (vs : ValidatorSet)
    : res BftError unit :=
  let n := size vs in
  let bm := signer_bitmap k self in
  _ ← guard_err (negb (bm =? 0) && (n <=? N.log2 bm))
        (ValidatorIndexOutOfBounds (N.log2 bm) n);
  let '(pks, signer_stake) := collect_signers bm 0 (validators vs) [] 0 in
  _ ← guard_err (signer_stake <? quorum_threshold vs) InvalidBlsSignature;
  map_err (fun _ => InvalidBlsSignature)
    (bls.fast_aggregate_verify (aggregated_sig k self)
       (arr_bytes (vote_digest k (c_block_hash k self) (c_height k self) (c_round k self))) pks).

Definition PrevoteTallier : Type := Tallier KPrevote.
Definition PrecommitTallier : Type := Tallier KPrecommit.
Definition PrevoteTallier_new := Tallier_new KPrevote.
Definition PrecommitTallier_new := Tallier_new KPrecommit.
Definition PrevoteTallier_submit : PrevoteTallier -> PrevoteVote -> _ := @Tallier_submit KPrevote.
Definition PrecommitTallier_submit : PrecommitTallier -> PrecommitVote -> _ :=
  @Tallier_submit KPrecommit.
Definition PolcCertificate : Type := Certificate KPrevote.
Definition PrecommitCertificate : Type := Certificate KPrecommit.
Definition try_form_polc : PrevoteTallier -> option PolcCertificate :=
  @Tallier_certificate KPrevote.
Definition try_finalize : PrecommitTallier -> option PrecommitCertificate :=
  @Tallier_certificate KPrecommit.
Definition PolcCertificate_verify : PolcCertificate -> ValidatorSet -> _ :=
  @Certificate_verify KPrevote.
Definition PrecommitCertificate_verify : PrecommitCertificate -> ValidatorSet -> _ :=
  @Certificate_verify KPrecommit.
End bft.

Arguments mkVote {_} k.
Arguments vote_block_hash {_ k}.
Arguments vote_height {_ k}.
Arguments vote_round {_ k}.
Arguments vote_index {_ k}.
Arguments vote_sig {_ k}.
Arguments t_block_hash {_ k}.
Arguments t_height {_ k}.
Arguments t_round {_ k}.
Arguments t_vs {_ k}.
Arguments received {_ k}.
Arguments t_sigs {_ k}.
Arguments t_pubkeys {_ k}.
Arguments t_bitmap {_ k}.
Arguments stake_collected {_ k}.
Arguments c_block_hash {_ k}.
Arguments c_height {_ k}.
Arguments c_round {_ k}.
Arguments signer_bitmap {_ k}.
Arguments aggregated_sig {_ k}.
