(* ===== verification/BftFacts.v ===== *)
(** * BftFacts: what the validator set, the talliers and the certificates promise

    The invariant of a validator set, the characterisation of the elected
    leader, the refinement of a tallier by the list of the votes it accepted,
    and the link between a tallier's certificate and the verifier. *)
From stdpp Require Import base tactics gmap numbers list.
From Stdlib Require Import NArith Lia.
From S2P Require Import Prelude Bytes Crypto Bft.

Section defs.
Context `{Primitives}.

Definition sum_stakes (l : list Validator) : N := weight v_stake l.

(** What [ValidatorSet::new] establishes. *)
Record vs_wf (vs : ValidatorSet) : Prop := {
  vs_nonempty : validators vs <> [];
  vs_size_le : size vs <= MAX_VALIDATORS;
  vs_total : total_stake vs = sum_stakes (validators vs);
  vs_total_pos : 0 < total_stake vs;
  vs_total_lt : total_stake vs < u64_mod
}.

Definition stake_at (vs : ValidatorSet) (i : N) : N := from_option v_stake 0 (get vs i).
Definition keys_of (vs : ValidatorSet) (l : list N) : list bls_pk :=
  omap (fun i => v_bls_pubkey <$> get vs i) l.

(** The positions of a set, and those a bitmap selects among [i .. i+n-1]. *)
Definition positions (i n : nat) : list N := N.of_nat <$> seq i n.
Definition signers_from (bitmap : N) (i n : nat) : list N :=
  filter (fun j => N.testbit bitmap j = true) (positions i n).
Definition signers (vs : ValidatorSet) (bitmap : N) : list N :=
  signers_from bitmap 0 (length (validators vs)).

(** A vote that belongs to a tallier and is signed by the validator it names. *)
Definition valid_vote {k} (t : Tallier k) (v : vote k) : Prop :=
  vote_block_hash v = t_block_hash t /\ vote_height v = t_height t /\ vote_round v = t_round t /\
  exists val, get (t_vs t) (vote_index v) = Some val /\
    blst_verify (vote_sig v)
      (arr_bytes (vote_digest k (t_block_hash t) (t_height t) (t_round t)))
      (v_bls_pubkey val) = true.

(** The abstract state of a tallier: the votes it accepted, in order. *)
Record tally_inv {k} (t : Tallier k) (log : list (vote k)) : Prop := {
  ti_vs : vs_wf (t_vs t);
  ti_nodup : NoDup (vote_index <$> log);
  ti_valid : Forall (valid_vote t) log;
  ti_received : received t = list_to_set (vote_index <$> log);
  ti_sigs : t_sigs t = vote_sig <$> log;
  ti_keys : t_pubkeys t = keys_of (t_vs t) (vote_index <$> log);
  ti_bitmap : forall i, N.testbit (t_bitmap t) i = bool_decide (i ∈ vote_index <$> log);
  ti_stake : stake_collected t = weight (stake_at (t_vs t)) (vote_index <$> log)
}.

(** The abstract tallier: keep a vote that is valid and the first of its validator. *)
Definition valid_voteb {k} (t : Tallier k) (v : vote k) : bool :=
  bool_decide (vote_block_hash v = t_block_hash t) && (vote_height v =? t_height t) &&
  (vote_round v =? t_round t) &&
  match get (t_vs t) (vote_index v) with
  | Some val =>
      blst_verify (vote_sig v)
        (arr_bytes (vote_digest k (t_block_hash t) (t_height t) (t_round t))) (v_bls_pubkey val)
  | None => false
  end.
Definition log_step {k} (t : Tallier k) (log : list (vote k)) (v : vote k) : list (vote k) :=
  if valid_voteb t v && negb (bool_decide (vote_index v ∈ vote_index <$> log))
  then log ++ [v] else log.

Definition submit_all {k} (t : Tallier k) (votes : list (vote k)) : Tallier k :=
  foldl (fun t v => (Tallier_submit t v).1) t votes.
End defs.

(** ** Validator sets *)
Section validator_sets.
Context `{Primitives}.

Lemma add_stakes_spec total vs :
  add_stakes total vs =
    if total + sum_stakes vs <? u64_mod then Ok (total + sum_stakes vs)
    else match vs with [] => Ok total | _ => Err TotalStakeOverflow end.
Proof.
  unfold sum_stakes. revert total. induction vs as [|v vs IH]; intros total; cbn [add_stakes].
  - rewrite weight_nil, N.add_0_r. by destruct (total <? _).
  - rewrite weight_cons.
    destruct (checked_add u64_mod total (v_stake v)) as [t|] eqn:E; cbn.
    + apply checked_add_Some in E as [-> Hlt]. rewrite IH, N.add_assoc.
      destruct (N.ltb_spec (total + v_stake v + weight v_stake vs) u64_mod); [done|].
      destruct vs; [|done]. rewrite weight_nil in *. lia.
    + apply checked_add_None in E.
      destruct (N.ltb_spec (total + (v_stake v + weight v_stake vs)) u64_mod); [lia|done].
Qed.

Lemma ValidatorSet_new_Ok vs s :
  ValidatorSet_new vs = Ok s <-> s = mkValidatorSet vs (sum_stakes vs) /\ vs_wf s.
Proof.
  unfold ValidatorSet_new. rewrite add_stakes_spec, N.add_0_l. split.
  - intros Hn. inv_ok. subst s.
    destruct vs as [|v vs]; [done|].
    destruct (N.ltb_spec (sum_stakes (v :: vs)) u64_mod); [|done]. inv_ok. subst.
    repeat match goal with
      | H : (_ =? _) = false |- _ => apply N.eqb_neq in H
      | H : (_ <? _) = false |- _ => apply N.ltb_ge in H
      end.
    split; [done|]. split; cbn; unfold size; cbn; done || lia.
  - intros [-> Hwf]. destruct Hwf as [Hne Hsz _ Hpos Hlt]. unfold size in Hsz. cbn in *.
    assert (len vs <> 0) by (destruct vs; unfold len; cbn; [done|lia]).
    destruct (N.eqb_spec (len vs) 0); [done|]. cbn.
    destruct (N.ltb_spec MAX_VALIDATORS (len vs)); [lia|]. cbn.
    destruct (N.ltb_spec (sum_stakes vs) u64_mod); [|lia]. cbn.
    destruct (N.eqb_spec (sum_stakes vs) 0); [lia|done].
Qed.

Lemma quorum_threshold_small vs :
  total_stake vs < 9223372036854775808 -> quorum_threshold vs = total_stake vs * 2 / 3 + 1.
Proof. intros. unfold quorum_threshold. rewrite wrapping_mul_small; [done|lia]. Qed.
End validator_sets.

(** ** The elected leader *)
Section leader.
Context `{Primitives}.

Lemma sum_stakes_app l k : sum_stakes (l ++ k) = sum_stakes l + sum_stakes k.
Proof. apply weight_app. Qed.

Lemma sum_stakes_take_S l i v :
  l !! i = Some v -> sum_stakes (take (S i) l) = sum_stakes (take i l) + v_stake v.
Proof.
  intros Hi. rewrite (take_S_r _ _ _ Hi), sum_stakes_app. unfold sum_stakes.
  rewrite weight_cons, weight_nil. lia.
Qed.

Lemma sum_stakes_take_le l i : sum_stakes (take i l) <= sum_stakes l.
Proof. rewrite <-(take_drop i l) at 2. rewrite sum_stakes_app. lia. Qed.

Lemma sum_stakes_take_mono l i j :
  (i <= j)%nat -> sum_stakes (take i l) <= sum_stakes (take j l).
Proof.
  intros Hij. replace (take i l) with (take i (take j l)); [apply sum_stakes_take_le|].
  rewrite take_take. by replace (i `min` j)%nat with i by lia.
Qed.

Lemma leader_scan_spec pick cum i l :
  cum <= pick < cum + sum_stakes l -> cum + sum_stakes l < u64_mod ->
  exists j v, leader_scan pick cum i l = Some (i + j)%nat /\ l !! j = Some v /\
    cum + sum_stakes (take j l) <= pick < cum + sum_stakes (take j l) + v_stake v.
Proof.
  revert cum i. induction l as [|v l IH]; intros cum i; unfold sum_stakes.
  - rewrite weight_nil. lia.
  - rewrite weight_cons. intros [Hlo Hhi] Hlt. cbn [leader_scan].
    rewrite saturating_add_small by lia.
    destruct (N.ltb_spec pick (cum + v_stake v)).
    + exists 0%nat, v. rewrite Nat.add_0_r. cbn [take lookup]. rewrite weight_nil.
      split; [done|]. split; [done|lia].
    + destruct (IH (cum + v_stake v) (S i)) as (j & w & -> & Hj & Hw); unfold sum_stakes in *; [lia..|].
      exists (S j), w. cbn [take lookup]. rewrite weight_cons.
      split; [f_equal; lia|]. split; [done|]. lia.
Qed.

(** Each validator owns exactly the picks of its own stake interval. *)
Lemma leader_of_pick_iff vs pick i :
  vs_wf vs -> pick < total_stake vs ->
  leader_of_pick vs pick = i <->
  exists v, validators vs !! i = Some v /\
    sum_stakes (take i (validators vs)) <= pick < sum_stakes (take i (validators vs)) + v_stake v.
Proof.
  intros Hwf Hp. rewrite (vs_total vs Hwf) in Hp.
  destruct (leader_scan_spec pick 0 0 (validators vs)) as (j & v & E & Hj & Hv);
    [lia|rewrite <-(vs_total vs Hwf); apply (vs_total_lt vs Hwf)|].
  rewrite !N.add_0_l in Hv. unfold leader_of_pick. rewrite E. cbn. split.
  - intros <-. eauto.
  - intros (w & Hi & Hw).
    apply sum_stakes_take_S in Hj, Hi.
    destruct (Nat.lt_trichotomy i j) as [Hij|[->|Hij]]; [|done|].
    + pose proof (sum_stakes_take_mono (validators vs) (S i) j). lia.
    + pose proof (sum_stakes_take_mono (validators vs) (S j) i). lia.
Qed.

Lemma select_leader_in vs height round seed :
  vs_wf vs ->
  exists v, validators vs !! select_leader vs height round seed = Some v /\ 0 < v_stake v.
Proof.
  intros Hwf. unfold select_leader.
  assert (Hp : leader_pick vs height round seed < total_stake vs).
  { apply N.mod_lt. pose proof (vs_total_pos vs Hwf). lia. }
  pose proof (proj1 (leader_of_pick_iff vs _ _ Hwf Hp) eq_refl) as (v & Hv & Hlt).
  exists v. split; [done|lia].
Qed.
End leader.

(** ** Signer bitmaps *)
Section signers.
Context `{Primitives}.

Lemma elem_of_positions i n j : j ∈ positions i n <-> N.of_nat i <= j < N.of_nat (i + n).
Proof.
  unfold positions. rewrite list_elem_of_fmap. split.
  - intros (x & -> & Hx%elem_of_seq). lia.
  - intros Hj. exists (N.to_nat j). rewrite N2Nat.id, elem_of_seq. split; [done|lia].
Qed.

Lemma NoDup_positions i n : NoDup (positions i n).
Proof. unfold positions. apply (NoDup_fmap_2 _), NoDup_seq. Qed.

Lemma positions_S i n : positions i (S n) = N.of_nat i :: positions (S i) n.
Proof. done. Qed.

Lemma get_Some_lt vs i v : get vs i = Some v -> i < size vs.
Proof. unfold get, size, len. intros Hi%lookup_lt_Some. lia. Qed.

Lemma get_lt vs i : i < size vs -> is_Some (get vs i).
Proof. unfold get, size, len. intros. apply lookup_lt_is_Some. lia. Qed.

Lemma stake_at_positions vs i (l : list Validator) :
  (forall k, validators vs !! (i + k)%nat = l !! k) ->
  weight (stake_at vs) (positions i (length l)) = sum_stakes l.
Proof.
  unfold sum_stakes. revert i. induction l as [|v l IH]; intros i Hl; [done|].
  cbn [length]. rewrite positions_S, !weight_cons, IH.
  - unfold stake_at, get. rewrite Nat2N.id. specialize (Hl 0%nat).
    rewrite Nat.add_0_r in Hl. by rewrite Hl.
  - intros k. rewrite Nat.add_succ_comm. apply (Hl (S k)).
Qed.

Lemma weight_all_stakes vs :
  weight (stake_at vs) (positions 0 (length (validators vs))) = sum_stakes (validators vs).
Proof. by apply stake_at_positions. Qed.

(** A duplicate-free set of positions never weighs more than the whole set. *)
Lemma weight_stakes_le vs idx :
  vs_wf vs -> NoDup idx -> (forall i, i ∈ idx -> i < size vs) ->
  weight (stake_at vs) idx <= total_stake vs.
Proof.
  intros Hwf Hnd Hin. rewrite (vs_total vs Hwf), <-weight_all_stakes.
  refine (weight_subset_le _ _ _ Hnd _ (NoDup_positions _ _)).
  intros i Hi. apply elem_of_positions. apply Hin in Hi. unfold size, len in Hi. lia.
Qed.

Lemma bit_set_testbit bm i : bit_set bm i = N.testbit bm (N.of_nat i).
Proof.
  unfold bit_set. change 1 with (N.ones 1) at 1. rewrite N.land_ones.
  change (2 ^ 1) with 2. by rewrite <-N.bit0_eqb, N.shiftr_spec', N.add_0_l.
Qed.

Lemma signers_from_S bm i n :
  signers_from bm i (S n) =
    (if bit_set bm i then [N.of_nat i] else []) ++ signers_from bm (S i) n.
Proof.
  unfold signers_from. rewrite positions_S, filter_cons, bit_set_testbit.
  destruct (N.testbit bm (N.of_nat i)); case_decide; done.
Qed.

Lemma collect_signers_spec vs bm i l pks st :
  (forall k, validators vs !! (i + k)%nat = l !! k) ->
  st + sum_stakes l < u64_mod ->
  collect_signers bm i l pks st =
    (pks ++ keys_of vs (signers_from bm i (length l)),
     st + weight (stake_at vs) (signers_from bm i (length l))).
Proof.
  revert i pks st. induction l as [|v l IH]; intros i pks st Hl Hlt.
  { cbn. by rewrite app_nil_r, N.add_0_r. }
  cbn [collect_signers length]. rewrite signers_from_S. unfold sum_stakes in *.
  rewrite weight_cons in Hlt.
  assert (Hi : get vs (N.of_nat i) = Some v).
  { unfold get. rewrite Nat2N.id, <-(Nat.add_0_r i). apply (Hl 0%nat). }
  assert (Hl' : forall k, validators vs !! (S i + k)%nat = l !! k).
  { intros k. rewrite Nat.add_succ_comm. apply (Hl (S k)). }
  destruct (bit_set bm i); rewrite IH by (rewrite ?saturating_add_small; done || lia);
    [|done].
  rewrite saturating_add_small by lia. cbn [app]. rewrite weight_cons.
  unfold keys_of at 2. cbn [omap list_omap]. rewrite Hi. cbn [fmap option_fmap option_map].
  unfold stake_at at 2. rewrite Hi. cbn. rewrite <-app_assoc, N.add_assoc. done.
Qed.

Lemma collect_all vs bm :
  vs_wf vs ->
  collect_signers bm 0 (validators vs) [] 0 =
    (keys_of vs (signers vs bm), weight (stake_at vs) (signers vs bm)).
Proof.
  intros Hwf. rewrite (collect_signers_spec vs); [by rewrite app_nil_l, N.add_0_l|done|].
  rewrite N.add_0_l, <-(vs_total vs Hwf). apply (vs_total_lt vs Hwf).
Qed.

Lemma elem_of_signers vs bm i : i ∈ signers vs bm <-> N.testbit bm i = true /\ i < size vs.
Proof.
  unfold signers, signers_from. rewrite list_elem_of_filter, elem_of_positions.
  unfold size, len. split; intros []; split; done || lia.
Qed.

Lemma NoDup_signers vs bm : NoDup (signers vs bm).
Proof. unfold signers, signers_from. apply NoDup_filter, NoDup_positions. Qed.

(** A bitmap that is the characteristic function of [idx] selects [idx]. *)
Lemma signers_perm vs bm idx :
  NoDup idx -> (forall i, i ∈ idx -> i < size vs) ->
  (forall i, N.testbit bm i = bool_decide (i ∈ idx)) -> signers vs bm ≡ₚ idx.
Proof.
  intros Hnd Hin Hbm. apply NoDup_Permutation; [apply NoDup_signers|done|].
  intros i. rewrite elem_of_signers, Hbm, bool_decide_eq_true. naive_solver.
Qed.

Lemma keys_of_perm vs l k : l ≡ₚ k -> keys_of vs l ≡ₚ keys_of vs k.
Proof. intros Hp. unfold keys_of. by rewrite Hp. Qed.
End signers.

(** ** Talliers refine the log of accepted votes *)
Section talliers.
Context `{Primitives} {k : vote_kind}.
Implicit Types (t : Tallier k) (v : vote k) (log : list (vote k)).

Lemma valid_voteb_iff t v : valid_voteb t v = true <-> valid_vote t v.
Proof.
  unfold valid_voteb, valid_vote. rewrite !andb_true_iff, bool_decide_eq_true, !N.eqb_eq.
  destruct (get (t_vs t) (vote_index v)); naive_solver.
Qed.

Lemma valid_vote_index t v : valid_vote t v -> vote_index v < size (t_vs t).
Proof. intros (_ & _ & _ & val & Hval & _). by eapply get_Some_lt. Qed.

Lemma check_vote_Ok t v val :
  check_vote t v = Ok val <->
  valid_vote t v /\ vote_index v ∉ received t /\ get (t_vs t) (vote_index v) = Some val.
Proof.
  unfold check_vote, valid_vote. split.
  - intros Hc. inv_ok. subst.
    repeat match goal with
      | H : negb (bool_decide _) = false |- _ => apply negb_false_iff, bool_decide_eq_true in H
      | H : negb (_ =? _) = false |- _ => apply negb_false_iff, N.eqb_eq in H
      | H : bool_decide _ = false |- _ => apply bool_decide_eq_false in H
      | H : bls.verify _ _ _ = Ok _ |- _ => apply bls_verify_Ok in H
      end. naive_solver.
  - intros ((H1 & H2 & H3 & val' & Hg & Hv) & Hr & Hg'). simplify_eq.
    rewrite (bool_decide_eq_true_2 _ H1), H2, H3, !N.eqb_refl. cbn.
    rewrite (proj2 (N.leb_gt _ _)) by (by eapply get_Some_lt). cbn.
    rewrite (bool_decide_eq_false_2 _ Hr). cbn. rewrite Hg. cbn.
    by rewrite (proj2 (bls_verify_Ok _ _ _ tt) Hv).
Qed.

(** Every error leaves the tallier as it was. *)
Lemma Tallier_submit_state t v :
  Tallier_submit t v =
    match check_vote t v with
    | Ok val => (accept_vote t v val,
                 Ok (if quorum_threshold (t_vs t) <=? stake_collected (accept_vote t v val)
                     then ReachedQuorum else Accepted))
    | Err e => (t, Err e)
    | Panic => (t, Panic)
    end.
Proof. unfold Tallier_submit. by destruct (check_vote t v). Qed.

Lemma check_vote_no_panic t v : check_vote t v <> Panic.
Proof.
  unfold check_vote. intros Hp.
  repeat (apply bind_Panic in Hp as [Hp|(? & ? & Hp)];
    [unfold guard_err, bls.verify in Hp; repeat case_match; cbn in *; try discriminate|]);
    try discriminate.
  match goal with H : guard_err (_ <=? _) _ = Ok _ |- _ => apply guard_err_Ok, N.leb_gt, get_lt in H as [? ?] end.
  unfold expect in *. by simplify_option_eq.
Qed.

Lemma testbit_set_bit bm i j :
  i < 128 -> N.testbit (N.lor bm (N.shiftl 1 (i mod 128))) j = N.testbit bm j || (j =? i).
Proof.
  intros Hi. rewrite N.mod_small by done. rewrite N.lor_spec. f_equal.
  rewrite N.shiftl_1_l, N.pow2_bits_eqb. apply N.eqb_sym.
Qed.

Lemma Tallier_new_inv bh h r vs : vs_wf vs -> tally_inv (Tallier_new k bh h r vs) [].
Proof. intros. split; cbn; done || by constructor. Qed.

Lemma accept_vote_inv t v val log :
  tally_inv t log -> check_vote t v = Ok val -> tally_inv (accept_vote t v val) (log ++ [v]).
Proof.
  intros Hinv (Hv & Hr & Hg)%check_vote_Ok.
  pose proof (ti_vs _ _ Hinv) as Hwf.
  assert (Hnew : vote_index v ∉ vote_index <$> log).
  { rewrite (ti_received _ _ Hinv) in Hr. set_solver. }
  assert (Hlt : vote_index v < 128).
  { eapply N.lt_le_trans; [by eapply valid_vote_index|apply (vs_size_le _ Hwf)]. }
  assert (Hnd : NoDup (vote_index <$> log ++ [v])).
  { rewrite fmap_app, NoDup_app. split; [apply (ti_nodup _ _ Hinv)|].
    split; [set_solver|cbn; repeat constructor; set_solver]. }
  assert (Hw : weight (stake_at (t_vs t)) (vote_index <$> log ++ [v])
               = stake_collected t + v_stake val).
  { rewrite fmap_app, weight_app, (ti_stake _ _ Hinv).
    change (vote_index <$> [v]) with [vote_index v]. rewrite weight_cons, weight_nil.
    unfold stake_at at 2. rewrite Hg. cbn. lia. }
  split; cbn; try done.
  - apply Forall_app. split; [apply (ti_valid _ _ Hinv)|by constructor].
  - rewrite (ti_received _ _ Hinv), fmap_app, list_to_set_app_L. set_solver.
  - by rewrite (ti_sigs _ _ Hinv), fmap_app.
  - rewrite (ti_keys _ _ Hinv), fmap_app. unfold keys_of. rewrite omap_app. cbn. by rewrite Hg.
  - intros i. rewrite testbit_set_bit by done. rewrite (ti_bitmap _ _ Hinv), fmap_app.
    apply eq_true_iff_eq. rewrite orb_true_iff, !bool_decide_eq_true, N.eqb_eq, elem_of_app.
    change (vote_index <$> [v]) with [vote_index v]. by rewrite list_elem_of_singleton.
  - rewrite Hw, saturating_add_small; [done|].
    rewrite <-Hw. eapply N.le_lt_trans; [|apply (vs_total_lt _ Hwf)].
    apply weight_stakes_le; [done..|].
    intros i (w & -> & Hw')%list_elem_of_fmap. apply elem_of_app in Hw' as [Hw'|Hw'].
    + pose proof (ti_valid _ _ Hinv) as Hall. rewrite Forall_forall in Hall.
      by apply valid_vote_index, Hall.
    + apply list_elem_of_singleton in Hw' as ->. by apply valid_vote_index.
Qed.

Lemma valid_vote_accept t v val w : valid_vote (accept_vote t v val) w <-> valid_vote t w.
Proof. done. Qed.

Lemma Tallier_submit_log t v log :
  tally_inv t log -> tally_inv (Tallier_submit t v).1 (log_step t log v).
Proof.
  intros Hinv. rewrite Tallier_submit_state. unfold log_step.
  destruct (check_vote t v) as [val| |] eqn:E.
  - pose proof (accept_vote_inv _ _ _ _ Hinv E) as Hinv'.
    apply check_vote_Ok in E as (Hv & Hr & _).
    rewrite (proj2 (valid_voteb_iff t v) Hv), (bool_decide_eq_false_2 _); [done|].
    rewrite (ti_received _ _ Hinv) in Hr. set_solver.
  - cbn. destruct (_ && _) eqn:Hb; [|done]. exfalso.
    apply andb_prop in Hb as [Hv%valid_voteb_iff Hr%negb_true_iff%bool_decide_eq_false].
    destruct Hv as (H1 & H2 & H3 & val & Hg & Hver).
    rewrite (proj2 (check_vote_Ok t v val)) in E; [done|].
    rewrite (ti_received _ _ Hinv). split; [by repeat eexists|set_solver].
  - by apply check_vote_no_panic in E.
Qed.

(** The coordinates of a tallier never change. *)
Lemma Tallier_submit_const t v :
  let t' := (Tallier_submit t v).1 in
  t_vs t' = t_vs t /\ t_block_hash t' = t_block_hash t /\ t_height t' = t_height t /\
  t_round t' = t_round t.
Proof. cbn. rewrite Tallier_submit_state. by destruct (check_vote t v). Qed.

Lemma submit_all_const t votes :
  let t' := submit_all t votes in
  t_vs t' = t_vs t /\ t_block_hash t' = t_block_hash t /\ t_height t' = t_height t /\
  t_round t' = t_round t.
Proof.
  cbn. revert t. induction votes as [|v votes IH]; intros t; [done|].
  destruct (IH (Tallier_submit t v).1) as (H1 & H2 & H3 & H4).
  destruct (Tallier_submit_const t v) as (? & ? & ? & ?).
  unfold submit_all in *. cbn. split_and!; congruence.
Qed.

Lemma log_step_const t v w log : log_step (Tallier_submit t v).1 log w = log_step t log w.
Proof.
  unfold log_step, valid_voteb. by destruct (Tallier_submit_const t v) as (-> & -> & -> & ->).
Qed.

Lemma submit_all_log t votes log :
  tally_inv t log -> tally_inv (submit_all t votes) (foldl (log_step t) log votes).
Proof.
  unfold submit_all. revert t log. induction votes as [|v votes IH]; intros t log Hinv; [done|].
  cbn. replace (foldl (log_step t) (log_step t log v) votes)
    with (foldl (log_step (Tallier_submit t v).1) (log_step t log v) votes).
  - by apply IH, Tallier_submit_log.
  - generalize (log_step t log v). clear. induction votes; intros; cbn; [done|].
    by rewrite log_step_const.
Qed.
End talliers.

(** ** Certificates *)
Section certificates.
Context `{Primitives} {k : vote_kind}.
Implicit Types (t : Tallier k) (v : vote k) (log : list (vote k)) (c : Certificate k).

Definition certifies c (vs : ValidatorSet) : Prop :=
  (forall i, N.testbit (signer_bitmap c) i = true -> i < size vs) /\
  quorum_threshold vs <= weight (stake_at vs) (signers vs (signer_bitmap c)) /\
  keys_of vs (signers vs (signer_bitmap c)) <> [] /\
  blst_fast_aggregate_verify (aggregated_sig c)
    (arr_bytes (vote_digest k (c_block_hash c) (c_height c) (c_round c)))
    (keys_of vs (signers vs (signer_bitmap c))) = true.

Lemma bitmap_bound bm n :
  negb (bm =? 0) && (n <=? N.log2 bm) = false <-> (forall i, N.testbit bm i = true -> i < n).
Proof.
  rewrite andb_false_iff, negb_false_iff, N.eqb_eq, N.leb_gt. split.
  - intros [->|Hn] i Hi; [by rewrite N.bits_0 in Hi|].
    destruct (N.lt_ge_cases (N.log2 bm) i) as [Hlt|]; [|lia].
    by rewrite N.bits_above_log2 in Hi.
  - intros Hall. destruct (N.eq_dec bm 0); [by left|right]. by apply Hall, N.bit_log2.
Qed.

Lemma Certificate_verify_Ok c vs u :
  vs_wf vs -> Certificate_verify c vs = Ok u <-> certifies c vs.
Proof.
  intros Hwf. unfold Certificate_verify, certifies. rewrite (collect_all _ _ Hwf).
  cbn beta iota zeta. split.
  - intros Hc. inv_ok.
    repeat match goal with
      | H : (_ <? _) = false |- _ => apply N.ltb_ge in H
      | H : _ && _ = false |- _ => pose proof (proj1 (bitmap_bound _ _) H); clear H
      | H : bls.fast_aggregate_verify _ _ _ = Ok _ |- _ => apply bls_fast_aggregate_Ok in H
      end. tauto.
  - intros (Hb & Hq & Hne & Hv). destruct u.
    rewrite (proj2 (bitmap_bound _ _) Hb). cbn. rewrite (proj2 (N.ltb_ge _ _) Hq). cbn.
    by rewrite (proj2 (bls_fast_aggregate_Ok _ _ _ tt) (conj Hne Hv)).
Qed.

Lemma quorum_threshold_pos vs : 1 <= quorum_threshold vs.
Proof. unfold quorum_threshold. apply N.le_add_l. Qed.

Lemma Tallier_certificate_Some t log c :
  tally_inv t log -> Tallier_certificate t = Some c ->
  quorum_threshold (t_vs t) <= stake_collected t /\ c_block_hash c = t_block_hash t /\
  c_height c = t_height t /\ c_round c = t_round t /\ signer_bitmap c = t_bitmap t /\
  blst_aggregate (t_sigs t) = Some (aggregated_sig c).
Proof.
  intros Hinv. unfold Tallier_certificate. destruct (N.ltb_spec (stake_collected t) (quorum_threshold (t_vs t))); [done|].
  destruct (bls.aggregate_signatures (t_sigs t)) eqn:E; intros; simplify_eq.
  apply bls_aggregate_Ok in E as [_ E]. by cbn.
Qed.

Lemma tally_idx_lt t log i : tally_inv t log -> i ∈ vote_index <$> log -> i < size (t_vs t).
Proof.
  intros Hinv (w & -> & Hw)%list_elem_of_fmap.
  pose proof (ti_valid _ _ Hinv) as Hall. rewrite Forall_forall in Hall.
  by apply valid_vote_index, Hall.
Qed.

(** The verifier reads back from the bitmap the voters of the tally. *)
Lemma tally_signers t log :
  tally_inv t log -> signers (t_vs t) (t_bitmap t) ≡ₚ vote_index <$> log.
Proof.
  intros Hinv. apply signers_perm; [apply (ti_nodup _ _ Hinv)| |apply (ti_bitmap _ _ Hinv)].
  intros i. by apply tally_idx_lt.
Qed.

Lemma tally_log_keys t log :
  tally_inv t log ->
  Forall2 (fun s pk => blst_verify s
    (arr_bytes (vote_digest k (t_block_hash t) (t_height t) (t_round t))) pk = true)
    (t_sigs t) (t_pubkeys t).
Proof.
  intros Hinv. rewrite (ti_sigs _ _ Hinv), (ti_keys _ _ Hinv).
  pose proof (ti_valid _ _ Hinv) as Hall. clear Hinv.
  induction Hall as [|v log (_ & _ & _ & val & Hg & Hv) _ IH]; [constructor|].
  unfold keys_of in *. cbn. rewrite Hg. cbn. by constructor.
Qed.

Context `{!PrimitiveLaws H}.

(** At quorum a certificate forms: the [expect]s of the coordinator hold. *)
Lemma tally_quorum_certificate t log :
  tally_inv t log -> quorum_threshold (t_vs t) <= stake_collected t ->
  is_Some (Tallier_certificate t).
Proof.
  intros Hinv Hq. unfold Tallier_certificate.
  rewrite (proj2 (N.ltb_ge _ _) Hq).
  pose proof (quorum_threshold_pos (t_vs t)).
  assert (Hne : t_sigs t <> []).
  { rewrite (ti_sigs _ _ Hinv). intros Hnil%fmap_nil_inv. subst.
    rewrite (ti_stake _ _ Hinv) in Hq. change (weight _ _) with 0 in Hq. lia. }
  destruct (blst_aggregate_ok (t_sigs t) Hne) as [agg Hagg].
  { pose proof (tally_log_keys _ _ Hinv) as Hf. clear -Hf. induction Hf; constructor; eauto. }
  by rewrite (proj2 (bls_aggregate_Ok _ _) (conj Hne Hagg)).
Qed.

(** A tallier's certificate passes the verifier. *)
Lemma tally_certificate_certifies t log c :
  tally_inv t log -> Tallier_certificate t = Some c ->
  blst_pks_cancel (keys_of (t_vs t) (signers (t_vs t) (signer_bitmap c))) = false ->
  certifies c (t_vs t).
Proof.
  intros Hinv Hc Hcancel.
  destruct (Tallier_certificate_Some _ _ _ Hinv Hc) as (Hq & Hb & Hh & Hr & Hbm & Hagg).
  pose proof (tally_signers _ _ Hinv) as Hperm. rewrite Hbm in Hcancel.
  assert (Hkeys : keys_of (t_vs t) (signers (t_vs t) (t_bitmap t)) ≡ₚ t_pubkeys t).
  { rewrite (ti_keys _ _ Hinv). by apply keys_of_perm. }
  unfold certifies. rewrite Hbm, Hb, Hh, Hr. split_and!.
  - intros i Hi. rewrite (ti_bitmap _ _ Hinv), bool_decide_eq_true in Hi. by eapply tally_idx_lt.
  - rewrite (weight_perm _ _ _ Hperm), <-(ti_stake _ _ Hinv). done.
  - intros Hnil. rewrite Hnil in Hkeys. apply Permutation_nil_l in Hkeys.
    pose proof (tally_log_keys _ _ Hinv) as Hf. rewrite <-Hkeys in Hf.
    apply Forall2_nil_inv_r in Hf. rewrite (ti_sigs _ _ Hinv) in Hf.
    apply fmap_nil_inv in Hf. subst. rewrite (ti_stake _ _ Hinv) in Hq.
    change (weight _ _) with 0 in Hq. pose proof (quorum_threshold_pos (t_vs t)). lia.
  - rewrite (blst_fast_aggregate_perm _ _ _ _ Hkeys).
    eapply blst_aggregate_verifies; [by eapply tally_log_keys|done|].
    by rewrite <-(blst_pks_cancel_perm _ _ Hkeys).
Qed.
End certificates.

(** ** Quorum intersection *)
Section quorums.
Context `{Primitives}.

Lemma signers_overlap vs b1 b2 :
  vs_wf vs -> total_stake vs < 9223372036854775808 ->
  quorum_threshold vs <= weight (stake_at vs) (signers vs b1) ->
  quorum_threshold vs <= weight (stake_at vs) (signers vs b2) ->
  total_stake vs < 3 * weight (stake_at vs) (signers vs (N.land b1 b2)).
Proof.
  intros Hwf Hlt. rewrite (quorum_threshold_small _ Hlt). intros H1 H2.
  pose proof (weight_filter_overlap (stake_at vs)
    (fun j => N.testbit b1 j = true) (fun j => N.testbit b2 j = true)
    (positions 0 (length (validators vs)))) as Ho.
  rewrite weight_all_stakes, <-(vs_total vs Hwf) in Ho.
  replace (filter (fun i => N.testbit b1 i = true /\ N.testbit b2 i = true)
    (positions 0 (length (validators vs)))) with (signers vs (N.land b1 b2)) in Ho.
  - unfold signers, signers_from in *. div_lia.
  - unfold signers, signers_from. apply list_filter_iff. intros i. by rewrite N.land_spec, andb_true_iff.
Qed.
End quorums.
