(* ===== verification/Coordinator.v ===== *)
(** * Coordinator: one height through propose, PRE-VOTE, PRE-COMMIT

    Models [src/crates/aii-consensus-bft/src/coordinator.rs].  A method that
    takes [&mut self] is a function from the state to the new state and the
    outcome; an [expect] that would fire is the outcome [Panic]. *)
From stdpp Require Import base tactics gmap numbers list.
From Stdlib Require Import NArith Lia.
From S2P Require Import Prelude Bytes Crypto Bft BftFacts.

Section coordinator.
Context `{Primitives}.

Record LockedState := mkLocked {
  l_block_hash : H256;
  l_round : N;
  l_polc : PolcCertificate
}.

Record RoundCoordinator := mkCoordinator {
  height : N;
  round : N;
  phase : Phase;
  vs : ValidatorSet;
  seed : array 32;
  proposed_block : option H256;
  prevote_tally : option PrevoteTallier;
  precommit_tally : option PrecommitTallier;
  polc : option PolcCertificate;
  locked : option LockedState;
  final_cert : option PrecommitCertificate
}.

Definition Coordinator_new (height : N) (seed : array 32) (vs : ValidatorSet)
    : RoundCoordinator :=
  mkCoordinator height 0 AwaitingProposal vs seed None None None None None None.

Definition leader_index (self : RoundCoordinator) : nat :=
  select_leader (vs self) (height self) (round self) (seed self).

Definition with_proposal (self : RoundCoordinator) (block_hash : H256) : RoundCoordinator :=
  mkCoordinator (height self) (round self) Prevoting (vs self) (seed self)
    (Some block_hash)
    (Some (PrevoteTallier_new block_hash (height self) (round self) (vs self)))
    (precommit_tally self) (polc self) (locked self) (final_cert self).

Definition submit_proposal (self : RoundCoordinator) (block_hash : H256)
    (leader_proof : LeaderProof) : RoundCoordinator * res BftError unit :=
  let checked : res BftError unit :=
    _ ← guard_err (negb (bool_decide (phase self = AwaitingProposal)))
          (WrongPhase AwaitingProposal (phase self));
    leader ← expect (validators (vs self) !! leader_index self);
    LeaderProof_verify leader_proof (v_vrf_pubkey leader) (height self) (round self) (seed self)
  in
  match checked with
  | Ok _ => (with_proposal self block_hash, Ok tt)
  | Err e => (self, Err e)
  | Panic => (self, Panic)
  end.

Definition with_prevote_tally (self : RoundCoordinator) (t : PrevoteTallier)
    : RoundCoordinator :=
  mkCoordinator (height self) (round self) (phase self) (vs self) (seed self)
    (proposed_block self) (Some t) (precommit_tally self) (polc self) (locked self)
    (final_cert self).

Definition with_precommit_tally (self : RoundCoordinator) (t : PrecommitTallier)
    : RoundCoordinator :=
  mkCoordinator (height self) (round self) (phase self) (vs self) (seed self)
    (proposed_block self) (prevote_tally self) (Some t) (polc self) (locked self)
    (final_cert self).

(** [self.locked.as_ref().is_none_or(|prev| self.round >= prev.round)] *)
Definition supersedes (self : RoundCoordinator) : bool :=
  match locked self with
  | None => true
  | Some prev => l_round prev <=? round self
  end.

(** The mutations of the quorum branch of [submit_prevote]. *)
Definition enter_precommit (self : RoundCoordinator) (block : H256) (p : PolcCertificate)
    : RoundCoordinator :=
  mkCoordinator (height self) (round self) Precommitting (vs self) (seed self)
    (proposed_block self) (prevote_tally self)
    (Some (PrecommitTallier_new block (height self) (round self) (vs self)))
    (Some p)
    (if supersedes self then Some (mkLocked block (round self) p) else locked self)
    (final_cert self).

Definition submit_prevote (self : RoundCoordinator) (v : PrevoteVote)
    : RoundCoordinator * res BftError unit :=
  if negb (bool_decide (phase self = Prevoting))
  then (self, Err (WrongPhase Prevoting (phase self)))
  else
    match prevote_tally self with
    | None => (self, Panic)
    | Some tally =>
        let '(tally, state) := PrevoteTallier_submit tally v in
        let self := with_prevote_tally self tally in
        match state with
        | Err e => (self, Err e)
        | Panic => (self, Panic)
        | Ok Accepted => (self, Ok tt)
        | Ok ReachedQuorum =>
            match try_form_polc tally, proposed_block self with
            | Some p, Some block => (enter_precommit self block p, Ok tt)
            | _, _ => (self, Panic)
            end
        end
    end.

Definition commit (self : RoundCoordinator) (cert : PrecommitCertificate)
    : RoundCoordinator :=
  mkCoordinator (height self) (round self) Committed (vs self) (seed self)
    (proposed_block self) (prevote_tally self) (precommit_tally self) (polc self)
    (locked self) (Some cert).

Definition submit_precommit (self : RoundCoordinator) (v : PrecommitVote)
    : RoundCoordinator * res BftError unit :=
  if negb (bool_decide (phase self = Precommitting))
  then (self, Err (WrongPhase Precommitting (phase self)))
  else
    match precommit_tally self with
    | None => (self, Panic)
    | Some tally =>
        let '(tally, state) := PrecommitTallier_submit tally v in
        let self := with_precommit_tally self tally in
        match state with
        | Err e => (self, Err e)
        | Panic => (self, Panic)
        | Ok Accepted => (self, Ok tt)
        | Ok ReachedQuorum =>
            match try_finalize tally with
            | Some cert => (commit self cert, Ok tt)
            | None => (self, Panic)
            end
        end
    end.

Definition fire_timeout (self : RoundCoordinator) : RoundCoordinator :=
  if bool_decide (phase self = Committed) then self
  else
    mkCoordinator (height self) (saturating_add u32_mod (round self) 1) AwaitingProposal
      (vs self) (seed self) None None None None (locked self) (final_cert self).

(** ** Events and runs *)

Inductive event :=
| EProposal (block_hash : H256) (pf : LeaderProof)
| EPrevote (v : PrevoteVote)
| EPrecommit (v : PrecommitVote)
| ETimeout.

Definition handle (self : RoundCoordinator) (e : event)
    : RoundCoordinator * res BftError unit :=
  match e with
  | EProposal b pf => submit_proposal self b pf
  | EPrevote v => submit_prevote self v
  | EPrecommit v => submit_precommit self v
  | ETimeout => (fire_timeout self, Ok tt)
  end.

Definition coordinator_step (c c' : RoundCoordinator) : Prop :=
  exists e, c' = (handle c e).1.

Inductive reachable (h : N) (s : array 32) (v : ValidatorSet) : RoundCoordinator -> Prop :=
| reachable_new : reachable h s v (Coordinator_new h s v)
| reachable_step c c' : reachable h s v c -> coordinator_step c c' -> reachable h s v c'.

Definition run (c : RoundCoordinator) (es : list event) : RoundCoordinator :=
  foldl (fun c e => (handle c e).1) c es.

(** ** The invariant *)

(** A tallier of this coordinator's round, below or at quorum. *)
Definition tally_of {k} (c : RoundCoordinator) (b : H256) (t : Tallier k) : Prop :=
  t_block_hash t = b /\ t_height t = height c /\ t_round t = round c /\ t_vs t = vs c /\
  exists log, tally_inv t log.

(** A certificate of this height issued by a tallier that reached quorum. *)
Definition cert_of {k} (c : RoundCoordinator) (b : H256) (r : N) (cert : Certificate k) : Prop :=
  c_block_hash cert = b /\ c_height cert = height c /\ c_round cert = r /\
  exists (t : Tallier k) log, tally_inv t log /\ t_vs t = vs c /\
    Tallier_certificate t = Some cert.

Definition phase_inv (c : RoundCoordinator) : Prop :=
  match phase c with
  | AwaitingProposal =>
      proposed_block c = None /\ prevote_tally c = None /\ precommit_tally c = None /\
      polc c = None /\ final_cert c = None
  | Prevoting =>
      exists b t, proposed_block c = Some b /\ prevote_tally c = Some t /\ tally_of c b t /\
        precommit_tally c = None /\ polc c = None /\ final_cert c = None
  | Precommitting =>
      exists b t p, proposed_block c = Some b /\ precommit_tally c = Some t /\ tally_of c b t /\
        polc c = Some p /\ cert_of c b (round c) p /\ final_cert c = None
  | Committed =>
      exists b p cert, proposed_block c = Some b /\ polc c = Some p /\
        cert_of c b (round c) p /\ final_cert c = Some cert /\ cert_of c b (round c) cert
  end.

Definition locked_inv (c : RoundCoordinator) : Prop :=
  forall l, locked c = Some l ->
    l_round l <= round c /\ cert_of c (l_block_hash l) (l_round l) (l_polc l).

Record coord_inv (c : RoundCoordinator) : Prop := {
  ci_vs : vs_wf (vs c);
  ci_round : round c < u32_mod;
  ci_phase : phase_inv c;
  ci_locked : locked_inv c;
  ci_polc_locked : forall p, polc c = Some p ->
    exists l, locked c = Some l /\ l_round l = round c /\ l_polc l = p
}.

(** ** The abstract machine *)

(** What an observer sees: the round and, in it, the phase and the block. *)
Record view := mkView { view_round : N; view_phase : Phase; view_block : option H256 }.

Definition view_of (c : RoundCoordinator) : view :=
  mkView (round c) (phase c) (proposed_block c).

Inductive view_step : view -> view -> Prop :=
| vstep_stay w : view_step w w
| vstep_propose r b : view_step (mkView r AwaitingProposal None) (mkView r Prevoting (Some b))
| vstep_lock r b : view_step (mkView r Prevoting (Some b)) (mkView r Precommitting (Some b))
| vstep_commit r b : view_step (mkView r Precommitting (Some b)) (mkView r Committed (Some b))
| vstep_timeout r ph b : ph <> Committed ->
    view_step (mkView r ph b) (mkView (N.min (r + 1) (u32_mod - 1)) AwaitingProposal None).
End coordinator.
