(* ===== verification/CoordinatorFacts.v ===== *)
(** * CoordinatorFacts: the invariant of a round and what follows from it

    Every event preserves [coord_inv] from a fresh coordinator on, no [expect]
    of the source fires, and the view of a run follows [view_step]. *)
From stdpp Require Import base tactics gmap numbers list.
From Stdlib Require Import NArith Lia.
From S2P Require Import Prelude Bytes Crypto Bft BftFacts Coordinator.

Section facts.
Context `{HL : PrimitiveLaws}.
Implicit Types (c : RoundCoordinator).

Lemma coord_inv_new h s v : vs_wf v -> coord_inv (Coordinator_new h s v).
Proof. intros Hwf. split; cbn; try done. Qed.

Lemma supersedes_inv c : locked_inv c -> supersedes c = true.
Proof.
  intros Hl. unfold supersedes. destruct (locked c) as [l|] eqn:E; [|done].
  apply N.leb_le. by destruct (Hl l E).
Qed.

Lemma cert_of_tally {k} c b (t : Tallier k) log cert :
  tally_inv t log -> Tallier_certificate t = Some cert ->
  t_block_hash t = b -> t_height t = height c -> t_round t = round c -> t_vs t = vs c ->
  cert_of c b (round c) cert.
Proof.
  intros Hinv Hc Hb Hh Hr Hv.
  destruct (Tallier_certificate_Some _ _ _ Hinv Hc) as (_ & H1 & H2 & H3 & _).
  unfold cert_of. rewrite H1, H2, H3. repeat split; try congruence. eauto.
Qed.

(** A submission that returns leaves a tallier of the same coordinates. *)
Lemma tally_of_submit {k} c b (t : Tallier k) v :
  tally_of c b t -> tally_of c b (Tallier_submit t v).1.
Proof.
  intros (Hb & Hh & Hr & Hv & log & Hinv). unfold tally_of.
  destruct (Tallier_submit_const t v) as (-> & -> & -> & ->).
  repeat split; try done. eexists. by apply Tallier_submit_log.
Qed.

Lemma tally_of_new c {k} b :
  vs_wf (vs c) -> tally_of c b (Tallier_new k b (height c) (round c) (vs c)).
Proof. intros. repeat split. exists []. by apply Tallier_new_inv. Qed.

(** The outcome of a submission decides whether the tally is at quorum. *)
Lemma Tallier_submit_reached {k} (t : Tallier k) v t' :
  Tallier_submit t v = (t', Ok ReachedQuorum) ->
  quorum_threshold (t_vs t') <= stake_collected t'.
Proof.
  rewrite Tallier_submit_state. destruct (check_vote t v) as [val| |]; intros [=<- Hq].
  case_match eqn:Hle; [|done]. by apply N.leb_le in Hle.
Qed.

Lemma Tallier_submit_no_panic {k} (t : Tallier k) v : (Tallier_submit t v).2 <> Panic.
Proof.
  rewrite Tallier_submit_state. pose proof (check_vote_no_panic t v).
  by destruct (check_vote t v).
Qed.

(** At quorum the tally of the current round yields its certificate. *)
Lemma tally_of_certificate {k} c b (t : Tallier k) :
  tally_of c b t -> quorum_threshold (t_vs t) <= stake_collected t ->
  exists cert, Tallier_certificate t = Some cert /\ cert_of c b (round c) cert.
Proof.
  intros (Hb & Hh & Hr & Hv & log & Hinv) Hq.
  destruct (tally_quorum_certificate _ _ Hinv Hq) as [cert Hc].
  exists cert. split; [done|]. by eapply cert_of_tally.
Qed.

(** ** Each operation preserves the invariant, without panicking *)

Lemma submit_proposal_inv c b pf :
  coord_inv c ->
  coord_inv (submit_proposal c b pf).1 /\ (submit_proposal c b pf).2 <> Panic.
Proof.
  intros Hinv. unfold submit_proposal.
  destruct (bool_decide_reflect (phase c = AwaitingProposal)) as [Hph|]; [|done]. cbn.
  destruct (select_leader_in (vs c) (height c) (round c) (seed c) (ci_vs c Hinv))
    as (v & Hv & _).
  unfold leader_index. rewrite Hv. cbn.
  unfold LeaderProof_verify. destruct (vrf.verify _ _ _) eqn:Evrf; cbn; [|done|].
  - destruct (bool_decide (a = vrf_output pf)); cbn; [|done].
    split; [|done]. destruct Hinv as [Hwf Hrnd Hphase Hlock Hpl].
    unfold phase_inv in Hphase. rewrite Hph in Hphase. destruct Hphase as (_ & _ & Hpc & Hp & Hf).
    split; cbn; try done. exists b. eexists. rewrite Hpc, Hp, Hf.
    repeat split; try done. exists []. by apply Tallier_new_inv.
  - exfalso. clear -Evrf. unfold vrf.verify in Evrf.
    repeat (apply bind_Panic in Evrf as [Evrf|(? & ? & Evrf)];
      [unfold ok_or in Evrf; by case_match|]). done.
Qed.

Lemma submit_prevote_inv c v :
  coord_inv c -> coord_inv (submit_prevote c v).1 /\ (submit_prevote c v).2 <> Panic.
Proof.
  intros Hinv. unfold submit_prevote.
  destruct (bool_decide_reflect (phase c = Prevoting)) as [Hph|]; [|done]. cbn.
  destruct Hinv as [Hwf Hrnd Hphase Hlock Hpl].
  unfold phase_inv in Hphase. rewrite Hph in Hphase.
  destruct Hphase as (b & t & Hb & Ht & Htally & Hpc & Hp & Hf). rewrite Ht.
  unfold PrevoteTallier_submit.
  pose proof (tally_of_submit c b t v Htally) as Htally'.
  pose proof (Tallier_submit_no_panic t v) as Hnp.
  assert (Hstay : coord_inv (with_prevote_tally c (Tallier_submit t v).1)).
  { split; cbn; try done. unfold phase_inv. cbn. rewrite Hph. exists b. eauto 10. }
  destruct (Tallier_submit t v) as [t' r] eqn:E. cbn in *.
  destruct r as [[]| |]; cbn; try done.
  apply Tallier_submit_reached in E.
  destruct (tally_of_certificate c b t' Htally' E) as (cert & Hcert & Hof).
  unfold try_form_polc. rewrite Hcert, Hb. cbn. split; [|done].
  unfold enter_precommit. cbn. rewrite (supersedes_inv (with_prevote_tally c t') Hlock).
  split; cbn; try done.
  - exists b, (PrecommitTallier_new b (height c) (round c) (vs c)), cert.
    repeat split; try done; try apply Hof. exists []. by apply Tallier_new_inv.
  - intros l [= <-]. cbn. split; [lia|done].
  - intros p [= <-]. eexists. split; [done|]. by cbn.
Qed.

Lemma submit_precommit_inv c v :
  coord_inv c -> coord_inv (submit_precommit c v).1 /\ (submit_precommit c v).2 <> Panic.
Proof.
  intros Hinv. unfold submit_precommit.
  destruct (bool_decide_reflect (phase c = Precommitting)) as [Hph|]; [|done]. cbn.
  destruct Hinv as [Hwf Hrnd Hphase Hlock Hpl].
  unfold phase_inv in Hphase. rewrite Hph in Hphase.
  destruct Hphase as (b & t & p & Hb & Ht & Htally & Hp & Hpof & Hf). rewrite Ht.
  unfold PrecommitTallier_submit.
  pose proof (tally_of_submit c b t v Htally) as Htally'.
  pose proof (Tallier_submit_no_panic t v) as Hnp.
  assert (Hstay : coord_inv (with_precommit_tally c (Tallier_submit t v).1)).
  { split; cbn; try done. unfold phase_inv. cbn. rewrite Hph. exists b. eauto 10. }
  destruct (Tallier_submit t v) as [t' r] eqn:E. cbn in *.
  destruct r as [[]| |]; cbn; try done.
  apply Tallier_submit_reached in E.
  destruct (tally_of_certificate c b t' Htally' E) as (cert & Hcert & Hof).
  unfold try_finalize. rewrite Hcert. cbn. split; [|done].
  split; cbn; try done. exists b, p, cert. cbn. split_and!; done.
Qed.

Lemma fire_timeout_inv c : coord_inv c -> coord_inv (fire_timeout c).
Proof.
  intros [Hwf Hrnd Hphase Hlock Hpl]. unfold fire_timeout.
  case_bool_decide as Hph; [by split|].
  assert (Hfc : final_cert c = None).
  { unfold phase_inv in Hphase. destruct (phase c); naive_solver. }
  split; cbn; try done.
  - unfold saturating_add. lia.
  - intros l Hl. destruct (Hlock l Hl) as [Hle Hof]. split; [|done].
    unfold saturating_add. cbn. lia.
Qed.

Lemma handle_inv c e : coord_inv c -> coord_inv (handle c e).1 /\ (handle c e).2 <> Panic.
Proof.
  intros Hinv. destruct e; cbn [handle].
  - by apply submit_proposal_inv.
  - by apply submit_prevote_inv.
  - by apply submit_precommit_inv.
  - split; [by apply fire_timeout_inv|done].
Qed.

Lemma reachable_inv h s v c : vs_wf v -> reachable h s v c -> coord_inv c.
Proof.
  intros Hwf. induction 1 as [|c c' _ IH [e ->]]; [by apply coord_inv_new|].
  by apply handle_inv.
Qed.

Lemma submit_proposal_cases c b pf :
  (phase c = AwaitingProposal /\ (submit_proposal c b pf).1 = with_proposal c b) \/
  (submit_proposal c b pf).1 = c.
Proof.
  unfold submit_proposal.
  destruct (bool_decide_reflect (phase c = AwaitingProposal)); [|by right].
  case_match; [by left|by right..].
Qed.

(** ** The coordinates of a run *)

Lemma handle_const c e :
  height (handle c e).1 = height c /\ vs (handle c e).1 = vs c /\ seed (handle c e).1 = seed c.
Proof.
  destruct e; cbn [handle].
  - by destruct (submit_proposal_cases c block_hash pf) as [[_ ->]| ->].
  - unfold submit_prevote. repeat case_match; done.
  - unfold submit_precommit. repeat case_match; done.
  - cbn. unfold fire_timeout. by case_match.
Qed.

Lemma run_invariant c es :
  coord_inv c ->
  coord_inv (run c es) /\ height (run c es) = height c /\ vs (run c es) = vs c.
Proof.
  revert c. induction es as [|e es IH]; intros c Hci; [done|].
  destruct (IH (handle c e).1 (proj1 (handle_inv c e Hci))) as (? & Hh & Hv).
  destruct (handle_const c e) as (Hh' & Hv' & _). unfold run in *. cbn. split_and!; congruence || done.
Qed.

Lemma reachable_const h s v c : reachable h s v c -> height c = h /\ vs c = v /\ seed c = s.
Proof.
  induction 1 as [|c c' _ IH [e ->]]; [done|]. pose proof (handle_const c e). naive_solver.
Qed.

Lemma run_reachable h s v es c : reachable h s v c -> reachable h s v (run c es).
Proof.
  revert c. induction es as [|e es IH]; intros c Hc; [done|].
  apply (IH (handle c e).1). eapply reachable_step; [done|]. by exists e.
Qed.

(** ** The view follows the abstract machine *)
Lemma handle_view c e : coord_inv c -> view_step (view_of c) (view_of (handle c e).1).
Proof.
  intros Hinv. pose proof (ci_phase c Hinv) as Hphase. unfold phase_inv in Hphase.
  destruct e; cbn [handle].
  - destruct (submit_proposal_cases c block_hash pf) as [[Hph ->]| ->]; [|apply vstep_stay].
    rewrite Hph in Hphase. destruct Hphase as (Hb & _). unfold view_of. cbn. rewrite Hph, Hb.
    apply vstep_propose.
  - unfold submit_prevote. destruct (bool_decide_reflect (phase c = Prevoting)) as [Hph|]; [|constructor].
    cbn. rewrite Hph in Hphase. destruct Hphase as (b & t & Hb & Ht & _). rewrite Ht.
    destruct (PrevoteTallier_submit t v) as [t' [[]| |]]; cbn; try apply vstep_stay.
    destruct (try_form_polc t'); [|apply vstep_stay]. rewrite Hb. cbn.
    unfold view_of. cbn. rewrite Hph, Hb. apply vstep_lock.
  - unfold submit_precommit. destruct (bool_decide_reflect (phase c = Precommitting)) as [Hph|]; [|constructor].
    cbn. rewrite Hph in Hphase. destruct Hphase as (b & t & p & Hb & Ht & _). rewrite Ht.
    destruct (PrecommitTallier_submit t v) as [t' [[]| |]]; cbn; try apply vstep_stay.
    destruct (try_finalize t'); [|apply vstep_stay].
    unfold view_of. cbn. rewrite Hph, Hb. apply vstep_commit.
  - cbn. unfold fire_timeout. case_bool_decide; [apply vstep_stay|].
    unfold view_of. cbn. by apply vstep_timeout.
Qed.

(** A certificate issued at this height under this set passes the verifier. *)
Lemma cert_of_certifies {k} c b r (cert : Certificate k) :
  cert_of c b r cert ->
  blst_pks_cancel (keys_of (vs c) (signers (vs c) (signer_bitmap cert))) = false ->
  certifies cert (vs c).
Proof.
  intros (_ & _ & _ & t & log & Hinv & Hv & Hc). rewrite <-Hv. by eapply tally_certificate_certifies.
Qed.
End facts.

(** ** Driving a round to its end *)
Section progress.
Context `{HL : PrimitiveLaws}.
Implicit Types (c : RoundCoordinator).

Definition signed_by (k : vote_kind) (sk : N -> bls_sk) (b : H256) (h r : N) (idx : list N)
    : list (vote k) :=
  (fun i => vote_sign k (sk i) b h r i) <$> idx.

(** [sk] holds the keys of the validators at the positions [idx]. *)
Definition holds_keys (v : ValidatorSet) (sk : N -> bls_sk) (idx : list N) : Prop :=
  Forall (fun i => exists val, get v i = Some val /\ v_bls_pubkey val = bls.public_key (sk i)) idx.

Lemma signed_valid {k} (t : Tallier k) sk i b h r :
  t_block_hash t = b -> t_height t = h -> t_round t = r ->
  (exists val, get (t_vs t) i = Some val /\ v_bls_pubkey val = bls.public_key (sk i)) ->
  valid_vote t (vote_sign k (sk i) b h r i).
Proof.
  intros <- <- <- (val & Hg & Hk). repeat split. exists val. split; [done|].
  rewrite Hk. apply blst_sign_verify.
Qed.

(** One more signed vote: the tally grows by the stake of the voter. *)
Lemma Tallier_submit_signed {k} (t : Tallier k) log sk i b h r :
  tally_inv t log -> t_block_hash t = b -> t_height t = h -> t_round t = r ->
  (exists val, get (t_vs t) i = Some val /\ v_bls_pubkey val = bls.public_key (sk i)) ->
  i ∉ vote_index <$> log ->
  exists t', Tallier_submit t (vote_sign k (sk i) b h r i) =
      (t', Ok (if quorum_threshold (t_vs t) <=? stake_collected t + stake_at (t_vs t) i
               then ReachedQuorum else Accepted)) /\
    tally_inv t' (log ++ [vote_sign k (sk i) b h r i]) /\
    stake_collected t' = stake_collected t + stake_at (t_vs t) i.
Proof.
  intros Hinv Hb Hh Hr Hkey Hni. set (v := vote_sign k (sk i) b h r i).
  pose proof (signed_valid t sk i b h r Hb Hh Hr Hkey) as Hval.
  destruct Hkey as (val & Hg & _).
  assert (Hc : check_vote t v = Ok val).
  { apply check_vote_Ok. split_and!; [done| |done].
    rewrite (ti_received _ _ Hinv). set_solver. }
  pose proof (accept_vote_inv _ _ _ _ Hinv Hc) as Hinv'.
  assert (Hst : stake_collected (accept_vote t v val) = stake_collected t + stake_at (t_vs t) i).
  { rewrite (ti_stake _ _ Hinv'), fmap_app, weight_app, (ti_stake _ _ Hinv).
    change (vote_index <$> [v]) with [i]. rewrite weight_cons, weight_nil. cbn [t_vs accept_vote]. lia. }
  exists (accept_vote t v val). split_and!; [|done|done].
  unfold Tallier_submit. rewrite Hc. cbn zeta. by rewrite Hst.
Qed.

(** A tally of the current round that has not reached quorum. *)
Record tally_at {k} c b (t : Tallier k) (log : list (vote k)) : Prop := {
  ta_inv : tally_inv t log;
  ta_block : t_block_hash t = b;
  ta_height : t_height t = height c;
  ta_round : t_round t = round c;
  ta_vs : t_vs t = vs c;
  ta_below : stake_collected t < quorum_threshold (vs c)
}.

Lemma tally_at_submit {k} c b (t : Tallier k) log sk i :
  let v := vote_sign k (sk i) b (height c) (round c) i in
  tally_at c b t log ->
  (exists val, get (vs c) i = Some val /\ v_bls_pubkey val = bls.public_key (sk i)) ->
  i ∉ vote_index <$> log ->
  (exists t', Tallier_submit t v = (t', Ok ReachedQuorum)) \/
  (exists t', Tallier_submit t v = (t', Ok Accepted) /\ tally_at c b t' (log ++ [v]) /\
     stake_collected t' = stake_collected t + stake_at (vs c) i).
Proof.
  intros v [Hinv Hb Hh Hr Hv Hlt] Hkey Hni. rewrite <-Hv in Hkey.
  destruct (Tallier_submit_signed t log sk i b _ _ Hinv Hb Hh Hr Hkey Hni)
    as (t' & Hsub & Hinv' & Hst).
  pose proof (Tallier_submit_const t v) as Hc. fold v in Hsub. rewrite Hsub in Hc. cbn in Hc.
  destruct Hc as (H1 & H2 & H3 & H4). rewrite Hv in *.
  destruct (N.leb_spec (quorum_threshold (vs c)) (stake_collected t + stake_at (vs c) i)).
  - left. eauto.
  - right. exists t'. split; [done|]. split; [|done]. split; congruence || done || lia.
Qed.

Lemma tally_at_new {k} c b :
  vs_wf (vs c) -> tally_at c b (Tallier_new k b (height c) (round c) (vs c)) [].
Proof.
  intros Hwf. split; [by apply Tallier_new_inv|done..|]. cbn.
  pose proof (quorum_threshold_pos (vs c)). lia.
Qed.

(** A vote sent in another phase is refused and changes nothing. *)
Lemma submit_prevote_wrong_phase c v :
  phase c <> Prevoting -> submit_prevote c v = (c, Err (WrongPhase Prevoting (phase c))).
Proof. intros. unfold submit_prevote. by rewrite bool_decide_eq_false_2. Qed.

Lemma submit_precommit_wrong_phase c v :
  phase c <> Precommitting ->
  submit_precommit c v = (c, Err (WrongPhase Precommitting (phase c))).
Proof. intros. unfold submit_precommit. by rewrite bool_decide_eq_false_2. Qed.

Lemma run_cons c e es : run c (e :: es) = run (handle c e).1 es.
Proof. done. Qed.

Lemma run_app c es es' : run c (es ++ es') = run (run c es) es'.
Proof. apply foldl_app. Qed.

Lemma run_prevotes_idle c (votes : list PrevoteVote) :
  phase c <> Prevoting -> run c (EPrevote <$> votes) = c.
Proof.
  intros Hph. induction votes as [|v votes IH]; [done|].
  rewrite fmap_cons, run_cons. cbn. by rewrite submit_prevote_wrong_phase.
Qed.

Lemma run_precommits_idle c (votes : list PrecommitVote) :
  phase c <> Precommitting -> run c (EPrecommit <$> votes) = c.
Proof.
  intros Hph. induction votes as [|v votes IH]; [done|].
  rewrite fmap_cons, run_cons. cbn. by rewrite submit_precommit_wrong_phase.
Qed.

Lemma run_prevotes c b t log sk idx :
  phase c = Prevoting -> proposed_block c = Some b -> prevote_tally c = Some t ->
  tally_at c b t log -> coord_inv c ->
  holds_keys (vs c) sk idx -> NoDup ((vote_index <$> log) ++ idx) ->
  quorum_threshold (vs c) <= stake_collected t + weight (stake_at (vs c)) idx ->
  view_of (run c (EPrevote <$> signed_by KPrevote sk b (height c) (round c) idx)) =
    mkView (round c) Precommitting (Some b).
Proof.
  revert c t log. induction idx as [|i idx IH]; intros c t log Hph Hb Ht Hta Hci Hkeys Hnd Hq.
  { change (weight _ []) with 0 in Hq. pose proof (ta_below _ _ _ _ Hta). lia. }
  inversion Hkeys as [|? ? Hi Hkeys']; subst. rewrite weight_cons in Hq.
  unfold signed_by. rewrite !fmap_cons, run_cons. cbn [handle].
  set (v := vote_sign KPrevote (sk i) b (height c) (round c) i).
  destruct (submit_prevote_inv c v Hci) as [Hci' Hnp]. revert Hci' Hnp.
  unfold submit_prevote. rewrite bool_decide_eq_true_2, Ht by done. cbn [negb].
  unfold PrevoteTallier_submit.
  destruct (tally_at_submit c b t log sk i Hta Hi) as [[t' Hs]|(t' & Hs & Hta' & Hst)];
    [apply NoDup_app in Hnd; set_solver| |]; fold v in Hs; rewrite Hs; cbn.
  - rewrite Hb. destruct (try_form_polc t'); cbn; [|done]. intros _ _.
    rewrite run_prevotes_idle by done. unfold view_of. cbn. by rewrite Hb.
  - intros Hci' _. apply (IH (with_prevote_tally c t') t' (log ++ [v])); cbn; try done.
    + by destruct Hta'.
    + by rewrite fmap_app, <-app_assoc.
    + lia.
Qed.

Lemma run_precommits c b t log sk idx :
  phase c = Precommitting -> proposed_block c = Some b -> precommit_tally c = Some t ->
  tally_at c b t log -> coord_inv c ->
  holds_keys (vs c) sk idx -> NoDup ((vote_index <$> log) ++ idx) ->
  quorum_threshold (vs c) <= stake_collected t + weight (stake_at (vs c)) idx ->
  view_of (run c (EPrecommit <$> signed_by KPrecommit sk b (height c) (round c) idx)) =
    mkView (round c) Committed (Some b).
Proof.
  revert c t log. induction idx as [|i idx IH]; intros c t log Hph Hb Ht Hta Hci Hkeys Hnd Hq.
  { change (weight _ []) with 0 in Hq. pose proof (ta_below _ _ _ _ Hta). lia. }
  inversion Hkeys as [|? ? Hi Hkeys']; subst. rewrite weight_cons in Hq.
  unfold signed_by. rewrite !fmap_cons, run_cons. cbn [handle].
  set (v := vote_sign KPrecommit (sk i) b (height c) (round c) i).
  destruct (submit_precommit_inv c v Hci) as [Hci' Hnp]. revert Hci' Hnp.
  unfold submit_precommit. rewrite bool_decide_eq_true_2, Ht by done. cbn [negb].
  unfold PrecommitTallier_submit.
  destruct (tally_at_submit c b t log sk i Hta Hi) as [[t' Hs]|(t' & Hs & Hta' & Hst)];
    [apply NoDup_app in Hnd; set_solver| |]; fold v in Hs; rewrite Hs; cbn.
  - destruct (try_finalize t'); cbn; [|done]. intros _ _.
    rewrite run_precommits_idle by done. unfold view_of. cbn. by rewrite Hb.
  - intros Hci' _. apply (IH (with_precommit_tally c t') t' (log ++ [v])); cbn; try done.
    + by destruct Hta'.
    + by rewrite fmap_app, <-app_assoc.
    + lia.
Qed.

(** What a coordinator in [Precommitting] with an empty tally looks like. *)
Lemma run_prevotes_tally c b t sk idx :
  phase c = Prevoting -> proposed_block c = Some b -> prevote_tally c = Some t ->
  phase (run c (EPrevote <$> signed_by KPrevote sk b (height c) (round c) idx)) = Precommitting ->
  precommit_tally (run c (EPrevote <$> signed_by KPrevote sk b (height c) (round c) idx)) =
    Some (PrecommitTallier_new b (height c) (round c) (vs c)).
Proof.
  revert c t. induction idx as [|i idx IH]; intros c t Hph Hb Ht; [cbn; congruence|].
  unfold signed_by. rewrite !fmap_cons, run_cons. cbn [handle].
  unfold submit_prevote. rewrite bool_decide_eq_true_2, Ht by done. cbn [negb].
  destruct (PrevoteTallier_submit t _) as [t' [[]| |]]; cbn.
  - apply (IH (with_prevote_tally c t') t'); done.
  - rewrite Hb. destruct (try_form_polc t'); cbn.
    + rewrite run_prevotes_idle by done. done.
    + apply (IH (with_prevote_tally c t') t'); done.
  - apply (IH (with_prevote_tally c t') t'); done.
  - apply (IH (with_prevote_tally c t') t'); done.
Qed.
End progress.
