(* ===== verification/Demo.v ===== *)
(** * Demo: a concrete validator set and its keys

    Four validators with stakes 10, 20, 30 and 40 over the [Toy] primitives: the
    concrete input of the witnesses. *)
From stdpp Require Import base tactics gmap numbers list.
From Stdlib Require Import NArith Lia.
From S2P Require Import Prelude Bytes Crypto Bft BftFacts Coordinator CoordinatorFacts.

Module Demo.
Export Toy.

Definition sk (i : N) : array 48 := be_array 48 (i + 1).
Definition vsk (i : N) : array 32 := be_array 32 (i + 100).
Definition validator (i stake : N) : Validator := mkValidator (sk i) (vsk i) stake.
Definition vset : ValidatorSet :=
  mkValidatorSet [validator 0 10; validator 1 20; validator 2 30; validator 3 40] 100.
Definition seed0 : array 32 := be_array 32 7.
Definition block_a : H256 := be_array 32 11.
Definition block_b : H256 := be_array 32 12.

Lemma vset_wf : vs_wf vset.
Proof. split; [discriminate|by vm_compute..]. Qed.

(** The validators 1, 2 and 3 hold 90 of the 100 units. *)
Definition quorum : list N := [1; 2; 3].
Definition prevotes (b : H256) : list PrevoteVote := signed_by KPrevote sk b 5 0 quorum.
Definition precommits (b : H256) : list PrecommitVote := signed_by KPrecommit sk b 5 0 quorum.

Definition coord0 : RoundCoordinator := Coordinator_new 5 seed0 vset.
Definition leader0 : N := 0.

Lemma leader0_index : leader_index coord0 = N.to_nat leader0.
Proof. by vm_compute. Qed.

Definition proof0 : LeaderProof := LeaderProof_produce (vsk leader0) 5 0 seed0.

Definition round0 (b : H256) : list event :=
  EProposal b proof0 :: (EPrevote <$> prevotes b) ++ (EPrecommit <$> precommits b).

Lemma holds_quorum : holds_keys vset sk quorum.
Proof. repeat constructor; eexists; split; reflexivity. Qed.

(** The PRE-COMMIT tally of the quorum and its certificate. *)
Definition tally (b : H256) : PrecommitTallier :=
  submit_all (Tallier_new KPrecommit b 5 0 vset) (precommits b).
Definition cert (b : H256) : PrecommitCertificate :=
  default (mkCertificate KPrecommit b 5 0 0 (zero_array 96)) (Tallier_certificate (tally b)).

(** A set whose total stake does not fit in 63 bits. *)
Definition heavy : ValidatorSet :=
  mkValidatorSet [validator 0 9223372036854775807; validator 1 1] 9223372036854775808.

Lemma heavy_wf : vs_wf heavy.
Proof. split; [discriminate|by vm_compute..]. Qed.

Definition committed (b : H256) : RoundCoordinator := run coord0 (round0 b).

Lemma committed_reachable b : reachable 5 seed0 vset (committed b).
Proof. unfold committed. apply run_reachable, reachable_new. Qed.
(** A PRE-VOTE in the name of validator 1 that nobody signed. *)
Definition forged : PrevoteVote := mkVote KPrevote block_a 5 0 1 (zero_array 96).
(** Validator 1 votes twice in one round. *)
Definition double_vote : list PrevoteVote :=
  [vote_sign KPrevote (sk 1) block_a 5 0 1; vote_sign KPrevote (sk 1) block_b 5 0 1].

Lemma committed_locked : is_Some (locked (committed block_a)).
Proof.
  assert (match locked (committed block_a) with Some _ => true | None => false end = true) as Hl
    by (vm_compute; reflexivity).
  destruct (locked (committed block_a)); [eauto|discriminate Hl].
Qed.
End Demo.
