(* ===== verification/Slashing.v ===== *)
(** * Slashing: equivocation detection and evidence

    Models [src/crates/aii-consensus-bft/src/slashing.rs].  The two maps of the
    detector (PRE-VOTES and PRE-COMMITS) and the two copies of its code are the
    instances of one definition at the phases [KPrevote] and [KPrecommit]. *)
From stdpp Require Import base tactics gmap numbers strings list.
From Stdlib Require Import NArith Lia.
From S2P Require Import Prelude Bytes Crypto Bft BftFacts Demo.

Section slashing.
Context `{Primitives}.

(** [(validator_index, height, round)] *)
Definition vote_key {k} (v : vote k) : N * N * N := (vote_index v, vote_height v, vote_round v).

Inductive EquivocationEvidence :=
| EvPrevote (a b : PrevoteVote)
| EvPrecommit (a b : PrecommitVote).

Inductive SlashingError :=
| SameBlock
| Mismatch (field : string)
| UnknownValidator (index : N)
| InvalidSignature.

Record EquivocationDetector := mkDetector {
  seen_prevote : gmap (N * N * N) PrevoteVote;
  seen_precommit : gmap (N * N * N) PrecommitVote
}.

Definition Detector_new : EquivocationDetector := mkDetector ∅ ∅.

(** Look the key up; a first vote is stored, a conflicting one returns the pair. *)
Definition record_vote {k} (seen : gmap (N * N * N) (vote k)) (v : vote k)
    : gmap (N * N * N) (vote k) * option (vote k * vote k) :=
  match seen !! vote_key v with
  | Some prior =>
      if negb (bool_decide (vote_block_hash prior = vote_block_hash v))
      then (seen, Some (prior, v)) else (seen, None)
  | None => (<[vote_key v := v]> seen, None)
  end.

Definition record_prevote (self : EquivocationDetector) (v : PrevoteVote)
    : EquivocationDetector * option EquivocationEvidence :=
  let '(seen, ev) := record_vote (seen_prevote self) v in
  (mkDetector seen (seen_precommit self), (fun p => EvPrevote p.1 p.2) <$> ev).

Definition record_precommit (self : EquivocationDetector) (v : PrecommitVote)
    : EquivocationDetector * option EquivocationEvidence :=
  let '(seen, ev) := record_vote (seen_precommit self) v in
  (mkDetector (seen_prevote self) seen, (fun p => EvPrecommit p.1 p.2) <$> ev).

(** The checks of [verify] on one pair of votes, in order. *)
Definition verify_pair {k} (a b : vote k) (vs : ValidatorSet) : res SlashingError unit :=
  _ ← guard_err (negb (vote_index a =? vote_index b)) (Mismatch "validator_index");
  _ ← guard_err (negb (vote_height a =? vote_height b)) (Mismatch "height");
  _ ← guard_err (negb (vote_round a =? vote_round b)) (Mismatch "round");
  _ ← guard_err (bool_decide (vote_block_hash a = vote_block_hash b)) SameBlock;
  v ← ok_or (get vs (vote_index a)) (UnknownValidator (vote_index a));
  let da := vote_digest k (vote_block_hash a) (vote_height a) (vote_round a) in
  let db := vote_digest k (vote_block_hash b) (vote_height b) (vote_round b) in
  _ ← map_err (fun _ => InvalidSignature) (bls.verify (vote_sig a) (arr_bytes da) (v_bls_pubkey v));
  map_err (fun _ => InvalidSignature) (bls.verify (vote_sig b) (arr_bytes db) (v_bls_pubkey v)).

Definition Evidence_verify (self : EquivocationEvidence) (vs : ValidatorSet)
    : res SlashingError unit :=
  match self with
  | EvPrevote a b => verify_pair a b vs
  | EvPrecommit a b => verify_pair a b vs
  end.

Definition ev_validator_index (self : EquivocationEvidence) : N :=
  match self with EvPrevote a _ => vote_index a | EvPrecommit a _ => vote_index a end.
Definition ev_height (self : EquivocationEvidence) : N :=
  match self with EvPrevote a _ => vote_height a | EvPrecommit a _ => vote_height a end.
Definition ev_round (self : EquivocationEvidence) : N :=
  match self with EvPrevote a _ => vote_round a | EvPrecommit a _ => vote_round a end.

(** ** The stream of votes and its evidence *)

Fixpoint record_all {k} (seen : gmap (N * N * N) (vote k)) (votes : list (vote k))
    : gmap (N * N * N) (vote k) * list (vote k * vote k) :=
  match votes with
  | [] => (seen, [])
  | v :: votes =>
      let '(seen, ev) := record_vote seen v in
      let '(seen, evs) := record_all seen votes in
      (seen, option_list ev ++ evs)
  end.

(** The specification: the earliest vote with the key of [v], in [votes]. *)
Definition first_like {k} (votes : list (vote k)) (v : vote k) : option (vote k) :=
  head (filter (fun w => vote_key w = vote_key v) votes).

(** [v] conflicts with the earliest vote of its key. *)
Definition conflict {k} (votes : list (vote k)) (v : vote k) : option (vote k * vote k) :=
  w ← first_like votes v;
  if bool_decide (vote_block_hash w = vote_block_hash v) then None else Some (w, v).

(** A genuine vote: signed by the validator of the set that it names. *)
Definition genuine {k} (vs : ValidatorSet) (v : vote k) : Prop :=
  exists val, get vs (vote_index v) = Some val /\
    blst_verify (vote_sig v)
      (arr_bytes (vote_digest k (vote_block_hash v) (vote_height v) (vote_round v)))
      (v_bls_pubkey val) = true.
End slashing.

(** ** Facts *)
Section facts.
Context `{Primitives} {k : vote_kind}.
Implicit Types (v w a b : vote k) (votes : list (vote k)).

(** A map that holds the first vote of every key of [votes]. *)
Definition seen_inv (seen : gmap (N * N * N) (vote k)) votes : Prop :=
  forall v, seen !! vote_key v = first_like votes v.

Lemma seen_inv_empty : seen_inv ∅ [].
Proof. intros v. done. Qed.

Lemma first_like_snoc votes w v :
  first_like (votes ++ [w]) v =
    match first_like votes v with
    | Some u => Some u
    | None => if decide (vote_key w = vote_key v) then Some w else None
    end.
Proof.
  unfold first_like. rewrite filter_app, filter_cons, filter_nil.
  destruct (filter _ votes); [|done]. cbn. by case_decide.
Qed.

Lemma record_vote_spec seen votes v :
  seen_inv seen votes ->
  seen_inv (record_vote seen v).1 (votes ++ [v]) /\
  (record_vote seen v).2 = conflict votes v.
Proof.
  intros Hinv. unfold record_vote, conflict. rewrite (Hinv v).
  destruct (first_like votes v) as [w|] eqn:E; cbn.
  - destruct (bool_decide (vote_block_hash w = vote_block_hash v)); cbn; (split; [|done]).
    all: intros u; rewrite first_like_snoc, (Hinv u); destruct (first_like votes u) eqn:E'; [done|].
    all: case_decide as Hk; [|done]; exfalso; unfold first_like in *; rewrite Hk in E; congruence.
  - split; [|done]. intros u. rewrite first_like_snoc.
    destruct (decide (vote_key v = vote_key u)) as [Hk|Hk].
    + rewrite Hk, lookup_insert_eq. unfold first_like in *. by rewrite <-Hk, E.
    + rewrite lookup_insert_ne, (Hinv u) by done. by destruct (first_like votes u).
Qed.

Lemma record_all_spec seen before votes :
  seen_inv seen before ->
  seen_inv (record_all seen votes).1 (before ++ votes) /\
  (record_all seen votes).2 =
    concat (imap (fun i v => option_list (conflict (before ++ take i votes) v)) votes).
Proof.
  revert seen before. induction votes as [|v votes IH]; intros seen before Hinv.
  { cbn. by rewrite app_nil_r. }
  cbn [record_all]. destruct (record_vote_spec seen before v Hinv) as [Hinv' Hev].
  destruct (record_vote seen v) as [seen' ev]. cbn in *.
  destruct (IH seen' (before ++ [v]) Hinv') as [Hfin Hevs].
  destruct (record_all seen' votes) as [seen'' evs]. cbn in *. rewrite <-app_assoc in Hfin.
  split; [done|]. rewrite app_nil_r. rewrite Hev, Hevs. f_equal. f_equal.
  apply imap_ext. intros i w _. cbn. by rewrite <-app_assoc.
Qed.

Lemma verify_pair_Ok a b vs u :
  verify_pair a b vs = Ok u <->
  vote_key a = vote_key b /\ vote_block_hash a <> vote_block_hash b /\
  genuine vs a /\ genuine vs b.
Proof.
  unfold verify_pair, vote_key, genuine. split.
  - intros Hv. inv_ok.
    repeat match goal with
      | H : negb (_ =? _) = false |- _ => apply negb_false_iff, N.eqb_eq in H
      | H : bool_decide _ = false |- _ => apply bool_decide_eq_false in H
      | H : bls.verify _ _ _ = Ok _ |- _ => apply bls_verify_Ok in H
      end.
    repeat match goal with H : vote_index a = _ |- _ => rewrite H in * end.
    split; [congruence|]. split; [done|]. split; eauto.
  - intros ([= Hi Hh Hr] & Hb & (va & Ha & Hsa) & (vb & Hvb & Hsb)).
    rewrite Hi, Hh, Hr, !N.eqb_refl in *. cbn. rewrite bool_decide_eq_false_2 by done. cbn.
    rewrite Ha. cbn. simplify_eq.
    rewrite (proj2 (bls_verify_Ok _ _ _ tt) Hsa). cbn. destruct u.
    by rewrite (proj2 (bls_verify_Ok _ _ _ tt) Hsb).
Qed.

(** Whatever the detector reports is a pair of one key and two blocks. *)
Lemma conflict_shape votes v a b :
  conflict votes v = Some (a, b) ->
  b = v /\ a ∈ votes /\ vote_key a = vote_key b /\ vote_block_hash a <> vote_block_hash b.
Proof.
  unfold conflict, first_like. intros Hc. apply bind_Some in Hc as (w & Hw & Hc).
  case_bool_decide; [done|]. simplify_eq.
  destruct (filter _ votes) as [|w l] eqn:E; [done|]. cbn in Hw. simplify_eq.
  assert (Hin : a ∈ filter (fun w => vote_key w = vote_key b) votes) by (rewrite E; set_solver).
  apply list_elem_of_filter in Hin as [? ?]. done.
Qed.
End facts.

(** C34. The detector refines its specification: over any stream of votes it
    reports, for each vote in order, exactly the conflict with the earliest vote
    of the same validator, height and round, and it keeps that earliest vote. *)
Theorem detector_reports_conflicts `{Primitives} {k} (votes : list (vote k)) :
  (forall v, (record_all ∅ votes).1 !! vote_key v = first_like votes v) /\
  (record_all ∅ votes).2 =
    concat (imap (fun i v => option_list (conflict (take i votes) v)) votes).
Proof. apply (record_all_spec ∅ []), seen_inv_empty. Qed.

(** Evidence is sound: the verifier accepts a pair exactly when both votes
    name the same validator, height and round, are for different blocks, and are
    genuinely signed by that validator. *)
Theorem evidence_verify_iff `{Primitives} {k} (a b : vote k) (vs : ValidatorSet) :
  verify_pair a b vs = Ok tt <->
  vote_key a = vote_key b /\ vote_block_hash a <> vote_block_hash b /\
  genuine vs a /\ genuine vs b.
Proof. apply verify_pair_Ok. Qed.

(** Masking: the detector records votes before their signature is checked,
    so one forged vote that arrives first hides the equivocation of its
    validator: whatever votes of the same key follow, no report verifies. *)
Theorem forged_vote_masks_equivocation `{Primitives} {k} (vs : ValidatorSet) (f : vote k)
    (votes : list (vote k)) :
  ~ genuine vs f -> Forall (fun v => vote_key v = vote_key f) votes ->
  Forall (fun p => verify_pair p.1 p.2 vs <> Ok tt) (record_all ∅ (f :: votes)).2.
Proof.
  intros Hf Hkeys.
  destruct (record_all_spec ∅ [] (f :: votes) seen_inv_empty) as [_ ->].
  apply Forall_concat, Forall_lookup_2. intros i l Hi.
  rewrite list_lookup_imap in Hi. apply fmap_Some in Hi as (v & Hv & ->).
  destruct (conflict _ v) as [[a b]|] eqn:E; [|constructor]. constructor; [|constructor]. cbn.
  intros (_ & _ & Ha & _)%verify_pair_Ok. apply Hf.
  replace f with a; [done|]. clear Ha.
  unfold conflict in E. apply bind_Some in E as (w & Hw & E). case_bool_decide; [done|]. simplify_eq.
  assert (Hk : vote_key f = vote_key b).
  { apply list_elem_of_lookup_2 in Hv. rewrite elem_of_cons in Hv.
    destruct Hv as [->|Hv]; [done|]. rewrite Forall_forall in Hkeys. symmetry. by apply Hkeys. }
  destruct i as [|i]; cbn in Hw; [done|]. unfold first_like in Hw.
  rewrite filter_cons_True in Hw by done. cbn in Hw. congruence.
Qed.

(** The double vote is reported and verifies when it comes first; after the
    forged vote nothing verifies. *)
Lemma forged_vote_masks_equivocation_witness :
  map (fun p => is_ok (verify_pair p.1 p.2 Demo.vset)) (record_all ∅ Demo.double_vote).2 = [true] /\
  map (fun p => is_ok (verify_pair p.1 p.2 Demo.vset))
    (record_all ∅ (Demo.forged :: Demo.double_vote)).2 = [false] /\
  Forall (fun p => verify_pair p.1 p.2 Demo.vset <> Ok tt)
    (record_all ∅ (Demo.forged :: Demo.double_vote)).2.
Proof.
  split; [vm_compute; reflexivity|]. split; [vm_compute; reflexivity|].
  apply (forged_vote_masks_equivocation Demo.vset Demo.forged Demo.double_vote).
  - intros (val & [= <-] & Hv). vm_compute in Hv. discriminate Hv.
  - repeat constructor.
Defined.
