(* ===== verification/Codec.v ===== *)
(** * Codec: byte strings, 256-bit integers and lists in RLP

    The helpers that the codecs of transactions, receipts, headers and accounts share:
    [encode_u256], [decode_u256] of [src/crates/aii-block/src/header.rs] (repeated in
    [account.rs]), the RLP impls of [aii-types]' byte types, the list loops.  [RlpLaws]
    and [RlpSafe] state what is assumed of [alloy_rlp]; the lemmas lift both to the
    helpers. *)
From stdpp Require Import base tactics gmap numbers strings list.
From Stdlib Require Import NArith Lia.
From Stdlib.Init Require Import Byte.
From Stdlib.Strings Require Byte.
From S2P Require Import Prelude Bytes Crypto.

(** ** The codec library as an interface

    [alloy_rlp] and the code its derive macros generate are third-party; they are the fields of
    the class [Rlp], which the models of transactions, receipts, blocks, accounts and tries use. *)
Inductive RlpError :=
| UnexpectedLength
| UnexpectedString
| InputTooShort
| RlpCustom (msg : string)
| RlpOther (msg : string).

(** [withdrawal.rs] *)
Record Withdrawal := mkWithdrawal {
  w_index : N;
  w_validator_index : N;
  w_address : Address;
  w_amount : N
}.

#[export] Instance Withdrawal_eq_dec : EqDecision Withdrawal.
Proof. solve_decision. Defined.

(** [access.rs] *)
Record AccessListItem := mkAccessItem {
  ai_address : Address;
  storage_keys : list H256
}.

#[export] Instance AccessListItem_eq_dec : EqDecision AccessListItem.
Proof. solve_decision. Defined.

(** [log.rs] *)
Record Log := mkLog {
  l_address : Address;
  topics : list H256;
  l_data : bytes
}.

#[export] Instance Log_eq_dec : EqDecision Log.
Proof. solve_decision. Defined.

(** A decoder advances the buffer: value and rest. *)
Abbreviation decoder A := (bytes -> res RlpError (A * bytes)).

Class Rlp := {
  rlp_string : bytes -> bytes;
  rlp_length : bytes -> N;
  (** [alloy_rlp::length_of_length] *)
  rlp_length_of_length : N -> N;
  rlp_u64 : N -> bytes;
  rlp_u8 : N -> bytes;
  rlp_bool : bool -> bytes;
  rlp_list_header : N -> bytes;
  rlp_decode_string : decoder bytes;
  rlp_decode_u64 : decoder N;
  rlp_decode_u8 : decoder N;
  rlp_decode_bool : decoder bool;
  (** [alloy_rlp::Header::decode]: is it a list, and the payload length *)
  rlp_decode_header : decoder (bool * N);
  rlp_error_string : RlpError -> string;

  (** the code that [#[derive(RlpEncodable, RlpDecodable)]] generates *)
  encode_withdrawal : Withdrawal -> bytes;
  decode_withdrawal : decoder Withdrawal;
  encode_access_item : AccessListItem -> bytes;
  decode_access_item : decoder AccessListItem;
  encode_log : Log -> bytes;
  decode_log : decoder Log
}.

Section codec.
Context `{Rlp}.

(** ** Fixed-size byte strings and 256-bit integers *)
Definition encode_array {n} (a : array n) : bytes := rlp_string (arr_bytes a).

Definition decode_array (n : nat) : decoder (array n) := fun buf =>
  '(b, buf) ← rlp_decode_string buf;
  _ ← guard_err (negb (length b =? n)%nat) UnexpectedLength;
  a ← expect (arr_of b);
  mret (a, buf).

(** The bytes from the first non-zero one on. *)
Fixpoint trim_zeros (l : bytes) : bytes :=
  match l with
  | [] => []
  | b :: l' => if bool_decide (b = x00) then trim_zeros l' else l
  end.

Definition encode_u256 (v : N) : bytes := rlp_string (trim_zeros (be_bytes 32 v)).

Definition decode_u256 : decoder N := fun buf =>
  '(v, buf) ← rlp_decode_string buf;
  _ ← guard_err (32 <? len v) UnexpectedLength;
  mret (be_value (replicate (32 - length v) x00 ++ v), buf).

(** [if started_len - buf.len() < payload_length { Some(decode(buf)?) }] *)
Definition decode_trailing {A} (dec : decoder A) (started_len payload : N)
    : decoder (option A) := fun buf =>
  if started_len - len buf <? payload
  then '(a, buf) ← dec buf; mret (Some a, buf)
  else mret (None, buf).

(** A list header followed by the encodings of the items. *)
Definition encode_list {A} (enc : A -> bytes) (l : list A) : bytes :=
  let inner := concat (enc <$> l) in rlp_list_header (len inner) ++ inner.

(** [while start - buf.len() < payload { out.push(dec(buf)?) }]; each turn reads
    at least one byte, so the length of the buffer bounds the turns. *)
Fixpoint decode_items {A} (dec : decoder A) (fuel : nat) (start payload : N) (acc : list A)
    : decoder (list A) := fun buf =>
  if start - len buf <? payload
  then match fuel with
       | O => Panic
       | S fuel => '(a, buf) ← dec buf; decode_items dec fuel start payload (acc ++ [a]) buf
       end
  else mret (acc, buf).

(** The list's header is read, its [list] flag is not looked at. *)
Definition decode_list {A} (dec : decoder A) : decoder (list A) := fun buf =>
  '((_, payload), buf) ← rlp_decode_header buf;
  decode_items dec (S (length buf)) (len buf) payload [] buf.

End codec.

(** What is assumed of [alloy_rlp]: each reader undoes its writer; the first byte tells a
    list from a string, and [0x80] is the empty string. *)
Class RlpLaws (R : Rlp) : Prop := {
  rlp_string_roundtrip : forall b rest, len b < u64_mod ->
    rlp_decode_string (rlp_string b ++ rest) = Ok (b, rest);
  rlp_u64_roundtrip : forall x rest, x < u64_mod ->
    rlp_decode_u64 (rlp_u64 x ++ rest) = Ok (x, rest);
  rlp_u8_roundtrip : forall x rest, x < 256 -> rlp_decode_u8 (rlp_u8 x ++ rest) = Ok (x, rest);
  rlp_bool_roundtrip : forall x rest, rlp_decode_bool (rlp_bool x ++ rest) = Ok (x, rest);
  rlp_header_roundtrip : forall n rest, n < u64_mod -> n <= len rest ->
    rlp_decode_header (rlp_list_header n ++ rest) = Ok ((true, n), rest);
  rlp_u64_nonempty : forall x, 0 < len (rlp_u64 x);
  rlp_u8_nonempty : forall x, 0 < len (rlp_u8 x);
  rlp_string_nonempty : forall b, 0 < len (rlp_string b);
  rlp_list_header_nonempty : forall n, 0 < len (rlp_list_header n);
  rlp_empty_string : rlp_string [] = [x80];
  rlp_list_prefix : forall n, exists b rest, rlp_list_header n = b :: rest /\ 192 <= Byte.to_N b;
  rlp_string_prefix : forall s, len s < u64_mod ->
    exists b rest, rlp_string s = b :: rest /\ Byte.to_N b < 192;
  rlp_string_single : forall b, len (rlp_string [b]) = if Byte.to_N b <? 128 then 1 else 2;
  rlp_string_short : forall s, (2 <= length s < 56)%nat -> len (rlp_string s) = 1 + len s;
  rlp_length_short : forall n, n < 56 -> rlp_length_of_length n = 1;
  withdrawal_roundtrip : forall w rest,
    w_index w < u64_mod -> w_validator_index w < u64_mod -> w_amount w < u64_mod ->
    decode_withdrawal (encode_withdrawal w ++ rest) = Ok (w, rest);
  withdrawal_nonempty : forall w, 0 < len (encode_withdrawal w);
  access_item_roundtrip : forall a rest, len (encode_access_item a) < u64_mod ->
    decode_access_item (encode_access_item a ++ rest) = Ok (a, rest);
  access_item_nonempty : forall a, 0 < len (encode_access_item a);
  log_roundtrip : forall l rest, len (encode_log l) < u64_mod ->
    decode_log (encode_log l ++ rest) = Ok (l, rest);
  log_nonempty : forall l, 0 < len (encode_log l)
}.

(** ** Round trips of the helpers *)
Section codec_roundtrip.
Context `{R : Rlp} `{!RlpLaws R}.

Lemma decode_encode_array {n} (a : array n) rest :
  N.of_nat n < u64_mod -> decode_array n (encode_array a ++ rest) = Ok (a, rest).
Proof.
  intros Hn. unfold decode_array, encode_array.
  rewrite rlp_string_roundtrip by (unfold len; by rewrite arr_length). cbn.
  rewrite (arr_len a). cbn. by rewrite arr_of_arr_bytes.
Qed.

Lemma trim_zeros_pad l : replicate (length l - length (trim_zeros l)) x00 ++ trim_zeros l = l.
Proof.
  assert (Hle : forall l, (length (trim_zeros l) <= length l)%nat).
  { clear. induction l as [|b l IH]; cbn; [done|]. case_bool_decide; cbn; lia. }
  induction l as [|b l IH]; cbn [trim_zeros length]; [done|].
  case_bool_decide as Hb.
  - specialize (Hle l). rewrite Nat.sub_succ_l by done. cbn. by rewrite IH, Hb.
  - by rewrite Nat.sub_diag.
Qed.

Lemma length_trim_zeros l : (length (trim_zeros l) <= length l)%nat.
Proof. induction l as [|b l IH]; cbn; [done|]. case_bool_decide; cbn; lia. Qed.

Lemma decode_encode_u256 v rest :
  v < u256_mod -> decode_u256 (encode_u256 v ++ rest) = Ok (v, rest).
Proof.
  intros Hv. unfold decode_u256, encode_u256.
  pose proof (length_trim_zeros (be_bytes 32 v)) as Hle. rewrite length_be_bytes in Hle.
  rewrite rlp_string_roundtrip by (unfold len; lia). cbn [mbind res_bind].
  destruct (N.ltb_spec 32 (len (trim_zeros (be_bytes 32 v)))); [unfold len in *; lia|].
  cbn [guard_err mbind res_bind mret res_ret].
  pose proof (trim_zeros_pad (be_bytes 32 v)) as Hpad. rewrite length_be_bytes in Hpad.
  rewrite Hpad. by rewrite be_value_small.
Qed.

Lemma decode_trailing_Some {A} (dec : decoder A) enc started payload a rest :
  dec (enc ++ rest) = Ok (a, rest) -> started - len (enc ++ rest) < payload ->
  decode_trailing dec started payload (enc ++ rest) = Ok (Some a, rest).
Proof. intros Hd Hlt. unfold decode_trailing. rewrite (proj2 (N.ltb_lt _ _) Hlt), Hd. done. Qed.

Lemma decode_trailing_None {A} (dec : decoder A) started payload buf :
  payload <= started - len buf -> decode_trailing dec started payload buf = Ok (None, buf).
Proof. intros Hge. unfold decode_trailing. by rewrite (proj2 (N.ltb_ge _ _) Hge). Qed.

(** The loop reads back the items that were written. *)
Lemma decode_items_roundtrip {A} (enc : A -> bytes) (dec : decoder A) l :
  forall fuel start payload acc rest,
  Forall (fun a => 0 < len (enc a) /\ forall rest, dec (enc a ++ rest) = Ok (a, rest)) l ->
  (length l <= fuel)%nat -> start = payload + len rest -> len (concat (enc <$> l)) <= payload ->
  len (concat (enc <$> l)) = payload - (start - len (concat (enc <$> l) ++ rest)) ->
  decode_items dec fuel start payload acc (concat (enc <$> l) ++ rest) = Ok (acc ++ l, rest).
Proof.
  induction l as [|a l IH]; intros fuel start payload acc rest Hl Hfuel Hs Hle Hp;
    cbn [fmap list_fmap concat] in *.
  - cbn [app] in *. destruct fuel; cbn [decode_items];
      destruct (N.ltb_spec (start - len rest) payload); try lia; by rewrite app_nil_r.
  - apply Forall_cons in Hl as [[Hpos Hdec] Hl]. destruct fuel as [|fuel]; [cbn in Hfuel; lia|].
    cbn [decode_items]. rewrite <-app_assoc in *.
    destruct (N.ltb_spec (start - len (enc a ++ concat (enc <$> l) ++ rest)) payload).
    2:{ rewrite !len_app in *. lia. }
    rewrite Hdec. cbn [mbind res_bind]. rewrite IH; try done.
    + by rewrite <-app_assoc.
    + cbn in Hfuel. lia.
    + rewrite !len_app in *. lia.
    + rewrite !len_app in *. lia.
Qed.

Lemma decode_list_roundtrip {A} (enc : A -> bytes) (dec : decoder A) l rest :
  Forall (fun a => 0 < len (enc a) /\ forall rest, dec (enc a ++ rest) = Ok (a, rest)) l ->
  len (concat (enc <$> l)) < u64_mod ->
  decode_list dec (encode_list enc l ++ rest) = Ok (l, rest).
Proof.
  intros Hl Hlen. unfold decode_list, encode_list. rewrite <-app_assoc.
  rewrite rlp_header_roundtrip by (rewrite ?len_app; lia). cbn [mbind res_bind].
  rewrite (decode_items_roundtrip enc); try done.
  - rewrite length_app.
    assert (length l <= length (concat (enc <$> l)))%nat; [|lia].
    clear -Hl. induction Hl as [|a l [Ha _] _ IH]; cbn; [lia|].
    rewrite length_app. unfold len in Ha. fold (enc <$> l) in IH. change (list_fmap _ _ enc l) with (enc <$> l). lia.
  - by rewrite len_app.
  - rewrite len_app. lia.
Qed.

End codec_roundtrip.

(** ** Decoding arbitrary bytes

    A reader does not panic and consumes at least one byte; then the decoders
    built from it do not panic on any input, and their loops end. *)
Section safety.
Context `{R : Rlp}.

Definition reads {A} (buf : bytes) (r : res RlpError (A * bytes)) : Prop :=
  r <> Panic /\ forall a rest, r = Ok (a, rest) -> len rest <= len buf.
Definition reader_ok {A} (dec : decoder A) : Prop :=
  forall buf, dec buf <> Panic /\ forall a rest, dec buf = Ok (a, rest) -> len rest < len buf.

(** A byte below [0x80] is its own header, which [Header::decode] leaves in the buffer;
    the header of a list is consumed. *)
Definition header_ok (dec : decoder (bool * N)) : Prop :=
  forall buf, dec buf <> Panic /\ forall l p rest, dec buf = Ok ((l, p), rest) ->
    len rest <= len buf /\ (l = true -> len rest < len buf).

Lemma reads_ret {A} (a : A) buf : reads buf (mret (a, buf)).
Proof. split; [done|]. by intros ? ? [= <- <-]. Qed.

Lemma reads_guard {A} b e buf (k : res RlpError (A * bytes)) :
  reads buf k -> reads buf (guard_err b e ≫= fun _ => k).
Proof. by destruct b. Qed.

Lemma reads_weak {A B} (dec : decoder A) (k : A -> bytes -> res RlpError (B * bytes)) buf :
  (forall buf, reads buf (dec buf)) -> (forall a buf, reads buf (k a buf)) ->
  reads buf (dec buf ≫= fun '(a, buf) => k a buf).
Proof.
  intros Hd Hk. destruct (Hd buf) as [Hnp Hle]. destruct (dec buf) as [[a rest]| |]; cbn; [|done..].
  destruct (Hk a rest) as [Hnp' Hle']. split; [done|]. intros b rest' Hb.
  specialize (Hle' _ _ Hb). specialize (Hle _ _ eq_refl). lia.
Qed.

Lemma reader_weak {A} (dec : decoder A) buf : reader_ok dec -> reads buf (dec buf).
Proof.
  intros Hd. destruct (Hd buf) as [Hnp Hlt]. split; [done|]. intros a rest Ha.
  specialize (Hlt _ _ Ha). lia.
Qed.

Lemma reader_bind {A B} (dec : decoder A) (k : A -> bytes -> res RlpError (B * bytes)) :
  reader_ok dec -> (forall a buf, reads buf (k a buf)) ->
  reader_ok (fun buf => dec buf ≫= fun '(a, buf) => k a buf).
Proof.
  intros Hd Hk buf. destruct (Hd buf) as [Hnp Hlt]. destruct (dec buf) as [[a rest]| |]; cbn; [|done..].
  destruct (Hk a rest) as [Hnp' Hle']. split; [done|]. intros b rest' Hb.
  specialize (Hle' _ _ Hb). specialize (Hlt _ _ eq_refl). lia.
Qed.

(** What is assumed of [alloy_rlp] on arbitrary bytes. *)
Class RlpSafe : Prop := {
  safe_string : reader_ok rlp_decode_string;
  safe_u64 : reader_ok rlp_decode_u64;
  safe_u8 : reader_ok rlp_decode_u8;
  safe_bool : reader_ok rlp_decode_bool;
  safe_header : header_ok rlp_decode_header;
  safe_withdrawal : reader_ok decode_withdrawal;
  safe_access_item : reader_ok decode_access_item;
  safe_log : reader_ok decode_log
}.
Context `{!RlpSafe}.

Lemma decode_array_safe n : reader_ok (decode_array n).
Proof.
  intros buf. unfold decode_array. destruct (safe_string buf) as [Hnp Hlt].
  destruct (rlp_decode_string buf) as [[b rest]| |]; cbn; [|done..].
  destruct (Nat.eqb_spec (length b) n) as [<-|]; cbn; [|done].
  destruct (arr_of_is_Some b eq_refl) as [a Ha]. rewrite Ha. cbn. split; [done|].
  intros ? ? [= <- <-]. by eapply Hlt.
Qed.

Lemma decode_u256_safe : reader_ok decode_u256.
Proof. apply reader_bind; [apply safe_string|]. intros a buf. apply reads_guard, reads_ret. Qed.

Lemma decode_trailing_safe {A} (dec : decoder A) s p buf :
  reader_ok dec -> reads buf (decode_trailing dec s p buf).
Proof.
  intros Hd. unfold decode_trailing. destruct (_ <? _); [|apply reads_ret].
  apply (reads_weak dec (fun a buf => mret (Some a, buf))); [by intros; apply reader_weak|].
  intros. apply reads_ret.
Qed.

Lemma decode_items_safe {A} (dec : decoder A) fuel start payload acc buf :
  reader_ok dec -> (length buf < fuel)%nat -> reads buf (decode_items dec fuel start payload acc buf).
Proof.
  intros Hd. revert acc buf. induction fuel as [|fuel IH]; intros acc buf Hlt; [lia|].
  cbn [decode_items]. destruct (_ <? _); [|apply reads_ret].
  destruct (Hd buf) as [Hnp Hdec]. destruct (dec buf) as [[a rest]| |]; cbn; [|done..].
  specialize (Hdec _ _ eq_refl). unfold len in Hdec.
  destruct (IH (acc ++ [a]) rest) as [Hnp' Hle]; [lia|]. split; [done|].
  intros b rest' Hb. specialize (Hle _ _ Hb). unfold len in *. lia.
Qed.

(** A structure starts with the header of a list. *)
Lemma struct_safe {B} (k : N -> bytes -> res RlpError (B * bytes)) :
  (forall p buf, reads buf (k p buf)) ->
  reader_ok (fun buf =>
    '((is_list, payload), buf) ← rlp_decode_header buf;
    _ ← guard_err (negb is_list) UnexpectedString;
    k payload buf).
Proof.
  intros Hk buf. destruct (safe_header buf) as [Hnp Hle].
  destruct (rlp_decode_header buf) as [[[l p] rest]| |]; cbn [mbind res_bind]; [|done..].
  destruct (Hle _ _ _ eq_refl) as [_ Hlt]. destruct l; cbn [negb guard_err mbind res_bind]; [|done].
  destruct (Hk p rest) as [Hnp' Hle']. split; [done|]. intros b rest' Hb.
  specialize (Hle' _ _ Hb). specialize (Hlt eq_refl). lia.
Qed.

Lemma decode_list_safe {A} (dec : decoder A) buf : reader_ok dec -> reads buf (decode_list dec buf).
Proof.
  intros Hd. unfold decode_list. destruct (safe_header buf) as [Hnp Hle].
  destruct (rlp_decode_header buf) as [[[l p] rest]| |]; cbn [mbind res_bind]; [|done..].
  destruct (Hle _ _ _ eq_refl) as [Hlt _].
  destruct (decode_items_safe dec (S (length rest)) (len rest) p [] rest Hd) as [Hnp' Hle']; [lia|].
  split; [done|]. intros b rest' Hb. specialize (Hle' _ _ Hb). lia.
Qed.

End safety.
Arguments RlpSafe : clear implicits.

(** One field after the other. *)
Ltac read_fields :=
  repeat first
    [ apply reads_ret
    | apply reads_guard
    | apply reads_weak;
      [ intros; first [ apply reader_weak, decode_array_safe | apply reader_weak, decode_u256_safe
                      | apply reader_weak, safe_u64 | apply reader_weak, safe_u8 | apply reader_weak, safe_bool | apply reader_weak, safe_string
                      | apply decode_trailing_safe, safe_u64
                      | apply decode_trailing_safe, decode_array_safe ]
      | intros ? ? ] ].

