(* ===== verification/ToyRlp.v ===== *)
(** * ToyRlp: a codec library that has the assumed laws

    RLP with the first bytes of the Ethereum format; lengths of 56 and more are written
    in eight bytes.  The derived codecs write their fields one after the other. *)
From stdpp Require Import base tactics numbers strings list.
From Stdlib Require Import NArith Lia.
From Stdlib.Init Require Import Byte.
From Stdlib.Strings Require Byte.
From S2P Require Import Prelude Bytes Crypto Codec.

Module ToyRlp.
(** ** Reading a number of bytes *)
Definition read (n : nat) : decoder bytes := fun buf =>
  if (length buf <? n)%nat then Err InputTooShort else Ok (take n buf, drop n buf).

Lemma read_app l rest : read (length l) (l ++ rest) = Ok (l, rest).
Proof.
  unfold read. rewrite length_app. destruct (Nat.ltb_spec (length l + length rest) (length l)); [lia|].
  by rewrite take_app_length, drop_app_length.
Qed.

Lemma read_len l rest : read (N.to_nat (len l)) (l ++ rest) = Ok (l, rest).
Proof. rewrite to_nat_len. apply read_app. Qed.

Lemma read_Ok n buf b rest : read n buf = Ok (b, rest) -> len rest + N.of_nat n = len buf.
Proof.
  unfold read. destruct (Nat.ltb_spec (length buf) n); [done|]. intros [= <- <-].
  unfold len. rewrite length_drop. lia.
Qed.

Lemma read_no_panic n buf : read n buf <> Panic.
Proof. unfold read. by destruct (_ <? _)%nat. Qed.

Lemma read_reads n buf : reads buf (read n buf).
Proof. split; [apply read_no_panic|]. intros a rest Ha%read_Ok. lia. Qed.

Lemma read_safe n : (0 < n)%nat -> reader_ok (read n).
Proof. intros Hn buf. split; [apply read_no_panic|]. intros a rest Ha%read_Ok. lia. Qed.

Definition read_array (n : nat) : decoder (array n) := fun buf =>
  '(b, buf) ← read n buf; a ← ok_or (arr_of b) UnexpectedLength; mret (a, buf).

Lemma read_array_app {n} (a : array n) rest : read_array n (arr_bytes a ++ rest) = Ok (a, rest).
Proof.
  unfold read_array. pose proof (read_app (arr_bytes a) rest) as H.
  rewrite arr_length in H. rewrite H. cbn [mbind res_bind]. by rewrite arr_of_arr_bytes.
Qed.

Lemma read_array_safe n : (0 < n)%nat -> reader_ok (read_array n).
Proof.
  intros Hn. apply reader_bind; [by apply read_safe|]. intros a buf.
  destruct (arr_of a); cbn; [apply reads_ret|]. by split.
Qed.

Definition read_u64 : decoder N := fun buf => '(b, buf) ← read 8 buf; mret (be_value b, buf).

Lemma read_u64_app x rest : x < u64_mod -> read_u64 (be_bytes 8 x ++ rest) = Ok (x, rest).
Proof.
  intros Hx. unfold read_u64. pose proof (read_app (be_bytes 8 x) rest) as H.
  rewrite length_be_bytes in H. rewrite H. cbn [mbind res_bind]. by rewrite be_value_small.
Qed.

Lemma read_u64_safe : reader_ok read_u64.
Proof. apply reader_bind; [apply read_safe; lia|]. intros. apply reads_ret. Qed.

(** ** Headers: 128 marks strings, 192 lists *)
Definition toy_header (base n : N) : bytes :=
  if n <? 56 then [byte_of_N (base + n)] else byte_of_N (base + 63) :: be_bytes 8 n.

Definition toy_string (s : bytes) : bytes :=
  match s with
  | [b] => if Byte.to_N b <? 128 then [b] else toy_header 128 1 ++ [b]
  | _ => toy_header 128 (len s) ++ s
  end.

Definition read_length (k : N) : decoder N := fun buf =>
  if k <? 56 then mret (k, buf) else if k =? 63 then read_u64 buf else Err UnexpectedLength.

Definition read_header : decoder (bool * N) := fun buf =>
  match buf with
  | [] => Err InputTooShort
  | b :: rest =>
      let x := Byte.to_N b in
      if x <? 128 then mret ((false, 1), buf)
      else if x <? 192 then '(n, rest) ← read_length (x - 128) rest; mret ((false, n), rest)
      else '(n, rest) ← read_length (x - 192) rest; mret ((true, n), rest)
  end.

Definition read_string : decoder bytes := fun buf =>
  '((is_list, n), buf) ← read_header buf;
  _ ← guard_err is_list UnexpectedLength;
  read (N.to_nat n) buf.

Definition read_uint : decoder N := fun buf =>
  '(b, buf) ← read_string buf; mret (be_value b, buf).

Lemma to_N_toy_header base n : base + 63 < 256 -> n < 56 -> Byte.to_N (byte_of_N (base + n)) = base + n.
Proof. intros. rewrite to_N_byte_of_N, N.mod_small by lia. done. Qed.

Lemma toy_header_cons base n : exists b rest, toy_header base n = b :: rest /\
  (base + 63 < 256 -> base <= Byte.to_N b /\ Byte.to_N b < base + 64).
Proof.
  unfold toy_header. destruct (N.ltb_spec n 56); do 2 eexists; (split; [done|]); intros;
    rewrite to_N_byte_of_N, N.mod_small by lia; lia.
Qed.

Lemma read_header_app base n rest :
  (base = 128 \/ base = 192) -> n < u64_mod ->
  read_header (toy_header base n ++ rest) = Ok ((base =? 192, n), rest).
Proof.
  intros Hb Hn. unfold toy_header, read_header, read_length.
  destruct (N.ltb_spec n 56) as [Hs|Hs]; cbn [app];
    (rewrite to_N_byte_of_N, N.mod_small by lia); destruct Hb as [->| ->];
    repeat match goal with |- context [?a <? ?b] => destruct (N.ltb_spec a b); try lia end;
    cbn [mbind res_bind]; try (rewrite N.add_comm, N.add_sub; done); try lia.
  - assert (128 + 63 - 128 =? 63 = true) as -> by done. by rewrite read_u64_app.
  - assert (192 + 63 - 192 =? 63 = true) as -> by done. by rewrite read_u64_app.
Qed.

Lemma read_string_app s rest : len s < u64_mod -> read_string (toy_string s ++ rest) = Ok (s, rest).
Proof.
  intros Hlen. unfold read_string.
  assert (Hgen : forall s, len s < u64_mod ->
    ('((is_list, n), buf) ← read_header ((toy_header 128 (len s) ++ s) ++ rest);
     _ ← guard_err is_list UnexpectedLength; read (N.to_nat n) buf) = Ok (s, rest)).
  { clear. intros s Hlen. rewrite <-app_assoc, read_header_app by auto.
    cbn [mbind res_bind N.eqb Pos.eqb guard_err]. apply read_len. }
  destruct s as [|b [|c s]]; [by apply Hgen| |by apply Hgen].
  cbn [toy_string]. destruct (N.ltb_spec (Byte.to_N b) 128) as [Hb|Hb].
  - unfold read_header. cbn [app]. rewrite (proj2 (N.ltb_lt _ _) Hb). cbn. done.
  - apply (Hgen [b]). done.
Qed.

Lemma toy_string_cons s : exists b rest, toy_string s = b :: rest /\ Byte.to_N b < 192.
Proof.
  assert (Hgen : forall s n, exists b rest, toy_header 128 n ++ s = b :: rest /\ Byte.to_N b < 192).
  { intros s' n. destruct (toy_header_cons 128 n) as (b & rest & -> & Hb). exists b, (rest ++ s').
    split; [done|]. lia. }
  destruct s as [|b [|c s]]; cbn [toy_string]; try apply Hgen.
  destruct (N.ltb_spec (Byte.to_N b) 128); [|apply Hgen]. exists b, []. split; [done|lia].
Qed.

Lemma be_value_zeros k l : be_value (replicate k x00 ++ l) = be_value l.
Proof.
  induction k as [|k IH]; [done|]. rewrite <-IH. clear IH. cbn [replicate app].
  unfold be_value. cbn [rev]. induction (rev _) as [|b r IH]; [done|]. cbn. by rewrite IH.
Qed.

Lemma read_uint_app n x rest :
  x < 256 ^ N.of_nat n -> N.of_nat n < u64_mod ->
  read_uint (toy_string (trim_zeros (be_bytes n x)) ++ rest) = Ok (x, rest).
Proof.
  intros Hx Hn. unfold read_uint. pose proof (length_trim_zeros (be_bytes n x)) as Hle.
  rewrite length_be_bytes in Hle. rewrite read_string_app by (unfold len; lia). cbn [mbind res_bind].
  assert (be_value (trim_zeros (be_bytes n x)) = x) as ->; [|done].
  rewrite <-(be_value_zeros (length (be_bytes n x) - length (trim_zeros (be_bytes n x)))), trim_zeros_pad.
  by apply be_value_small.
Qed.

Lemma read_length_safe k buf : reads buf (read_length k buf).
Proof.
  unfold read_length. destruct (k <? 56); [apply reads_ret|]. destruct (k =? 63); [|by split].
  apply reader_weak, read_u64_safe.
Qed.

Lemma read_header_safe : header_ok read_header.
Proof.
  intros buf. unfold read_header. destruct buf as [|b rest]; [by split|].
  destruct (Byte.to_N b <? 128); [split; [done|]; intros ? ? ? [= <- <- <-]; split; [lia|done]|].
  assert (Hlen : len rest < len (b :: rest)) by (unfold len; cbn; lia).
  assert (Hgo : forall l k,
    ('(n, rest) ← read_length k rest; mret ((l, n), rest)) <> Panic /\
    forall l' p r, ('(n, rest) ← read_length k rest; mret ((l, n), rest)) = Ok ((l', p), r) ->
      len r <= len (b :: rest) /\ (l' = true -> len r < len (b :: rest))).
  { intros l k. destruct (read_length_safe k rest) as [Hnp Hle].
    destruct (read_length k rest) as [[n r]| |]; cbn; [|done..]. split; [done|].
    intros l' p r' [= <- <- <-]. specialize (Hle _ _ eq_refl). lia. }
  destruct (Byte.to_N b <? 192); apply Hgo.
Qed.

Lemma read_string_safe : reader_ok read_string.
Proof.
  intros buf. unfold read_string, read_header. destruct buf as [|b rest]; [by split|].
  destruct (Byte.to_N b <? 128).
  { cbn [mbind res_bind guard_err]. destruct (read_safe 1 ltac:(lia) (b :: rest)) as [Hnp Hlt]. by split. }
  assert (Hlen : len rest < len (b :: rest)) by (unfold len; cbn; lia).
  destruct (Byte.to_N b <? 192).
  - destruct (read_length_safe (Byte.to_N b - 128) rest) as [Hnp Hle].
    destruct (read_length _ rest) as [[n r]| |]; cbn [mbind res_bind guard_err]; [|done..].
    specialize (Hle _ _ eq_refl). split; [apply read_no_panic|]. intros a r' Ha%read_Ok. lia.
  - destruct (read_length_safe (Byte.to_N b - 192) rest) as [Hnp Hle].
    destruct (read_length _ rest) as [[n r]| |]; cbn [mbind res_bind guard_err mret res_ret]; done.
Qed.

Lemma read_uint_safe : reader_ok read_uint.
Proof. apply reader_bind; [apply read_string_safe|]. intros. apply reads_ret. Qed.

(** ** The derived codecs: fields one after the other, arrays after their number *)
Definition write_withdrawal (w : Withdrawal) : bytes :=
  be_bytes 8 (w_index w) ++ be_bytes 8 (w_validator_index w) ++ arr_bytes (w_address w) ++
  be_bytes 8 (w_amount w).

Definition read_withdrawal : decoder Withdrawal := fun buf =>
  '(i, buf) ← read_u64 buf; '(v, buf) ← read_u64 buf; '(a, buf) ← read_array 20 buf;
  '(m, buf) ← read_u64 buf; mret (mkWithdrawal i v a m, buf).

Definition write_arrays (l : list H256) : bytes := be_bytes 8 (len l) ++ concat (arr_bytes <$> l).

Fixpoint read_items (k : nat) : decoder (list H256) := fun buf =>
  match k with
  | O => mret ([], buf)
  | S k => '(a, buf) ← read_array 32 buf; '(l, buf) ← read_items k buf; mret (a :: l, buf)
  end.

(** The number is checked against the buffer before the loop. *)
Definition read_arrays : decoder (list H256) := fun buf =>
  '(k, buf) ← read_u64 buf;
  _ ← guard_err (len buf <? k) InputTooShort;
  read_items (N.to_nat k) buf.

Lemma read_items_app l rest : read_items (length l) (concat (arr_bytes <$> l) ++ rest) = Ok (l, rest).
Proof.
  induction l as [|a l IH]; [done|]. cbn [fmap list_fmap concat length read_items].
  rewrite <-app_assoc, read_array_app. cbn [mbind res_bind].
  change (list_fmap _ _ arr_bytes l) with (arr_bytes <$> l). by rewrite IH.
Qed.

Lemma length_concat_arrays (l : list H256) : (length l <= length (concat (arr_bytes <$> l)))%nat.
Proof.
  induction l as [|a l IH]; cbn; [lia|]. rewrite length_app, arr_length.
  change (list_fmap _ _ arr_bytes l) with (arr_bytes <$> l). lia.
Qed.

Lemma read_arrays_app l rest :
  len (concat (arr_bytes <$> l)) < u64_mod -> read_arrays (write_arrays l ++ rest) = Ok (l, rest).
Proof.
  intros Hlen. pose proof (length_concat_arrays l) as Hle. unfold read_arrays, write_arrays.
  rewrite <-app_assoc, read_u64_app by (unfold len in *; lia). cbn [mbind res_bind].
  destruct (N.ltb_spec (len (concat (arr_bytes <$> l) ++ rest)) (len l)) as [Hlt|_].
  - rewrite len_app in Hlt. unfold len in Hlt. lia.
  - cbn [guard_err mbind res_bind]. rewrite to_nat_len. apply read_items_app.
Qed.

Lemma read_items_safe k buf : reads buf (read_items k buf).
Proof.
  revert buf. induction k as [|k IH]; intros buf; cbn [read_items]; [apply reads_ret|].
  apply reads_weak; [intros; apply reader_weak, read_array_safe; lia|]. intros a b.
  apply reads_weak; [done|]. intros. apply reads_ret.
Qed.

Lemma read_arrays_safe : reader_ok read_arrays.
Proof.
  apply reader_bind; [apply read_u64_safe|]. intros k buf. apply reads_guard, read_items_safe.
Qed.

Definition write_access_item (a : AccessListItem) : bytes :=
  arr_bytes (ai_address a) ++ write_arrays (storage_keys a).

Definition read_access_item : decoder AccessListItem := fun buf =>
  '(a, buf) ← read_array 20 buf; '(l, buf) ← read_arrays buf; mret (mkAccessItem a l, buf).

Definition write_log (l : Log) : bytes :=
  arr_bytes (l_address l) ++ write_arrays (topics l) ++ toy_string (l_data l).

Definition read_log : decoder Log := fun buf =>
  '(a, buf) ← read_array 20 buf; '(t, buf) ← read_arrays buf; '(d, buf) ← read_string buf;
  mret (mkLog a t d, buf).

(** ** The instance *)
#[export] Instance rlp : Rlp := {|
  rlp_string := toy_string;
  rlp_length s := len (toy_string s);
  rlp_length_of_length n := len (toy_header 192 n);
  rlp_u64 x := toy_string (trim_zeros (be_bytes 8 x));
  rlp_u8 x := toy_string (trim_zeros (be_bytes 1 x));
  rlp_bool b := toy_string (trim_zeros (be_bytes 1 (if b then 1 else 0)));
  rlp_list_header := toy_header 192;
  rlp_decode_string := read_string;
  rlp_decode_u64 := read_uint;
  rlp_decode_u8 := read_uint;
  rlp_decode_bool := fun buf => '(x, buf) ← read_uint buf; mret (x =? 1, buf);
  rlp_decode_header := read_header;
  rlp_error_string _ := "decode error"%string;
  encode_withdrawal := write_withdrawal;
  decode_withdrawal := read_withdrawal;
  encode_access_item := write_access_item;
  decode_access_item := read_access_item;
  encode_log := write_log;
  decode_log := read_log
|}.

Lemma toy_string_nonempty s : 0 < len (toy_string s).
Proof. destruct (toy_string_cons s) as (b & r & -> & _). unfold len. cbn. lia. Qed.

Lemma len_toy_string s : len s <= len (toy_string s).
Proof.
  destruct s as [|b [|c s]]; unfold toy_string; [unfold len; cbn; lia| |rewrite len_app; lia].
  destruct (_ <? _); rewrite ?len_app; lia.
Qed.

#[export] Instance rlp_laws : RlpLaws rlp.
Proof.
  split; cbn [rlp rlp_string rlp_length rlp_length_of_length rlp_u64 rlp_u8 rlp_bool rlp_list_header
    rlp_decode_string rlp_decode_u64 rlp_decode_u8 rlp_decode_bool rlp_decode_header
    encode_withdrawal decode_withdrawal encode_access_item decode_access_item encode_log decode_log].
  - intros. by apply read_string_app.
  - intros. by apply (read_uint_app 8).
  - intros. by apply (read_uint_app 1).
  - intros x rest. rewrite (read_uint_app 1) by (by destruct x). by destruct x.
  - intros. by apply read_header_app; [right|].
  - intros. apply toy_string_nonempty.
  - intros. apply toy_string_nonempty.
  - apply toy_string_nonempty.
  - intros n. destruct (toy_header_cons 192 n) as (b & r & -> & _). unfold len. cbn. lia.
  - done.
  - intros n. destruct (toy_header_cons 192 n) as (b & r & -> & Hb). exists b, r. split; [done|]. by apply Hb.
  - intros. apply toy_string_cons.
  - intros b. unfold toy_string. by destruct (_ <? _).
  - intros s Hs. destruct s as [|b [|c s]]; [cbn in Hs; lia..|]. unfold toy_string. rewrite len_app.
    unfold toy_header. destruct (N.ltb_spec (len (b :: c :: s)) 56); [done|]. unfold len in *. lia.
  - intros n Hn. unfold toy_header. by rewrite (proj2 (N.ltb_lt _ _) Hn).
  - intros w rest Hi Hv Ha. unfold read_withdrawal, write_withdrawal. rewrite <-!app_assoc.
    rewrite read_u64_app by done. cbn [mbind res_bind]. rewrite read_u64_app by done. cbn [mbind res_bind].
    rewrite read_array_app. cbn [mbind res_bind]. rewrite read_u64_app by done. by destruct w.
  - intros w. unfold write_withdrawal, len. rewrite !length_app, !length_be_bytes. lia.
  - intros a rest Hlen. unfold read_access_item, write_access_item in *. unfold write_arrays in Hlen.
    rewrite !len_app in Hlen. rewrite <-app_assoc, read_array_app. cbn [mbind res_bind].
    rewrite read_arrays_app by lia. by destruct a.
  - intros a. unfold write_access_item, len. rewrite length_app, arr_length. lia.
  - intros l rest Hlen. unfold read_log, write_log in *. unfold write_arrays in Hlen.
    rewrite !len_app in Hlen. rewrite <-!app_assoc, read_array_app. cbn [mbind res_bind].
    rewrite read_arrays_app by lia. cbn [mbind res_bind].
    pose proof (len_toy_string (l_data l)). rewrite read_string_app by lia. by destruct l.
  - intros l. unfold write_log, len. rewrite length_app, arr_length. lia.
Qed.

#[export] Instance rlp_safe : RlpSafe rlp.
Proof.
  split; cbn [rlp rlp_decode_string rlp_decode_u64 rlp_decode_u8 rlp_decode_bool rlp_decode_header
    decode_withdrawal decode_access_item decode_log].
  - apply read_string_safe.
  - apply read_uint_safe.
  - apply read_uint_safe.
  - apply reader_bind; [apply read_uint_safe|]. intros. apply reads_ret.
  - apply read_header_safe.
  - apply reader_bind; [apply read_u64_safe|]. intros i b1.
    apply reads_weak; [intros; apply reader_weak, read_u64_safe|intros v b2].
    apply reads_weak; [intros; apply reader_weak, read_array_safe; lia|intros a b3].
    apply reads_weak; [intros; apply reader_weak, read_u64_safe|intros m b4]. apply reads_ret.
  - apply reader_bind; [apply read_array_safe; lia|]. intros a b1.
    apply reads_weak; [intros; apply reader_weak, read_arrays_safe|intros]. apply reads_ret.
  - apply reader_bind; [apply read_array_safe; lia|]. intros a b1.
    apply reads_weak; [intros; apply reader_weak, read_arrays_safe|intros t b2].
    apply reads_weak; [intros; apply reader_weak, read_string_safe|intros]. apply reads_ret.
Qed.
End ToyRlp.
