(* ===== verification/Secp.v ===== *)
(** * Secp: recoverable secp256k1 signatures

    Models [src/crates/aii-crypto/src/secp.rs], the wrappers over the crate [k256],
    which is the class [K256]; a recovery id is its byte. *)
From stdpp Require Import base tactics numbers strings list.
From Stdlib Require Import NArith Lia.
From Stdlib.Init Require Import Byte.
From S2P Require Import Prelude Bytes Crypto.

Class K256 := {
  ec_sk : Type;
  ec_key : Type;
  ec_sig : Type;
  ec_sk_from_bytes : array 32 -> option ec_sk;
  ec_verifying_key : ec_sk -> ec_key;
  ec_key_from_sec1 : bytes -> option ec_key;
  ec_key_to_uncompressed : ec_key -> array 65;
  ec_sig_from_slice : bytes -> option ec_sig;
  ec_sig_to_bytes : ec_sig -> array 64;
  (** [RecoveryId::from_byte] *)
  recid_from_byte : N -> option N;
  ec_sign_prehash_recoverable : ec_sk -> H256 -> option (ec_sig * N);
  ec_verify_prehash : ec_key -> H256 -> ec_sig -> bool;
  ec_recover_from_prehash : H256 -> ec_sig -> N -> option ec_key
}.

(** What is assumed of [k256]: a signature's 64 bytes decode to it, recovery undoes
    signing, and the recovery ids signing returns are valid bytes. *)
Class K256Laws (K : K256) : Prop := {
  ec_sig_roundtrip : forall s, ec_sig_from_slice (arr_bytes (ec_sig_to_bytes s)) = Some s;
  ec_sign_total : forall sk h, is_Some (ec_sign_prehash_recoverable sk h);
  ec_recover_sign : forall sk h s v, ec_sign_prehash_recoverable sk h = Some (s, v) ->
    ec_recover_from_prehash h s v = Some (ec_verifying_key sk) /\
    recid_from_byte v = Some v /\ v < 4
}.

Module secp.
Section secp.
Context `{Primitives} `{K256}.

Record Signature := mkSignature { inner : ec_sig; recovery_id : N }.

Definition SecretKey_from_bytes (b : array 32) : res CryptoError ec_sk :=
  ok_or (ec_sk_from_bytes b) (InvalidEncoding "secp256k1 secret key out of range").

Definition PublicKey_from_compressed (b : array 33) : res CryptoError ec_key :=
  ok_or (ec_key_from_sec1 (arr_bytes b)) (InvalidEncoding "secp256k1 compressed pubkey invalid").

Definition PublicKey_from_uncompressed (b : array 65) : res CryptoError ec_key :=
  ok_or (ec_key_from_sec1 (arr_bytes b)) (InvalidEncoding "secp256k1 uncompressed pubkey invalid").

(** [Address::from_pubkey_hash(keccak256(&bytes[1..]))]: its last 20 bytes. *)
Definition address_of_hash (h : H256) : Address :=
  be_array 20 (be_value (drop 12 (arr_bytes h))).

Definition address (k : ec_key) : Address :=
  address_of_hash (keccak256 (drop 1 (arr_bytes (ec_key_to_uncompressed k)))).

Definition Signature_from_bytes (b : array 65) : res CryptoError Signature :=
  inner ← ok_or (ec_sig_from_slice (take 64 (arr_bytes b)))
            (InvalidEncoding "secp256k1 signature scalars invalid");
  byte ← expect (arr_bytes b !! 64%nat);
  id ← ok_or (recid_from_byte (Byte.to_N byte))
         (InvalidEncoding "secp256k1 recovery id not in {0,1}");
  mret (mkSignature inner id).

Definition Signature_to_bytes (s : Signature) : bytes :=
  arr_bytes (ec_sig_to_bytes (inner s)) ++ [byte_of_N (recovery_id s)].

Definition sign (sk : ec_sk) (message_hash : H256) : res CryptoError Signature :=
  '(sig, recid) ← ok_or (ec_sign_prehash_recoverable sk message_hash)
                    (InvalidEncoding "secp256k1 signing failed");
  mret (mkSignature sig recid).

Definition verify (sig : Signature) (message_hash : H256) (pk : ec_key) : res CryptoError unit :=
  if ec_verify_prehash pk message_hash (inner sig) then Ok tt else Err BadSignature.

Definition recover (sig : Signature) (message_hash : H256) : res CryptoError ec_key :=
  ok_or (ec_recover_from_prehash message_hash (inner sig) (recovery_id sig)) BadSignature.
End secp.
End secp.

Section facts.
Context `{Primitives} `{K : K256} `{!K256Laws K}.

Lemma Signature_from_to_bytes s (b : array 65) :
  recid_from_byte (secp.recovery_id s) = Some (secp.recovery_id s) -> secp.recovery_id s < 4 ->
  arr_bytes b = secp.Signature_to_bytes s -> secp.Signature_from_bytes b = Ok s.
Proof.
  intros Hid Hlt Hb. unfold secp.Signature_from_bytes. rewrite Hb. unfold secp.Signature_to_bytes.
  rewrite take_app_length' by (by rewrite arr_length). rewrite ec_sig_roundtrip. cbn [ok_or mbind res_bind].
  rewrite lookup_app_r by (by rewrite arr_length). rewrite arr_length. cbn [Nat.sub lookup list_lookup expect mbind res_bind].
  rewrite to_N_byte_of_N, N.mod_small, Hid by lia. by destruct s.
Qed.

(** What [sign] returns can be sent and recovers the signer's key. *)
Lemma sign_recover sk h s :
  secp.sign sk h = Ok s ->
  secp.recover s h = Ok (ec_verifying_key sk) /\
  recid_from_byte (secp.recovery_id s) = Some (secp.recovery_id s) /\ secp.recovery_id s < 4.
Proof.
  unfold secp.sign. destruct (ec_sign_prehash_recoverable sk h) as [[sig v]|] eqn:Hs; [|done].
  intros [= <-]. destruct (ec_recover_sign _ _ _ _ Hs) as (Hr & Hv & Hlt).
  unfold secp.recover. cbn. by rewrite Hr.
Qed.
End facts.

(** ** A concrete instance: the signature carries the key and the hash. *)
Module ToySecp.
#[export] Instance k256 : K256 := {|
  ec_sk := array 32;
  ec_key := array 32;
  ec_sig := array 32 * array 32;
  ec_sk_from_bytes b := if bool_decide (b = zero_array 32) then None else Some b;
  ec_verifying_key sk := sk;
  ec_key_from_sec1 b := arr_of (drop 1 (take 33 b));
  ec_key_to_uncompressed k := be_array 65 (be_value (arr_bytes k));
  ec_sig_from_slice b :=
    match arr_of (take 32 b), arr_of (drop 32 b) with Some r, Some s => Some (r, s) | _, _ => None end;
  ec_sig_to_bytes s :=
    be_array 64 (be_value (arr_bytes (fst s) ++ arr_bytes (snd s)));
  recid_from_byte b := if b <? 4 then Some b else None;
  ec_sign_prehash_recoverable sk h := Some ((sk, h), 1);
  ec_verify_prehash k h s := bool_decide (s = (k, h));
  ec_recover_from_prehash h s v :=
    if bool_decide (snd s = h) && (v =? 1) then Some (fst s) else None
|}.

#[export] Instance laws : K256Laws k256.
Proof.
  split; cbn.
  - intros [r s]. cbn [fst snd].
    assert (Hlen : length (arr_bytes r ++ arr_bytes s) = 64%nat) by (by rewrite length_app, !arr_length).
    assert (be_bytes 64 (be_value (arr_bytes r ++ arr_bytes s)) = arr_bytes r ++ arr_bytes s) as ->.
    { rewrite <-Hlen. apply be_bytes_value. }
    rewrite take_app_length', drop_app_length' by (by rewrite arr_length).
    by rewrite !arr_of_arr_bytes.
  - intros. eauto.
  - intros sk h s v [= <- <-]. cbn. by rewrite bool_decide_eq_true_2.
Qed.
End ToySecp.
