(* ===== verification/Tx.v ===== *)
(** * Tx: the transaction envelope, its codecs, hash and signer recovery

    Models [src/crates/aii-block/src/tx/mod.rs], [legacy.rs], [eip1559.rs],
    [eip4844.rs], [signer.rs] and [src/crates/aii-types/src/algo.rs].  A typed
    transaction is a marker byte and an RLP list; inside a block it is wrapped in an
    RLP string, a legacy transaction is not.  The algorithm byte is written only when
    it is not the default, and read only when the list has bytes left. *)
From stdpp Require Import base tactics numbers strings list.
From Stdlib Require Import NArith Lia.
From Stdlib.Init Require Import Byte.
From Stdlib.Strings Require Byte.
From S2P Require Import Prelude Bytes Crypto Codec Secp.

(** ** [algo.rs] *)
Inductive AlgoId :=
| Secp256k1 | Ed25519 | Bls12_381 | MlDsa65 | SlhDsa128s | Falcon512 | HybridSecpMlDsa.

#[export] Instance AlgoId_eq_dec : EqDecision AlgoId.
Proof. solve_decision. Defined.

Inductive AlgoIdError := UnknownAlgo (b : N).

Definition algo_as_byte (a : AlgoId) : N :=
  match a with
  | Secp256k1 => 1 | Ed25519 => 2 | Bls12_381 => 3 | MlDsa65 => 16 | SlhDsa128s => 17
  | Falcon512 => 18 | HybridSecpMlDsa => 32
  end.

Definition algo_from_byte (b : N) : res AlgoIdError AlgoId :=
  match b with
  | 1 => Ok Secp256k1
  | 2 => Ok Ed25519
  | 3 => Ok Bls12_381
  | 16 => Ok MlDsa65
  | 17 => Ok SlhDsa128s
  | 18 => Ok Falcon512
  | 32 => Ok HybridSecpMlDsa
  | other => Err (UnknownAlgo other)
  end.

Definition quantum_safe (a : AlgoId) : bool :=
  match a with MlDsa65 | SlhDsa128s | Falcon512 | HybridSecpMlDsa => true | _ => false end.

(** ** The three bodies *)
Record TxLegacy := mkTxLegacy {
  tl_nonce : N;
  tl_gas_price : N;
  tl_gas_limit : N;
  tl_to : option Address;
  tl_value : N;
  tl_data : bytes;
  tl_v : N;
  tl_r : H256;
  tl_s : H256;
  tl_algo_id : AlgoId
}.

#[export] Instance TxLegacy_eq_dec : EqDecision TxLegacy.
Proof. solve_decision. Defined.

Record TxEip1559 := mkTxEip1559 {
  td_chain_id : N;
  td_nonce : N;
  td_max_priority_fee_per_gas : N;
  td_max_fee_per_gas : N;
  td_gas_limit : N;
  td_to : option Address;
  td_value : N;
  td_data : bytes;
  td_access_list : list AccessListItem;
  td_v : N;
  td_r : H256;
  td_s : H256;
  td_algo_id : AlgoId
}.

#[export] Instance TxEip1559_eq_dec : EqDecision TxEip1559.
Proof. solve_decision. Defined.

Record TxEip4844 := mkTxEip4844 {
  tb_chain_id : N;
  tb_nonce : N;
  tb_max_priority_fee_per_gas : N;
  tb_max_fee_per_gas : N;
  tb_gas_limit : N;
  tb_to : Address;
  tb_value : N;
  tb_data : bytes;
  tb_access_list : list AccessListItem;
  tb_max_fee_per_blob_gas : N;
  tb_blob_versioned_hashes : list H256;
  tb_v : N;
  tb_r : H256;
  tb_s : H256;
  tb_algo_id : AlgoId
}.

#[export] Instance TxEip4844_eq_dec : EqDecision TxEip4844.
Proof. solve_decision. Defined.

Inductive TxType := TypeLegacy | TypeEip1559 | TypeEip4844.

(** The discriminants of [#[repr(u8)]]. *)
Definition tx_type_byte (t : TxType) : N :=
  match t with TypeLegacy => 0 | TypeEip1559 => 2 | TypeEip4844 => 3 end.

Inductive Tx :=
| TLegacy (t : TxLegacy)
| TEip1559 (t : TxEip1559)
| TEip4844 (t : TxEip4844).

#[export] Instance Tx_eq_dec : EqDecision Tx.
Proof. solve_decision. Defined.

Definition tx_ty (t : Tx) : TxType :=
  match t with TLegacy _ => TypeLegacy | TEip1559 _ => TypeEip1559 | TEip4844 _ => TypeEip4844 end.

Section tx.
Context `{Primitives} `{Rlp} `{K256}.

(** ** Fields *)
Definition encode_to (to : option Address) : bytes :=
  match to with Some a => encode_array a | None => [x80] end.

Definition decode_to : decoder (option Address) := fun buf =>
  '(b, buf) ← rlp_decode_string buf;
  if (length b =? 0)%nat then mret (None, buf)
  else
    _ ← guard_err (negb (length b =? 20)%nat) UnexpectedLength;
    a ← expect (arr_of b);
    mret (Some a, buf).

(** At most 32 bytes, padded on the left. *)
Definition decode_h256_loose : decoder H256 := fun buf =>
  '(b, buf) ← rlp_decode_string buf;
  _ ← guard_err (32 <? len b) UnexpectedLength;
  a ← expect (arr_of (replicate (32 - length b) x00 ++ b));
  mret (a, buf).

(** [if self.algo_id != AlgoId::Secp256k1] *)
Definition encode_algo (a : AlgoId) : bytes :=
  if bool_decide (a = Secp256k1) then [] else rlp_u8 (algo_as_byte a).

(** [if consumed < h.payload_length] *)
Definition decode_algo (started_len payload : N) : decoder AlgoId := fun buf =>
  '(o, buf) ← decode_trailing rlp_decode_u8 started_len payload buf;
  match o with
  | None => mret (Secp256k1, buf)
  | Some b =>
      a ← map_err (fun _ => RlpCustom "invalid algo_id") (algo_from_byte b);
      mret (a, buf)
  end.

Definition with_list_header (payload : bytes) : bytes :=
  rlp_list_header (len payload) ++ payload.

(** ** [legacy.rs] *)

(** The fields that are signed; the signature follows them in the encoding. *)
Definition legacy_unsigned (t : TxLegacy) : bytes :=
  rlp_u64 (tl_nonce t) ++ encode_u256 (tl_gas_price t) ++ rlp_u64 (tl_gas_limit t) ++
  encode_to (tl_to t) ++ encode_u256 (tl_value t) ++ rlp_string (tl_data t).

Definition legacy_payload (t : TxLegacy) : bytes :=
  legacy_unsigned t ++ rlp_u64 (tl_v t) ++ encode_array (tl_r t) ++ encode_array (tl_s t) ++
  encode_algo (tl_algo_id t).

Definition encode_legacy (t : TxLegacy) : bytes := with_list_header (legacy_payload t).

Definition decode_legacy : decoder TxLegacy := fun buf =>
  '((is_list, payload), buf) ← rlp_decode_header buf;
  _ ← guard_err (negb is_list) UnexpectedString;
  let started_len := len buf in
  '(nonce, buf) ← rlp_decode_u64 buf;
  '(gas_price, buf) ← decode_u256 buf;
  '(gas_limit, buf) ← rlp_decode_u64 buf;
  '(to, buf) ← decode_to buf;
  '(value, buf) ← decode_u256 buf;
  '(data, buf) ← rlp_decode_string buf;
  '(v, buf) ← rlp_decode_u64 buf;
  '(r, buf) ← decode_h256_loose buf;
  '(s, buf) ← decode_h256_loose buf;
  '(algo_id, buf) ← decode_algo started_len payload buf;
  mret (mkTxLegacy nonce gas_price gas_limit to value data v r s algo_id, buf).

(** ** [eip1559.rs] *)
Definition eip1559_unsigned (t : TxEip1559) : bytes :=
  rlp_u64 (td_chain_id t) ++ rlp_u64 (td_nonce t) ++ encode_u256 (td_max_priority_fee_per_gas t) ++
  encode_u256 (td_max_fee_per_gas t) ++ rlp_u64 (td_gas_limit t) ++ encode_to (td_to t) ++
  encode_u256 (td_value t) ++ rlp_string (td_data t) ++
  encode_list encode_access_item (td_access_list t).

Definition eip1559_payload (t : TxEip1559) : bytes :=
  eip1559_unsigned t ++ rlp_u8 (td_v t) ++ encode_array (td_r t) ++ encode_array (td_s t) ++
  encode_algo (td_algo_id t).

Definition encode_eip1559 (t : TxEip1559) : bytes := with_list_header (eip1559_payload t).

(** The access list of this type must be a list. *)
Definition decode_access_list : decoder (list AccessListItem) := fun buf =>
  '((is_list, payload), buf) ← rlp_decode_header buf;
  _ ← guard_err (negb is_list) UnexpectedString;
  decode_items decode_access_item (S (length buf)) (len buf) payload [] buf.

Definition decode_eip1559 : decoder TxEip1559 := fun buf =>
  '((is_list, payload), buf) ← rlp_decode_header buf;
  _ ← guard_err (negb is_list) UnexpectedString;
  let started_len := len buf in
  '(chain_id, buf) ← rlp_decode_u64 buf;
  '(nonce, buf) ← rlp_decode_u64 buf;
  '(max_priority_fee, buf) ← decode_u256 buf;
  '(max_fee, buf) ← decode_u256 buf;
  '(gas_limit, buf) ← rlp_decode_u64 buf;
  '(to, buf) ← decode_to buf;
  '(value, buf) ← decode_u256 buf;
  '(data, buf) ← rlp_decode_string buf;
  '(access_list, buf) ← decode_access_list buf;
  '(v, buf) ← rlp_decode_u8 buf;
  '(r, buf) ← decode_h256_loose buf;
  '(s, buf) ← decode_h256_loose buf;
  '(algo_id, buf) ← decode_algo started_len payload buf;
  mret (mkTxEip1559 chain_id nonce max_priority_fee max_fee gas_limit to value data access_list
          v r s algo_id, buf).

(** ** [eip4844.rs] *)
Definition eip4844_payload (t : TxEip4844) : bytes :=
  rlp_u64 (tb_chain_id t) ++ rlp_u64 (tb_nonce t) ++ encode_u256 (tb_max_priority_fee_per_gas t) ++
  encode_u256 (tb_max_fee_per_gas t) ++ rlp_u64 (tb_gas_limit t) ++ encode_array (tb_to t) ++
  encode_u256 (tb_value t) ++ rlp_string (tb_data t) ++
  encode_list encode_access_item (tb_access_list t) ++ encode_u256 (tb_max_fee_per_blob_gas t) ++
  encode_list encode_array (tb_blob_versioned_hashes t) ++ rlp_u8 (tb_v t) ++
  encode_array (tb_r t) ++ encode_array (tb_s t) ++ encode_algo (tb_algo_id t).

Definition encode_eip4844 (t : TxEip4844) : bytes := with_list_header (eip4844_payload t).

(** The headers of the two inner lists are read, their [list] flags are not looked at. *)
Definition decode_eip4844 : decoder TxEip4844 := fun buf =>
  '((is_list, payload), buf) ← rlp_decode_header buf;
  _ ← guard_err (negb is_list) UnexpectedString;
  let started_len := len buf in
  '(chain_id, buf) ← rlp_decode_u64 buf;
  '(nonce, buf) ← rlp_decode_u64 buf;
  '(max_priority_fee, buf) ← decode_u256 buf;
  '(max_fee, buf) ← decode_u256 buf;
  '(gas_limit, buf) ← rlp_decode_u64 buf;
  '(to, buf) ← decode_array 20 buf;
  '(value, buf) ← decode_u256 buf;
  '(data, buf) ← rlp_decode_string buf;
  '(access_list, buf) ← decode_list decode_access_item buf;
  '(max_fee_per_blob_gas, buf) ← decode_u256 buf;
  '(hashes, buf) ← decode_list decode_h256_loose buf;
  '(v, buf) ← rlp_decode_u8 buf;
  '(r, buf) ← decode_h256_loose buf;
  '(s, buf) ← decode_h256_loose buf;
  '(algo_id, buf) ← decode_algo started_len payload buf;
  mret (mkTxEip4844 chain_id nonce max_priority_fee max_fee gas_limit to value data access_list
          max_fee_per_blob_gas hashes v r s algo_id, buf).

(** ** [mod.rs]: the envelope *)
Definition tx_encode_2718 (t : Tx) : bytes :=
  match t with
  | TLegacy t => encode_legacy t
  | TEip1559 t => x02 :: encode_eip1559 t
  | TEip4844 t => x03 :: encode_eip4844 t
  end.

Definition tx_map {A} (f : A -> Tx) (r : res RlpError (A * bytes)) : res RlpError (Tx * bytes) :=
  '(t, buf) ← r; mret (f t, buf).

Definition tx_decode_2718 : decoder Tx := fun buf =>
  match buf with
  | [] => Err InputTooShort
  | first :: rest =>
      if 192 <=? Byte.to_N first then tx_map TLegacy (decode_legacy buf)
      else match first with
           | x02 => tx_map TEip1559 (decode_eip1559 rest)
           | x03 => tx_map TEip4844 (decode_eip4844 rest)
           | _ => Err (RlpCustom "unknown EIP-2718 type byte")
           end
  end.

(** [impl Encodable for Tx] *)
Definition tx_encode (t : Tx) : bytes :=
  match t with
  | TLegacy t => encode_legacy t
  | TEip1559 t => rlp_string (x02 :: encode_eip1559 t)
  | TEip4844 t => rlp_string (x03 :: encode_eip4844 t)
  end.

(** [impl Decodable for Tx]: what follows the inner transaction is dropped. *)
Definition tx_decode : decoder Tx := fun buf =>
  match buf with
  | [] => Err InputTooShort
  | first :: _ =>
      if 192 <=? Byte.to_N first then tx_map TLegacy (decode_legacy buf)
      else
        '(payload, buf) ← rlp_decode_string buf;
        _ ← guard_err (length payload =? 0)%nat InputTooShort;
        '(t, _) ← tx_decode_2718 payload;
        mret (t, buf)
  end.

Definition tx_hash (t : Tx) : H256 := keccak256 (tx_encode_2718 t).

(** ** [signer.rs] *)
Inductive RecoveryError :=
| NotSecp256k1 (a : AlgoId)
| InvalidV (v : N)
| SecpError (e : CryptoError)
| Eip4844Unsupported.

Definition legacy_signing_hash_pre155 (t : TxLegacy) : H256 :=
  keccak256 (with_list_header (legacy_unsigned t)).

Definition legacy_signing_hash_eip155 (t : TxLegacy) (chain_id : N) : H256 :=
  keccak256 (with_list_header
    (legacy_unsigned t ++ rlp_u64 chain_id ++ encode_u256 0 ++ encode_u256 0)).

Definition eip1559_signing_hash (t : TxEip1559) : H256 :=
  keccak256 (x02 :: with_list_header (eip1559_unsigned t)).

Definition recover_from_rs (recid : N) (r s hash : H256) : res RecoveryError Address :=
  b ← expect (arr_of (n := 65) (arr_bytes r ++ arr_bytes s ++ [byte_of_N recid]));
  sig ← map_err SecpError (secp.Signature_from_bytes b);
  pk ← map_err SecpError (secp.recover sig hash);
  mret (secp.address pk).

Definition recover_legacy (t : TxLegacy) (chain_id : N) : res RecoveryError Address :=
  _ ← guard_err (bool_decide (tl_algo_id t <> Secp256k1)) (NotSecp256k1 (tl_algo_id t));
  '(recid, hash) ←
    (if (tl_v t =? 27) || (tl_v t =? 28) then
       mret (tl_v t - 27, legacy_signing_hash_pre155 t)
     else if 35 <=? tl_v t then
       base ← ok_or (x ← checked_mul u64_mod chain_id 2; checked_add u64_mod x 35) (InvalidV (tl_v t));
       delta ← ok_or (checked_sub (tl_v t) base) (InvalidV (tl_v t));
       _ ← guard_err (1 <? delta) (InvalidV (tl_v t));
       mret (delta, legacy_signing_hash_eip155 t chain_id)
     else Err (InvalidV (tl_v t)));
  recover_from_rs recid (tl_r t) (tl_s t) hash.

Definition recover_eip1559 (t : TxEip1559) : res RecoveryError Address :=
  _ ← guard_err (bool_decide (td_algo_id t <> Secp256k1)) (NotSecp256k1 (td_algo_id t));
  _ ← guard_err (1 <? td_v t) (InvalidV (td_v t));
  recover_from_rs (td_v t) (td_r t) (td_s t) (eip1559_signing_hash t).

Definition recover_signer (t : Tx) (chain_id : N) : res RecoveryError Address :=
  match t with
  | TLegacy t => recover_legacy t chain_id
  | TEip1559 t => recover_eip1559 t
  | TEip4844 _ => Err Eip4844Unsupported
  end.
End tx.

(** ** Round trips *)
Section tx_roundtrip.
Context `{Primitives} `{R : Rlp} `{K256} `{!RlpLaws R}.

Lemma algo_from_as_byte a : algo_from_byte (algo_as_byte a) = Ok a.
Proof. by destruct a. Qed.

Lemma algo_as_from_byte b a : algo_from_byte b = Ok a -> algo_as_byte a = b.
Proof.
  unfold algo_from_byte. repeat (destruct b as [|b]; try done; try (intros [= <-]; done)).
  all: repeat (match goal with p : positive |- _ => destruct p as [p|p|]; try done; try (intros [= <-]; done) end).
Qed.

Lemma decode_encode_to to rest : decode_to (encode_to to ++ rest) = Ok (to, rest).
Proof.
  unfold decode_to. destruct to as [a|]; cbn [encode_to].
  - unfold encode_array. rewrite rlp_string_roundtrip by (unfold len; by rewrite arr_length).
    cbn [mbind res_bind]. rewrite (arr_length a). cbn. by rewrite arr_of_arr_bytes.
  - rewrite <-rlp_empty_string, rlp_string_roundtrip by done. done.
Qed.

Lemma decode_h256_loose_array (a : H256) rest :
  decode_h256_loose (encode_array a ++ rest) = Ok (a, rest).
Proof.
  unfold decode_h256_loose, encode_array.
  rewrite rlp_string_roundtrip by (unfold len; by rewrite arr_length). cbn [mbind res_bind].
  assert (Hlen : len (arr_bytes a) = 32) by (unfold len; by rewrite arr_length). rewrite Hlen.
  rewrite (arr_length a). cbn [guard_err mbind res_bind N.ltb Nat.sub replicate app]. cbn.
  by rewrite arr_of_arr_bytes.
Qed.

Lemma encode_array_nonempty {n} (a : array n) : 0 < len (encode_array a).
Proof. apply rlp_string_nonempty. Qed.

(** The optional algorithm byte at the end of a list. *)
Lemma decode_encode_algo a front payload started rest :
  payload = front + len (encode_algo a) -> started = payload + len rest ->
  decode_algo started payload (encode_algo a ++ rest) = Ok (a, rest).
Proof.
  intros -> ->. unfold decode_algo, encode_algo. case_bool_decide as Ha.
  - subst a. cbn [app]. rewrite decode_trailing_None; [done|]. cbn. lia.
  - assert (algo_as_byte a < 256) by (by destruct a).
    pose proof (rlp_u8_nonempty (algo_as_byte a)) as Hne.
    rewrite (decode_trailing_Some _ _ _ _ (algo_as_byte a)).
    + cbn [mbind res_bind]. by rewrite algo_from_as_byte.
    + by rewrite rlp_u8_roundtrip.
    + rewrite len_app. lia.
Qed.

(** The numbers fit their Rust types, the encoding fits [usize]. *)
Record legacy_wf (t : TxLegacy) : Prop := {
  lw_nonce : tl_nonce t < u64_mod;
  lw_gas_price : tl_gas_price t < u256_mod;
  lw_gas_limit : tl_gas_limit t < u64_mod;
  lw_value : tl_value t < u256_mod;
  lw_v : tl_v t < u64_mod;
  lw_data : len (tl_data t) < u64_mod;
  lw_len : len (legacy_payload t) < u64_mod
}.

Record eip1559_wf (t : TxEip1559) : Prop := {
  dw_chain_id : td_chain_id t < u64_mod;
  dw_nonce : td_nonce t < u64_mod;
  dw_priority : td_max_priority_fee_per_gas t < u256_mod;
  dw_fee : td_max_fee_per_gas t < u256_mod;
  dw_gas_limit : td_gas_limit t < u64_mod;
  dw_value : td_value t < u256_mod;
  dw_v : td_v t < 256;
  dw_data : len (td_data t) < u64_mod;
  dw_len : len (encode_eip1559 t) + 1 < u64_mod
}.

Record eip4844_wf (t : TxEip4844) : Prop := {
  bw_chain_id : tb_chain_id t < u64_mod;
  bw_nonce : tb_nonce t < u64_mod;
  bw_priority : tb_max_priority_fee_per_gas t < u256_mod;
  bw_fee : tb_max_fee_per_gas t < u256_mod;
  bw_gas_limit : tb_gas_limit t < u64_mod;
  bw_value : tb_value t < u256_mod;
  bw_blob_fee : tb_max_fee_per_blob_gas t < u256_mod;
  bw_v : tb_v t < 256;
  bw_data : len (tb_data t) < u64_mod;
  bw_tx_len : len (encode_eip4844 t) + 1 < u64_mod
}.

Definition tx_wf (t : Tx) : Prop :=
  match t with
  | TLegacy t => legacy_wf t
  | TEip1559 t => eip1559_wf t
  | TEip4844 t => eip4844_wf t
  end.

Lemma len_encode_list {A} (enc : A -> bytes) l : len (concat (enc <$> l)) <= len (encode_list enc l).
Proof. unfold encode_list. rewrite len_app. lia. Qed.

Lemma access_items_roundtrip l :
  len (concat (encode_access_item <$> l)) < u64_mod ->
  Forall (fun a => 0 < len (encode_access_item a) /\
    forall rest, decode_access_item (encode_access_item a ++ rest) = Ok (a, rest)) l.
Proof.
  intros Hlen. apply Forall_forall. intros a Ha. split; [apply access_item_nonempty|].
  intros rest. apply access_item_roundtrip.
  apply list_elem_of_split in Ha as (l1 & l2 & ->).
  rewrite fmap_app, concat_app in Hlen. cbn in Hlen. rewrite !len_app in Hlen. lia.
Qed.

Lemma decode_list_access l rest :
  len (encode_list encode_access_item l) < u64_mod ->
  decode_list decode_access_item (encode_list encode_access_item l ++ rest) = Ok (l, rest).
Proof.
  intros Hlen. pose proof (len_encode_list encode_access_item l) as Hle.
  apply decode_list_roundtrip; [apply access_items_roundtrip|]; lia.
Qed.

Lemma decode_encode_access_list l rest :
  len (encode_list encode_access_item l) < u64_mod ->
  decode_access_list (encode_list encode_access_item l ++ rest) = Ok (l, rest).
Proof.
  intros Hlen. pose proof (len_encode_list encode_access_item l) as Hle.
  pose proof (decode_list_access l rest Hlen) as Hlist. revert Hlist.
  unfold decode_list, decode_access_list, encode_list.
  rewrite <-app_assoc, rlp_header_roundtrip by (rewrite ?len_app; lia). done.
Qed.

Lemma decode_encode_hashes (l : list H256) rest :
  len (encode_list encode_array l) < u64_mod ->
  decode_list decode_h256_loose (encode_list encode_array l ++ rest) = Ok (l, rest).
Proof.
  intros Hlen. pose proof (len_encode_list encode_array l) as Hle.
  apply decode_list_roundtrip; [|lia]. apply Forall_forall. intros a _.
  split; [apply encode_array_nonempty|]. intros. apply decode_h256_loose_array.
Qed.

(** One field read back after the other, up to the algorithm byte. *)
Ltac roundtrip_fields :=
  repeat (first
    [ rewrite decode_encode_array by done | rewrite decode_encode_u256 by done
    | rewrite rlp_u64_roundtrip by done | rewrite rlp_u8_roundtrip by done
    | rewrite rlp_string_roundtrip by done | rewrite decode_encode_to
    | rewrite decode_h256_loose_array
    | rewrite decode_encode_access_list by done | rewrite decode_list_access by done
    | rewrite decode_encode_hashes by done ]; cbn [mbind res_bind guard_err negb]).

Lemma decode_encode_legacy t rest :
  legacy_wf t -> decode_legacy (encode_legacy t ++ rest) = Ok (t, rest).
Proof.
  intros [? ? ? ? ? ? Hlen]. unfold decode_legacy, encode_legacy, with_list_header.
  rewrite <-app_assoc, rlp_header_roundtrip by (rewrite ?len_app; lia).
  cbn [mbind res_bind guard_err negb].
  remember (len (legacy_payload t ++ rest)) as started eqn:Hs.
  remember (len (legacy_payload t)) as payload eqn:Hp. rewrite len_app, <-Hp in Hs.
  unfold legacy_payload, legacy_unsigned. rewrite <-!app_assoc. roundtrip_fields.
  rewrite (decode_encode_algo _ (payload - len (encode_algo (tl_algo_id t)))); [by destruct t| |exact Hs].
  subst payload. unfold legacy_payload. rewrite !len_app. lia.
Qed.

Lemma decode_encode_eip1559 t rest :
  eip1559_wf t -> decode_eip1559 (encode_eip1559 t ++ rest) = Ok (t, rest).
Proof.
  intros [? ? ? ? ? ? ? ? Hlen]. unfold encode_eip1559, with_list_header in *. rewrite len_app in Hlen.
  unfold decode_eip1559. rewrite <-app_assoc, rlp_header_roundtrip by (rewrite ?len_app; lia).
  cbn [mbind res_bind guard_err negb].
  assert (len (encode_list encode_access_item (td_access_list t)) < u64_mod).
  { clear -Hlen. unfold eip1559_payload, eip1559_unsigned in Hlen. rewrite !len_app in Hlen. lia. }
  remember (len (eip1559_payload t ++ rest)) as started eqn:Hs.
  remember (len (eip1559_payload t)) as payload eqn:Hp. rewrite len_app, <-Hp in Hs.
  unfold eip1559_payload, eip1559_unsigned. rewrite <-!app_assoc. roundtrip_fields.
  rewrite (decode_encode_algo _ (payload - len (encode_algo (td_algo_id t)))); [by destruct t| |exact Hs].
  subst payload. unfold eip1559_payload. rewrite !len_app. lia.
Qed.

Lemma decode_encode_eip4844 t rest :
  eip4844_wf t -> decode_eip4844 (encode_eip4844 t ++ rest) = Ok (t, rest).
Proof.
  intros [? ? ? ? ? ? ? ? ? Hlen]. unfold encode_eip4844, with_list_header in *. rewrite len_app in Hlen.
  unfold decode_eip4844. rewrite <-app_assoc, rlp_header_roundtrip by (rewrite ?len_app; lia).
  cbn [mbind res_bind guard_err negb].
  assert (len (encode_list encode_access_item (tb_access_list t)) < u64_mod /\
          len (encode_list encode_array (tb_blob_versioned_hashes t)) < u64_mod) as [? ?].
  { clear -Hlen. unfold eip4844_payload in Hlen. rewrite !len_app in Hlen. lia. }
  remember (len (eip4844_payload t ++ rest)) as started eqn:Hs.
  remember (len (eip4844_payload t)) as payload eqn:Hp. rewrite len_app, <-Hp in Hs.
  unfold eip4844_payload. rewrite <-!app_assoc. roundtrip_fields.
  rewrite (decode_encode_algo _ (payload - len (encode_algo (tb_algo_id t)))); [by destruct t| |exact Hs].
  subst payload. unfold eip4844_payload. rewrite !len_app. lia.
Qed.

(** Both wire forms of the envelope. *)
Lemma decode_encode_2718 t rest :
  tx_wf t -> tx_decode_2718 (tx_encode_2718 t ++ rest) = Ok (t, rest).
Proof.
  destruct t as [t|t|t]; cbn [tx_wf tx_encode_2718]; intros Hwf.
  - pose proof (decode_encode_legacy t rest Hwf) as Hdec. unfold tx_decode_2718.
    destruct (rlp_list_prefix (len (legacy_payload t))) as (b & hd & Hb & Hge).
    unfold encode_legacy, with_list_header in *. rewrite Hb in *. cbn [app] in *.
    rewrite (proj2 (N.leb_le _ _) Hge), Hdec. done.
  - cbn. by rewrite decode_encode_eip1559.
  - cbn. by rewrite decode_encode_eip4844.
Qed.

Lemma decode_wrapped s t rest :
  len s < u64_mod -> (0 < length s)%nat -> tx_decode_2718 s = Ok (t, []) ->
  tx_decode (rlp_string s ++ rest) = Ok (t, rest).
Proof.
  intros Hlen Hne Hdec. pose proof (rlp_string_roundtrip s rest Hlen) as Hs.
  destruct (rlp_string_prefix s Hlen) as (b & hd & Hb & Hlt). unfold tx_decode.
  rewrite Hb in *. cbn [app] in *. rewrite (proj2 (N.leb_gt _ _) Hlt), Hs. cbn [mbind res_bind].
  destruct s; [cbn in Hne; lia|]. cbn [length Nat.eqb guard_err mbind res_bind]. by rewrite Hdec.
Qed.

Lemma decode_encode_tx t rest : tx_wf t -> tx_decode (tx_encode t ++ rest) = Ok (t, rest).
Proof.
  intros Hwf. pose proof (decode_encode_2718 t [] Hwf) as Hdec. rewrite app_nil_r in Hdec.
  destruct t as [t|t|t]; cbn [tx_wf tx_encode tx_encode_2718] in *.
  - pose proof (decode_encode_legacy t rest Hwf) as Hl. unfold tx_decode.
    destruct (rlp_list_prefix (len (legacy_payload t))) as (b & hd & Hb & Hge).
    unfold encode_legacy, with_list_header in *. rewrite Hb in *. cbn [app] in *.
    rewrite (proj2 (N.leb_le _ _) Hge), Hl. done.
  - apply decode_wrapped; [|cbn; lia|done]. destruct Hwf. unfold len in *. cbn. lia.
  - apply decode_wrapped; [|cbn; lia|done]. destruct Hwf. unfold len in *. cbn. lia.
Qed.

Lemma tx_encode_nonempty t : 0 < len (tx_encode t).
Proof.
  destruct t as [t|t|t]; cbn [tx_encode]; [|apply rlp_string_nonempty..].
  unfold encode_legacy, with_list_header. rewrite len_app.
  pose proof (rlp_list_header_nonempty (len (legacy_payload t))). lia.
Qed.
End tx_roundtrip.

(** ** Decoding arbitrary bytes *)
Section tx_safety.
Context `{Primitives} `{R : Rlp} `{K256} `{!RlpSafe R}.

Lemma decode_to_safe : reader_ok decode_to.
Proof.
  apply reader_bind; [apply safe_string|]. intros b buf. cbv beta.
  destruct (length b =? 0)%nat; [apply reads_ret|].
  destruct (Nat.eqb_spec (length b) 20) as [Hl|]; [|by split].
  destruct (arr_of_is_Some b Hl) as [a Ha]. cbn. rewrite Ha. apply reads_ret.
Qed.

Lemma decode_h256_loose_safe : reader_ok decode_h256_loose.
Proof.
  apply reader_bind; [apply safe_string|]. intros b buf. cbv beta.
  destruct (N.ltb_spec 32 (len b)) as [|Hle]; [by split|].
  destruct (arr_of_is_Some (n := 32) (replicate (32 - length b) x00 ++ b)) as [a Ha].
  { rewrite length_app, length_replicate. unfold len in Hle. lia. }
  cbn [guard_err mbind res_bind]. rewrite Ha. apply reads_ret.
Qed.

Lemma decode_algo_safe s p buf : reads buf (decode_algo s p buf).
Proof.
  apply reads_weak; [intros; apply decode_trailing_safe, safe_u8|]. intros [b|] buf'; [|apply reads_ret].
  unfold map_err. destruct (algo_from_byte b) as [a|e|] eqn:Ha; [apply reads_ret|by split|].
  exfalso. clear -Ha. unfold algo_from_byte in Ha. by repeat case_match.
Qed.

Lemma decode_access_list_safe : reader_ok decode_access_list.
Proof.
  apply struct_safe. intros p buf. apply decode_items_safe; [apply safe_access_item|lia].
Qed.

Ltac read_tx :=
  repeat first
    [ apply reads_ret
    | apply reads_guard
    | apply reads_weak;
      [ intros; first
          [ apply reader_weak, safe_u64 | apply reader_weak, safe_u8 | apply reader_weak, safe_string
          | apply reader_weak, decode_u256_safe | apply reader_weak, decode_array_safe
          | apply reader_weak, decode_to_safe | apply reader_weak, decode_h256_loose_safe
          | apply reader_weak, decode_access_list_safe
          | apply decode_list_safe, safe_access_item
          | apply decode_list_safe, decode_h256_loose_safe
          | apply decode_algo_safe ]
      | intros ? ? ] ].

Lemma decode_legacy_safe : reader_ok decode_legacy.
Proof. apply struct_safe. intros p buf. cbn beta zeta. read_tx. Qed.

Lemma decode_eip1559_safe : reader_ok decode_eip1559.
Proof. apply struct_safe. intros p buf. cbn beta zeta. read_tx. Qed.

Lemma decode_eip4844_safe : reader_ok decode_eip4844.
Proof. apply struct_safe. intros p buf. cbn beta zeta. read_tx. Qed.

Lemma tx_map_safe {A} (f : A -> Tx) (dec : decoder A) : reader_ok dec -> reader_ok (fun buf => tx_map f (dec buf)).
Proof. intros Hd. apply (reader_bind dec (fun t buf => mret (f t, buf))); [done|]. intros. apply reads_ret. Qed.

Lemma tx_decode_2718_safe : reader_ok tx_decode_2718.
Proof.
  intros buf. unfold tx_decode_2718. destruct buf as [|first rest]; [done|].
  destruct (192 <=? _); [by apply tx_map_safe, decode_legacy_safe|].
  assert (Hd : forall A (f : A -> Tx) (dec : decoder A), reader_ok dec ->
    tx_map f (dec rest) <> Panic /\
    forall a r, tx_map f (dec rest) = Ok (a, r) -> len r < len (first :: rest)).
  { intros A f dec Hdec. destruct (tx_map_safe f dec Hdec rest) as [Hnp Hlt]. split; [done|].
    intros a r Ha. specialize (Hlt _ _ Ha). unfold len in *. cbn. lia. }
  destruct first; try done; apply Hd; [apply decode_eip1559_safe|apply decode_eip4844_safe].
Qed.

Lemma tx_decode_safe : reader_ok tx_decode.
Proof.
  intros buf. unfold tx_decode. destruct buf as [|first rest]; [done|].
  destruct (192 <=? _); [by apply tx_map_safe, decode_legacy_safe|].
  destruct (safe_string (first :: rest)) as [Hnp Hlt].
  destruct (rlp_decode_string (first :: rest)) as [[payload buf]| |]; cbn [mbind res_bind]; [|done..].
  specialize (Hlt _ _ eq_refl). destruct (length payload =? 0)%nat; cbn [guard_err mbind res_bind]; [done|].
  destruct (tx_decode_2718_safe payload) as [Hnp' _].
  destruct (tx_decode_2718 payload) as [[t tl]| |]; cbn [mbind res_bind]; [|done..].
  split; [done|]. by intros ? ? [= <- <-].
Qed.
End tx_safety.
