(* ===== verification/Transfer.v ===== *)
(** * Transfer: a wallet's transfer and the sender the node sees

    Models [sign_legacy_transfer], [compute_legacy_eip155_hash], [u256_len] and
    [encode_u256_local] of [src/crates/aii-cli/src/lib.rs], which repeats private code of
    [aii-block], against the decoding and the signer recovery of [Tx]. *)
From stdpp Require Import base tactics numbers strings list.
From Stdlib Require Import NArith Lia.
From Stdlib.Init Require Import Byte.
From Stdlib.Strings Require Byte.
From S2P Require Import Prelude Bytes Crypto Codec Secp Tx ToyRlp.

Section transfer.
Context `{Primitives} `{Rlp} `{K256}.

Inductive CliError :=
| ClientSign (e : CryptoError)
| ChainIdTooLarge.

(** [be.iter().take_while(|b| **b == 0).count()] *)
Fixpoint leading_zeros (be : bytes) : nat :=
  match be with
  | [] => O
  | b :: be => if bool_decide (b = x00) then S (leading_zeros be) else O
  end.

Definition u256_len (v : N) : N :=
  let be := be_bytes 32 v in
  let n := 32 - N.of_nat (leading_zeros be) in
  if (n <=? 1) && ((n =? 0) || (Byte.to_N (nth 31 be x00) <? 128)) then 1
  else rlp_length_of_length n + n.

Definition encode_u256_local (v : N) : bytes :=
  let be := be_bytes 32 v in rlp_string (drop (leading_zeros be) be).

(** The header announces a recipient of 21 bytes; a transaction without one panics. *)
Definition compute_legacy_eip155_hash {E} (t : TxLegacy) (chain_id : N) : res E H256 :=
  let payload_length :=
    len (rlp_u64 (tl_nonce t)) + u256_len (tl_gas_price t) + len (rlp_u64 (tl_gas_limit t)) + 21 +
    u256_len (tl_value t) + len (rlp_string (tl_data t)) + len (rlp_u64 chain_id) +
    u256_len 0 * 2 in
  to ← expect (tl_to t);
  mret (keccak256 (rlp_list_header payload_length ++
    rlp_u64 (tl_nonce t) ++ encode_u256_local (tl_gas_price t) ++ rlp_u64 (tl_gas_limit t) ++
    encode_array to ++ encode_u256_local (tl_value t) ++ rlp_string (tl_data t) ++
    rlp_u64 chain_id ++ encode_u256_local 0 ++ encode_u256_local 0)).

Definition sign_legacy_transfer (sk : ec_sk) (chain_id nonce : N) (to : Address)
    (value gas_price : N) : res CliError Tx :=
  let tx := mkTxLegacy nonce gas_price 21000 (Some to) value [] 0 (zero_array 32) (zero_array 32)
              Secp256k1 in
  hash ← compute_legacy_eip155_hash tx chain_id;
  sig ← map_err ClientSign (secp.sign sk hash);
  let raw := secp.Signature_to_bytes sig in
  r ← slice_array 32 raw 0;
  s ← slice_array 32 raw 32;
  recid ← expect (raw !! 64%nat);
  v ← ok_or (x ← checked_mul u64_mod chain_id 2;
             y ← checked_add u64_mod x 35;
             checked_add u64_mod y (Byte.to_N recid)) ChainIdTooLarge;
  mret (TLegacy (mkTxLegacy nonce gas_price 21000 (Some to) value [] v r s Secp256k1)).
End transfer.

Section facts.
Context `{Primitives} `{R : Rlp} `{K : K256} `{!RlpLaws R} `{!K256Laws K}.

Lemma drop_leading_zeros be : drop (leading_zeros be) be = trim_zeros be.
Proof. induction be as [|b be IH]; cbn; [done|]. by case_bool_decide. Qed.

Lemma leading_zeros_length be : (leading_zeros be + length (trim_zeros be) = length be)%nat.
Proof. induction be as [|b be IH]; cbn; [done|]. case_bool_decide; cbn; lia. Qed.

Lemma encode_u256_local_eq v : encode_u256_local v = encode_u256 v.
Proof. unfold encode_u256_local, encode_u256. by rewrite drop_leading_zeros. Qed.

Lemma u256_len_eq v : u256_len v = len (encode_u256 v).
Proof.
  unfold u256_len, encode_u256. pose proof (leading_zeros_length (be_bytes 32 v)) as Hl.
  pose proof (trim_zeros_pad (be_bytes 32 v)) as Hpad. rewrite length_be_bytes in *.
  assert (32 - N.of_nat (leading_zeros (be_bytes 32 v)) = len (trim_zeros (be_bytes 32 v))) as ->
    by (unfold len; lia).
  destruct (trim_zeros (be_bytes 32 v)) as [|b [|c l]] eqn:Ht.
  - rewrite rlp_empty_string. done.
  - rewrite rlp_string_single. rewrite <-Hpad. cbn [length Nat.sub replicate app nth].
    change (len [b]) with 1. cbn [N.leb N.eqb orb andb].
    destruct (_ <? 128); cbn; [done|]. by rewrite rlp_length_short.
  - assert (Hlen : (2 <= length (b :: c :: l) < 56)%nat) by (cbn in *; lia).
    rewrite rlp_string_short by done. unfold len in *.
    destruct (N.leb_spec (N.of_nat (length (b :: c :: l))) 1); [lia|]. cbn [andb].
    rewrite rlp_length_short by lia. done.
Qed.

(** The command line's copy of the signing hash is the node's. *)
Lemma cli_hash_eq {E} t chain_id to :
  tl_to t = Some to ->
  compute_legacy_eip155_hash (E := E) t chain_id = Ok (legacy_signing_hash_eip155 t chain_id).
Proof.
  intros Hto. unfold compute_legacy_eip155_hash, legacy_signing_hash_eip155, legacy_unsigned,
    with_list_header, encode_to. rewrite Hto. cbn [expect mbind res_bind]. f_equal. f_equal.
  rewrite !encode_u256_local_eq, !u256_len_eq, <-!app_assoc. f_equal. f_equal.
  rewrite !len_app.
  assert (len (encode_array to) = 21) as ->.
  { unfold encode_array. rewrite rlp_string_short by (rewrite arr_length; lia).
    unfold len. by rewrite arr_length. }
  lia.
Qed.

(** [recover_from_rs] on the parts of a signature's wire form. *)
Lemma recover_signed sk h sig (r s : H256) :
  secp.sign sk h = Ok sig -> arr_bytes r ++ arr_bytes s = arr_bytes (ec_sig_to_bytes (secp.inner sig)) ->
  recover_from_rs (secp.recovery_id sig) r s h = Ok (secp.address (ec_verifying_key sk)).
Proof.
  intros Hsig Hrs. destruct (sign_recover _ _ _ Hsig) as (Hrec & Hid & Hlt).
  unfold recover_from_rs. rewrite app_assoc, Hrs.
  destruct (arr_of_is_Some (n := 65) (arr_bytes (ec_sig_to_bytes (secp.inner sig)) ++ [byte_of_N (secp.recovery_id sig)]))
    as [b Hb]; [by rewrite length_app, arr_length|].
  rewrite Hb. cbn [expect mbind res_bind]. apply arr_of_Some in Hb.
  rewrite (Signature_from_to_bytes sig b Hid Hlt Hb). cbn [map_err mbind res_bind].
  by rewrite Hrec.
Qed.

(** The parts of a signature's 65 bytes that a wallet cuts out. *)
Lemma signature_parts {E} (sig : secp.Signature) :
  let raw := secp.Signature_to_bytes sig in
  exists r s : H256, slice_array (E := E) 32 raw 0 = Ok r /\ slice_array (E := E) 32 raw 32 = Ok s /\
    raw !! 64%nat = Some (byte_of_N (secp.recovery_id sig)) /\
    arr_bytes r ++ arr_bytes s = arr_bytes (ec_sig_to_bytes (secp.inner sig)).
Proof.
  cbn zeta. assert (Hlen : length (secp.Signature_to_bytes sig) = 65%nat).
  { unfold secp.Signature_to_bytes. by rewrite length_app, arr_length. }
  destruct (slice_array_in (E := E) 32 (secp.Signature_to_bytes sig) 0) as (r & Hr & _); [lia|].
  destruct (slice_array_in (E := E) 32 (secp.Signature_to_bytes sig) 32) as (s & Hs & _); [lia|].
  exists r, s. split_and!; [done|done| |].
  - unfold secp.Signature_to_bytes. by rewrite lookup_app_r, arr_length by (by rewrite arr_length).
  - apply slice_array_Ok in Hr, Hs. rewrite drop_0 in Hr. cbn [Nat.add] in *.
    rewrite Hs, app_assoc in Hr. unfold secp.Signature_to_bytes in Hr.
    by apply app_inj_1 in Hr as [-> _]; [|by rewrite length_app, !arr_length].
Qed.

(** The transfer before it is signed: what the wallet hashes. *)
Definition unsigned_transfer (nonce gas_price value : N) (to : Address) : TxLegacy :=
  mkTxLegacy nonce gas_price 21000 (Some to) value [] 0 (zero_array 32) (zero_array 32) Secp256k1.

(** What the wallet builds, step by step. *)
Lemma sign_legacy_transfer_Ok sk chain_id nonce to value gas_price sig :
  chain_id * 2 + 35 + secp.recovery_id sig < u64_mod ->
  secp.sign sk (legacy_signing_hash_eip155 (unsigned_transfer nonce gas_price value to) chain_id) = Ok sig ->
  exists r s, sign_legacy_transfer sk chain_id nonce to value gas_price =
    Ok (TLegacy (mkTxLegacy nonce gas_price 21000 (Some to) value []
          (chain_id * 2 + 35 + secp.recovery_id sig) r s Secp256k1)) /\
    arr_bytes r ++ arr_bytes s = arr_bytes (ec_sig_to_bytes (secp.inner sig)).
Proof.
  intros Hc Hsig. destruct (sign_recover _ _ _ Hsig) as (_ & _ & Hrec).
  unfold sign_legacy_transfer. rewrite (cli_hash_eq _ _ to) by done.
  cbn [mbind res_bind]. unfold unsigned_transfer in Hsig. rewrite Hsig. cbn [map_err mbind res_bind].
  destruct (signature_parts (E := CliError) sig) as (r & s & Hr & Hs & Hid & Hrs).
  rewrite Hr, Hs. cbn [mbind res_bind]. exists r, s. split; [|done]. rewrite Hid.
  cbn [expect mbind res_bind]. rewrite to_N_byte_of_N, N.mod_small by lia.
  unfold checked_mul. rewrite (proj2 (N.ltb_lt _ _)) by lia. cbn [mbind option_bind].
  unfold checked_add. rewrite (proj2 (N.ltb_lt (chain_id * 2 + 35) _)) by lia. cbn [mbind option_bind].
  by rewrite (proj2 (N.ltb_lt _ _)) by lia.
Qed.

(** The recovery id of a signature made for a chain, seen by each chain. *)
Lemma recover_legacy_eip155 t chain_id recid id :
  tl_algo_id t = Secp256k1 -> tl_v t = chain_id * 2 + 35 + recid -> recid <= 1 -> id * 2 + 35 < u64_mod ->
  recover_legacy t id =
  if id =? chain_id
  then recover_from_rs recid (tl_r t) (tl_s t) (legacy_signing_hash_eip155 t chain_id)
  else Err (InvalidV (tl_v t)).
Proof.
  intros Halgo Hv Hrec Hid. unfold recover_legacy. rewrite Halgo, Hv.
  rewrite (bool_decide_eq_false_2 (Secp256k1 <> Secp256k1)) by (by intros []). cbn [guard_err mbind res_bind].
  assert ((chain_id * 2 + 35 + recid =? 27) || (chain_id * 2 + 35 + recid =? 28) = false) as ->.
  { apply orb_false_intro; apply N.eqb_neq; lia. }
  rewrite (proj2 (N.leb_le _ _)) by lia.
  unfold checked_mul. rewrite (proj2 (N.ltb_lt _ _)) by lia. cbn [mbind option_bind].
  unfold checked_add. rewrite (proj2 (N.ltb_lt _ _)) by lia. cbn [ok_or mbind res_bind].
  unfold checked_sub. destruct (N.eqb_spec id chain_id) as [->|Hne].
  - rewrite (proj2 (N.leb_le _ _)) by lia. cbn [ok_or mbind res_bind].
    replace (chain_id * 2 + 35 + recid - (chain_id * 2 + 35)) with recid by lia.
    by rewrite (proj2 (N.ltb_ge _ _)) by lia.
  - destruct (N.leb_spec (id * 2 + 35) (chain_id * 2 + 35 + recid)); [|done].
    cbn [ok_or mbind res_bind]. by rewrite (proj2 (N.ltb_lt _ _)) by lia.
Qed.

(** C21. A transfer that the wallet signs for a chain, with a signature of either parity, is
    built, and the node of that chain recovers the wallet's own address as its sender;
    every other chain refuses the transaction, so it cannot be replayed there.  In
    particular the command line's own computation of the signing hash (with the length of
    the recipient as a constant) is the node's. *)
Theorem transfer_sender sk chain_id nonce to value gas_price sig :
  chain_id * 2 + 36 < u64_mod -> secp.recovery_id sig <= 1 ->
  secp.sign sk (legacy_signing_hash_eip155 (unsigned_transfer nonce gas_price value to) chain_id) = Ok sig ->
  exists tx, sign_legacy_transfer sk chain_id nonce to value gas_price = Ok tx /\
    recover_signer tx chain_id = Ok (secp.address (ec_verifying_key sk)) /\
    forall other, other <> chain_id -> other * 2 + 35 < u64_mod ->
      exists v, recover_signer tx other = Err (InvalidV v).
Proof.
  intros Hc Hrec Hsig.
  destruct (sign_legacy_transfer_Ok _ chain_id _ _ _ _ sig ltac:(lia) Hsig) as (r & s & Htx & Hrs).
  eexists. split; [exact Htx|]. cbn [recover_signer]. split.
  - rewrite (recover_legacy_eip155 _ chain_id (secp.recovery_id sig)) by (done || lia).
    rewrite N.eqb_refl. cbn [tl_r tl_s]. by apply (recover_signed sk).
  - intros other Hne Ho. eexists.
    rewrite (recover_legacy_eip155 _ chain_id (secp.recovery_id sig)) by done.
    by rewrite (proj2 (N.eqb_neq _ _) Hne).
Qed.

(** C22. Both wire forms of a transaction of any of the three types whose numbers fit their
    machine types read back as that transaction and leave the bytes that follow: the
    envelope of [encode_2718] and the one inside a block, with and without the
    algorithm byte at the end. *)
Theorem tx_roundtrip t rest :
  tx_wf t ->
  tx_decode_2718 (tx_encode_2718 t ++ rest) = Ok (t, rest) /\ tx_decode (tx_encode t ++ rest) = Ok (t, rest).
Proof. intros Hwf. split; [by apply decode_encode_2718|by apply decode_encode_tx]. Qed.
End facts.

(** ** Instances *)
Module TransferDemo.
Definition sk : array 32 := be_array 32 7.
Definition addr : Address := be_array 20 18.
Definition hash : H256 :=
  @legacy_signing_hash_eip155 Toy.prims ToyRlp.rlp (unsigned_transfer 3 1000000000 5 addr) 9999.
Definition sig : @secp.Signature ToySecp.k256 := @secp.mkSignature ToySecp.k256 (sk, hash) 1.

Definition tx0 : Tx :=
  TEip1559 (mkTxEip1559 99 0 1 2 21000 None 0 [] [mkAccessItem (be_array 20 1) [be_array 32 2]] 0
    (be_array 32 51) (be_array 32 68) MlDsa65).
End TransferDemo.

Lemma transfer_sender_witness :
  exists tx, @sign_legacy_transfer Toy.prims ToyRlp.rlp ToySecp.k256 TransferDemo.sk 9999 3 TransferDemo.addr 5 1000000000 = Ok tx /\
    @recover_signer Toy.prims ToyRlp.rlp ToySecp.k256 tx 9999 =
      Ok (@secp.address Toy.prims ToySecp.k256 TransferDemo.sk).
Proof.
  destruct (transfer_sender (R := ToyRlp.rlp) (H := Toy.prims) (K := ToySecp.k256) (RlpLaws0 := ToyRlp.rlp_laws)
    (K256Laws0 := ToySecp.laws) TransferDemo.sk 9999 3 TransferDemo.addr 5 1000000000 TransferDemo.sig)
    as (tx & Htx & Hr & _); [reflexivity|discriminate|reflexivity|].
  exists tx. split; [exact Htx|exact Hr].
Defined.

Lemma tx_roundtrip_witness :
  @tx_decode ToyRlp.rlp (@tx_encode ToyRlp.rlp TransferDemo.tx0 ++ [x07]) = Ok (TransferDemo.tx0, [x07]).
Proof.
  destruct (tx_roundtrip (R := ToyRlp.rlp) (RlpLaws0 := ToyRlp.rlp_laws) TransferDemo.tx0 [x07]) as [_ H];
    [split; vm_compute; reflexivity|exact H].
Defined.
