(* ===== verification/Trie.v ===== *)
(** * Trie: Merkle Patricia roots

    Models [mpt_root] of [src/crates/aii-state/src/trie.rs]: the keys become nibbles,
    the pairs are sorted, and the nodes are built recursively.  The recursion
    strips at least one nibble of every key, so the longest key bounds it
    ([build_node_total]); the root does not depend on the order of the pairs. *)
From stdpp Require Import base tactics numbers sets sorting list.
From Stdlib Require Import NArith Lia.
From Stdlib.Init Require Import Byte.
From Stdlib.Strings Require Byte.
From S2P Require Import Prelude Bytes Crypto Codec.

(** [aii-block]'s [consts.rs] *)
Definition EMPTY_LIST_HASH : H256 :=
  be_array 32 0x1dcc4de8dec75d7aab85b567b6ccd41ad312451b948a7413f0a142fd40d49347.
Definition EMPTY_TRIE_HASH : H256 :=
  be_array 32 0x56e81f171bcc55a6ff8345e692c0f86e5b48e01b996cadc001622fb5e363b421.

Abbreviation nibbles := (list N).
(** A key, in nibbles, and its value. *)
Abbreviation entry := (nibbles * bytes)%type.

Definition key_to_nibbles (k : bytes) : nibbles :=
  concat (map (fun b => [N.shiftr (Byte.to_N b) 4; N.land (Byte.to_N b) 15]) k).

(** The [while i + 1 < len] loop: two nibbles a byte. *)
Fixpoint pack_nibbles (l : nibbles) : bytes :=
  match l with
  | a :: b :: l => byte_of_N (N.lor (N.shiftl a 4) b) :: pack_nibbles l
  | _ => []
  end.

Definition hex_prefix (path : nibbles) (is_leaf : bool) : bytes :=
  let flag := if is_leaf then 2 else 0 in
  match path with
  | n :: rest =>
      if Nat.odd (length path)
      then byte_of_N (N.lor (N.shiftl (N.lor flag 1) 4) n) :: pack_nibbles rest
      else byte_of_N (N.shiftl flag 4) :: pack_nibbles path
  | [] => [byte_of_N (N.shiftl flag 4)]
  end.

(** The [while i < max] loop, [n] turns from [i] on. *)
Fixpoint common_scan (first : nibbles) (keys : list nibbles) (n i : nat) : nat :=
  match n with
  | O => i
  | S n =>
      let b := nth i first 0 in
      if existsb (fun k => negb (nth i k 0 =? b)) keys then i
      else common_scan first keys n (S i)
  end.

Definition common_prefix_len (pairs : list entry) : nat :=
  match pairs with
  | [] => 0
  | (first, _) :: rest =>
      let max := foldr (fun p m => Nat.min (length p.1) m) (length first) rest in
      common_scan first (map fst pairs) max 0
  end.

(** [pairs.sort_by(|a, b| a.0.cmp(&b.0))] *)
Definition sort_pairs (l : list entry) : list entry := sort_by (fun p q => lex_le p.1 q.1) l.

Section trie.
Context `{Primitives} `{Rlp}.

Inductive ChildRef :=
| RefEmpty
| Inlined (b : bytes)
| Hashed (h : H256)
| RefValue (v : bytes).

Definition child_ref (node_rlp : bytes) : ChildRef :=
  if len node_rlp <? 32 then Inlined node_rlp else Hashed (keccak256 node_rlp).

Definition child_ref_encoded_length (r : ChildRef) : N :=
  match r with
  | RefEmpty => 1
  | Inlined b => len b
  | Hashed _ => 33
  | RefValue v => rlp_length v
  end.

Definition write_child_ref (r : ChildRef) : bytes :=
  match r with
  | RefEmpty => [x80]
  | Inlined b => b
  | Hashed h => rlp_string (arr_bytes h)
  | RefValue v => rlp_string v
  end.

Definition rlp_leaf_or_extension (path : nibbles) (value : bytes) (is_leaf : bool) : bytes :=
  let hp := hex_prefix path is_leaf in
  rlp_list_header (rlp_length hp + rlp_length value) ++ rlp_string hp ++ rlp_string value.

Definition rlp_extension (path : nibbles) (child_node_rlp : bytes) : bytes :=
  let hp := hex_prefix path false in
  let r := child_ref child_node_rlp in
  rlp_list_header (rlp_length hp + child_ref_encoded_length r) ++ rlp_string hp ++ write_child_ref r.

Definition rlp_branch (children : list bytes) (value : bytes) : bytes :=
  let refs := map (fun c => match c with [] => RefEmpty | _ => child_ref c end) (take 16 children)
              ++ [RefValue value] in
  rlp_list_header (foldr N.add 0 (map child_ref_encoded_length refs)) ++
  concat (map write_child_ref refs).

(** Does the entry start with the nibble? *)
Definition starts_with (n : N) (p : entry) : bool :=
  match p.1 with x :: _ => x =? n | [] => false end.

(** The entries from [i + 1] on that share the first nibble, and the rest. *)
Fixpoint span_group (n : N) (pairs : list entry) : list entry * list entry :=
  match pairs with
  | p :: rest =>
      if starts_with n p
      then let '(g, r) := span_group n rest in (p :: g, r)
      else ([], pairs)
  | [] => ([], [])
  end.

Definition drop_key (n : nat) (p : entry) : entry := (drop n p.1, p.2).

(** The grouping loop of the branch node; [turns] bounds its turns by the pairs. *)
Fixpoint branch_loop (build : list entry -> option bytes) (turns : nat) (pairs : list entry)
    (children : list bytes) (value : bytes) : option (list bytes * bytes) :=
  match pairs with
  | [] => Some (children, value)
  | (k, v) :: rest =>
      match turns with
      | O => None
      | S turns =>
          match k with
          | [] => branch_loop build turns rest children v
          | first :: _ =>
              let '(g, rest) := span_group first rest in
              node ← build (map (drop_key 1) ((k, v) :: g));
              branch_loop build turns rest (<[N.to_nat first := node]> children) value
          end
      end
  end.

Fixpoint build_node (fuel : nat) (pairs : list entry) : option bytes :=
  match fuel with
  | O => None
  | S fuel =>
      match pairs with
      | [(k, v)] => Some (rlp_leaf_or_extension k v true)
      | _ =>
          let common := common_prefix_len pairs in
          if (0 <? common)%nat then
            child ← build_node fuel (map (drop_key common) pairs);
            Some (rlp_extension (take common (default [] (head (map fst pairs)))) child)
          else
            '(children, value) ← branch_loop (build_node fuel) (length pairs) pairs
                                   (replicate 17 []) [];
            Some (rlp_branch children value)
      end
  end.

Definition max_key_len (pairs : list entry) : nat :=
  foldr (fun p m => Nat.max (length p.1) m) 0%nat pairs.

Definition mpt_root (items : list (bytes * bytes)) : H256 :=
  match items with
  | [] => EMPTY_TRIE_HASH
  | _ =>
      let pairs := sort_pairs (map (fun '(k, v) => (key_to_nibbles k, v)) items) in
      keccak256 (default [] (build_node (S (max_key_len pairs)) pairs))
  end.
End trie.

(** ** The recursion ends *)
Section total.
Context `{Primitives} `{Rlp}.

Lemma span_group_spec n pairs g r :
  span_group n pairs = (g, r) -> pairs = g ++ r /\ Forall (fun p => starts_with n p = true) g.
Proof.
  revert g r. induction pairs as [|p rest IH]; intros g r; cbn [span_group]; [by intros [= <- <-]|].
  destruct (starts_with n p) eqn:E.
  - destruct (span_group n rest) as [g' r'] eqn:E'. intros [= <- <-].
    destruct (IH g' r' eq_refl) as [-> Hg]. split; [done|]. by constructor.
  - by intros [= <- <-].
Qed.

Lemma common_scan_le first keys n i : (common_scan first keys n i <= i + n)%nat.
Proof.
  revert i. induction n as [|n IH]; intros i; cbn [common_scan]; [lia|].
  destruct (existsb _ _); [lia|]. specialize (IH (S i)). lia.
Qed.

Lemma common_prefix_le k v rest : (common_prefix_len ((k, v) :: rest) <= length k)%nat.
Proof.
  unfold common_prefix_len. set (m := foldr _ _ rest).
  assert (m <= length k)%nat.
  { subst m. induction rest as [|p rest IH]; cbn; lia. }
  pose proof (common_scan_le k (map fst ((k, v) :: rest)) m 0). lia.
Qed.

(** Every key is shorter than [n]. *)
Definition keys_below (n : nat) (pairs : list entry) : Prop :=
  Forall (fun p : entry => (length p.1 < n)%nat) pairs.

Lemma keys_below_drop c n pairs :
  keys_below (S n) pairs -> (0 < c)%nat -> (0 < n)%nat -> keys_below n (map (drop_key c) pairs).
Proof.
  intros Hk Hc Hn. apply Forall_map. eapply Forall_impl; [exact Hk|].
  intros [k v] Hl. cbn in *. rewrite length_drop. lia.
Qed.

Lemma branch_loop_total build n turns pairs children value :
  (forall g, (0 < n)%nat -> keys_below n g -> is_Some (build g)) -> keys_below (S n) pairs ->
  (length pairs <= turns)%nat -> is_Some (branch_loop build turns pairs children value).
Proof.
  intros Hb. revert pairs children value.
  induction turns as [|turns IH]; intros pairs children value Hk Hlen;
    destruct pairs as [|[k v] rest]; cbn [branch_loop length] in *; [by eexists|lia|by eexists|].
  apply Forall_cons in Hk as [Hkv Hk]. cbn in Hkv. destruct k as [|first k]; [apply IH; [done|lia]|].
  destruct (span_group first rest) as [g r] eqn:Es. apply span_group_spec in Es as [-> Hg].
  apply Forall_app in Hk as [Hkg Hkr].
  destruct (Hb (map (drop_key 1) ((first :: k, v) :: g))) as [node ->].
  { cbn in Hkv; lia. }
  { apply keys_below_drop; [|lia|cbn in Hkv; lia]. by constructor. }
  cbn. apply IH; [done|]. rewrite length_app in Hlen. lia.
Qed.

Lemma build_node_enough fuel pairs : keys_below fuel pairs -> (0 < fuel)%nat -> is_Some (build_node fuel pairs).
Proof.
  revert pairs. induction fuel as [|fuel IH]; intros pairs Hk Hpos; [lia|]. cbn [build_node].
  assert (Hnode : is_Some (let common := common_prefix_len pairs in
    if (0 <? common)%nat then
      child ← build_node fuel (map (drop_key common) pairs);
      Some (rlp_extension (take common (default [] (head (map fst pairs)))) child)
    else
      '(children, value) ← branch_loop (build_node fuel) (length pairs) pairs (replicate 17 []) [];
      Some (rlp_branch children value))).
  { cbv zeta. destruct (Nat.ltb_spec 0 (common_prefix_len pairs)) as [Hc|Hc].
    - destruct pairs as [|[k v] rest]; [cbn in Hc; lia|].
      pose proof (common_prefix_le k v rest). pose proof Hk as [Hkv _]%Forall_cons. cbn in Hkv.
      destruct (IH (map (drop_key (common_prefix_len ((k, v) :: rest))) ((k, v) :: rest))) as [child ->];
        [apply keys_below_drop; [done|lia..]|lia|]. by eexists.
    - destruct (branch_loop_total (build_node fuel) fuel (length pairs) pairs (replicate 17 []) [])
        as [[cs w] ->]; [|done|lia|by eexists].
      intros g Hn Hg. by apply IH. }
  destruct pairs as [|[k v] [|]]; [exact Hnode|by eexists|exact Hnode].
Qed.

Lemma keys_below_max pairs : keys_below (S (max_key_len pairs)) pairs.
Proof.
  unfold keys_below, max_key_len. induction pairs as [|p pairs IH]; [constructor|].
  cbn. constructor; [lia|]. eapply Forall_impl; [exact IH|]. intros q Hq. cbn in Hq. lia.
Qed.
End total.

(** ** Sorting *)
Section sorting.
Lemma sort_pairs_unique l k : l ≡ₚ k -> NoDup (map fst l) -> sort_pairs l = sort_pairs k.
Proof.
  intros Hp Hn. apply sort_by_unique; [intros; apply lex_le_total|intros ???; apply lex_le_trans|done|].
  intros p q Hpl Hql H1 H2. eapply (NoDup_fst_inj fst); [exact Hn|done..|]. by apply lex_le_antisym.
Qed.

Lemma byte_nibbles b c :
  N.shiftr (Byte.to_N b) 4 = N.shiftr (Byte.to_N c) 4 ->
  N.land (Byte.to_N b) 15 = N.land (Byte.to_N c) 15 -> b = c.
Proof.
  rewrite !N.shiftr_div_pow2. change 15 with (N.ones 4). rewrite !N.land_ones. intros Hd Hm.
  apply to_N_inj. rewrite (N.div_mod' (Byte.to_N b) (2 ^ 4)), (N.div_mod' (Byte.to_N c) (2 ^ 4)). congruence.
Qed.

#[export] Instance key_to_nibbles_inj : Inj (=) (=) key_to_nibbles.
Proof.
  intros a. unfold key_to_nibbles. induction a as [|x a IH]; intros [|y b]; cbn; try done.
  intros [= H1 H2 H3]. f_equal; [by apply byte_nibbles|by apply IH].
Qed.
End sorting.

(** Building a trie node always returns, for every list of pairs (sorted or
    not, with repeated keys or not), within one level per nibble of the longest
    key plus one: the fuel that [mpt_root] passes is enough. *)
Theorem build_node_total `{Primitives} `{Rlp} (pairs : list entry) (fuel : nat) :
  (max_key_len pairs < fuel)%nat -> is_Some (build_node fuel pairs).
Proof.
  intros Hlt. apply build_node_enough; [|lia]. eapply Forall_impl; [apply keys_below_max|].
  intros p Hp. cbn in Hp. lia.
Qed.

(** The root is a function of the set of pairs: two lists with the same pairs, in
    any order, and distinct keys have the same Merkle Patricia root. *)
Theorem mpt_root_order_independent `{Primitives} `{Rlp} (items items' : list (bytes * bytes)) :
  items ≡ₚ items' -> NoDup (map fst items) -> mpt_root items = mpt_root items'.
Proof.
  intros Hp Hn. unfold mpt_root.
  assert (Hs : sort_pairs (map (fun '(k, v) => (key_to_nibbles k, v)) items) =
               sort_pairs (map (fun '(k, v) => (key_to_nibbles k, v)) items')).
  { apply sort_pairs_unique; [by apply Permutation_map|].
    rewrite map_map. rewrite (map_ext _ (fun p : bytes * bytes => key_to_nibbles p.1)) by by intros [].
    rewrite <-(map_map fst key_to_nibbles). by apply (NoDup_fmap_2 key_to_nibbles). }
  rewrite Hs. destruct items as [|i items], items' as [|i' items']; try done.
  - by apply Permutation_nil_cons in Hp.
  - symmetry in Hp. by apply Permutation_nil_cons in Hp.
Qed.
