(* ===== verification/Receipt.v ===== *)
(** * Receipt: logs blooms, receipts and their codec

    Models [src/crates/aii-block/src/bloom.rs], [receipt.rs] and [receipts_root] of
    [src/crates/aii-state/src/trie.rs].  A bloom has no false negatives, and the order in
    which entries are accrued does not matter. *)
From stdpp Require Import base tactics numbers strings list.
From Stdlib Require Import NArith Lia.
From Stdlib.Init Require Import Byte.
From Stdlib.Strings Require Byte.
From S2P Require Import Prelude Bytes Crypto Codec Tx ToyRlp Trie.

(** ** [bloom.rs] *)
Abbreviation Bloom := (array 256).

Definition bloom_zero : Bloom := zero_array 256.

(** [a[i]] and [a[i] |= m] *)
Definition at_byte {n} (b : array n) (j : nat) : N := Byte.to_N (nth j (arr_bytes b) x00).
Definition or_byte (m : N) (b : byte) : byte := byte_of_N (N.lor (Byte.to_N b) m).
Definition array_or {n} (a : array n) (i : nat) (m : N) : array n :=
  default a (arr_of (alter (or_byte m) i (arr_bytes a))).

Section bloom.
Context `{Primitives}.

(** The bit of the pair of hash bytes at [i], 0 to 2047. *)
Definition bit_index (h : H256) (i : nat) : N :=
  N.land (N.lor (N.shiftl (at_byte h i) 8) (at_byte h (S i))) 0x07ff.

Definition accrue_bit (h : H256) (self : Bloom) (i : nat) : Bloom :=
  let bit_index := bit_index h i in
  array_or self (255 - N.to_nat (bit_index / 8)) (N.shiftl 1 (bit_index mod 8)).

Definition accrue (self : Bloom) (data : bytes) : Bloom :=
  foldl (accrue_bit (keccak256 data)) self [0; 2; 4]%nat.

Definition contains (self : Bloom) (data : bytes) : bool :=
  let probe := accrue bloom_zero data in
  forallb (fun i => N.land (at_byte self i) (at_byte probe i) =? at_byte probe i) (seq 0 256).

(** Address and topics of a log, as the executor accrues them. *)
Definition accrue_log (self : Bloom) (l : Log) : Bloom :=
  foldl (fun b t => accrue b (arr_bytes t)) (accrue self (arr_bytes (l_address l))) (topics l).

Definition logs_bloom_of (logs : list Log) : Bloom := foldl accrue_log bloom_zero logs.
End bloom.

(** ** [receipt.rs] *)
Record Receipt := mkReceipt {
  r_tx_type : TxType;
  r_status : bool;
  r_cumulative_gas_used : N;
  r_logs_bloom : Bloom;
  r_logs : list Log
}.

#[export] Instance TxType_eq_dec : EqDecision TxType.
Proof. solve_decision. Defined.
#[export] Instance Receipt_eq_dec : EqDecision Receipt.
Proof. solve_decision. Defined.

Section receipt.
Context `{Primitives} `{Rlp}.

Definition receipt_payload (r : Receipt) : bytes :=
  rlp_bool (r_status r) ++ rlp_u64 (r_cumulative_gas_used r) ++ encode_array (r_logs_bloom r) ++
  encode_list encode_log (r_logs r).

Definition receipt_encode_inner (r : Receipt) : bytes := with_list_header (receipt_payload r).

Definition decode_logs : decoder (list Log) := fun buf =>
  '((is_list, payload), buf) ← rlp_decode_header buf;
  _ ← guard_err (negb is_list) UnexpectedString;
  decode_items decode_log (S (length buf)) (len buf) payload [] buf.

Definition receipt_decode_inner (tx_type : TxType) : decoder Receipt := fun buf =>
  '((is_list, _), buf) ← rlp_decode_header buf;
  _ ← guard_err (negb is_list) UnexpectedString;
  '(status, buf) ← rlp_decode_bool buf;
  '(cumulative_gas_used, buf) ← rlp_decode_u64 buf;
  '(logs_bloom, buf) ← decode_array 256 buf;
  '(logs, buf) ← decode_logs buf;
  mret (mkReceipt tx_type status cumulative_gas_used logs_bloom logs, buf).

Definition receipt_encode_2718 (r : Receipt) : bytes :=
  match r_tx_type r with
  | TypeLegacy => receipt_encode_inner r
  | TypeEip1559 => x02 :: receipt_encode_inner r
  | TypeEip4844 => x03 :: receipt_encode_inner r
  end.

Definition receipt_decode_2718 : decoder Receipt := fun buf =>
  match buf with
  | [] => Err InputTooShort
  | first :: rest =>
      if 192 <=? Byte.to_N first then receipt_decode_inner TypeLegacy buf
      else match first with
           | x02 => receipt_decode_inner TypeEip1559 rest
           | x03 => receipt_decode_inner TypeEip4844 rest
           | _ => Err (RlpCustom "unknown receipt envelope type")
           end
  end.

Definition receipt_hash (r : Receipt) : H256 := keccak256 (receipt_encode_2718 r).

(** [trie.rs] *)
Definition receipts_root (receipts : list Receipt) : H256 :=
  match receipts with
  | [] => EMPTY_TRIE_HASH
  | _ => mpt_root (imap (fun i r => (rlp_u64 (N.of_nat i), receipt_encode_2718 r)) receipts)
  end.
End receipt.

(** ** Blooms, byte by byte *)
Section bloom_facts.
Context `{Primitives}.

Lemma lor_lt_256 a b : a < 256 -> b < 256 -> N.lor a b < 256.
Proof.
  intros Ha Hb. destruct (N.eq_dec (N.lor a b) 0) as [->|Hn]; [done|].
  apply (N.log2_lt_pow2 _ 8); [lia|]. rewrite N.log2_lor.
  destruct (N.eq_dec a 0) as [->|Ha0], (N.eq_dec b 0) as [->|Hb0]; cbn; try done;
    try (apply N.max_lub_lt); try done; apply N.log2_lt_pow2; (done || lia).
Qed.

Lemma at_byte_lt {n} (b : array n) j : at_byte b j < 256.
Proof. apply to_N_lt. Qed.

Lemma at_byte_or {n} (b : array n) i m j :
  (i < n)%nat -> m < 256 -> at_byte (array_or b i m) j = N.lor (at_byte b j) (if (j =? i)%nat then m else 0).
Proof.
  intros Hi Hm. unfold at_byte, array_or.
  destruct (arr_of_is_Some (n := n) (alter (or_byte m) i (arr_bytes b))) as [a Ha].
  { by rewrite length_alter, arr_length. }
  rewrite Ha. cbn [from_option id]. apply arr_of_Some in Ha. rewrite Ha, !nth_lookup.
  destruct (Nat.eqb_spec j i) as [->|Hne].
  - rewrite list_lookup_alter_eq. destruct (arr_bytes b !! i) as [x|] eqn:Hx.
    + cbn. unfold or_byte. rewrite to_N_byte_of_N, N.mod_small; [done|].
      apply lor_lt_256; [apply to_N_lt|done].
    + apply lookup_ge_None in Hx. rewrite arr_length in Hx. lia.
  - by rewrite list_lookup_alter_ne, N.lor_0_r by done.
Qed.

(** What accruing sets in a byte: a function of the data alone. *)
Definition bit_mask (h : H256) (i j : nat) : N :=
  if (j =? 255 - N.to_nat (bit_index h i / 8))%nat then N.shiftl 1 (bit_index h i mod 8) else 0.
Definition data_mask (data : bytes) (j : nat) : N :=
  let h := keccak256 data in N.lor (N.lor (bit_mask h 0 j) (bit_mask h 2 j)) (bit_mask h 4 j).

Lemma shiftl_mask x : N.shiftl 1 (x mod 8) < 256.
Proof.
  rewrite N.shiftl_1_l. apply (N.pow_lt_mono_r 2 (x mod 8) 8); [done|]. by apply N.mod_lt.
Qed.

Lemma at_byte_accrue_bit h b i j : at_byte (accrue_bit h b i) j = N.lor (at_byte b j) (bit_mask h i j).
Proof.
  unfold accrue_bit, bit_mask. apply at_byte_or; [|apply shiftl_mask].
  apply Nat.lt_succ_r, Nat.le_sub_l.
Qed.

Lemma at_byte_accrue b data j : at_byte (accrue b data) j = N.lor (at_byte b j) (data_mask data j).
Proof.
  unfold accrue, data_mask. cbn [foldl]. rewrite !at_byte_accrue_bit. by rewrite <-!N.lor_assoc.
Qed.

Lemma bloom_ext (a b : Bloom) : (forall j, at_byte a j = at_byte b j) -> a = b.
Proof.
  intros Hab. apply arr_ext, list_eq. intros j. specialize (Hab j). unfold at_byte in Hab.
  apply (inj Byte.to_N) in Hab. rewrite !nth_lookup in Hab.
  destruct (decide (j < 256)%nat) as [Hj|Hj].
  - destruct (lookup_lt_is_Some_2 (arr_bytes a) j) as [x Hx]; [by rewrite arr_length|].
    destruct (lookup_lt_is_Some_2 (arr_bytes b) j) as [y Hy]; [by rewrite arr_length|].
    rewrite Hx, Hy in *. cbn in Hab. by f_equal.
  - rewrite !lookup_ge_None_2 by (rewrite arr_length; lia). done.
Qed.

Lemma at_byte_zero j : at_byte bloom_zero j = 0.
Proof.
  unfold at_byte, bloom_zero, zero_array, be_array. cbn [arr_bytes].
  assert (Hrep : be_bytes 256 0 = replicate 256 x00) by (vm_compute; reflexivity).
  rewrite Hrep, nth_lookup. destruct (decide (j < 256)%nat).
  - by rewrite lookup_replicate_2.
  - rewrite lookup_ge_None_2; [done|]. rewrite length_replicate. lia.
Qed.

(** The bits of [m] are among those of [a]. *)
Definition covers (a m : N) : Prop := N.land a m = m.

Lemma covers_lor_l a b m : covers a m -> covers (N.lor a b) m.
Proof.
  unfold covers. intros Ha. rewrite <-Ha at 2. apply N.bits_inj. intros k.
  rewrite !N.land_spec, N.lor_spec. apply (f_equal (fun x => N.testbit x k)) in Ha.
  rewrite N.land_spec in Ha. destruct (N.testbit a k), (N.testbit b k), (N.testbit m k); naive_solver.
Qed.

Lemma covers_lor_r a m : covers (N.lor a m) m.
Proof. unfold covers. rewrite N.land_lor_distr_l, N.land_diag. apply N.bits_inj. intros k.
  rewrite N.lor_spec, N.land_spec. by destruct (N.testbit a k), (N.testbit m k). Qed.

Lemma contains_covers b data :
  contains b data = true <-> forall j, (j < 256)%nat -> covers (at_byte b j) (data_mask data j).
Proof.
  unfold contains. rewrite forallb_forall. split; intros Hc j Hj.
  - specialize (Hc j). rewrite N.eqb_eq in Hc. specialize (Hc ltac:(apply in_seq; lia)).
    rewrite at_byte_accrue, at_byte_zero, N.lor_0_l in Hc. done.
  - apply N.eqb_eq. apply in_seq in Hj.
    rewrite at_byte_accrue, at_byte_zero, N.lor_0_l. apply Hc. lia.
Qed.

Lemma accrue_contains b data : contains (accrue b data) data = true.
Proof. apply contains_covers. intros j _. rewrite at_byte_accrue. apply covers_lor_r. Qed.

Lemma accrue_keeps b data x : contains b x = true -> contains (accrue b data) x = true.
Proof.
  rewrite !contains_covers. intros Hb j Hj. rewrite at_byte_accrue. apply covers_lor_l. auto.
Qed.

Lemma accrue_comm b x y : accrue (accrue b x) y = accrue (accrue b y) x.
Proof.
  apply bloom_ext. intros j. rewrite !at_byte_accrue, <-!N.lor_assoc. by rewrite (N.lor_comm (data_mask x j)).
Qed.

Lemma accrue_idem b x : accrue (accrue b x) x = accrue b x.
Proof. apply bloom_ext. intros j. rewrite !at_byte_accrue, <-N.lor_assoc. by rewrite N.lor_diag. Qed.

Lemma accrue_topics_keeps l b x :
  contains b x = true -> contains (foldl (fun b (t : H256) => accrue b (arr_bytes t)) b l) x = true.
Proof. revert b. induction l as [|t l IH]; intros b Hb; [done|]. cbn [foldl]. by apply IH, accrue_keeps. Qed.

Lemma accrue_log_keeps b l x : contains b x = true -> contains (accrue_log b l) x = true.
Proof. intros Hb. unfold accrue_log. by apply accrue_topics_keeps, accrue_keeps. Qed.

Lemma accrue_log_contains b l x :
  x = arr_bytes (l_address l) \/ (exists t, t ∈ topics l /\ x = arr_bytes t) ->
  contains (accrue_log b l) x = true.
Proof.
  unfold accrue_log. intros [->|(t & Ht & ->)]; [apply accrue_topics_keeps, accrue_contains|].
  generalize (accrue b (arr_bytes (l_address l))). induction (topics l) as [|u us IH]; intros b'.
  - by apply elem_of_nil in Ht.
  - cbn [foldl]. apply elem_of_cons in Ht as [<-|Ht]; [apply accrue_topics_keeps, accrue_contains|by apply IH].
Qed.
End bloom_facts.

Section receipt_facts.
Context `{Primitives} `{R : Rlp} `{!RlpLaws R}.

(** A number and a flag of their types, sizes within [usize]. *)
Record receipt_wf (r : Receipt) : Prop := {
  rw_gas : r_cumulative_gas_used r < u64_mod;
  rw_len : len (receipt_payload r) < u64_mod
}.

Lemma log_items_roundtrip l :
  len (concat (encode_log <$> l)) < u64_mod ->
  Forall (fun a => 0 < len (encode_log a) /\
    forall rest, decode_log (encode_log a ++ rest) = Ok (a, rest)) l.
Proof.
  intros Hlen. apply Forall_forall. intros a Ha. split; [apply log_nonempty|].
  intros rest. apply log_roundtrip.
  apply list_elem_of_split in Ha as (l1 & l2 & ->).
  rewrite fmap_app, concat_app in Hlen. cbn in Hlen. rewrite !len_app in Hlen. lia.
Qed.

Lemma decode_encode_logs l rest :
  len (encode_list encode_log l) < u64_mod ->
  decode_logs (encode_list encode_log l ++ rest) = Ok (l, rest).
Proof.
  intros Hlen. pose proof (len_encode_list encode_log l) as Hle.
  assert (Hlist : decode_list decode_log (encode_list encode_log l ++ rest) = Ok (l, rest)).
  { apply decode_list_roundtrip; [apply log_items_roundtrip|]; lia. }
  revert Hlist. unfold decode_list, decode_logs, encode_list.
  rewrite <-app_assoc, rlp_header_roundtrip by (rewrite ?len_app; lia). done.
Qed.

Lemma receipt_inner_roundtrip r rest :
  receipt_wf r -> receipt_decode_inner (r_tx_type r) (receipt_encode_inner r ++ rest) = Ok (r, rest).
Proof.
  intros [Hg Hlen]. unfold receipt_decode_inner, receipt_encode_inner, with_list_header.
  rewrite <-app_assoc, rlp_header_roundtrip by (rewrite ?len_app; lia).
  cbn [mbind res_bind guard_err negb]. unfold receipt_payload in *. rewrite !len_app in Hlen.
  rewrite <-!app_assoc, rlp_bool_roundtrip. cbn [mbind res_bind].
  rewrite rlp_u64_roundtrip by done. cbn [mbind res_bind].
  rewrite decode_encode_array by done. cbn [mbind res_bind].
  rewrite decode_encode_logs by lia. by destruct r.
Qed.

Lemma receipt_2718_roundtrip r rest :
  receipt_wf r -> receipt_decode_2718 (receipt_encode_2718 r ++ rest) = Ok (r, rest).
Proof.
  intros Hwf. pose proof (receipt_inner_roundtrip r rest Hwf) as Hin. unfold receipt_encode_2718.
  destruct (r_tx_type r) eqn:Hty; [|exact Hin|exact Hin].
  unfold receipt_decode_2718. unfold receipt_encode_inner, with_list_header in *.
  destruct (rlp_list_prefix (len (receipt_payload r))) as (b & hd & Hb & Hge).
  rewrite Hb in *. cbn [app] in *. by rewrite (proj2 (N.leb_le _ _) Hge).
Qed.
End receipt_facts.

Section bloom_props.
Context `{Primitives}.

Lemma logs_bloom_keeps logs b x : contains b x = true -> contains (foldl accrue_log b logs) x = true.
Proof.
  revert b. induction logs as [|l logs IH]; intros b Hb; [done|]. cbn [foldl].
  by apply IH, accrue_log_keeps.
Qed.

Lemma logs_bloom_contains logs b l x :
  l ∈ logs -> x = arr_bytes (l_address l) \/ (exists t, t ∈ topics l /\ x = arr_bytes t) ->
  contains (foldl accrue_log b logs) x = true.
Proof.
  intros Hl Hx. revert b. induction logs as [|k logs IH]; intros b; [by apply elem_of_nil in Hl|].
  cbn [foldl]. apply elem_of_cons in Hl as [->|Hl]; [|by apply IH].
  by apply logs_bloom_keeps, accrue_log_contains.
Qed.

(** Accruing a log sets bits that depend on the log alone. *)
Definition topics_mask (ts : list H256) (j : nat) : N := foldr (fun t m => N.lor (data_mask (arr_bytes t) j) m) 0 ts.
Definition log_mask (l : Log) (j : nat) : N :=
  N.lor (data_mask (arr_bytes (l_address l)) j) (topics_mask (topics l) j).

Lemma at_byte_accrue_log b l j : at_byte (accrue_log b l) j = N.lor (at_byte b j) (log_mask l j).
Proof.
  unfold accrue_log, log_mask. rewrite N.lor_assoc, <-at_byte_accrue.
  generalize (accrue b (arr_bytes (l_address l))) as b'. induction (topics l) as [|t ts IH]; intros b'.
  - cbn [foldl topics_mask foldr]. by rewrite N.lor_0_r.
  - cbn [foldl]. rewrite IH, at_byte_accrue. cbn [topics_mask foldr].
    fold (topics_mask ts j). by rewrite N.lor_assoc.
Qed.

Lemma accrue_log_comm b x y : accrue_log (accrue_log b x) y = accrue_log (accrue_log b y) x.
Proof.
  apply bloom_ext. intros j. rewrite !at_byte_accrue_log, <-!N.lor_assoc.
  by rewrite (N.lor_comm (log_mask x j)).
Qed.

Lemma logs_bloom_perm l k b : l ≡ₚ k -> foldl accrue_log b l = foldl accrue_log b k.
Proof.
  intros Hp. revert b. induction Hp as [|x l k _ IH|x y l|l k j _ IH1 _ IH2]; intros b; cbn [foldl]; auto.
  - by rewrite accrue_log_comm.
  - by rewrite IH1.
Qed.

(** Logs blooms have no false negatives: the bloom of a list of logs reports the address
    and every topic of each of them as present, whatever the others are, and it does not
    depend on the order in which the logs were accrued. *)
Theorem bloom_no_false_negatives logs l x :
  l ∈ logs -> x = arr_bytes (l_address l) \/ (exists t, t ∈ topics l /\ x = arr_bytes t) ->
  contains (logs_bloom_of logs) x = true /\
  forall logs', logs' ≡ₚ logs -> logs_bloom_of logs' = logs_bloom_of logs.
Proof.
  intros Hl Hx. split; [by apply (logs_bloom_contains _ _ l)|].
  intros logs' Hp. by apply logs_bloom_perm.
Qed.
End bloom_props.

Module ReceiptDemo.
Definition log1 : Log := mkLog (be_array 20 17) [be_array 32 5; be_array 32 6] [x01].
Definition log2 : Log := mkLog (be_array 20 18) [] [].
Definition receipt1 : Receipt :=
  mkReceipt TypeEip1559 true 42000 (@logs_bloom_of Toy.prims [log1; log2]) [log1; log2].

Lemma receipt1_wf : receipt_wf (R := ToyRlp.rlp) receipt1.
Proof. split; [reflexivity|vm_compute; reflexivity]. Qed.
End ReceiptDemo.

Lemma bloom_no_false_negatives_witness :
  @contains Toy.prims (@logs_bloom_of Toy.prims [ReceiptDemo.log2; ReceiptDemo.log1]) (arr_bytes (be_array 32 6)) = true.
Proof.
  destruct (bloom_no_false_negatives (H := Toy.prims) [ReceiptDemo.log2; ReceiptDemo.log1] ReceiptDemo.log1
    (arr_bytes (be_array 32 6))) as [Hc _]; [|right; exists (be_array 32 6); split; [|reflexivity]|exact Hc].
  - right. left.
  - right. left.
Defined.
