(* ===== verification/Block.v ===== *)
(** * Block: headers, bodies, their RLP codec and the block hash

    Models [src/crates/aii-block/src/header.rs], [body.rs], [block.rs], [consts.rs] and
    [transactions_root] of [src/crates/aii-state/src/trie.rs]. *)
From stdpp Require Import base tactics gmap numbers strings list.
From Stdlib Require Import NArith Lia.
From Stdlib.Init Require Import Byte.
From S2P Require Import Prelude Bytes Crypto Codec Secp Tx ToyRlp Trie.

Section block.
Context `{Primitives} `{Rlp}.

(** ** Headers *)
Record Header := mkHeader {
  parent_hash : H256;
  ommers_hash : H256;
  beneficiary : Address;
  state_root : H256;
  h_transactions_root : H256;
  receipts_root : H256;
  logs_bloom : array 256;
  difficulty : N;
  number : N;
  gas_limit : N;
  gas_used : N;
  timestamp : N;
  extra_data : bytes;
  mix_hash : H256;
  nonce : array 8;
  base_fee_per_gas : N;
  withdrawals_root : H256;
  blob_gas_used : option N;
  excess_blob_gas : option N;
  parent_beacon_block_root : option H256
}.

#[export] Instance Header_eq_dec : EqDecision Header.
Proof. solve_decision. Defined.

Definition encode_opt {A} (enc : A -> bytes) (o : option A) : bytes :=
  match o with Some a => enc a | None => [] end.

(** The fields, in order; [payload_length] is the length of this. *)
Definition header_payload (h : Header) : bytes :=
  encode_array (parent_hash h) ++ encode_array (ommers_hash h) ++
  encode_array (beneficiary h) ++ encode_array (state_root h) ++
  encode_array (h_transactions_root h) ++ encode_array (receipts_root h) ++
  encode_array (logs_bloom h) ++ encode_u256 (difficulty h) ++
  rlp_u64 (number h) ++ rlp_u64 (gas_limit h) ++ rlp_u64 (gas_used h) ++
  rlp_u64 (timestamp h) ++ rlp_string (extra_data h) ++ encode_array (mix_hash h) ++
  rlp_string (arr_bytes (nonce h)) ++ encode_u256 (base_fee_per_gas h) ++
  encode_array (withdrawals_root h) ++
  encode_opt rlp_u64 (blob_gas_used h) ++ encode_opt rlp_u64 (excess_blob_gas h) ++
  encode_opt encode_array (parent_beacon_block_root h).

Definition encode_header (h : Header) : bytes :=
  rlp_list_header (len (header_payload h)) ++ header_payload h.

Definition decode_header : decoder Header := fun buf =>
  '((is_list, payload), buf) ← rlp_decode_header buf;
  _ ← guard_err (negb is_list) UnexpectedString;
  let started_len := len buf in
  '(parent_hash, buf) ← decode_array 32 buf;
  '(ommers_hash, buf) ← decode_array 32 buf;
  '(beneficiary, buf) ← decode_array 20 buf;
  '(state_root, buf) ← decode_array 32 buf;
  '(transactions_root, buf) ← decode_array 32 buf;
  '(receipts_root, buf) ← decode_array 32 buf;
  '(logs_bloom, buf) ← decode_array 256 buf;
  '(difficulty, buf) ← decode_u256 buf;
  '(number, buf) ← rlp_decode_u64 buf;
  '(gas_limit, buf) ← rlp_decode_u64 buf;
  '(gas_used, buf) ← rlp_decode_u64 buf;
  '(timestamp, buf) ← rlp_decode_u64 buf;
  '(extra_data, buf) ← rlp_decode_string buf;
  _ ← guard_err (32 <? len extra_data) (RlpCustom "extra_data > 32");
  '(mix_hash, buf) ← decode_array 32 buf;
  '(nonce, buf) ← decode_array 8 buf;
  '(base_fee, buf) ← decode_u256 buf;
  '(withdrawals_root, buf) ← decode_array 32 buf;
  '(blob_gas_used, buf) ← decode_trailing rlp_decode_u64 started_len payload buf;
  '(excess_blob_gas, buf) ← decode_trailing rlp_decode_u64 started_len payload buf;
  '(beacon_root, buf) ← decode_trailing (decode_array 32) started_len payload buf;
  mret (mkHeader parent_hash ommers_hash beneficiary state_root transactions_root receipts_root
          logs_bloom difficulty number gas_limit gas_used timestamp extra_data mix_hash nonce
          base_fee withdrawals_root blob_gas_used excess_blob_gas beacon_root, buf).

Definition header_hash (h : Header) : H256 := keccak256 (encode_header h).

(** ** Bodies and blocks *)
Record BlockBody := mkBody {
  transactions : list Tx;
  ommers : list Header;
  withdrawals : list Withdrawal
}.

#[export] Instance BlockBody_eq_dec : EqDecision BlockBody.
Proof. solve_decision. Defined.

Definition default_body : BlockBody := mkBody [] [] [].

Record Block := mkBlock { header : Header; body : BlockBody }.

#[export] Instance Block_eq_dec : EqDecision Block.
Proof. solve_decision. Defined.

Definition body_payload (b : BlockBody) : bytes :=
  encode_list tx_encode (transactions b) ++ encode_list encode_header (ommers b) ++
  encode_list encode_withdrawal (withdrawals b).

Definition encode_body (b : BlockBody) : bytes :=
  rlp_list_header (len (body_payload b)) ++ body_payload b.

Definition encode_block (b : Block) : bytes :=
  let payload := encode_header (header b) ++ encode_body (body b) in
  rlp_list_header (len payload) ++ payload.

Definition decode_body : decoder BlockBody := fun buf =>
  '((is_list, _), buf) ← rlp_decode_header buf;
  _ ← guard_err (negb is_list) UnexpectedString;
  '(txs, buf) ← decode_list tx_decode buf;
  '(omm, buf) ← decode_list decode_header buf;
  '(wds, buf) ← decode_list decode_withdrawal buf;
  mret (mkBody txs omm wds, buf).

Definition decode_block : decoder Block := fun buf =>
  '((is_list, _), buf) ← rlp_decode_header buf;
  _ ← guard_err (negb is_list) UnexpectedString;
  '(h, buf) ← decode_header buf;
  '(b, buf) ← decode_body buf;
  mret (mkBlock h b, buf).

(** [Hashable for Block]: the hash of the header alone. *)
Definition block_hash (b : Block) : H256 := header_hash (header b).

(** [trie.rs] *)
Definition transactions_root (b : BlockBody) : H256 :=
  match transactions b with
  | [] => EMPTY_TRIE_HASH
  | txs => mpt_root (imap (fun i tx => (rlp_u64 (N.of_nat i), tx_encode_2718 tx)) txs)
  end.
End block.

Section header_roundtrip.
Context `{Primitives} `{R : Rlp} `{!RlpLaws R}.

(** The integer fields fit their Rust types, and the optional tail has no gap. *)
Record header_wf (h : Header) : Prop := {
  hw_difficulty : difficulty h < u256_mod;
  hw_base_fee : base_fee_per_gas h < u256_mod;
  hw_number : number h < u64_mod;
  hw_gas_limit : gas_limit h < u64_mod;
  hw_gas_used : gas_used h < u64_mod;
  hw_timestamp : timestamp h < u64_mod;
  hw_extra : len (extra_data h) <= 32;
  hw_blob : forall x, blob_gas_used h = Some x -> x < u64_mod;
  hw_excess : forall x, excess_blob_gas h = Some x -> x < u64_mod /\ is_Some (blob_gas_used h);
  hw_beacon : forall x, parent_beacon_block_root h = Some x -> is_Some (excess_blob_gas h);
  hw_len : len (header_payload h) < u64_mod
}.

(** The trailing options, read back one after the other. *)
Lemma decode_tail {B} h front payload started rest
    (k : option N -> option N -> option H256 -> bytes -> res RlpError B) :
  header_wf h ->
  let tail := encode_opt rlp_u64 (blob_gas_used h) ++ encode_opt rlp_u64 (excess_blob_gas h) ++
              encode_opt encode_array (parent_beacon_block_root h) in
  payload = front + len tail -> started = payload + len rest ->
  ('(blob, buf) ← decode_trailing rlp_decode_u64 started payload
     (encode_opt rlp_u64 (blob_gas_used h) ++ encode_opt rlp_u64 (excess_blob_gas h) ++
      encode_opt encode_array (parent_beacon_block_root h) ++ rest);
   '(excess, buf) ← decode_trailing rlp_decode_u64 started payload buf;
   '(beacon, buf) ← decode_trailing (decode_array 32) started payload buf;
   k blob excess beacon buf) =
  k (blob_gas_used h) (excess_blob_gas h) (parent_beacon_block_root h) rest.
Proof.
  intros [_ _ _ _ _ _ _ Hb He Hr _]. cbn zeta. intros Hpayload Hstarted. subst payload started.
  assert (Harr : forall a : array 32, 0 < len (encode_array a)) by (intros; apply rlp_string_nonempty).
  pose proof rlp_u64_nonempty as Hu.
  destruct (blob_gas_used h) as [x|].
  2:{ destruct (excess_blob_gas h) as [y|]; [by destruct (He y eq_refl) as [_ [? ?]]|].
      destruct (parent_beacon_block_root h) as [r|]; [by destruct (Hr r eq_refl) as [? ?]|].
      cbn. rewrite !decode_trailing_None by lia. cbn. rewrite decode_trailing_None by lia. cbn.
      rewrite decode_trailing_None by lia. done. }
  pose proof (Hu x). pose proof (Hb x eq_refl). cbn [encode_opt].
  rewrite (decode_trailing_Some _ _ _ _ x) by (rewrite ?rlp_u64_roundtrip, ?len_app by done; done || lia).
  cbn [mbind res_bind].
  destruct (excess_blob_gas h) as [y|].
  2:{ destruct (parent_beacon_block_root h) as [r|]; [by destruct (Hr r eq_refl) as [? ?]|].
      cbn. rewrite ?app_nil_r. rewrite decode_trailing_None by lia. cbn.
      rewrite decode_trailing_None by lia. done. }
  pose proof (Hu y). pose proof (proj1 (He y eq_refl)). cbn [encode_opt].
  rewrite (decode_trailing_Some _ _ _ _ y) by (rewrite ?rlp_u64_roundtrip, ?len_app by done; done || lia).
  cbn [mbind res_bind].
  destruct (parent_beacon_block_root h) as [r|]; cbn [encode_opt].
  - pose proof (Harr r).
    rewrite (decode_trailing_Some _ _ _ _ r) by (rewrite ?decode_encode_array, ?len_app by done; done || lia).
    done.
  - cbn. rewrite ?app_nil_r. rewrite decode_trailing_None by (rewrite ?len_app; lia). done.
Qed.

(** Headers, with any bytes after them. *)
Lemma decode_encode_header h rest :
  header_wf h -> decode_header (encode_header h ++ rest) = Ok (h, rest).
Proof.
  intros Hwf. pose proof Hwf as [? ? ? ? ? ? Hx _ _ _ Hlen].
  unfold decode_header, encode_header. rewrite <-app_assoc.
  rewrite rlp_header_roundtrip by (rewrite ?len_app; lia). cbn [mbind res_bind guard_err negb].
  remember (len (header_payload h ++ rest)) as started eqn:Hs.
  remember (len (header_payload h)) as payload eqn:Hp. rewrite len_app, <-Hp in Hs.
  unfold header_payload. rewrite <-!app_assoc.
  pose proof (rlp_string_roundtrip (extra_data h)) as Hextra.
  change (rlp_string (arr_bytes (nonce h))) with (encode_array (nonce h)).
  repeat (first [ rewrite decode_encode_array by done | rewrite decode_encode_u256 by done
                | rewrite rlp_u64_roundtrip by done | rewrite Hextra by lia
                | rewrite (proj2 (N.ltb_ge _ _) Hx) ]; cbn [mbind res_bind guard_err]).
  etransitivity.
  - apply (decode_tail h (payload - len (encode_opt rlp_u64 (blob_gas_used h) ++
    encode_opt rlp_u64 (excess_blob_gas h) ++ encode_opt encode_array (parent_beacon_block_root h))));
   [done| |exact Hs].
  clear -Hp. subst payload. unfold header_payload. rewrite !len_app. lia.
  - by destruct h.
Qed.

(** Every size fits [usize], every transaction, header and withdrawal is well formed. *)
Record body_wf (b : BlockBody) : Prop := {
  bw_transactions : Forall tx_wf (transactions b);
  bw_ommers : Forall header_wf (ommers b);
  bw_withdrawals : Forall (fun w => w_index w < u64_mod /\ w_validator_index w < u64_mod /\
                             w_amount w < u64_mod) (withdrawals b);
  bw_len : len (body_payload b) < u64_mod
}.

Lemma encode_header_nonempty h : 0 < len (encode_header h).
Proof. unfold encode_header. rewrite len_app. pose proof (rlp_list_header_nonempty (len (header_payload h))). lia. Qed.

Lemma decode_encode_body b rest :
  body_wf b -> decode_body (encode_body b ++ rest) = Ok (b, rest).
Proof.
  intros [Ht Ho Hw Hlen]. unfold decode_body, encode_body. rewrite <-app_assoc.
  rewrite rlp_header_roundtrip by (rewrite ?len_app; lia). cbn [mbind res_bind guard_err negb].
  assert (Hsub : forall A (enc : A -> bytes) l, len (concat (enc <$> l)) <= len (encode_list enc l))
    by (intros; unfold encode_list; rewrite len_app; lia).
  unfold body_payload in *. rewrite !len_app in Hlen. rewrite <-!app_assoc.
  rewrite (decode_list_roundtrip tx_encode). cbn [mbind res_bind].
  2:{ eapply Forall_impl; [exact Ht|]. intros t Hwf. split; [apply tx_encode_nonempty|].
      intros. by apply decode_encode_tx. }
  2:{ pose proof (Hsub _ tx_encode (transactions b)). lia. }
  rewrite (decode_list_roundtrip encode_header). cbn [mbind res_bind].
  2:{ eapply Forall_impl; [exact Ho|]. intros h Hh. split; [apply encode_header_nonempty|].
      intros. by apply decode_encode_header. }
  2:{ pose proof (Hsub _ encode_header (ommers b)). lia. }
  rewrite (decode_list_roundtrip encode_withdrawal). cbn [mbind res_bind].
  2:{ eapply Forall_impl; [exact Hw|]. intros w (? & ? & ?). split; [apply withdrawal_nonempty|].
      intros. by apply withdrawal_roundtrip. }
  2:{ pose proof (Hsub _ encode_withdrawal (withdrawals b)). lia. }
  by destruct b.
Qed.

Lemma decode_encode_block b rest :
  header_wf (header b) -> body_wf (body b) ->
  len (encode_header (header b) ++ encode_body (body b)) < u64_mod ->
  decode_block (encode_block b ++ rest) = Ok (b, rest).
Proof.
  intros Hh Hb Hlen. unfold decode_block, encode_block. rewrite <-app_assoc.
  rewrite rlp_header_roundtrip by (rewrite ?len_app in *; lia). cbn [mbind res_bind guard_err negb].
  rewrite <-app_assoc, decode_encode_header by done. cbn [mbind res_bind].
  rewrite decode_encode_body by done. by destruct b.
Qed.
End header_roundtrip.

(** ** Decoding arbitrary bytes *)
Section safety.
Context `{Primitives} `{R : Rlp} `{!RlpSafe R}.

Lemma decode_header_safe : reader_ok decode_header.
Proof.
  apply struct_safe. intros p buf. cbn beta zeta. read_fields.
Qed.

Lemma decode_body_safe : reader_ok decode_body.
Proof.
  apply struct_safe. intros _ buf.
  apply reads_weak; [intros; apply decode_list_safe, tx_decode_safe|intros txs buf1].
  apply reads_weak; [intros; apply decode_list_safe, decode_header_safe|intros omm buf2].
  apply reads_weak; [intros; apply decode_list_safe, safe_withdrawal|intros wds buf3].
  apply reads_ret.
Qed.

Lemma decode_block_safe : reader_ok decode_block.
Proof.
  apply struct_safe. intros _ buf.
  apply reads_weak; [intros; apply reader_weak, decode_header_safe|intros h buf1].
  apply reads_weak; [intros; apply reader_weak, decode_body_safe|intros b buf2]. apply reads_ret.
Qed.
End safety.

(** A header of the kind the engine builds and a block with a transaction of each kind. *)
Module BlockDemo.
Definition header0 : Header :=
  mkHeader (zero_array 32) EMPTY_LIST_HASH (zero_array 20) EMPTY_TRIE_HASH EMPTY_TRIE_HASH
    EMPTY_TRIE_HASH (zero_array 256) 0 4 30000000 21000 1700000000 [x00; x01] (be_array 32 7)
    (zero_array 8) 1000000000 EMPTY_TRIE_HASH (Some 5) None None.

Lemma header0_wf : header_wf (R := ToyRlp.rlp) header0.
Proof.
  split; cycle 7.
  - intros x [=<-]. reflexivity.
  - discriminate.
  - discriminate.
  - vm_compute; reflexivity.
  - reflexivity.
  - reflexivity.
  - reflexivity.
  - reflexivity.
  - reflexivity.
  - reflexivity.
  - vm_compute; discriminate.
Qed.

Definition tx0 : Tx :=
  TLegacy (mkTxLegacy 7 20000000000 21000 (Some (be_array 20 18)) 5 [x01; xff] 27 (be_array 32 51)
    (be_array 32 68) MlDsa65).
Definition tx1 : Tx :=
  TEip1559 (mkTxEip1559 99 0 1 2 21000 None 0 [] [mkAccessItem (be_array 20 1) [be_array 32 2]] 0
    (be_array 32 51) (be_array 32 68) Secp256k1).
Definition tx2 : Tx :=
  TEip4844 (mkTxEip4844 99 0 1 2 21000 (be_array 20 18) 0 [x05] [] 1 [be_array 32 119] 1
    (be_array 32 51) (be_array 32 68) Falcon512).

Lemma txs_wf : Forall (tx_wf (R := ToyRlp.rlp)) [tx0; tx1; tx2].
Proof. repeat constructor; vm_compute; reflexivity. Qed.

Definition block0 : Block :=
  mkBlock header0 (mkBody [tx0; tx1; tx2] [header0] [mkWithdrawal 1 2 (zero_array 20) 3]).

Lemma block0_wf : body_wf (R := ToyRlp.rlp) (body block0).
Proof.
  split; [apply txs_wf|constructor; [apply header0_wf|constructor]|repeat constructor|vm_compute; reflexivity].
Qed.
End BlockDemo.

(** ** Properties *)
Section properties.
Context `{Primitives} `{R : Rlp} `{!RlpLaws R}.

(** C37. Blocks round-trip: decoding the encoding of a block (header, transactions,
    ommers, withdrawals), followed by arbitrary bytes, returns exactly that block and
    leaves exactly those bytes; in particular the three decoding loops terminate
    within the buffer.  The block is one whose numbers fit their machine types and
    whose payloads are shorter than 2^64 bytes, whose header and ommers carry at most
    32 bytes of extra data, and whose optional tail has no gap: [excess_blob_gas] only
    with [blob_gas_used], and [parent_beacon_block_root] only with [excess_blob_gas]
    (with a gap the encoding is that of another header, [header_tail_ambiguous]). *)
Theorem block_roundtrip b rest :
  header_wf (header b) -> body_wf (body b) ->
  len (encode_header (header b) ++ encode_body (body b)) < u64_mod ->
  decode_block (encode_block b ++ rest) = Ok (b, rest).
Proof. apply decode_encode_block. Qed.

(** The optional tail of a header is not self-describing: a header with
    [blob_gas_used = None] and [excess_blob_gas = Some x] has the same encoding,
    hence the same block hash, as the different header with
    [blob_gas_used = Some x] and [excess_blob_gas = None], and decoding its
    encoding returns that other header. *)
Theorem header_tail_ambiguous h x rest :
  header_wf h -> blob_gas_used h = Some x -> excess_blob_gas h = None ->
  let h' := mkHeader (parent_hash h) (ommers_hash h) (beneficiary h) (state_root h)
    (h_transactions_root h) (receipts_root h) (logs_bloom h) (difficulty h) (number h)
    (gas_limit h) (gas_used h) (timestamp h) (extra_data h) (mix_hash h) (nonce h)
    (base_fee_per_gas h) (withdrawals_root h) None (Some x) (parent_beacon_block_root h) in
  (h' <> h) /\ header_hash h' = header_hash h /\
  decode_header (encode_header h' ++ rest) = Ok (h, rest).
Proof.
  intros Hwf Hb He h'.
  assert (encode_header h' = encode_header h) as Heq.
  { unfold encode_header, header_payload. by rewrite Hb, He. }
  split_and!.
  - intros Hh. rewrite <-Hh in Hb. discriminate Hb.
  - unfold header_hash. by rewrite Heq.
  - rewrite Heq. by apply decode_encode_header.
Qed.
End properties.

Lemma block_roundtrip_witness :
  @decode_block ToyRlp.rlp (@encode_block ToyRlp.rlp BlockDemo.block0 ++ [x07]) =
  Ok (BlockDemo.block0, [x07]).
Proof.
  apply (block_roundtrip (R := ToyRlp.rlp) (RlpLaws0 := ToyRlp.rlp_laws) BlockDemo.block0 [x07]);
    [apply BlockDemo.header0_wf|apply BlockDemo.block0_wf|vm_compute; reflexivity].
Defined.

Lemma header_tail_ambiguous_witness :
  exists h' : Header, (h' <> BlockDemo.header0) /\
    @header_hash Toy.prims ToyRlp.rlp h' = @header_hash Toy.prims ToyRlp.rlp BlockDemo.header0.
Proof.
  destruct (header_tail_ambiguous (H := Toy.prims) (R := ToyRlp.rlp) (RlpLaws0 := ToyRlp.rlp_laws) BlockDemo.header0 5 []) as (Hn & Hh & _);
    [apply BlockDemo.header0_wf|reflexivity|reflexivity|].
  eexists. split; [exact Hn|exact Hh].
Defined.

(** Two keys with a common nibble, one a prefix of the other, and a third. *)
Lemma build_node_total_witness :
  is_Some (@build_node Toy.prims ToyRlp.rlp 4
    [([1; 2; 3], [x00]); ([1; 2], [x01]); ([7], [x02])]).
Proof. apply (build_node_total (H := Toy.prims) (H0 := ToyRlp.rlp)). vm_compute. lia. Defined.

Lemma mpt_root_order_independent_witness :
  @mpt_root Toy.prims ToyRlp.rlp [([x12; x34], [x00]); ([x12], [x01]); ([x56], [x02])] =
  @mpt_root Toy.prims ToyRlp.rlp [([x56], [x02]); ([x12; x34], [x00]); ([x12], [x01])].
Proof.
  apply (mpt_root_order_independent (H := Toy.prims) (H0 := ToyRlp.rlp)).
  - apply (Permutation_app_comm [([x12; x34], [x00]); ([x12], [x01])] [([x56], [x02])]).
  - apply (bool_decide_unpack (NoDup (map fst [([x12; x34], [x00]); ([x12], [x01]); ([x56], [x02])]))).
    vm_compute. exact I.
Defined.
