(* ===== verification/ChainSync.v ===== *)
(** * ChainSync: the header and body download machine

    Models [src/crates/aii-net-sync/src/lib.rs]: the state machine [SyncEngine::handle].
    A failed step leaves the machine as it was, except that nothing is undone that was
    done before the failure (there is nothing).  The texts of an [Unexpected] error are
    the debug prints of its arguments, which the model keeps as the values themselves. *)
From stdpp Require Import base tactics numbers strings list.
From Stdlib Require Import NArith Lia.
From S2P Require Import Prelude Bytes Crypto Codec Tx ToyRlp Trie Receipt Block.

Inductive SyncState :=
| SyncIdle
| SyncHeaders (target next : N)
| SyncBodies (pending : list H256)
| SyncDone.

Inductive SyncEvent :=
| PeerAnnouncedTip (height : N)
| HeadersReceived (batch : list Header)
| BodyReceived (block : Block)
| PeerDisconnected.

Inductive SyncAction :=
| RequestHeaders (from count : N)
| RequestBody (hash : H256)
| PersistBlock (block : Block)
| NoAction.

Inductive SyncError :=
| EmptyHeaderBatch
| HeaderOutOfOrder (expected got : N)
| UnexpectedBody (got : H256)
| Unexpected (state : SyncState) (event : SyncEvent).

Record SyncEngine := mkSync {
  sync_state : SyncState;
  headers_buffer : list Header;
  local_height : N
}.

Definition HEADER_BATCH : N := 192.

Definition SyncEngine_new (height : N) : SyncEngine := mkSync SyncIdle [] height.

Section sync.
Context `{Primitives} `{Rlp}.

(** The [for] loop that checks the numbers; [next + i] wraps in a release build. *)
Fixpoint check_numbers (expected : N) (batch : list Header) : res SyncError unit :=
  match batch with
  | [] => Ok tt
  | h :: batch =>
      if negb (number h =? expected) then Err (HeaderOutOfOrder expected (number h))
      else check_numbers (wrapping_add u64_mod expected 1) batch
  end.

Definition sync_handle (self : SyncEngine) (event : SyncEvent) : SyncEngine * res SyncError SyncAction :=
  match sync_state self, event with
  | SyncIdle, PeerAnnouncedTip height =>
      if height <=? local_height self
      then (mkSync SyncDone (headers_buffer self) (local_height self), Ok NoAction)
      else
        let next := wrapping_add u64_mod (local_height self) 1 in
        (mkSync (SyncHeaders height next) (headers_buffer self) (local_height self),
         Ok (RequestHeaders next HEADER_BATCH))
  | SyncHeaders target next, HeadersReceived batch =>
      match batch with
      | [] => (self, Err EmptyHeaderBatch)
      | _ :: _ =>
          match check_numbers next batch with
          | Ok _ =>
              let buffer := headers_buffer self ++ batch in
              let new_next := wrapping_add u64_mod next (len batch) in
              if target <? new_next then
                let pending := header_hash <$> buffer in
                match pending with
                | first :: _ => (mkSync (SyncBodies pending) buffer (local_height self), Ok (RequestBody first))
                | [] => (mkSync (sync_state self) buffer (local_height self), Panic)
                end
              else (mkSync (SyncHeaders target new_next) buffer (local_height self),
                    Ok (RequestHeaders new_next HEADER_BATCH))
          | Err e => (self, Err e)
          | Panic => (self, Panic)
          end
      end
  | SyncBodies pending, BodyReceived block =>
      let hash := block_hash block in
      match pending with
      | first :: rest =>
          if negb (bool_decide (first = hash)) then (self, Err (UnexpectedBody hash))
          else
            let n := number (header block) in
            match rest with
            | [] => (mkSync SyncDone [] n, Ok (PersistBlock block))
            | next_hash :: _ => (mkSync (SyncBodies rest) (headers_buffer self) n, Ok (RequestBody next_hash))
            end
      | [] => (self, Err (UnexpectedBody hash))
      end
  | _, PeerDisconnected => (mkSync SyncIdle [] (local_height self), Ok NoAction)
  | st, ev => (self, Err (Unexpected st ev))
  end.

(** Any events, the machine's own errors included. *)
Definition sync_run (self : SyncEngine) (events : list SyncEvent) : SyncEngine :=
  foldl (fun s ev => (sync_handle s ev).1) self events.

(** ** The invariant of the machine *)
Fixpoint numbered (from : N) (hs : list Header) : Prop :=
  match hs with
  | [] => True
  | h :: hs => number h = from /\ numbered (wrapping_add u64_mod from 1) hs
  end.

(** The bodies still to come are those of a suffix of the buffered headers, and the
    headers are numbered without a gap from the height where the sync began. *)
Record sync_inv (s : SyncEngine) : Prop := {
  si_idle : sync_state s = SyncIdle -> headers_buffer s = [];
  si_headers : forall target next, sync_state s = SyncHeaders target next ->
    exists from, numbered from (headers_buffer s) /\ next = (from + len (headers_buffer s)) mod u64_mod /\ from < u64_mod;
  si_bodies : forall pending, sync_state s = SyncBodies pending ->
    pending <> [] /\ exists done rest, headers_buffer s = done ++ rest /\ pending = header_hash <$> rest /\
      exists from, numbered from (headers_buffer s)
}.

Lemma numbered_app from hs hs' :
  numbered from hs -> numbered ((from + len hs) mod u64_mod) hs' -> from < u64_mod -> numbered from (hs ++ hs').
Proof.
  revert from. induction hs as [|h hs IH]; intros from Hn Hn' Hlt; cbn [app numbered].
  - unfold len in Hn'. cbn [length] in Hn'. by rewrite N.add_0_r, N.mod_small in Hn'.
  - destruct Hn as [Hh Hn]. split; [done|]. unfold wrapping_add in *. apply IH; [done| |by apply N.mod_lt].
    replace (((from + 1) mod u64_mod + len hs) mod u64_mod) with ((from + len (h :: hs)) mod u64_mod); [done|].
    unfold len. cbn [length]. rewrite Nat2N.inj_succ, N.Div0.add_mod_idemp_l. f_equal. lia.
Qed.

Lemma check_numbers_Ok from hs u : check_numbers from hs = Ok u -> numbered from hs.
Proof.
  revert from. induction hs as [|h hs IH]; intros from; cbn [check_numbers numbered]; [done|].
  destruct (N.eqb_spec (number h) from); [|done]. cbn. auto.
Qed.

Lemma numbered_check from hs : numbered from hs -> check_numbers from hs = Ok tt.
Proof.
  revert from. induction hs as [|h hs IH]; intros from; cbn [check_numbers numbered]; [done|].
  intros [-> Hn]. rewrite N.eqb_refl. cbn. auto.
Qed.

Lemma check_numbers_no_panic from hs : check_numbers from hs <> Panic.
Proof. revert from. induction hs as [|h hs IH]; intros from; cbn; [done|]. by destruct (negb _). Qed.

Lemma sync_inv_step s ev :
  sync_inv s -> local_height s < u64_mod -> (forall b, ev = BodyReceived b -> number (header b) < u64_mod) ->
  sync_inv (sync_handle s ev).1 /\ local_height (sync_handle s ev).1 < u64_mod /\ (sync_handle s ev).2 <> Panic.
Proof.
  intros Hi Hlh Hev. destruct Hi as [Hidle Hhead Hbod].
  destruct s as [[|target next|pending|] buffer lh]; destruct ev as [height|batch|block|]; cbn in *;
    try (split_and!; [split; cbn; congruence || naive_solver|done|done]).
  - destruct (height <=? lh); cbn; [split_and!; [split; cbn; done|done|done]|].
    split_and!; [|done|done]. rewrite Hidle by done. split; cbn; [done| |done].
    intros t n [= <- <-]. eexists. split; [exact I|]. unfold len. cbn [length]. rewrite N.add_0_r. unfold wrapping_add.
    split; [|by apply N.mod_lt]. by rewrite N.Div0.mod_mod.
  - destruct (Hhead _ _ eq_refl) as (from & Hn & Hnext & Hlt).
    destruct batch as [|h batch]; [split_and!; [split; cbn; naive_solver|done|done]|].
    destruct (check_numbers next (h :: batch)) as [u|e|] eqn:Hc;
      [|split_and!; [split; cbn; naive_solver|done|done]|by apply check_numbers_no_panic in Hc].
    apply check_numbers_Ok in Hc. rewrite Hnext in Hc.
    pose proof (numbered_app from buffer (h :: batch) Hn Hc Hlt) as Hall.
    destruct (target <? _).
    + destruct (header_hash <$> buffer ++ h :: batch) as [|first rest] eqn:Hp; cbn.
      { apply fmap_nil_inv in Hp. by destruct buffer. }
      split_and!; [|done|done]. split; cbn; [done..|]. intros p [= <-]. split; [done|].
      exists [], (buffer ++ h :: batch). rewrite Hp. eauto.
    + split_and!; [|done|done]. split; cbn; [done| |done]. intros t n [= <- <-]. exists from. split_and!; [done| |done].
      rewrite Hnext. unfold wrapping_add. rewrite len_app, N.Div0.add_mod_idemp_l. f_equal. lia.
  - destruct (Hbod _ eq_refl) as (Hne & dn & rest & Hbuf & Hpend & Hfrom).
    destruct pending as [|first pending]; [done|]. destruct (bool_decide (first = block_hash block)); cbn.
    2:{ split_and!; [split; cbn; [done..|]|done|done]. intros p [= <-]. eauto 10. }
    destruct pending as [|next_hash pending]; cbn; (split_and!; [|by apply Hev|done]); split; cbn; try done.
    intros p [= <-]. split; [done|]. destruct rest as [|h rest]; [done|]. injection Hpend as _ Hp.
    exists (dn ++ [h]), rest. rewrite <-app_assoc. eauto.
Qed.

Lemma sync_run_inv s events :
  sync_inv s -> local_height s < u64_mod ->
  Forall (fun ev => forall b, ev = BodyReceived b -> number (header b) < u64_mod) events ->
  sync_inv (sync_run s events) /\ local_height (sync_run s events) < u64_mod.
Proof.
  intros Hi Hl Hev. revert s Hi Hl. induction Hev as [|ev events Hev _ IH]; intros s Hi Hl; [done|]. cbn.
  destruct (sync_inv_step s ev Hi Hl Hev) as (Hi' & Hl' & _). by apply IH.
Qed.

Lemma sync_inv_new h : sync_inv (SyncEngine_new h).
Proof. by split. Qed.

(** ** A complete sync *)
Definition feed_headers (batches : list (list Header)) : list SyncEvent := HeadersReceived <$> batches.
Definition feed_bodies (blocks : list Block) : list SyncEvent := BodyReceived <$> blocks.

(** In the header phase: batches that continue the numbering and end at the target. *)
Lemma headers_phase batches buffer target next lh :
  batches <> [] -> Forall (fun b => b <> []) batches ->
  numbered next (concat batches) -> next + len (concat batches) < u64_mod ->
  target < next + len (concat batches) -> next + len (concat batches) <= target + len (default [] (last batches)) ->
  sync_run (mkSync (SyncHeaders target next) buffer lh) (feed_headers batches) =
    mkSync (SyncBodies (header_hash <$> (buffer ++ concat batches))) (buffer ++ concat batches) lh.
Proof.
  revert buffer next. induction batches as [|b batches IH]; intros buffer next Hne Hf Hn Hlt Htgt Hlast; [done|].
  apply Forall_cons in Hf as [Hb Hf]. cbn [concat] in *. rewrite len_app in *.
  assert (numbered next b /\ numbered (next + len b) (concat batches)) as [Hnb Hnr].
  { clear -Hn Hlt. revert next Hn Hlt. induction b as [|h b IH]; intros next Hn Hlt; cbn [app numbered] in *.
    - unfold len. cbn. by rewrite N.add_0_r.
    - destruct Hn as [-> Hn]. unfold wrapping_add, len in *. cbn [length] in *. rewrite Nat2N.inj_succ in *.
      rewrite N.mod_small in * by lia. destruct (IH (next + 1) Hn ltac:(lia)) as [H1 H2].
      split; [done|]. by replace (next + N.succ (N.of_nat (length b))) with (next + 1 + N.of_nat (length b)) by lia. }
  unfold sync_run in *. change (feed_headers (b :: batches)) with (HeadersReceived b :: feed_headers batches).
  cbn [foldl]. cbn [sync_handle sync_state headers_buffer local_height].
  destruct b as [|h b]; [done|]. rewrite (numbered_check _ _ Hnb).
  unfold wrapping_add. rewrite N.mod_small by lia.
  destruct batches as [|b2 batches].
  - cbn [concat] in *. rewrite app_nil_r in *. rewrite (proj2 (N.ltb_lt _ _)) by (unfold len in *; cbn in *; lia).
    destruct (header_hash <$> buffer ++ h :: b) as [|first rest] eqn:Hp; [|done].
    apply fmap_nil_inv in Hp. by destruct buffer.
  - assert (len (concat (b2 :: batches)) >= len (default [] (last (b2 :: batches)))) as Hge.
    { clear. cbn [concat]. revert b2. induction batches as [|b3 batches IH]; intros b2.
      - cbn [concat last default]. rewrite app_nil_r. cbn. lia.
      - rewrite last_cons_cons. specialize (IH b3). cbn [concat] in *. rewrite len_app. lia. }
    rewrite (proj2 (N.ltb_ge target _)) by (cbn [last] in Hlast; lia). cbn [fst].
    rewrite (IH (buffer ++ h :: b) (next + len (h :: b))); [by rewrite <-app_assoc|done..|lia|lia|].
    cbn [last] in Hlast. lia.
Qed.

(** In the body phase: the blocks whose headers were fetched, in order. *)
Lemma bodies_phase blocks b buffer lh :
  sync_run (mkSync (SyncBodies (block_hash <$> (blocks ++ [b]))) buffer lh) (feed_bodies (blocks ++ [b])) =
    mkSync SyncDone [] (number (header b)).
Proof.
  revert lh. induction blocks as [|x blocks IH]; intros lh; unfold sync_run in *; cbn [app feed_bodies fmap list_fmap foldl sync_handle sync_state].
  - by rewrite bool_decide_eq_true_2.
  - rewrite bool_decide_eq_true_2 by done. cbn [negb].
    destruct (block_hash <$> blocks ++ [b]) as [|y rest] eqn:Hp.
    + apply fmap_nil_inv in Hp. by destruct blocks.
    + cbn [fst headers_buffer]. apply IH.
Qed.
End sync.

Section properties.
Context `{Primitives} `{R : Rlp}.

(** The sync machine, fed any events from peers at all: it never panics, the bodies it
    waits for are those of a suffix of the headers it buffered (never none), and the
    buffered headers are numbered without a gap. *)
Theorem sync_safe (start : N) (events : list SyncEvent) (ev : SyncEvent) :
  start < u64_mod ->
  Forall (fun ev => forall b, ev = BodyReceived b -> number (header b) < u64_mod) events ->
  sync_inv (sync_run (SyncEngine_new start) events) /\
  ((forall b, ev = BodyReceived b -> number (header b) < u64_mod) ->
   (sync_handle (sync_run (SyncEngine_new start) events) ev).2 <> Panic).
Proof.
  intros Hs Hev. destruct (sync_run_inv (SyncEngine_new start) events (sync_inv_new start) Hs Hev) as [Hi Hl].
  split; [done|]. intros Hb. by apply sync_inv_step.
Qed.

(** A complete sync succeeds: a fresh machine at height [start], a peer that announces a
    higher tip and then serves, in any division into non-empty batches the last of which
    reaches the tip, headers that continue the local chain's numbers, and then the blocks
    of these headers in order, brings the machine to [Done] at the height of the last
    block. *)
Theorem sync_completes (start tip : N) (batches : list (list Header)) (blocks : list Block) (b : Block) :
  start < tip -> batches <> [] -> Forall (fun x => x <> []) batches ->
  concat batches = header <$> (blocks ++ [b]) ->
  numbered (start + 1) (concat batches) -> start + 1 + len (concat batches) < u64_mod ->
  tip < start + 1 + len (concat batches) ->
  start + 1 + len (concat batches) <= tip + len (default [] (last batches)) ->
  sync_run (SyncEngine_new start) (PeerAnnouncedTip tip :: feed_headers batches ++ feed_bodies (blocks ++ [b])) =
    mkSync SyncDone [] (number (header b)).
Proof.
  intros Hst Hne Hf Hblocks Hnum Hlt Htip Hlast. unfold sync_run. cbn [foldl sync_handle sync_state SyncEngine_new local_height].
  rewrite (proj2 (N.leb_gt _ _) Hst). cbn [fst headers_buffer]. rewrite foldl_app.
  unfold wrapping_add. rewrite N.mod_small by lia.
  pose proof (headers_phase batches [] tip (start + 1) start Hne Hf Hnum Hlt Htip Hlast) as Hh.
  unfold sync_run in Hh. cbn [SyncEngine_new headers_buffer]. rewrite Hh. cbn [app]. rewrite Hblocks, <-list_fmap_compose.
  exact (bodies_phase blocks b _ start).
Qed.

(** What a header batch is checked for is its numbers only: headers that do not link to
    each other or to the local chain are accepted, their bodies fetched and handed over;
    and after one complete sync the machine refuses every later tip until the peer
    disconnects. *)
Theorem sync_checks_numbers_only (start tip : N) (h : Header) (b : Block) (tip' : N) :
  start + 1 = tip -> tip < u64_mod - 1 -> number h = tip -> block_hash b = header_hash h ->
  let s := sync_run (SyncEngine_new start) [PeerAnnouncedTip tip; HeadersReceived [h]] in
  sync_handle s (BodyReceived b) = (mkSync SyncDone [] (number (header b)), Ok (PersistBlock b)) /\
  (sync_handle (sync_handle s (BodyReceived b)).1 (PeerAnnouncedTip tip')).2 =
    Err (Unexpected SyncDone (PeerAnnouncedTip tip')).
Proof.
  intros Hst Htip Hnum Hb. cbn zeta. unfold sync_run. cbn [foldl sync_handle sync_state SyncEngine_new local_height].
  rewrite (proj2 (N.leb_gt tip start)) by lia. cbn [fst headers_buffer sync_state sync_handle local_height].
  unfold wrapping_add. rewrite N.mod_small by lia. cbn [check_numbers]. rewrite Hnum, Hst, N.eqb_refl. cbn [negb app].
  change (len [h]) with 1. rewrite N.mod_small by lia. rewrite (proj2 (N.ltb_lt _ _)) by lia.
  cbn [SyncEngine_new headers_buffer app fmap list_fmap fst sync_state sync_handle]. rewrite Hb, bool_decide_eq_true_2 by done. cbn. done.
Qed.
End properties.
