(* ===== verification/ChainSpec.v ===== *)
(** * ChainSpec: protocol constants, validation, block subsidy

    Models [src/crates/aii-config/src/chain_spec.rs]: the record, [validate], the two
    presets and the halving subsidy.  The theorems bound the Wei that all blocks
    together can mint and say what a validated specification guarantees. *)
From stdpp Require Import base tactics gmap numbers strings list.
From Stdlib Require Import NArith Lia.
From S2P Require Import Prelude.

Definition AII_CHAIN_ID : N := 99.
Definition AII_TESTNET_CHAIN_ID : N := 9999.
Definition MAX_ACTIVE_VALIDATORS : N := 128.

Record ChainSpec := mkSpec {
  chain_id : N;
  network : string;
  cs_block_time_seconds : N;
  cs_initial_gas_limit : N;
  cs_min_base_fee_per_gas : N;
  block_reward_initial_wei : N;
  block_reward_halving_interval : N;
  unbonding_period_blocks : N;
  min_validator_stake_wei : N;
  epoch_length_blocks : N;
  validators_per_epoch : N
}.

(** The subsidy of block [n]; [>>] is reached with an amount below 128 only. *)
Definition block_reward_at (self : ChainSpec) (n : N) : N :=
  let interval := block_reward_halving_interval self in
  if (interval =? 0) || (interval =? u64_mod - 1) then block_reward_initial_wei self
  else
    let halvings := n / interval in
    if 128 <=? halvings then 0 else N.shiftr (block_reward_initial_wei self) halvings.

Definition validate (self : ChainSpec) : res string unit :=
  _ ← guard_err (chain_id self =? 0) "chain_id must be > 0"%string;
  _ ← guard_err (cs_block_time_seconds self =? 0) "block_time_seconds must be > 0"%string;
  _ ← guard_err (30 <? cs_block_time_seconds self) "block_time_seconds must be <= 30"%string;
  _ ← guard_err (cs_initial_gas_limit self <? 5000000) "initial_gas_limit must be >= 5_000_000"%string;
  _ ← guard_err (epoch_length_blocks self =? 0) "epoch_length_blocks must be > 0"%string;
  _ ← guard_err (validators_per_epoch self =? 0) "validators_per_epoch must be > 0"%string;
  _ ← guard_err (MAX_ACTIVE_VALIDATORS <? validators_per_epoch self)
        "validators_per_epoch must be <= MAX_ACTIVE_VALIDATORS"%string;
  guard_err (min_validator_stake_wei self =? 0) "min_validator_stake_wei must be > 0"%string.

Definition AII_MAINNET : ChainSpec :=
  mkSpec AII_CHAIN_ID "" 3 30000000 1000000000 2000000000000000000 42048000 100800
    100000000000000000000 4800 21.
Definition AII_TESTNET : ChainSpec :=
  mkSpec AII_TESTNET_CHAIN_ID "" 3 30000000 100000000 2000000000000000000 42048000 100800
    100000000000000000000 4800 21.

Definition with_network (s : ChainSpec) (name : string) : ChainSpec :=
  mkSpec (chain_id s) name (cs_block_time_seconds s) (cs_initial_gas_limit s)
    (cs_min_base_fee_per_gas s) (block_reward_initial_wei s) (block_reward_halving_interval s)
    (unbonding_period_blocks s) (min_validator_stake_wei s) (epoch_length_blocks s)
    (validators_per_epoch s).

Definition mainnet : ChainSpec := with_network AII_MAINNET "aii-mainnet".
Definition testnet : ChainSpec := with_network AII_TESTNET "aii-testnet".

(** The Wei minted by the blocks below [k]. *)
Fixpoint emission (s : ChainSpec) (k : nat) : N :=
  match k with O => 0 | S k => emission s k + block_reward_at s (N.of_nat k) end.

(** The subsidy halves. *)
Definition halving (s : ChainSpec) : Prop :=
  0 < block_reward_halving_interval s < u64_mod - 1 /\ block_reward_initial_wei s < u128_mod.

Lemma block_reward_shift s n :
  halving s -> block_reward_at s n =
    block_reward_initial_wei s / 2 ^ (n / block_reward_halving_interval s).
Proof.
  intros [Hi Hx]. unfold block_reward_at.
  destruct (N.eqb_spec (block_reward_halving_interval s) 0); [lia|].
  destruct (N.eqb_spec (block_reward_halving_interval s) (u64_mod - 1)); [lia|]. cbn [orb].
  destruct (N.leb_spec 128 (n / block_reward_halving_interval s)); [|apply N.shiftr_div_pow2].
  symmetry. apply N.div_small. eapply N.lt_le_trans; [exact Hx|].
  change u128_mod with (2 ^ 128). apply N.pow_le_mono_r; lia.
Qed.

(** What remains to be minted bounds what was minted. *)
Lemma emission_bound s (k : nat) :
  halving s ->
  let interval := block_reward_halving_interval s in
  let r := block_reward_at s (N.of_nat k) in
  emission s k + 2 * interval * r <=
  2 * block_reward_initial_wei s * interval + (N.of_nat k mod interval) * r.
Proof.
  intros Hs interval. cbv zeta. pose proof Hs as [Hi _]. fold interval in Hi.
  induction k as [|k IH].
  - change (N.of_nat 0) with 0. cbn [emission]. rewrite block_reward_shift by done. fold interval.
    rewrite N.Div0.div_0_l, N.Div0.mod_0_l. change (2 ^ 0) with 1. rewrite N.div_1_r. lia.
  - cbn [emission]. set (n := N.of_nat k) in *. replace (N.of_nat (S k)) with (n + 1) by lia.
    assert (Hq : (n + 1) / interval = n / interval /\ (n + 1) mod interval = n mod interval + 1 \/
                 (n + 1) / interval = n / interval + 1 /\ (n + 1) mod interval = 0 /\
                 n mod interval = interval - 1).
    { clear IH. pose proof (N.div_mod' n interval) as Hd. pose proof (N.mod_lt n interval ltac:(lia)) as Hm.
      destruct (N.eq_dec (n mod interval + 1) interval) as [He|Hne]; [right|left].
      - assert (n + 1 = interval * (n / interval + 1)) as Hn by lia. split_and!; [| |lia].
        + symmetry. apply (N.div_unique _ _ _ 0); lia.
        + symmetry. apply (N.mod_unique _ _ (n / interval + 1)); lia.
      - split; symmetry; [apply (N.div_unique _ _ _ (n mod interval + 1))|apply (N.mod_unique _ _ (n / interval))]; lia. }
    rewrite !block_reward_shift in * by done. fold interval in IH |- *.
    set (x := block_reward_initial_wei s) in *. destruct Hq as [[-> ->]|(-> & -> & Hm)]; [nia|].
    rewrite Hm in IH. rewrite N.pow_add_r. change (2 ^ 1) with 2. rewrite <-N.Div0.div_div.
    set (r := x / 2 ^ (n / interval)) in *. pose proof (N.Div0.mul_div_le r 2). nia.
Qed.

Lemma block_reward_mono s n n' : halving s -> n <= n' -> block_reward_at s n' <= block_reward_at s n.
Proof.
  intros Hs Hn. rewrite !block_reward_shift by done. destruct Hs as [Hi _].
  apply N.div_le_compat_l. split; [apply N.neq_0_lt_0, N.pow_nonzero; lia|].
  apply N.pow_le_mono_r; [lia|]. apply N.Div0.div_le_mono. done.
Qed.

(** The supply is capped: with a halving interval set, the subsidy never grows from
    one block to a later one, and however long the chain gets, all block subsidies
    together stay within twice the initial subsidy times the interval (for the
    main net 168,192,000 AII). *)
Theorem emission_capped (s : ChainSpec) (k : nat) :
  halving s ->
  (forall n n', n <= n' -> block_reward_at s n' <= block_reward_at s n) /\
  emission s k <= 2 * block_reward_initial_wei s * block_reward_halving_interval s.
Proof.
  intros Hs. split; [intros; by apply block_reward_mono|].
  pose proof (emission_bound s k Hs) as Hb. cbv zeta in Hb. destruct Hs as [Hi _].
  pose proof (N.mod_lt (N.of_nat k) (block_reward_halving_interval s) ltac:(lia)). nia.
Qed.

Lemma emission_capped_witness :
  halving mainnet /\ emission mainnet 10 <= 168192000 * 1000000000000000000.
Proof.
  assert (halving mainnet) as Hs by (vm_compute; repeat split).
  split; [exact Hs|]. exact (proj2 (emission_capped mainnet 10 Hs)).
Defined.
