(* ===== verification/Engine.v ===== *)
(** * Engine: the chain engine around the coordinator

    Models [src/crates/aii-consensus-bft/src/engine.rs] and the trait of
    [aii-consensus-iface].  Every method of [BftEngine] holds the state lock for
    its whole body, so it is a function from the engine to the engine and the
    outcome.  The optional [BlockExecutor] is a field of the configuration. *)
From stdpp Require Import base tactics gmap numbers strings list.
From Stdlib Require Import NArith Lia.
From S2P Require Import Prelude Bytes Crypto Bft Coordinator Slashing Codec Tx Trie Block ChainSpec.

Definition PLACEHOLDER_TX_GAS : N := 21000.
Definition RECENT_BLOCKS_CAP : nat := 64.

(** [aii-consensus-iface]. *)
Record PostBlockRoots := mkRoots {
  r_state_root : H256;
  r_receipts_root : H256;
  r_logs_bloom : array 256;
  r_gas_used : N
}.

Inductive ConsensusError :=
| InvalidHeader (msg : string)
| InvalidBlock (msg : string)
| BadSignature
| NotInVSet
| Io (msg : string).

Inductive EngineProgress := Idle | NewBlock (h : H256).

(** The genesis file of [aii-config]. *)
Record GenesisValidator := mkGenesisValidator {
  g_bls_pubkey : array 48;
  g_vrf_pubkey : array 32;
  g_stake : N
}.

Record GenesisAlloc := mkGenesisAlloc {
  ga_address : Address;
  ga_balance : N;
  ga_code_hash : option H256
}.

Record Genesis := mkGenesis {
  g_chain_spec : ChainSpec;
  g_timestamp : N;
  g_extra_data : bytes;
  g_alloc : list GenesisAlloc;
  g_validators : list GenesisValidator;
  g_initial_seed : array 32
}.

Section engine.
Context `{Primitives} `{Rlp}.

Record BftConfig := mkConfig {
  cfg_validator_set : ValidatorSet;
  cfg_my_index : N;
  my_bls_sk : bls_sk;
  my_vrf_sk : vrf_sk;
  initial_seed : array 32;
  coinbase : Address;
  cfg_gas_limit : N;
  cfg_base_fee_per_gas : N;
  slot_seconds : N;
  executor : option (BlockBody -> Address -> N -> ConsensusError + PostBlockRoots)
}.

(** The [for] loop of [from_genesis] that decodes the validators' keys. *)
Fixpoint decode_validators (i : N) (gvs : list GenesisValidator) : res BftError (list Validator) :=
  match gvs with
  | [] => Ok []
  | gv :: gvs =>
      bls_pubkey ← map_err (fun _ => InvalidValidatorPubkey i "bls")
        (bls.PublicKey_from_compressed (g_bls_pubkey gv));
      vrf_pubkey ← map_err (fun _ => InvalidValidatorPubkey i "vrf")
        (vrf.PublicKey_from_bytes (g_vrf_pubkey gv));
      rest ← decode_validators (i + 1) gvs;
      mret (mkValidator bls_pubkey vrf_pubkey (g_stake gv) :: rest)
  end.

Definition from_genesis (genesis : Genesis) (my_index : N) (bls_sk : bls_sk) (vrf_sk : vrf_sk)
    (coinbase : Address) : res BftError BftConfig :=
  _ ← guard_err (len (g_validators genesis) =? 0) EmptyValidatorSet;
  runtime ← decode_validators 0 (g_validators genesis);
  validator_set ← ValidatorSet_new runtime;
  _ ← guard_err (size validator_set <=? my_index)
        (ValidatorIndexOutOfBounds my_index (size validator_set));
  mret (mkConfig validator_set my_index bls_sk vrf_sk (g_initial_seed genesis) coinbase
          (cs_initial_gas_limit (g_chain_spec genesis)) (cs_min_base_fee_per_gas (g_chain_spec genesis))
          (cs_block_time_seconds (g_chain_spec genesis)) None).

(** ** State *)

Definition RecentCommittedBlock : Type := Block * PrecommitCertificate.

Record BftEngineState := mkState {
  validator_set : ValidatorSet;
  my_index : N;
  head_hash : H256;
  head_number : N;
  head_timestamp : N;
  st_seed : array 32;
  coordinator : option RoundCoordinator;
  proposal : option (Block * LeaderProof);
  detector : EquivocationDetector;
  pending_evidence : list EquivocationEvidence;
  pending_prevotes : list PrevoteVote;
  pending_precommits : list PrecommitVote;
  recent_blocks : gmap N RecentCommittedBlock
}.

Record BftEngine := mkEngine {
  config : BftConfig;
  state : BftEngineState;
  pending_txs : list Tx
}.

Definition with_state (self : BftEngine) (g : BftEngineState) : BftEngine :=
  mkEngine (config self) g (pending_txs self).

Definition with_round (g : BftEngineState) (c : option RoundCoordinator)
    (p : option (Block * LeaderProof)) : BftEngineState :=
  mkState (validator_set g) (my_index g) (head_hash g) (head_number g) (head_timestamp g)
    (st_seed g) c p (detector g) (pending_evidence g) (pending_prevotes g) (pending_precommits g)
    (recent_blocks g).

Definition with_votes (g : BftEngineState) (pv : list PrevoteVote) (pc : list PrecommitVote)
    : BftEngineState :=
  mkState (validator_set g) (my_index g) (head_hash g) (head_number g) (head_timestamp g)
    (st_seed g) (coordinator g) (proposal g) (detector g) (pending_evidence g) pv pc
    (recent_blocks g).

Definition with_detector (g : BftEngineState) (d : EquivocationDetector)
    (ev : list EquivocationEvidence) : BftEngineState :=
  mkState (validator_set g) (my_index g) (head_hash g) (head_number g) (head_timestamp g)
    (st_seed g) (coordinator g) (proposal g) d ev (pending_prevotes g) (pending_precommits g)
    (recent_blocks g).

(** ** The cache of committed blocks *)

(** [map.iter().next()] of a [BTreeMap]: the lowest key. *)
Definition oldest {A} (m : gmap N A) : option N :=
  foldr (fun k acc => Some (match acc with None => k | Some a => N.min k a end)) None
    (map_to_list m).*1.

(** [while map.len() > RECENT_BLOCKS_CAP]; a turn removes one entry, so the
    size of the map bounds the turns. *)
Fixpoint evict {A} (fuel : nat) (m : gmap N A) : gmap N A :=
  if (RECENT_BLOCKS_CAP <? base.size m)%nat then
    match fuel, oldest m with
    | S fuel, Some k => evict fuel (delete k m)
    | _, _ => m
    end
  else m.

Definition cache_recent_block (m : gmap N RecentCommittedBlock) (block : Block)
    (certificate : PrecommitCertificate) : gmap N RecentCommittedBlock :=
  let m := <[number (header block) := (block, certificate)]> m in
  evict (base.size m) m.

(** ** Construction *)

Definition initial_state (c : BftConfig) (head : Block) (seed : array 32) : BftEngineState :=
  mkState (cfg_validator_set c) (cfg_my_index c) (block_hash head) (number (header head))
    (timestamp (header head)) seed None None Detector_new [] [] [] ∅.

Definition BftEngine_new (c : BftConfig) (genesis : Block) : BftEngine :=
  mkEngine c (initial_state c genesis (initial_seed c)) [].

Definition from_recovered (c : BftConfig) (head : Block) : BftEngine :=
  let seed := if number (header head) =? 0 then initial_seed c else mix_hash (header head) in
  mkEngine c (initial_state c head seed) [].

(** ** Staged transactions *)

Definition set_pending_txs (self : BftEngine) (txs : list Tx) : BftEngine :=
  mkEngine (config self) (state self) txs.

Definition extend_pending_txs (self : BftEngine) (txs : list Tx) : BftEngine :=
  match txs with
  | [] => self
  | _ => mkEngine (config self) (state self) (pending_txs self ++ txs)
  end.

(** The transactions that fit the gas limit, in order, leave the queue. *)
Definition drain_pending_txs_into_body (self : BftEngine) : BlockBody * BftEngine :=
  let max_txs := cfg_gas_limit (config self) / PLACEHOLDER_TX_GAS in
  let take_n := N.min (len (pending_txs self)) max_txs in
  (mkBody (take (N.to_nat take_n) (pending_txs self)) [] [],
   mkEngine (config self) (state self) (drop (N.to_nat take_n) (pending_txs self))).

(** ** Queries *)

Definition is_single_validator (self : BftEngine) : bool :=
  size (validator_set (state self)) =? 1.

Definition current_round_state (self : BftEngine) : option (N * N * Phase) :=
  (fun c => (height c, round c, phase c)) <$> coordinator (state self).

Definition current_leader_index (self : BftEngine) : option nat :=
  leader_index <$> coordinator (state self).

Definition would_be_leader_next_height (self : BftEngine) : bool :=
  let g := state self in
  let next_h := saturating_add u64_mod (head_number g) 1 in
  (select_leader (validator_set g) next_h 0 (st_seed g) =? N.to_nat (my_index g))%nat.

Definition committed_block_at (self : BftEngine) (h : N) : option RecentCommittedBlock :=
  recent_blocks (state self) !! h.

(** ** Rounds *)

(** [head_number + 1] in a release build. *)
Definition next_height (g : BftEngineState) : N := wrapping_add u64_mod (head_number g) 1.

Definition new_coordinator (g : BftEngineState) : RoundCoordinator :=
  Coordinator_new (next_height g) (st_seed g) (validator_set g).

Definition ensure_coordinator (g : BftEngineState) : BftEngineState :=
  match coordinator g with
  | Some _ => g
  | None => with_round g (Some (new_coordinator g)) (proposal g)
  end.

Definition fast_forward_to_round (self : BftEngine) (target_round : N)
    : BftEngine * res BftError unit :=
  let g := state self in
  let stale := match coordinator g with
               | Some existing => negb (height existing =? next_height g)
               | None => false
               end in
  if stale then (self, Err WrongHeight)
  else
    let coord := N.iter target_round fire_timeout (new_coordinator g) in
    (with_state self (with_round g (Some coord) (proposal g)), Ok tt).

Definition rotate_validator_set (self : BftEngine) (vset : ValidatorSet) (index : N)
    : BftEngine * res BftError unit :=
  if size vset <=? index then (self, Err (ValidatorIndexOutOfBounds index (size vset)))
  else
    let g := state self in
    match coordinator g, proposal g with
    | None, None =>
        (with_state self
           (mkState vset index (head_hash g) (head_number g) (head_timestamp g) (st_seed g)
              None None (detector g) (pending_evidence g) [] [] (recent_blocks g)), Ok tt)
    | _, _ => (self, Err ActiveRoundInProgress)
    end.

(** ** Building blocks *)

Definition zero_bloom : array 256 := zero_array 256.

Definition placeholder_roots (b : BlockBody) : PostBlockRoots :=
  mkRoots EMPTY_TRIE_HASH EMPTY_TRIE_HASH zero_bloom
    (wrapping_mul u64_mod (len (transactions b)) PLACEHOLDER_TX_GAS).

(** The executor's roots; the placeholders without one, or when it fails. *)
Definition roots_for (c : BftConfig) (b : BlockBody) (coinbase : Address) (height : N)
    : PostBlockRoots :=
  match executor c with
  | Some ex => match ex b coinbase height with inr r => r | inl _ => placeholder_roots b end
  | None => placeholder_roots b
  end.

Definition build_block_with_body (c : BftConfig) (parent : H256) (parent_timestamp : N)
    (height : N) (pf : LeaderProof) (coinbase : Address) (b : BlockBody) : Block :=
  let r := roots_for c b coinbase height in
  mkBlock
    (mkHeader parent EMPTY_LIST_HASH coinbase (r_state_root r) (transactions_root b)
       (r_receipts_root r) (r_logs_bloom r) 0 height (cfg_gas_limit c) (r_gas_used r)
       (wrapping_add u64_mod parent_timestamp (slot_seconds c))
       (String.list_byte_of_string "aii-bft") (vrf_output pf) (zero_array 8)
       (cfg_base_fee_per_gas c) EMPTY_TRIE_HASH None None None)
    b.

Definition reconstruct_proposed_block_with_body (self : BftEngine) (height : N)
    (pf : LeaderProof) (coinbase : Address) (b : BlockBody) : Block :=
  build_block_with_body (config self) (head_hash (state self)) (head_timestamp (state self))
    height pf coinbase b.

Definition reconstruct_proposed_block (self : BftEngine) (height : N) (pf : LeaderProof) : Block :=
  reconstruct_proposed_block_with_body self height pf (coinbase (config self)) default_body.

(** ** Votes that came early *)

(** The errors on which a vote is kept for a later state of the round. *)
Definition retryable (e : BftError) : bool :=
  match e with WrongPhase _ _ | WrongRound | WrongHeight => true | _ => false end.

(** What ends a drain other than its result: the fuel, which never runs out. *)
Inductive drain_error := OutOfFuel.

(** One [for v in votes] pass: the coordinator, the left-over votes, and
    whether a vote was applied.  [submit] is the coordinator's method. *)
Fixpoint apply_votes {k} (submit : RoundCoordinator -> vote k -> RoundCoordinator * res BftError unit)
    (c : RoundCoordinator) (votes leftover : list (vote k)) (applied : bool)
    : res drain_error (RoundCoordinator * list (vote k) * bool) :=
  match votes with
  | [] => Ok (c, leftover, applied)
  | v :: votes =>
      let '(c, r) := submit c v in
      match r with
      | Ok _ => apply_votes submit c votes leftover true
      | Err e =>
          apply_votes submit c votes (if retryable e then leftover ++ [v] else leftover) applied
      | Panic => Panic
      end
  end.

Definition live_votes {k} (head : N) (votes : list (vote k)) : list (vote k) :=
  filter (fun v : vote k => head < vote_height v) votes.

(** [retain(|v| v.height > head)] on both buffers. *)
Definition retain_votes (g : BftEngineState) : BftEngineState :=
  with_votes g (live_votes (head_number g) (pending_prevotes g))
    (live_votes (head_number g) (pending_precommits g)).

(** One turn of the [loop]: the state, and whether a vote was applied. *)
Definition drain_turn (g : BftEngineState) (c : RoundCoordinator)
    : res drain_error (BftEngineState * bool) :=
  '(c, leftover_prev, applied) ← apply_votes submit_prevote c (pending_prevotes g) [] false;
  '(c, leftover_pc, applied) ← apply_votes submit_precommit c (pending_precommits g) [] applied;
  mret (with_votes (with_round g (Some c) (proposal g)) leftover_prev leftover_pc, applied).

Fixpoint drain_loop (fuel : nat) (g : BftEngineState) : res drain_error BftEngineState :=
  match fuel with
  | O => Err OutOfFuel
  | S fuel =>
      let g := retain_votes g in
      match coordinator g with
      | None => Ok g
      | Some c =>
          '(g', applied_any) ← drain_turn g c;
          if (applied_any : bool) then drain_loop fuel g' else mret g'
      end
  end.

(** A turn that repeats has removed a vote from the buffers. *)
Definition drain_pending_votes (g : BftEngineState) : res drain_error BftEngineState :=
  drain_loop (S (length (pending_prevotes g) + length (pending_precommits g))) g.

(** The drain at the end of a handler; [g] stays when it does not return. *)
Definition then_drain (self : BftEngine) (g : BftEngineState) : BftEngine * res BftError unit :=
  match drain_pending_votes g with
  | Ok g => (with_state self g, Ok tt)
  | _ => (with_state self g, Panic)
  end.

(** ** Commit *)

(** The writes that install a new head and drop the round. *)
Definition install_head (g : BftEngineState) (b : Block) (seed : array 32)
    (cert : PrecommitCertificate) : BftEngineState :=
  mkState (validator_set g) (my_index g) (block_hash b) (number (header b))
    (timestamp (header b)) seed None None (detector g) (pending_evidence g)
    (pending_prevotes g) (pending_precommits g)
    (cache_recent_block (recent_blocks g) b cert).

Definition is_committed (g : BftEngineState) : bool :=
  match coordinator g with
  | Some c => bool_decide (phase c = Committed)
  | None => false
  end.

Definition try_harvest_committed (self : BftEngine) : BftEngine * option Block :=
  let g := state self in
  if negb (is_committed g) then (self, None)
  else
    match proposal g, coordinator g ≫= final_cert with
    | Some (block, pf), Some cert =>
        (with_state self (install_head g block (vrf_output pf) cert), Some block)
    | _, _ => (self, None)
    end.

Definition adopt_synced_block (self : BftEngine) (block : Block) (cert : PrecommitCertificate)
    : BftEngine * res BftError Block :=
  let g := state self in
  let checked : res BftError unit :=
    _ ← guard_err (negb (number (header block) =? next_height g) ||
                   negb (c_height cert =? number (header block))) WrongHeight;
    _ ← guard_err (negb (bool_decide (parent_hash (header block) = head_hash g)) ||
                   negb (bool_decide (c_block_hash cert = block_hash block))) ProposalHashMismatch;
    PrecommitCertificate_verify cert (validator_set g)
  in
  match checked with
  | Ok _ =>
      let g := install_head g block (mix_hash (header block)) cert in
      (with_state self (with_votes g [] []), Ok block)
  | Err e => (self, Err e)
  | Panic => (self, Panic)
  end.

(** ** This node's own messages *)

Definition cast_proposal (self : BftEngine) : BftEngine * res BftError (Block * LeaderProof) :=
  let g := ensure_coordinator (state self) in
  let self := with_state self g in
  match coordinator g with
  | None => (self, Panic)
  | Some coord =>
      let leader_idx := leader_index coord in
      if negb (leader_idx =? N.to_nat (my_index g))%nat
      then (self, Err (NotLeader (round coord) (N.min (N.of_nat leader_idx) (u32_mod - 1))))
      else
        let pf := LeaderProof_produce (my_vrf_sk (config self)) (height coord) (round coord)
                    (st_seed g) in
        let '(b, self) := drain_pending_txs_into_body self in
        let block := build_block_with_body (config self) (head_hash g) (head_timestamp g)
                       (height coord) pf (coinbase (config self)) b in
        let '(coord, r) := submit_proposal coord (block_hash block) pf in
        match r with
        | Ok _ => (with_state self (with_round g (Some coord) (Some (block, pf))), Ok (block, pf))
        | Err e => (with_state self (with_round g (Some coord) (proposal g)), Err e)
        | Panic => (with_state self (with_round g (Some coord) (proposal g)), Panic)
        end
  end.

Definition cast_prevote (self : BftEngine) : BftEngine * res BftError PrevoteVote :=
  let g := state self in
  match coordinator g with
  | None => (self, Err NoActiveCoordinator)
  | Some coord =>
      match proposed_block coord with
      | None => (self, Err (WrongPhase Prevoting (phase coord)))
      | Some bh =>
          let v := PrevoteVote_sign (my_bls_sk (config self)) bh (height coord) (round coord)
                     (my_index g) in
          let '(coord, r) := submit_prevote coord v in
          (with_state self (with_round g (Some coord) (proposal g)), (fun _ => v) <$> r)
      end
  end.

Definition cast_precommit (self : BftEngine) : BftEngine * res BftError PrecommitVote :=
  let g := state self in
  match coordinator g with
  | None => (self, Err NoActiveCoordinator)
  | Some coord =>
      if negb (bool_decide (phase coord = Precommitting))
      then (self, Err (WrongPhase Precommitting (phase coord)))
      else
        match proposed_block coord with
        | None => (self, Panic)
        | Some bh =>
            let v := PrecommitVote_sign (my_bls_sk (config self)) bh (height coord) (round coord)
                       (my_index g) in
            let '(coord, r) := submit_precommit coord v in
            (with_state self (with_round g (Some coord) (proposal g)), (fun _ => v) <$> r)
        end
  end.

(** ** Peers' messages *)

Definition submit_remote_proposal (self : BftEngine) (block : Block) (pf : LeaderProof)
    : BftEngine * res BftError unit :=
  let g := ensure_coordinator (state self) in
  match coordinator g with
  | None => (with_state self g, Panic)
  | Some coord =>
      let '(coord, r) := submit_proposal coord (block_hash block) pf in
      match r with
      | Ok _ => then_drain self (with_round g (Some coord) (Some (block, pf)))
      | Err e => (with_state self (with_round g (Some coord) (proposal g)), Err e)
      | Panic => (with_state self (with_round g (Some coord) (proposal g)), Panic)
      end
  end.

Definition submit_remote_prevote (self : BftEngine) (v : PrevoteVote)
    : BftEngine * res BftError unit :=
  let g := state self in
  let '(d, ev) := record_prevote (detector g) v in
  let g := with_detector g d (pending_evidence g ++ option_list ev) in
  if vote_height v <=? head_number g then (with_state self g, Ok tt)
  else
    match coordinator g with
    | None =>
        (with_state self (with_votes g (pending_prevotes g ++ [v]) (pending_precommits g)), Ok tt)
    | Some coord =>
        let '(coord, r) := submit_prevote coord v in
        let g := with_round g (Some coord) (proposal g) in
        match r with
        | Ok _ => then_drain self g
        | Err e =>
            if retryable e
            then (with_state self (with_votes g (pending_prevotes g ++ [v]) (pending_precommits g)),
                  Ok tt)
            else (with_state self g, Err e)
        | Panic => (with_state self g, Panic)
        end
    end.

Definition submit_remote_precommit (self : BftEngine) (v : PrecommitVote)
    : BftEngine * res BftError unit :=
  let g := state self in
  let '(d, ev) := record_precommit (detector g) v in
  let g := with_detector g d (pending_evidence g ++ option_list ev) in
  if vote_height v <=? head_number g then (with_state self g, Ok tt)
  else
    match coordinator g with
    | None =>
        (with_state self (with_votes g (pending_prevotes g) (pending_precommits g ++ [v])), Ok tt)
    | Some coord =>
        let '(coord, r) := submit_precommit coord v in
        let g := with_round g (Some coord) (proposal g) in
        match r with
        | Ok _ => then_drain self g
        | Err e =>
            if retryable e
            then (with_state self (with_votes g (pending_prevotes g) (pending_precommits g ++ [v])),
                  Ok tt)
            else (with_state self g, Err e)
        | Panic => (with_state self g, Panic)
        end
    end.

Definition drain_evidence (self : BftEngine) : BftEngine * list EquivocationEvidence :=
  let g := state self in
  (with_state self (with_detector g (detector g) []), pending_evidence g).

Definition tick_timeout (self : BftEngine) : BftEngine * res BftError unit :=
  let g := ensure_coordinator (state self) in
  match coordinator g with
  | None => (with_state self g, Panic)
  | Some coord => then_drain self (with_round g (Some (fire_timeout coord)) None)
  end.

(** ** Single-validator mode *)

Record AdvanceOutput := mkAdvance {
  o_block : Block;
  o_block_hash : H256;
  o_certificate : PrecommitCertificate
}.

(** The coordinator of one whole round, driven by this node alone. *)
Definition solo_round (self : BftEngine) (block_hash : H256) (number : N) (pf : LeaderProof)
    : res BftError RoundCoordinator :=
  let g := state self in
  let coord := Coordinator_new number (st_seed g) (validator_set g) in
  let '(coord, r) := submit_proposal coord block_hash pf in
  _ ← r;
  let '(coord, r) := submit_prevote coord
    (PrevoteVote_sign (my_bls_sk (config self)) block_hash number 0 (my_index g)) in
  _ ← r;
  let '(coord, r) := submit_precommit coord
    (PrecommitVote_sign (my_bls_sk (config self)) block_hash number 0 (my_index g)) in
  _ ← r;
  mret coord.

Definition advance_single (self : BftEngine) : BftEngine * res BftError AdvanceOutput :=
  let g := state self in
  let vs_size := size (validator_set g) in
  if negb (vs_size =? 1) then (self, Err (NotSingleValidator vs_size))
  else
    match checked_add u64_mod (head_number g) 1 with
    | None => (self, Err Overflow)
    | Some new_number =>
        let new_timestamp := wrapping_add u64_mod (head_timestamp g) (slot_seconds (config self)) in
        let pf := LeaderProof_produce (my_vrf_sk (config self)) new_number 0 (st_seed g) in
        let '(b, self) := drain_pending_txs_into_body self in
        let block := build_block_with_body (config self) (head_hash g) (head_timestamp g)
                       new_number pf (coinbase (config self)) b in
        match (coord ← solo_round self (block_hash block) new_number pf;
               ok_or (final_cert coord) (NotSingleValidator vs_size)) with
        | Ok cert =>
            let g := mkState (validator_set g) (my_index g) (block_hash block) new_number
                       new_timestamp (vrf_output pf) (coordinator g) (proposal g) (detector g)
                       (pending_evidence g) (pending_prevotes g) (pending_precommits g)
                       (cache_recent_block (recent_blocks g) block cert) in
            (with_state self g, Ok (mkAdvance block (block_hash block) cert))
        | Err e => (self, Err e)
        | Panic => (self, Panic)
        end
    end.

(** ** [impl Engine for BftEngine] *)

Definition Engine_init (self : BftEngine) (genesis : Block) : BftEngine * res ConsensusError H256 :=
  let g := state self in
  (with_state self
     (mkState (validator_set g) (my_index g) (block_hash genesis) (number (header genesis))
        (timestamp (header genesis)) (initial_seed (config self)) (coordinator g) (proposal g)
        (detector g) (pending_evidence g) (pending_prevotes g) (pending_precommits g)
        (recent_blocks g)),
   Ok (block_hash genesis)).

Definition Engine_step (self : BftEngine) : BftEngine * res ConsensusError EngineProgress :=
  if is_single_validator self then
    let '(self, r) := advance_single self in
    (self, (fun out => NewBlock (o_block_hash out)) <$>
             map_err (fun _ => InvalidBlock "BFT advance failed") r)
  else
    let g := state self in
    if negb (is_committed g) then (self, Ok Idle)
    else
      match proposal g with
      | None => (self, Err (InvalidBlock "committed with no proposal"))
      | Some (block, pf) =>
          match coordinator g ≫= final_cert with
          | None => (self, Err (InvalidBlock "committed with no certificate"))
          | Some cert =>
              (with_state self (install_head g block (vrf_output pf) cert),
               Ok (NewBlock (block_hash block)))
          end
      end.
End engine.
