(* ===== verification/VNode.v ===== *)
(** * VNode: the V-node accounts and the reward split, and the token's call data

    Models [src/crates/aii-vnode/src/lib.rs] and, at the end, [src/crates/aii-erc20/src/lib.rs].  The ordered map is a finite map; its order
    matters to no result of the file.  [U256] arithmetic wraps. *)
From stdpp Require Import base tactics gmap numbers strings list.
From Stdlib Require Import NArith Lia.
From Stdlib.Init Require Import Byte.
From S2P Require Import Prelude Bytes Crypto.

Definition MIN_STAKE_WEI : N := 100000 * 1000000000000000000.
Definition VALIDATOR_SHARE_PCT : N := 80.

Record VNode := mkVNode {
  vn_address : Address;
  vn_bls_pubkey : array 48;
  vn_stake : N;
  vn_active : bool
}.

Abbreviation VSet := (gmap Address VNode).

Inductive VNodeError := VZeroAmount | VUnknown | VUnderflow.

Definition meets_minimum_stake (stake : N) : bool := MIN_STAKE_WEI <=? stake.

Definition with_stake (v : VNode) (stake : N) : VNode :=
  mkVNode (vn_address v) (vn_bls_pubkey v) stake (meets_minimum_stake stake).

Definition active_nodes (self : VSet) : list VNode := filter (fun v => vn_active v = true) (map_to_list self).*2.

Definition total_active_stake (self : VSet) : N :=
  foldl (fun acc v => wrapping_add u256_mod acc (vn_stake v)) 0 (active_nodes self).

Definition apply_stake (self : VSet) (address : Address) (bls_pubkey : array 48) (amount : N)
    : VSet * res VNodeError unit :=
  if amount =? 0 then (self, Err VZeroAmount)
  else
    let entry := default (mkVNode address bls_pubkey 0 false) (self !! address) in
    (<[address := with_stake entry (wrapping_add u256_mod (vn_stake entry) amount)]> self, Ok tt).

Definition apply_unstake (self : VSet) (address : Address) (amount : N) : VSet * res VNodeError unit :=
  match self !! address with
  | None => (self, Err VUnknown)
  | Some entry =>
      if vn_stake entry <? amount then (self, Err VUnderflow)
      else
        let stake := vn_stake entry - amount in
        if stake =? 0 then (delete address self, Ok tt)
        else (<[address := with_stake entry stake]> self, Ok tt)
  end.

Definition split_reward (total : N) : N * N :=
  let validator := wrapping_mul u256_mod total VALIDATOR_SHARE_PCT / 100 in
  (validator, (total + u256_mod - validator) mod u256_mod).

(** ** Properties *)
Inductive vset_op := VStake (a : Address) (k : array 48) (x : N) | VUnstake (a : Address) (x : N).

Definition vset_apply (s : VSet) (op : vset_op) : VSet * res VNodeError unit :=
  match op with VStake a k x => apply_stake s a k x | VUnstake a x => apply_unstake s a x end.

(** What an accepted operation moves in and out. *)
Definition staked_in (op : vset_op) (r : res VNodeError unit) : N :=
  match op, r with VStake _ _ x, Ok _ => x | _, _ => 0 end.
Definition staked_out (op : vset_op) (r : res VNodeError unit) : N :=
  match op, r with VUnstake _ x, Ok _ => x | _, _ => 0 end.

Definition held_stake (s : VSet) : N := weight (fun av => vn_stake av.2) (map_to_list s).

(** Every node is under its own address, holds something, and is active exactly above
    the floor. *)
Record vset_wf (s : VSet) : Prop := {
  vw_address : forall a v, s !! a = Some v -> vn_address v = a;
  vw_stake : forall a v, s !! a = Some v -> 0 < vn_stake v < u256_mod;
  vw_active : forall a v, s !! a = Some v -> vn_active v = meets_minimum_stake (vn_stake v)
}.

Lemma held_delete s a v : s !! a = Some v -> held_stake s = vn_stake v + held_stake (delete a s).
Proof. intros Ha. unfold held_stake. by rewrite <-(weight_perm _ _ _ (map_to_list_delete s a v Ha)). Qed.

Lemma held_put s a v : held_stake (<[a := v]> s) = vn_stake v + held_stake (delete a s).
Proof.
  rewrite (held_delete (<[a := v]> s) a v) by apply lookup_insert_eq. by rewrite delete_insert_eq.
Qed.

Lemma vset_put_wf s a v :
  vset_wf s -> vn_address v = a -> 0 < vn_stake v < u256_mod -> vn_active v = meets_minimum_stake (vn_stake v) ->
  vset_wf (<[a := v]> s).
Proof.
  intros [Ha Hs Hact] H1 H2 H3. split; intros x w; (destruct (decide (a = x)) as [<-|Hne];
    [rewrite lookup_insert_eq; intros [= <-]; done|rewrite lookup_insert_ne by done; eauto]).
Qed.

Lemma vset_delete_wf s a : vset_wf s -> vset_wf (delete a s).
Proof. intros [Ha Hs Hact]. split; intros x w [_ Hw]%lookup_delete_Some; eauto. Qed.

Lemma vset_apply_spec s op :
  vset_wf s -> held_stake s + (match op with VStake _ _ x => x | _ => 0 end) < u256_mod ->
  let '(s', r) := vset_apply s op in
  vset_wf s' /\ held_stake s' + staked_out op r = held_stake s + staked_in op r.
Proof.
  intros Hwf Hlt. destruct op as [a k x|a x]; cbn [vset_apply]; cbn iota in Hlt.
  - unfold apply_stake. destruct (N.eqb_spec x 0) as [|Hx]; [cbn; split; [done|lia]|].
    cbn [staked_in staked_out].
    destruct (s !! a) as [v|] eqn:Ha; cbn [from_option id].
    + pose proof (held_delete _ _ _ Ha) as Hd. rewrite wrapping_add_small by lia. split.
      * apply vset_put_wf; [done|by apply (vw_address _ Hwf _ _ Ha)| |done]. cbn. lia.
      * rewrite held_put. cbn. lia.
    + rewrite wrapping_add_small by (cbn; lia). split.
      * apply vset_put_wf; [done|done| |done]. cbn. lia.
      * rewrite held_put, delete_id by done. cbn. lia.
  - unfold apply_unstake. destruct (s !! a) as [v|] eqn:Ha; cbn; [|split; [done|lia]].
    destruct (N.ltb_spec (vn_stake v) x) as [|Hge]; cbn; [split; [done|lia]|].
    pose proof (held_delete _ _ _ Ha) as Hd. pose proof (vw_stake _ Hwf _ _ Ha) as Hs.
    destruct (N.eqb_spec (vn_stake v - x) 0) as [Hz|Hz]; cbn.
    + split; [by apply vset_delete_wf|lia].
    + split; [|rewrite held_put; cbn; lia].
      apply vset_put_wf; [done|by apply (vw_address _ Hwf _ _ Ha)| |done]. cbn. lia.
Qed.

(** Stakes are conserved and the active flag is never stale: through any sequence of
    stakes and unstakes on an empty set whose stakes do not overflow 256 bits, what the
    nodes hold is what was accepted in minus what was accepted out, nobody holds zero,
    and a node is active exactly if its stake reaches 100,000 AII. *)
Theorem vset_conserves (ops : list vset_op) :
  weight (fun op => match op with VStake _ _ x => x | _ => 0 end) ops < u256_mod ->
  exists s rs, rs = (fix run s ops := match ops with
      | [] => [] | op :: ops => (vset_apply s op).2 :: run (vset_apply s op).1 ops end) ∅ ops /\
    s = foldl (fun s op => (vset_apply s op).1) ∅ ops /\ vset_wf s /\
    held_stake s + weight (fun opr => staked_out opr.1 opr.2) (zip ops rs) =
      weight (fun opr => staked_in opr.1 opr.2) (zip ops rs).
Proof.
  intros Hlt. eexists _, _. split; [done|]. split; [done|].
  assert (forall s, vset_wf s -> held_stake s + weight (fun op => match op with VStake _ _ x => x | _ => 0 end) ops < u256_mod ->
    let s' := foldl (fun s op => (vset_apply s op).1) s ops in
    let rs := (fix run s ops := match ops with
      | [] => [] | op :: ops => (vset_apply s op).2 :: run (vset_apply s op).1 ops end) s ops in
    vset_wf s' /\ held_stake s' + weight (fun opr => staked_out opr.1 opr.2) (zip ops rs) =
      held_stake s + weight (fun opr => staked_in opr.1 opr.2) (zip ops rs)) as Hrun.
  { clear Hlt. induction ops as [|op ops IH]; intros s Hwf Hlt; cbn zeta; [cbn; split; [done|lia]|].
    rewrite weight_cons in Hlt. pose proof (vset_apply_spec s op Hwf ltac:(lia)) as Hop.
    cbn [foldl zip zip_with]. rewrite !weight_cons. destruct (vset_apply s op) as [s1 r]. destruct Hop as [Hwf1 Hh].
    cbn [fst snd]. specialize (IH s1 Hwf1). cbn zeta in IH.
    assert (staked_in op r <= match op with VStake _ _ x => x | _ => 0 end) as Hin by (destruct op, r; cbn; lia).
    destruct IH as [Hwf2 Hh2]; [lia|]. split; [done|]. lia. }
  destruct (Hrun ∅) as [Hwf Hh].
  - split; intros a v; by rewrite lookup_empty.
  - unfold held_stake. rewrite map_to_list_empty. cbn. lia.
  - split; [done|]. unfold held_stake at 2 in Hh. rewrite map_to_list_empty in Hh. cbn [weight foldr] in Hh. lia.
Qed.

(** The split gives the validator four fifths, rounded down, and the treasury the rest:
    nothing is lost. *)
Theorem split_reward_exact (total : N) :
  total * 80 < u256_mod ->
  let '(validator, treasury) := split_reward total in
  validator + treasury = total /\ validator = total * 80 / 100 /\ treasury * 5 < total + 5.
Proof.
  intros Hlt. unfold split_reward, VALIDATOR_SHARE_PCT. rewrite wrapping_mul_small by done.
  pose proof (N.div_mod' (total * 80) 100) as Hd. pose proof (N.mod_lt (total * 80) 100 ltac:(lia)) as Hm.
  set (v := total * 80 / 100) in *. set (r := (total * 80) mod 100) in *. clearbody v r.
  replace (total + u256_mod - v) with (total - v + 1 * u256_mod) by lia.
  rewrite N.Div0.mod_add, N.mod_small by lia. split_and!; [lia|done|lia].
Qed.

(** ** [aii-erc20]: the selectors, the encoders of the calls and the decoders of their results *)
Definition SELECTOR_TOTAL_SUPPLY : bytes := [x18; x16; x0d; xdd].
Definition SELECTOR_BALANCE_OF : bytes := [x70; xa0; x82; x31].
Definition SELECTOR_TRANSFER : bytes := [xa9; x05; x9c; xbb].
Definition SELECTOR_APPROVE : bytes := [x09; x5e; xa7; xb3].
Definition SELECTOR_ALLOWANCE : bytes := [xdd; x62; xed; x3e].
Definition SELECTOR_TRANSFER_FROM : bytes := [x23; xb8; x72; xdd].

Definition abi_pad_addr (addr : Address) : bytes := replicate 12 x00 ++ arr_bytes addr.
Definition abi_pad_u256 (v : N) : bytes := be_bytes 32 v.

Definition encode_balance_of (addr : Address) : bytes := SELECTOR_BALANCE_OF ++ abi_pad_addr addr.
Definition encode_total_supply : bytes := SELECTOR_TOTAL_SUPPLY.
Definition encode_transfer (to : Address) (amount : N) : bytes :=
  SELECTOR_TRANSFER ++ abi_pad_addr to ++ abi_pad_u256 amount.
Definition encode_approve (spender : Address) (amount : N) : bytes :=
  SELECTOR_APPROVE ++ abi_pad_addr spender ++ abi_pad_u256 amount.
Definition encode_allowance (owner spender : Address) : bytes :=
  SELECTOR_ALLOWANCE ++ abi_pad_addr owner ++ abi_pad_addr spender.
Definition encode_transfer_from (from to : Address) (amount : N) : bytes :=
  SELECTOR_TRANSFER_FROM ++ abi_pad_addr from ++ abi_pad_addr to ++ abi_pad_u256 amount.

Definition decode_uint256_result (b : bytes) : N := if len b <? 32 then 0 else be_value (take 32 b).
Definition decode_bool_result (b : bytes) : bool := negb (decode_uint256_result b =? 0).

(** ** Properties *)

(** The calls of the standard that the crate encodes. *)
Inductive erc20_call :=
| TotalSupply
| BalanceOf (a : Address)
| CallTransfer (to : Address) (x : N)
| Approve (spender : Address) (x : N)
| Allowance (owner spender : Address)
| TransferFrom (from to : Address) (x : N).

Definition call_data (c : erc20_call) : bytes :=
  match c with
  | TotalSupply => encode_total_supply
  | BalanceOf a => encode_balance_of a
  | CallTransfer to x => encode_transfer to x
  | Approve s x => encode_approve s x
  | Allowance o s => encode_allowance o s
  | TransferFrom f t x => encode_transfer_from f t x
  end.

Definition call_fits (c : erc20_call) : Prop :=
  match c with CallTransfer _ x | Approve _ x | TransferFrom _ _ x => x < u256_mod | _ => True end.

Lemma abi_pad_addr_app a a' (k k' : bytes) :
  abi_pad_addr a ++ k = abi_pad_addr a' ++ k' -> a = a' /\ k = k'.
Proof.
  unfold abi_pad_addr. rewrite <-!app_assoc. intros Heq%app_inv_head.
  apply app_inj_1 in Heq as [Ha Hk]; [|by rewrite !arr_length]. split; [by apply arr_ext|done].
Qed.

Lemma abi_pad_u256_inj x y : x < u256_mod -> y < u256_mod -> abi_pad_u256 x = abi_pad_u256 y -> x = y.
Proof. intros Hx Hy Heq. rewrite <-(be_value_small 32 x), <-(be_value_small 32 y) by done. by f_equal. Qed.

(** Call data is unambiguous: two calls with the same bytes are the same call with the
    same arguments; each is four bytes of selector and 32 per argument. *)
Theorem call_data_injective (c c' : erc20_call) :
  call_fits c -> call_fits c' -> call_data c = call_data c' -> c = c'.
Proof.
  intros Hc Hc' Heq. destruct c, c'; cbn in Hc, Hc'; try discriminate Heq; [done|..].
  all: unfold call_data, encode_balance_of, encode_transfer, encode_approve, encode_allowance, encode_transfer_from in Heq.
  all: apply app_inv_head in Heq.
  - by apply (inj (app (replicate 12 x00))) in Heq as ->%arr_ext.
  - apply abi_pad_addr_app in Heq as [-> ->%abi_pad_u256_inj]; done.
  - apply abi_pad_addr_app in Heq as [-> ->%abi_pad_u256_inj]; done.
  - apply abi_pad_addr_app in Heq as [-> Heq]. by apply (inj (app (replicate 12 x00))) in Heq as ->%arr_ext.
  - apply abi_pad_addr_app in Heq as [-> Heq]. apply abi_pad_addr_app in Heq as [-> ->%abi_pad_u256_inj]; done.
Qed.

(** Results round-trip through one ABI word.  The documentation says that longer payloads
    decode to zero as shorter ones do; they decode to their first word. *)
Theorem uint256_result_roundtrip (x : N) (rest : bytes) :
  x < u256_mod -> decode_uint256_result (abi_pad_u256 x ++ rest) = x /\
  decode_bool_result (abi_pad_u256 x ++ rest) = negb (x =? 0).
Proof.
  intros Hx. unfold decode_bool_result. assert (decode_uint256_result (abi_pad_u256 x ++ rest) = x) as ->; [|done].
  unfold decode_uint256_result, abi_pad_u256. rewrite len_app.
  rewrite (proj2 (N.ltb_ge _ _)) by (unfold len; rewrite length_be_bytes; lia).
  rewrite take_app_length' by (by rewrite length_be_bytes). by apply be_value_small.
Qed.
