(* ===== verification/Consensus.v ===== *)
(** * Consensus: the interface of the engines, and the two simple engines

    The trait [Engine] of [src/crates/aii-consensus-iface/src/lib.rs] is the class
    [Engine]; [EngineLaws] is what a driver relies on, and [run_steps] a driver proved
    against them alone.  [DevModeEngine] of [aii-consensus-bft/src/lib.rs] and
    [PoaEngine] of [aii-consensus-poa/src/lib.rs] implement the interface here, the BFT
    engine in [ConsensusBft]. *)
From stdpp Require Import base tactics gmap numbers strings list.
From Stdlib Require Import NArith Lia.
From S2P Require Import Prelude Bytes Crypto Bft Coordinator Slashing Codec Secp Tx Trie Receipt Block Engine.

Class Engine (E : Type) := {
  eng_init : E -> Block -> E * res ConsensusError H256;
  eng_step : E -> E * res ConsensusError EngineProgress;
  eng_head : E -> H256;
  eng_coinbase : E -> option Address
}.

(** The states a driver may hold, their height, and what each call does to the head. *)
Class EngineLaws (E : Type) `{Primitives} `{Rlp} `{Engine E} := {
  eng_ok : E -> Prop;
  eng_number : E -> N;
  eng_init_head e genesis : exists e', eng_init e genesis = (e', Ok (block_hash genesis)) /\
    eng_head e' = block_hash genesis /\ eng_number e' = number (header genesis);
  eng_step_head e : eng_ok e -> eng_number e < u64_mod - 1 ->
    let '(e', r) := eng_step e in
    eng_ok e' /\ r <> Panic /\
    match r with
    | Ok (NewBlock h) => eng_head e' = h /\ eng_number e' = eng_number e + 1
    | _ => eng_head e' = eng_head e /\ eng_number e' = eng_number e
    end
}.

(** A driver: [n] steps, collecting the new blocks; it ends at the first error. *)
Fixpoint run_steps {E} `{Engine E} (n : nat) (e : E) : E * list H256 :=
  match n with
  | O => (e, [])
  | S n =>
      match eng_step e with
      | (e, Ok (NewBlock h)) => let '(e, hs) := run_steps n e in (e, h :: hs)
      | (e, Ok Idle) => run_steps n e
      | (e, _) => (e, [])
      end
  end.

Section driver.
Context `{HP : Primitives} `{HR : Rlp} {E : Type} `{HE : Engine E} {HL : EngineLaws E}.

Lemma run_steps_head n (e : E) :
  eng_ok e -> eng_number e + N.of_nat n < u64_mod ->
  let '(e', hs) := run_steps n e in
  eng_ok e' /\ eng_head e' = default (eng_head e) (last hs) /\
  eng_number e' = eng_number e + len hs /\ (length hs <= n)%nat.
Proof.
  revert e. induction n as [|n IH]; intros e Hok Hn; cbn [run_steps].
  - split_and!; [done|done| |cbn; lia]. unfold len. cbn. lia.
  - pose proof (eng_step_head e Hok ltac:(lia)) as Hs. destruct (eng_step e) as [e1 r].
    destruct Hs as (Hok1 & Hnp & Hr). destruct r as [[|h]|err|]; [| |split_and!|done].
    + destruct Hr as [Hh Hnum]. specialize (IH e1 Hok1 ltac:(lia)). destruct (run_steps n e1) as [e2 hs].
      rewrite Hh, Hnum in IH. split_and!; [apply IH..|]. destruct IH as (_ & _ & _ & IH). lia.
    + destruct Hr as [Hh Hnum]. specialize (IH e1 Hok1 ltac:(lia)). destruct (run_steps n e1) as [e2 hs].
      destruct IH as (Hok2 & Hh2 & Hn2 & Hl). split_and!; [done| | |cbn; lia].
      * rewrite Hh2, Hh. destruct hs as [|h' hs]; [done|]. rewrite (last_cons h). by destruct (last (h' :: hs)).
      * rewrite Hn2, Hnum. unfold len. cbn [length]. lia.
    + done.
    + apply Hr.
    + unfold len. cbn. lia.
    + cbn. lia.
Qed.

(** Whatever engine runs behind the interface, [n] steps of a driver leave its head at
    the last new block that was reported (or where it was), its height advanced by one
    for each of them, and the engine fit for further steps. *)
Theorem driver_follows_head n (e : E) :
  eng_ok e -> eng_number e + N.of_nat n < u64_mod ->
  let '(e', hs) := run_steps n e in
  eng_ok e' /\ eng_head e' = default (eng_head e) (last hs) /\
  eng_number e' = eng_number e + len hs /\ (length hs <= n)%nat.
Proof. apply run_steps_head. Qed.
End driver.

(** ** The dev-mode engine *)
Definition DEFAULT_SLOT_SECONDS : N := 3.

Record EngineConfig := mkEngineConfig {
  ec_slot_seconds : N;
  ec_coinbase : Address;
  ec_base_fee_per_gas : N;
  ec_gas_limit : N
}.

Definition EngineConfig_default : EngineConfig :=
  mkEngineConfig DEFAULT_SLOT_SECONDS (zero_array 20) 1000000000 30000000.

(** [EngineState] and [PoaState] *)
Record HeadState := mkHead { hs_hash : H256; hs_number : N; hs_timestamp : N }.

Record DevModeEngine := mkDev { dev_config : EngineConfig; dev_state : HeadState }.

Section dev.
Context `{Primitives} `{Rlp}.

Definition head_of (b : Block) : HeadState := mkHead (block_hash b) (number (header b)) (timestamp (header b)).

Definition DevModeEngine_new (config : EngineConfig) (genesis : Block) : DevModeEngine :=
  mkDev config (head_of genesis).

Definition dev_produce_block (self : DevModeEngine) : DevModeEngine * res BftError (H256 * N * Block) :=
  let g := dev_state self in
  let c := dev_config self in
  match checked_add u64_mod (hs_number g) 1 with
  | None => (self, Err Overflow)
  | Some new_number =>
      let new_timestamp := wrapping_add u64_mod (hs_timestamp g) (ec_slot_seconds c) in
      let block := mkBlock
        (mkHeader (hs_hash g) EMPTY_LIST_HASH (ec_coinbase c) EMPTY_TRIE_HASH EMPTY_TRIE_HASH EMPTY_TRIE_HASH
           bloom_zero 0 new_number (ec_gas_limit c) 0 new_timestamp
           (String.list_byte_of_string "aii-dev-mode") (zero_array 32) (zero_array 8)
           (ec_base_fee_per_gas c) EMPTY_TRIE_HASH None None None)
        default_body in
      let new_hash := block_hash block in
      (mkDev c (mkHead new_hash new_number new_timestamp), Ok (new_hash, new_number, block))
  end.

Definition static_msg (e : BftError) : string :=
  match e with
  | Overflow => "block number overflowed u64"
  | _ => "bft error (see BftError variant for details)"
  end.

Definition dev_init (self : DevModeEngine) (genesis : Block) : DevModeEngine * res ConsensusError H256 :=
  (mkDev (dev_config self) (head_of genesis), Ok (block_hash genesis)).

Definition dev_step (self : DevModeEngine) : DevModeEngine * res ConsensusError EngineProgress :=
  let '(self, r) := dev_produce_block self in
  (self, '(hash, _, _) ← map_err (fun e => InvalidBlock (static_msg e)) r; mret (NewBlock hash)).

#[export] Instance dev_engine : Engine DevModeEngine := {
  eng_init := dev_init;
  eng_step := dev_step;
  eng_head self := hs_hash (dev_state self);
  eng_coinbase self := Some (ec_coinbase (dev_config self))
}.

#[export] Instance dev_laws : EngineLaws DevModeEngine.
Proof.
  refine {| eng_ok _ := True; eng_number self := hs_number (dev_state self) |}.
  - intros e genesis. eexists. by split_and!.
  - intros e _ Hn. cbn [eng_step dev_engine]. unfold dev_step, dev_produce_block, checked_add.
    rewrite (proj2 (N.ltb_lt _ _)) by lia. by split_and!.
Defined.
End dev.

(** ** Proof of authority *)
Inductive PoaError := EmptyAuthorities | PoaOverflow | SealSignFailed.

Section poa.
Context `{Primitives} `{Rlp} `{K256}.

Record PoaConfig := mkPoaConfig {
  authorities : list Address;
  poa_coinbase : Address;
  poa_slot_seconds : N;
  poa_gas_limit : N;
  poa_base_fee_per_gas : N;
  signer_sk : option ec_sk
}.

Record PoaEngine := mkPoa { poa_config : PoaConfig; poa_state : HeadState; poa_pending_txs : list Tx }.

(** [authorities[height % len]] *)
Definition authority_at (auths : list Address) (height : N) : option Address :=
  auths !! N.to_nat (height mod len auths).

Definition verify_poa_seal (hash : H256) (sig : secp.Signature) (auths : list Address) (height : N)
    : res CryptoError bool :=
  match auths with
  | [] => Ok false
  | _ =>
      recovered ← secp.recover sig hash;
      expected ← expect (authority_at auths height);
      mret (bool_decide (secp.address recovered = expected))
  end.

Definition PoaEngine_new (config : PoaConfig) (genesis : Block) : res PoaError PoaEngine :=
  match authorities config with
  | [] => Err EmptyAuthorities
  | _ => Ok (mkPoa config (head_of genesis) [])
  end.

Definition poa_set_pending_txs (self : PoaEngine) (txs : list Tx) : PoaEngine :=
  mkPoa (poa_config self) (poa_state self) txs.

(** The remainder by zero of an empty list panics; [new] excludes it. *)
Definition next_authority_index (self : PoaEngine) : res ConsensusError N :=
  let next := wrapping_add u64_mod (hs_number (poa_state self)) 1 in
  match authorities (poa_config self) with
  | [] => Panic
  | auths => Ok (next mod len auths)
  end.

Definition is_my_turn (self : PoaEngine) : res ConsensusError bool :=
  i ← next_authority_index self;
  a ← expect (authorities (poa_config self) !! N.to_nat i);
  mret (bool_decide (a = poa_coinbase (poa_config self))).

Definition poa_produce_block (self : PoaEngine) : PoaEngine * res PoaError (H256 * N * Block) :=
  let g := poa_state self in
  let c := poa_config self in
  match checked_add u64_mod (hs_number g) 1 with
  | None => (self, Err PoaOverflow)
  | Some new_number =>
      let new_timestamp := wrapping_add u64_mod (hs_timestamp g) (poa_slot_seconds c) in
      let max_txs := poa_gas_limit c / PLACEHOLDER_TX_GAS in
      let take_n := N.min (len (poa_pending_txs self)) max_txs in
      let txs := take (N.to_nat take_n) (poa_pending_txs self) in
      let b := mkBody txs [] [] in
      let gas := wrapping_mul u64_mod (len txs) PLACEHOLDER_TX_GAS in
      let block := mkBlock
        (mkHeader (hs_hash g) EMPTY_LIST_HASH (poa_coinbase c) EMPTY_TRIE_HASH (transactions_root b) EMPTY_TRIE_HASH
           bloom_zero 0 new_number (poa_gas_limit c) gas new_timestamp
           (String.list_byte_of_string "aii-poa") (zero_array 32) (zero_array 8)
           (poa_base_fee_per_gas c) EMPTY_TRIE_HASH None None None)
        b in
      let hash := block_hash block in
      (mkPoa c (mkHead hash new_number new_timestamp) (drop (N.to_nat take_n) (poa_pending_txs self)),
       Ok (hash, new_number, block))
  end.

(** A failed signature leaves the block produced. *)
Definition produce_block_signed (self : PoaEngine)
    : PoaEngine * res PoaError (H256 * N * Block * option secp.Signature) :=
  let '(self, r) := poa_produce_block self in
  (self,
   '(hash, n, block) ← r;
   sig ← match signer_sk (poa_config self) with
         | Some sk => s ← map_err (fun _ => SealSignFailed) (secp.sign sk hash); mret (Some s)
         | None => mret None
         end;
   mret (hash, n, block, sig)).

Definition poa_init (self : PoaEngine) (genesis : Block) : PoaEngine * res ConsensusError H256 :=
  (mkPoa (poa_config self) (head_of genesis) (poa_pending_txs self), Ok (block_hash genesis)).

Definition poa_step (self : PoaEngine) : PoaEngine * res ConsensusError EngineProgress :=
  match is_my_turn self with
  | Ok true =>
      let '(self, r) := poa_produce_block self in
      (self, '(hash, _, _) ← map_err (fun _ => InvalidBlock "PoA produce failed") r; mret (NewBlock hash))
  | Ok false => (self, Ok Idle)
  | Err e => (self, Err e)
  | Panic => (self, Panic)
  end.

#[export] Instance poa_engine : Engine PoaEngine := {
  eng_init := poa_init;
  eng_step := poa_step;
  eng_head self := hs_hash (poa_state self);
  eng_coinbase self := Some (poa_coinbase (poa_config self))
}.

Lemma authority_in auths height : auths <> [] -> is_Some (authority_at auths height).
Proof.
  intros Hne. apply lookup_lt_is_Some. unfold len.
  assert (N.of_nat (length auths) <> 0) as Hl by (destruct auths; cbn; [done|lia]).
  pose proof (N.mod_lt height _ Hl). lia.
Qed.

Lemma is_my_turn_spec self :
  authorities (poa_config self) <> [] ->
  exists a, authority_at (authorities (poa_config self)) (wrapping_add u64_mod (hs_number (poa_state self)) 1) = Some a /\
    is_my_turn self = Ok (bool_decide (a = poa_coinbase (poa_config self))).
Proof.
  intros Hne. destruct (authority_in _ (wrapping_add u64_mod (hs_number (poa_state self)) 1) Hne) as [a Ha].
  exists a. split; [done|]. unfold is_my_turn, next_authority_index.
  destruct (authorities (poa_config self)) as [|x l]; [done|]. cbn [mbind res_bind].
  unfold authority_at in Ha. by rewrite Ha.
Qed.

#[export] Instance poa_laws : EngineLaws PoaEngine.
Proof.
  refine {| eng_ok self := authorities (poa_config self) <> []; eng_number self := hs_number (poa_state self) |}.
  - intros e genesis. eexists. by split_and!.
  - intros e Hok Hn. destruct (is_my_turn_spec e Hok) as (a & _ & Ht).
    cbn [eng_step poa_engine]. unfold poa_step. rewrite Ht.
    destruct (bool_decide _); [|by split_and!]. unfold poa_produce_block, checked_add.
    rewrite (proj2 (N.ltb_lt _ _)) by lia. by split_and!.
Defined.

(** Authorities take turns: at every height below the maximum one authority is elected;
    an engine steps to a new block exactly if it operates that one's address, and then
    the block follows the head, carries the address, and holds the first staged
    transactions that fit the gas limit, which leave the queue in order. *)
Theorem poa_turns (self : PoaEngine) :
  authorities (poa_config self) <> [] -> hs_number (poa_state self) < u64_mod - 1 ->
  poa_gas_limit (poa_config self) < u64_mod ->
  exists a, authority_at (authorities (poa_config self)) (hs_number (poa_state self) + 1) = Some a /\
  let '(self', r) := eng_step self in
  if bool_decide (a = poa_coinbase (poa_config self)) then
    exists blk, r = Ok (NewBlock (block_hash blk)) /\ (poa_produce_block self).2 = Ok (block_hash blk, number (header blk), blk) /\
      parent_hash (header blk) = hs_hash (poa_state self) /\ number (header blk) = hs_number (poa_state self) + 1 /\
      beneficiary (header blk) = a /\ h_transactions_root (header blk) = transactions_root (body blk) /\
      transactions (body blk) ++ poa_pending_txs self' = poa_pending_txs self /\
      gas_used (header blk) = 21000 * len (transactions (body blk)) /\
      gas_used (header blk) <= gas_limit (header blk)
  else r = Ok Idle /\ self' = self.
Proof.
  intros Hne Hn Hg. destruct (is_my_turn_spec self Hne) as (a & Ha & Ht).
  rewrite wrapping_add_small in Ha by lia. exists a. split; [done|].
  cbn [eng_step poa_engine]. unfold poa_step. rewrite Ht.
  destruct (bool_decide (a = _)) eqn:Hd; [|done]. apply bool_decide_eq_true in Hd.
  unfold poa_produce_block, checked_add. rewrite (proj2 (N.ltb_lt _ _)) by lia.
  eexists. split; [done|]. split; [done|]. cbn. split_and!; [done|done|done|done|by rewrite take_drop|..].
  - rewrite wrapping_mul_small; [unfold PLACEHOLDER_TX_GAS; lia|].
    pose proof (N.Div0.mul_div_le (poa_gas_limit (poa_config self)) PLACEHOLDER_TX_GAS) as Hd'.
    unfold len, PLACEHOLDER_TX_GAS in *. rewrite length_take. lia.
  - pose proof (N.Div0.mul_div_le (poa_gas_limit (poa_config self)) PLACEHOLDER_TX_GAS) as Hd'.
    assert (len (take (N.to_nat (N.min (len (poa_pending_txs self)) (poa_gas_limit (poa_config self) / PLACEHOLDER_TX_GAS)))
      (poa_pending_txs self)) * PLACEHOLDER_TX_GAS <= poa_gas_limit (poa_config self)) as Hle.
    { unfold len, PLACEHOLDER_TX_GAS in *. rewrite length_take. lia. }
    rewrite wrapping_mul_small by lia. exact Hle.
Qed.

(** Seals: the seal that a signed production returns verifies against an authority list
    exactly if the signer's address is the authority of the block's height. *)
Theorem poa_seal_verifies `{!K256Laws H1} (self : PoaEngine) sk self' hash n blk sig auths :
  signer_sk (poa_config self) = Some sk -> auths <> [] ->
  produce_block_signed self = (self', Ok (hash, n, blk, Some sig)) ->
  hash = block_hash blk /\ n = number (header blk) /\
  verify_poa_seal hash sig auths n =
    Ok (bool_decide (authority_at auths n = Some (secp.address (ec_verifying_key sk)))).
Proof.
  intros Hsk Hne Hp. unfold produce_block_signed, poa_produce_block in Hp.
  destruct (checked_add _ _ _) as [m|]; [|done]. set (b0 := mkBlock _ _) in Hp.
  assert (number (header b0) = m) as Hm by done. clearbody b0. cbn [mbind res_bind poa_config] in Hp. rewrite Hsk in Hp.
  destruct (secp.sign sk (block_hash b0)) as [s|e|] eqn:Hs; cbn in Hp; [|done..]. injection Hp as _ <- <- <- <-.
  split_and!; [done..|]. destruct auths as [|x l]; [done|]. unfold verify_poa_seal.
  destruct (sign_recover _ _ _ Hs) as (Hrec & _). rewrite Hrec. cbn [mbind res_bind].
  destruct (authority_in (x :: l) m Hne) as [a Ha]. rewrite Ha. cbn. f_equal.
  apply bool_decide_ext. split; congruence.
Qed.
End poa.
