(* ===== verification/EngineFacts.v ===== *)
(** * EngineFacts: the invariant of the engine and the drain of early votes

    [engine_inv] ties the active coordinator to the head, the seed, the
    validator set and the captured proposal; every method preserves it and none
    panics.  [drain_pending_votes] always returns. *)
From stdpp Require Import base tactics gmap numbers strings list.
From Stdlib Require Import NArith Lia.
From S2P Require Import Prelude Bytes Crypto Bft BftFacts Coordinator CoordinatorFacts Slashing.
From S2P Require Import Codec Tx Trie Block Engine.

(** ** The cache of committed blocks *)
Section cache.
Context {A : Type}.
Implicit Types (m : gmap N A) (k : N).

Lemma fold_min_spec (l : list N) k :
  foldr (fun k acc => Some (match acc with None => k | Some a => N.min k a end)) None l = Some k ->
  k ∈ l /\ forall j, j ∈ l -> k <= j.
Proof.
  revert k. induction l as [|x l IH]; intros k; cbn; [done|].
  destruct (foldr _ None l) as [a|] eqn:E; intros [=<-].
  - destruct (IH a eq_refl) as [Hin Hmin]. split.
    + destruct (N.min_spec x a) as [[_ ->]|[_ ->]]; set_solver.
    + intros j [->|Hj]%elem_of_cons; [lia|]. specialize (Hmin j Hj). lia.
  - destruct l as [|y l]; [|cbn in E; by destruct (foldr _ None l)].
    split; [set_solver|]. intros j Hj. set_solver by lia.
Qed.

Lemma oldest_spec m k :
  oldest m = Some k -> is_Some (m !! k) /\ forall j x, m !! j = Some x -> k <= j.
Proof.
  intros [Hin Hmin]%fold_min_spec. split.
  - apply list_elem_of_fmap in Hin as ([j x] & -> & Hx). apply elem_of_map_to_list in Hx. eauto.
  - intros j x Hj. apply Hmin, list_elem_of_fmap. exists (j, x). split; [done|].
    by apply elem_of_map_to_list.
Qed.

Lemma oldest_is_Some m : m <> ∅ -> is_Some (oldest m).
Proof.
  intros Hm. unfold oldest. destruct (map_to_list m) as [|[k x] l] eqn:E.
  - by apply map_to_list_empty_iff in E.
  - cbn. eauto.
Qed.

Lemma size_delete_lookup m k : is_Some (m !! k) -> base.size m = S (base.size (delete k m)).
Proof.
  intros [x Hx]. rewrite <-(insert_delete_id m k x Hx) at 1.
  by rewrite map_size_insert_None by by rewrite lookup_delete_eq.
Qed.

Lemma evict_size fuel m :
  (base.size m <= RECENT_BLOCKS_CAP + fuel)%nat -> (base.size (evict fuel m) <= RECENT_BLOCKS_CAP)%nat.
Proof.
  revert m. induction fuel as [|fuel IH]; intros m Hle; cbn [evict];
    destruct (Nat.ltb_spec RECENT_BLOCKS_CAP (base.size m)); try lia.
  destruct (oldest m) as [k|] eqn:E.
  - apply IH. destruct (oldest_spec m k E) as [Hk _]. pose proof (size_delete_lookup m k Hk). lia.
  - destruct (oldest_is_Some m) as [k Hk]; [|congruence].
    intros ->. rewrite map_size_empty in *. lia.
Qed.

Lemma evict_subseteq fuel m : evict fuel m ⊆ m.
Proof.
  revert m. induction fuel as [|fuel IH]; intros m; cbn [evict]; destruct (_ <? _)%nat; try done.
  destruct (oldest m) as [k|]; [|done]. etransitivity; [apply IH|apply delete_subseteq].
Qed.

(** The highest key is never evicted. *)
Lemma evict_keeps_max fuel m k x :
  m !! k = Some x -> (forall j y, m !! j = Some y -> j <= k) -> evict fuel m !! k = Some x.
Proof.
  revert m. induction fuel as [|fuel IH]; intros m Hk Hmax; cbn [evict];
    destruct (Nat.ltb_spec RECENT_BLOCKS_CAP (base.size m)) as [Hlt|]; try done.
  destruct (oldest m) as [o|] eqn:E; [|done]. destruct (oldest_spec m o E) as [Ho Hmin].
  apply IH.
  - rewrite lookup_delete_ne; [done|]. intros ->.
    assert (m = {[k := x]}) as ->.
    { apply map_eq. intros j. destruct (decide (j = k)) as [->|Hne].
      - by rewrite lookup_singleton_eq.
      - rewrite lookup_singleton_ne by done. destruct (m !! j) as [y|] eqn:Hj; [|done].
        specialize (Hmax j y Hj). specialize (Hmin j y Hj). lia. }
    rewrite map_size_singleton in Hlt. unfold RECENT_BLOCKS_CAP in Hlt. lia.
  - intros j y [_ Hj]%lookup_delete_Some. by eapply Hmax.
Qed.

(** Only entries below every survivor are dropped. *)
Lemma evict_drops_oldest fuel m k x j y :
  m !! k = Some x -> evict fuel m !! k = None -> evict fuel m !! j = Some y -> k < j.
Proof.
  revert m. induction fuel as [|fuel IH]; intros m Hk Hn Hj; cbn [evict] in *;
    destruct (_ <? _)%nat; try congruence.
  destruct (oldest m) as [o|] eqn:E; [|congruence]. destruct (oldest_spec m o E) as [_ Hmin].
  destruct (decide (k = o)) as [->|Hne].
  - pose proof (lookup_weaken _ _ _ _ Hj (evict_subseteq _ _)) as Hj'.
    apply lookup_delete_Some in Hj' as [Hne Hj']. specialize (Hmin j y Hj'). lia.
  - apply (IH (delete o m)); [|done..]. by rewrite lookup_delete_ne.
Qed.
End cache.

(** ** The drain terminates *)
Section drain.
Context `{P : Primitives} `{R : Rlp}.
Implicit Types (g : BftEngineState) (c : RoundCoordinator).

(** A pass either applies a vote, which then leaves the buffer, or keeps the flag. *)
Lemma apply_votes_length {k} submit c (votes l : list (vote k)) a c' l' a' :
  apply_votes submit c votes l a = Ok (c', l', a') ->
  (length l' <= length l + length votes)%nat /\
  (a = false -> a' = true -> length l' < length l + length votes)%nat.
Proof.
  revert c l a. induction votes as [|v votes IH]; intros c l a; cbn [apply_votes length].
  - intros [= <- <- <-]. split; [lia|congruence].
  - destruct (submit c v) as [c1 [u|e|]]; [| |done].
    + intros [Hle _]%IH. split; lia.
    + intros [Hle Hlt]%IH. destruct (retryable e); rewrite ?length_app in *; cbn in *;
        (split; [lia|intros Ha Ha'; specialize (Hlt Ha Ha'); lia]).
Qed.

(** A pass that applied nothing leaves the flag. *)
Lemma apply_votes_flag {k} submit c (votes l : list (vote k)) c' l' a' :
  apply_votes submit c votes l true = Ok (c', l', a') -> a' = true.
Proof.
  revert c l. induction votes as [|v votes IH]; intros c l; cbn [apply_votes].
  - by intros [= <- <- <-].
  - destruct (submit c v) as [c1 [u|e|]]; [| |done]; apply IH.
Qed.

Definition buffered g : nat := length (pending_prevotes g) + length (pending_precommits g).

Lemma drain_turn_decreases g c g' :
  drain_turn g c = Ok (g', true) -> (buffered g' < buffered g)%nat.
Proof.
  unfold drain_turn. intros H.
  apply bind_Ok in H as ([[c1 l1] a1] & H1 & H). apply bind_Ok in H as ([[c2 l2] a2] & H2 & [= <- ->]).
  destruct (apply_votes_length _ _ _ _ _ _ _ _ H1) as [Hle1 Hlt1].
  destruct (apply_votes_length _ _ _ _ _ _ _ _ H2) as [Hle2 Hlt2].
  unfold buffered, PrevoteVote, PrecommitVote in *. cbn in *.
  destruct a1; [specialize (Hlt1 eq_refl eq_refl)|specialize (Hlt2 eq_refl eq_refl)]; lia.
Qed.

Lemma retain_buffered g : (buffered (retain_votes g) <= buffered g)%nat.
Proof.
  unfold buffered, retain_votes. cbn. unfold live_votes.
  pose proof (length_filter (fun v : PrevoteVote => head_number g < vote_height v) (pending_prevotes g)).
  pose proof (length_filter (fun v : PrecommitVote => head_number g < vote_height v) (pending_precommits g)).
  unfold PrevoteVote, PrecommitVote in *. lia.
Qed.

Lemma drain_loop_fuel fuel g : (buffered g < fuel)%nat -> drain_loop fuel g <> Err OutOfFuel.
Proof.
  revert g. induction fuel as [|fuel IH]; intros g Hlt; [lia|]. cbn [drain_loop].
  pose proof (retain_buffered g) as Hret.
  destruct (coordinator (retain_votes g)) as [c|]; [|done].
  destruct (drain_turn (retain_votes g) c) as [[g' []]|[]|] eqn:E; cbn; try done.
  - apply IH. pose proof (drain_turn_decreases _ _ _ E). lia.
  - exfalso. clear -E. unfold drain_turn in E.
    assert (Hne : forall k sub c (vs l : list (vote k)) a, apply_votes sub c vs l a <> Err OutOfFuel).
    { intros k sub c0 vs. revert c0. induction vs as [|v vs IH]; intros; cbn; [done|].
      destruct (sub c0 v) as [? [|?|]]; done || apply IH. }
    apply bind_Err in E as [E|([[c1 l1] a1] & _ & E)]; [by eapply Hne|].
    apply bind_Err in E as [E|([[c2 l2] a2] & _ & E)]; [by eapply Hne|done].
Qed.

Lemma drain_returns g : drain_pending_votes g <> Err OutOfFuel.
Proof. apply drain_loop_fuel. unfold buffered. lia. Qed.

(** ** What a drain leaves alone *)

Definition only_votes g g' : Prop :=
  g' = with_votes (with_round g (coordinator g') (proposal g)) (pending_prevotes g')
         (pending_precommits g').

Lemma only_votes_refl g : only_votes g g.
Proof. by destruct g. Qed.

Lemma only_votes_trans g1 g2 g3 : only_votes g1 g2 -> only_votes g2 g3 -> only_votes g1 g3.
Proof. unfold only_votes. intros H1 H2. rewrite H2, H1. by destruct g1. Qed.

(** A pass preserves what every submission preserves. *)
Lemma apply_votes_inv {k} (Q : RoundCoordinator -> Prop) submit c (votes l : list (vote k)) a :
  (forall c v, Q c -> Q (submit c v).1 /\ (submit c v).2 <> Panic) -> Q c ->
  exists c' l' a', apply_votes submit c votes l a = Ok (c', l', a') /\ Q c'.
Proof.
  intros Hsub. revert c l a. induction votes as [|v votes IH]; intros c l a Hc; cbn [apply_votes]; [eauto|].
  destruct (Hsub c v Hc) as [Hc1 Hnp]. destruct (submit c v) as [c1 [u|e|]]; cbn in *; by eauto.
Qed.

Section preserved.
Variable Q : RoundCoordinator -> Prop.
Hypothesis Hpv : forall c v, Q c -> Q (submit_prevote c v).1 /\ (submit_prevote c v).2 <> Panic.
Hypothesis Hpc : forall c v, Q c -> Q (submit_precommit c v).1 /\ (submit_precommit c v).2 <> Panic.

Lemma drain_turn_inv g c :
  Q c -> exists g' a, drain_turn g c = Ok (g', a) /\ only_votes g g' /\
    (forall c, coordinator g' = Some c -> Q c) /\ is_Some (coordinator g').
Proof.
  intros Hc. unfold drain_turn.
  destruct (apply_votes_inv Q submit_prevote c (pending_prevotes g) [] false)
    as (c1 & l1 & a1 & -> & H1); [done..|]. cbn [mbind res_bind].
  destruct (apply_votes_inv Q submit_precommit c1 (pending_precommits g) [] a1)
    as (c2 & l2 & a2 & -> & H2); [done..|]. cbn.
  eexists _, _. split_and!; [done|by destruct g| |by eexists]. cbn. congruence.
Qed.

Lemma drain_loop_inv fuel g :
  (forall c, coordinator g = Some c -> Q c) -> (buffered g < fuel)%nat ->
  exists g', drain_loop fuel g = Ok g' /\ only_votes g g' /\
    (forall c, coordinator g' = Some c -> Q c) /\
    (is_Some (coordinator g) -> is_Some (coordinator g')).
Proof.
  revert g. induction fuel as [|fuel IH]; intros g Hg Hlt; [lia|]. cbn [drain_loop].
  pose proof (retain_buffered g) as Hret.
  destruct (coordinator (retain_votes g)) as [c|] eqn:Ec.
  2:{ exists (retain_votes g). split_and!; [done|by destruct g|congruence|done]. }
  destruct (drain_turn_inv (retain_votes g) c) as (g' & a & E & Hov & HP & Hsome); [by apply Hg|].
  assert (only_votes g g') as Hov'.
  { eapply only_votes_trans; [|exact Hov]. by destruct g. }
  rewrite E. cbn [mbind res_bind]. destruct a; [|by exists g'].
  pose proof (drain_turn_decreases _ _ _ E).
  destruct (IH g' HP) as (g2 & -> & Hov2 & HP2 & Hs2); [lia|]. exists g2.
  split_and!; [done|by eapply only_votes_trans|done|auto].
Qed.
End preserved.
End drain.

(** ** The invariant *)
Section invariant.
Context `{HL : PrimitiveLaws} `{R : Rlp}.
Implicit Types (g : BftEngineState) (c : RoundCoordinator).

(** The proof is the round leader's. *)
Definition proof_ok c (pf : LeaderProof) : Prop :=
  exists leader, validators (vs c) !! leader_index c = Some leader /\
    LeaderProof_verify pf (v_vrf_pubkey leader) (height c) (round c) (seed c) = Ok tt.

Record coord_ok g c : Prop := {
  co_inv : coord_inv c;
  co_height : height c = next_height g;
  co_seed : seed c = st_seed g;
  co_vs : vs c = validator_set g;
  co_proposal : forall b, proposed_block c = Some b ->
    exists blk pf, proposal g = Some (blk, pf) /\ block_hash blk = b /\ proof_ok c pf
}.

Record engine_inv g : Prop := {
  ei_vs : vs_wf (validator_set g);
  ei_index : my_index g < size (validator_set g);
  ei_coord : forall c, coordinator g = Some c -> coord_ok g c;
  ei_cache : (base.size (recent_blocks g) <= RECENT_BLOCKS_CAP)%nat
}.

(** A vote leaves the round and the proposed block. *)
Lemma submit_prevote_const c v :
  round (submit_prevote c v).1 = round c /\ proposed_block (submit_prevote c v).1 = proposed_block c.
Proof. unfold submit_prevote. repeat case_match; done. Qed.

Lemma submit_precommit_const c v :
  round (submit_precommit c v).1 = round c /\
  proposed_block (submit_precommit c v).1 = proposed_block c.
Proof. unfold submit_precommit. repeat case_match; done. Qed.

Lemma coord_ok_same g c c' :
  coord_ok g c -> coord_inv c' -> height c' = height c -> vs c' = vs c -> seed c' = seed c ->
  round c' = round c -> proposed_block c' = proposed_block c -> coord_ok g c'.
Proof.
  intros [Hi Hh Hs Hv Hp] Hi' Hh' Hv' Hs' Hr' Hb'. split; try congruence.
  intros b Hb. rewrite Hb' in Hb. destruct (Hp b Hb) as (blk & pf & ? & ? & Hpf).
  exists blk, pf. split_and!; [done..|].
  unfold proof_ok, leader_index in *. by rewrite Hh', Hv', Hs', Hr'.
Qed.

Lemma coord_ok_prevote g c v :
  coord_ok g c -> coord_ok g (submit_prevote c v).1 /\ (submit_prevote c v).2 <> Panic.
Proof.
  intros Hc. destruct (submit_prevote_inv c v (co_inv _ _ Hc)) as [Hi Hnp]. split; [|done].
  destruct (handle_const c (EPrevote v)) as (? & ? & ?), (submit_prevote_const c v).
  by eapply coord_ok_same.
Qed.

Lemma coord_ok_precommit g c v :
  coord_ok g c -> coord_ok g (submit_precommit c v).1 /\ (submit_precommit c v).2 <> Panic.
Proof.
  intros Hc. destruct (submit_precommit_inv c v (co_inv _ _ Hc)) as [Hi Hnp]. split; [|done].
  destruct (handle_const c (EPrecommit v)) as (? & ? & ?), (submit_precommit_const c v).
  by eapply coord_ok_same.
Qed.

(** Only the head, the seed, the set and the proposal matter. *)
Lemma coord_ok_frame g g' c :
  coord_ok g c -> head_number g' = head_number g -> st_seed g' = st_seed g ->
  validator_set g' = validator_set g -> proposal g' = proposal g -> coord_ok g' c.
Proof.
  intros [] Hn Hs Hv Hp. split; rewrite ?Hp; unfold next_height in *; rewrite ?Hn, ?Hs, ?Hv; done.
Qed.

Lemma coord_ok_new g : vs_wf (validator_set g) -> coord_ok g (new_coordinator g).
Proof. intros Hwf. split; done || by apply coord_inv_new. Qed.

Lemma coord_ok_timeout g c p :
  coord_ok g c -> phase c <> Committed -> coord_ok (with_round g (Some (fire_timeout c)) p) (fire_timeout c).
Proof.
  intros [Hi Hh Hs Hv Hp] Hph. pose proof (fire_timeout_inv c Hi) as Hi'. unfold fire_timeout in *.
  rewrite bool_decide_eq_false_2 in * by done. by split.
Qed.

Lemma submit_proposal_Ok c b pf u :
  coord_inv c -> (submit_proposal c b pf).2 = Ok u ->
  (submit_proposal c b pf).1 = with_proposal c b /\ proof_ok c pf /\ phase c = AwaitingProposal.
Proof.
  intros Hi. unfold submit_proposal.
  destruct (bool_decide_reflect (phase c = AwaitingProposal)) as [Hph|]; cbn; [|done].
  destruct (validators (vs c) !! leader_index c) as [leader|] eqn:El; cbn; [|done].
  destruct (LeaderProof_verify pf _ _ _ _) as [[]| |] eqn:Ev; cbn; [|done..].
  intros _. split_and!; try done. exists leader. done.
Qed.

Lemma submit_proposal_not_Ok c b pf :
  (forall u, (submit_proposal c b pf).2 <> Ok u) -> (submit_proposal c b pf).1 = c.
Proof. unfold submit_proposal. intros H. case_match; try done. cbn in H. by destruct (H tt). Qed.

(** The round after an accepted proposal. *)
Lemma coord_ok_proposal g c blk pf u :
  coord_ok g c -> (submit_proposal c (block_hash blk) pf).2 = Ok u ->
  coord_ok (with_round g (Some (submit_proposal c (block_hash blk) pf).1) (Some (blk, pf)))
    (submit_proposal c (block_hash blk) pf).1.
Proof.
  intros [Hi Hh Hs Hv Hp] Hok.
  pose proof (proj1 (submit_proposal_inv c (block_hash blk) pf Hi)) as Hi'.
  destruct (submit_proposal_Ok _ _ _ _ Hi Hok) as (Heq & Hpf & _). rewrite Heq in *.
  split; try done. cbn. intros b [= <-]. by exists blk, pf.
Qed.

Lemma ensure_spec g :
  engine_inv g -> exists c, coordinator (ensure_coordinator g) = Some c /\
    coord_ok (ensure_coordinator g) c /\
    ensure_coordinator g = with_round g (Some c) (proposal g).
Proof.
  intros Hg. unfold ensure_coordinator. destruct (coordinator g) as [c|] eqn:E.
  - exists c. split_and!; [done|by apply Hg|]. rewrite <-E. by destruct g.
  - exists (new_coordinator g). split_and!; [done| |done].
    apply (coord_ok_frame g); try done. apply coord_ok_new, Hg.
Qed.

Lemma engine_inv_round g c p :
  engine_inv g -> coord_ok (with_round g (Some c) p) c -> engine_inv (with_round g (Some c) p).
Proof. intros [] Hc. split; try done. cbn. intros ? [= <-]. done. Qed.

(** Fields that the invariant does not look at. *)
Lemma engine_inv_frame g g' :
  engine_inv g -> validator_set g' = validator_set g -> my_index g' = my_index g ->
  head_number g' = head_number g -> st_seed g' = st_seed g -> coordinator g' = coordinator g ->
  proposal g' = proposal g -> recent_blocks g' = recent_blocks g -> engine_inv g'.
Proof.
  intros [Hv Hi Hc Hr] H1 H2 H3 H4 H5 H6 H7. split; rewrite ?H1, ?H2, ?H7; try done.
  intros c E. rewrite H5 in E. by eapply coord_ok_frame; [apply Hc| | | |].
Qed.

Lemma drain_inv g :
  engine_inv g -> exists g', drain_pending_votes g = Ok g' /\ only_votes g g' /\ engine_inv g'.
Proof.
  intros Hg. destruct (drain_loop_inv (coord_ok g) (coord_ok_prevote g) (coord_ok_precommit g)
    (S (buffered g)) g) as (g' & Heq & Hov & HP & _); [apply Hg|lia|].
  exists g'. split_and!; [done..|]. rewrite Hov. destruct Hg as [H1 H2 H3 H4].
  split; try done. cbn. intros c Hc. by apply (coord_ok_frame g); [apply HP|..].
Qed.

Lemma then_drain_inv self g :
  engine_inv g -> engine_inv (state (then_drain self g).1) /\ (then_drain self g).2 = Ok tt /\
    only_votes g (state (then_drain self g).1) /\
    config (then_drain self g).1 = config self /\
    pending_txs (then_drain self g).1 = pending_txs self.
Proof.
  intros Hg. unfold then_drain. by destruct (drain_inv g Hg) as (g' & -> & Hov & Hi).
Qed.
End invariant.

(** ** The engine as a state machine *)
Section machine.
Context `{HL : PrimitiveLaws} `{R : Rlp}.
Implicit Types (self : BftEngine) (g : BftEngineState).

Inductive engine_op :=
| OpCastProposal
| OpCastPrevote
| OpCastPrecommit
| OpRemoteProposal (blk : Block) (pf : LeaderProof)
| OpRemotePrevote (v : PrevoteVote)
| OpRemotePrecommit (v : PrecommitVote)
| OpTimeout
| OpHarvest
| OpAdopt (blk : Block) (cert : PrecommitCertificate)
| OpFastForward (r : N)
| OpRotate (vset : ValidatorSet) (i : N)
| OpAdvance
| OpStep
| OpTxs (txs : list Tx)
| OpDrainEvidence
| OpInit (genesis : Block).

Definition void {A E} (r : res E A) : res E unit := (fun _ => tt) <$> r.

Definition engine_apply self (op : engine_op) : BftEngine * res BftError unit :=
  match op with
  | OpCastProposal => let '(s, r) := cast_proposal self in (s, void r)
  | OpCastPrevote => let '(s, r) := cast_prevote self in (s, void r)
  | OpCastPrecommit => let '(s, r) := cast_precommit self in (s, void r)
  | OpRemoteProposal blk pf => submit_remote_proposal self blk pf
  | OpRemotePrevote v => submit_remote_prevote self v
  | OpRemotePrecommit v => submit_remote_precommit self v
  | OpTimeout => tick_timeout self
  | OpHarvest => ((try_harvest_committed self).1, Ok tt)
  | OpAdopt blk cert => let '(s, r) := adopt_synced_block self blk cert in (s, void r)
  | OpFastForward r => fast_forward_to_round self r
  | OpRotate vset i => rotate_validator_set self vset i
  | OpAdvance => let '(s, r) := advance_single self in (s, void r)
  | OpStep => let '(s, r) := Engine_step self in (s, map_err (fun _ => NoActiveCoordinator) (void r))
  | OpTxs txs => (extend_pending_txs self txs, Ok tt)
  | OpDrainEvidence => ((drain_evidence self).1, Ok tt)
  | OpInit genesis =>
      let '(s, r) := Engine_init self genesis in (s, map_err (fun _ => NoActiveCoordinator) (void r))
  end.

(** When the host may call: a rotation to a set that [ValidatorSet::new] made;
    no timeout of a round that is committed but not harvested; the
    single-validator drive and [init] only between rounds. *)
Definition op_ok g (op : engine_op) : Prop :=
  match op with
  | OpRotate vset _ => vs_wf vset
  | OpTimeout => is_committed g = false
  | OpAdvance => coordinator g = None
  | OpStep => size (validator_set g) = 1 -> coordinator g = None
  | OpInit _ => coordinator g = None
  | _ => True
  end.

Definition cfg_ok (c : BftConfig) : Prop :=
  vs_wf (cfg_validator_set c) /\ cfg_my_index c < size (cfg_validator_set c).

Inductive engine_reachable (cfg : BftConfig) : BftEngine -> Prop :=
| er_new genesis : engine_reachable cfg (BftEngine_new cfg genesis)
| er_recovered head : engine_reachable cfg (from_recovered cfg head)
| er_step self op : engine_reachable cfg self -> op_ok (state self) op ->
    engine_reachable cfg (engine_apply self op).1.

(** ** Every method preserves the invariant and returns *)

Lemma cache_size m b cert :
  (base.size m <= RECENT_BLOCKS_CAP)%nat ->
  (base.size (cache_recent_block m b cert) <= RECENT_BLOCKS_CAP)%nat.
Proof. intros _. unfold cache_recent_block. apply evict_size. lia. Qed.

Lemma initial_inv c head s : cfg_ok c -> engine_inv (initial_state c head s).
Proof.
  intros [Hv Hi]. split; [done..|]. cbn. rewrite map_size_empty. unfold RECENT_BLOCKS_CAP. lia.
Qed.

Lemma install_head_inv g b s cert : engine_inv g -> engine_inv (install_head g b s cert).
Proof. intros [Hv Hi Hc Hr]. split; try done. cbn. by apply cache_size. Qed.

Lemma cast_proposal_inv self :
  engine_inv (state self) ->
  engine_inv (state (cast_proposal self).1) /\ (cast_proposal self).2 <> Panic.
Proof.
  intros Hg. unfold cast_proposal.
  destruct (ensure_spec (state self) Hg) as (c & Hc & Hok & Heq). rewrite Hc.
  assert (Hens : engine_inv (ensure_coordinator (state self))).
  { rewrite Heq in *. by apply engine_inv_round. }
  destruct (negb _); [by split|].
  set (pf := LeaderProof_produce _ _ _ _). destruct (drain_pending_txs_into_body _) as [b s].
  set (blk := build_block_with_body _ _ _ _ _ _ _).
  pose proof (submit_proposal_inv c (block_hash blk) pf (co_inv _ _ Hok)) as [_ Hnp].
  pose proof (coord_ok_proposal _ c blk pf tt Hok) as Hprop.
  pose proof (submit_proposal_not_Ok c (block_hash blk) pf) as Hsame.
  destruct (submit_proposal c (block_hash blk) pf) as [c1 [[]|e|]]; cbn in *; [|split..]; try done.
  - split; [|done]. apply engine_inv_round; [done|]. by apply Hprop.
  - rewrite Hsame by done. rewrite Heq in *. by apply engine_inv_round.
Qed.

Lemma cast_prevote_inv self :
  engine_inv (state self) ->
  engine_inv (state (cast_prevote self).1) /\ (cast_prevote self).2 <> Panic.
Proof.
  intros Hg. unfold cast_prevote. destruct (coordinator (state self)) as [c|] eqn:Ec; [|done].
  destruct (proposed_block c) as [bh|]; [|done].
  set (v := PrevoteVote_sign _ _ _ _ _).
  destruct (coord_ok_prevote _ c v (ei_coord _ Hg _ Ec)) as [Hok Hnp].
  destruct (submit_prevote c v) as [c1 r]. cbn in *. split; [|by destruct r].
  apply engine_inv_round; [done|]. by eapply coord_ok_frame.
Qed.

Lemma precommitting_block c : coord_inv c -> phase c = Precommitting -> is_Some (proposed_block c).
Proof.
  intros Hi Hph. pose proof (ci_phase c Hi) as Hp. unfold phase_inv in Hp. rewrite Hph in Hp.
  destruct Hp as (b & ? & ? & -> & _). eauto.
Qed.

Lemma cast_precommit_inv self :
  engine_inv (state self) ->
  engine_inv (state (cast_precommit self).1) /\ (cast_precommit self).2 <> Panic.
Proof.
  intros Hg. unfold cast_precommit. destruct (coordinator (state self)) as [c|] eqn:Ec; [|done].
  destruct (bool_decide_reflect (phase c = Precommitting)) as [Hph|]; [|done]. cbn [negb].
  destruct (precommitting_block c (co_inv _ _ (ei_coord _ Hg _ Ec)) Hph) as [bh ->].
  set (v := PrecommitVote_sign _ _ _ _ _).
  destruct (coord_ok_precommit _ c v (ei_coord _ Hg _ Ec)) as [Hok Hnp].
  destruct (submit_precommit c v) as [c1 r]. cbn in *. split; [|by destruct r].
  apply engine_inv_round; [done|]. by eapply coord_ok_frame.
Qed.

Lemma remote_proposal_inv self blk pf :
  engine_inv (state self) ->
  engine_inv (state (submit_remote_proposal self blk pf).1) /\
  (submit_remote_proposal self blk pf).2 <> Panic.
Proof.
  intros Hg. unfold submit_remote_proposal.
  destruct (ensure_spec (state self) Hg) as (c & Hc & Hok & Heq). rewrite Hc.
  assert (Hens : engine_inv (ensure_coordinator (state self))).
  { rewrite Heq in *. by apply engine_inv_round. }
  pose proof (submit_proposal_inv c (block_hash blk) pf (co_inv _ _ Hok)) as [_ Hnp].
  pose proof (coord_ok_proposal _ c blk pf tt Hok) as Hprop.
  pose proof (submit_proposal_not_Ok c (block_hash blk) pf) as Hsame.
  destruct (submit_proposal c (block_hash blk) pf) as [c1 [[]|e|]]; cbn in *; try done.
  - edestruct then_drain_inv as (Hi & -> & _); [|split; [exact Hi|done]].
    apply engine_inv_round; [done|]. by apply Hprop.
  - rewrite Hsame by done. rewrite Heq in *. split; [by apply engine_inv_round|done].
Qed.

Lemma remote_prevote_inv self v :
  engine_inv (state self) ->
  engine_inv (state (submit_remote_prevote self v).1) /\ (submit_remote_prevote self v).2 <> Panic.
Proof.
  intros Hg. unfold submit_remote_prevote. destruct (record_prevote _ _) as [d ev].
  set (g1 := with_detector _ _ _). assert (Hg1 : engine_inv g1) by by eapply engine_inv_frame.
  destruct (_ <=? _); [done|]. destruct (coordinator g1) as [c|] eqn:Ec.
  2:{ split; [|done]. by apply (engine_inv_frame g1). }
  destruct (coord_ok_prevote _ c v (ei_coord _ Hg1 _ Ec)) as [Hok Hnp].
  destruct (submit_prevote c v) as [c1 r]. cbn in Hok, Hnp.
  assert (Hg2 : engine_inv (with_round g1 (Some c1) (proposal g1))).
  { apply engine_inv_round; [done|]. by eapply coord_ok_frame. }
  destruct r as [u|e|]; [| |done].
  - by destruct (then_drain_inv self _ Hg2) as (Hi & -> & _).
  - destruct (retryable e); [|done]. split; [|done]. by apply (engine_inv_frame _ _ Hg2).
Qed.

Lemma remote_precommit_inv self v :
  engine_inv (state self) ->
  engine_inv (state (submit_remote_precommit self v).1) /\
  (submit_remote_precommit self v).2 <> Panic.
Proof.
  intros Hg. unfold submit_remote_precommit. destruct (record_precommit _ _) as [d ev].
  set (g1 := with_detector _ _ _). assert (Hg1 : engine_inv g1) by by eapply engine_inv_frame.
  destruct (_ <=? _); [done|]. destruct (coordinator g1) as [c|] eqn:Ec.
  2:{ split; [|done]. by apply (engine_inv_frame g1). }
  destruct (coord_ok_precommit _ c v (ei_coord _ Hg1 _ Ec)) as [Hok Hnp].
  destruct (submit_precommit c v) as [c1 r]. cbn in Hok, Hnp.
  assert (Hg2 : engine_inv (with_round g1 (Some c1) (proposal g1))).
  { apply engine_inv_round; [done|]. by eapply coord_ok_frame. }
  destruct r as [u|e|]; [| |done].
  - by destruct (then_drain_inv self _ Hg2) as (Hi & -> & _).
  - destruct (retryable e); [|done]. split; [|done]. by apply (engine_inv_frame _ _ Hg2).
Qed.

Lemma timeout_round_inv g c :
  engine_inv g -> is_committed g = false -> coordinator (ensure_coordinator g) = Some c ->
  engine_inv (with_round (ensure_coordinator g) (Some (fire_timeout c)) None).
Proof.
  intros Hg Hnc Hc. destruct (ensure_spec g Hg) as (c' & Hc' & Hok & Heq).
  assert (c' = c) as -> by congruence.
  assert (Hph : phase c <> Committed).
  { unfold ensure_coordinator in Hc. unfold is_committed in Hnc.
    destruct (coordinator g) as [c0|] eqn:E.
    - rewrite E in Hc. injection Hc as <-. by apply bool_decide_eq_false in Hnc.
    - injection Hc as <-. done. }
  apply engine_inv_round; [rewrite Heq in *; by apply engine_inv_round|].
  by apply coord_ok_timeout.
Qed.

Lemma tick_timeout_inv self :
  engine_inv (state self) -> is_committed (state self) = false ->
  engine_inv (state (tick_timeout self).1) /\ (tick_timeout self).2 <> Panic.
Proof.
  intros Hg Hnc. unfold tick_timeout.
  destruct (ensure_spec (state self) Hg) as (c & Hc & _ & _). rewrite Hc.
  edestruct (then_drain_inv self) as (Hi & -> & _); [|split; [exact Hi|done]].
  by apply timeout_round_inv.
Qed.

Lemma harvest_inv self :
  engine_inv (state self) -> engine_inv (state (try_harvest_committed self).1).
Proof.
  intros Hg. unfold try_harvest_committed. destruct (negb _); [done|].
  destruct (proposal (state self)) as [[b pf]|]; [|done].
  destruct (_ ≫= _); [|done].
  by apply install_head_inv.
Qed.

Lemma Certificate_verify_no_panic {k} (c : Certificate k) v : Certificate_verify c v <> Panic.
Proof.
  unfold Certificate_verify. intros H.
  apply bind_Panic in H as [H|(? & _ & H)]; [by destruct (_ && _)|].
  destruct (collect_signers _ _ _ _ _) as [pks st].
  apply bind_Panic in H as [H|(? & _ & H)]; [by destruct (_ <? _)|].
  unfold bls.fast_aggregate_verify in H. destruct pks; [done|]. by destruct (blst_fast_aggregate_verify _ _ _).
Qed.

Lemma adopt_inv self blk cert :
  engine_inv (state self) ->
  engine_inv (state (adopt_synced_block self blk cert).1) /\
  (adopt_synced_block self blk cert).2 <> Panic.
Proof.
  intros Hg. unfold adopt_synced_block.
  match goal with |- context [match ?r with Ok _ => _ | Err _ => _ | Panic => _ end] =>
    destruct r as [u|e|] eqn:E end; cbn.
  - split; [|done].
    apply (engine_inv_frame (install_head (state self) blk (mix_hash (header blk)) cert)); try done.
    by apply install_head_inv.
  - done.
  - exfalso. apply bind_Panic in E as [E|(? & _ & E)]; [by destruct (_ || _)|].
    apply bind_Panic in E as [E|(? & _ & E)]; [by destruct (_ || _)|].
    by apply Certificate_verify_no_panic in E.
Qed.

(** A coordinator that has only seen timeouts. *)
Lemma iter_timeout c r :
  coord_inv c -> phase c = AwaitingProposal -> round c = 0 ->
  let c' := N.iter r fire_timeout c in
  coord_inv c' /\ phase c' = AwaitingProposal /\ round c' = N.min r (u32_mod - 1) /\
  height c' = height c /\ vs c' = vs c /\ seed c' = seed c.
Proof.
  intros Hi Hph Hr. cbn zeta. induction r as [|r IH] using N.peano_ind.
  - cbn. split_and!; done || lia.
  - rewrite N.iter_succ. destruct IH as (Hi' & Hph' & Hr' & Hh & Hv & Hs).
    split; [by apply fire_timeout_inv|].
    set (c1 := N.iter r fire_timeout c) in *. clearbody c1. unfold fire_timeout.
    rewrite bool_decide_eq_false_2 by (rewrite Hph'; discriminate). cbn. unfold saturating_add.
    split_and!; try done. lia.
Qed.

Lemma fast_forward_inv self r :
  engine_inv (state self) ->
  engine_inv (state (fast_forward_to_round self r).1) /\ (fast_forward_to_round self r).2 <> Panic.
Proof.
  intros Hg. unfold fast_forward_to_round. destruct (match coordinator _ with Some _ => _ | None => _ end);
    [by split|]. split; [|done]. cbn.
  pose proof (coord_ok_new (state self) (ei_vs _ Hg)) as Hok.
  destruct (iter_timeout (new_coordinator (state self)) r (co_inv _ _ Hok) eq_refl eq_refl)
    as (Hi & Hph & _ & Hh & Hv & Hs).
  apply engine_inv_round; [done|]. split; try done.
  pose proof (ci_phase _ Hi) as Hp. unfold phase_inv in Hp. rewrite Hph in Hp.
  destruct Hp as [-> _]. done.
Qed.

Lemma rotate_inv self vset i :
  engine_inv (state self) -> vs_wf vset ->
  engine_inv (state (rotate_validator_set self vset i).1) /\
  (rotate_validator_set self vset i).2 <> Panic.
Proof.
  intros Hg Hwf. unfold rotate_validator_set. destruct (N.leb_spec (size vset) i); [done|].
  destruct (coordinator (state self)), (proposal (state self)); try done. split; [|done]. split; try done. apply Hg.
Qed.

Lemma solo_round_no_panic self b n pf :
  vs_wf (validator_set (state self)) -> solo_round self b n pf <> Panic.
Proof.
  intros Hwf. unfold solo_round.
  pose proof (coord_inv_new n (st_seed (state self)) _ Hwf) as H0.
  pose proof (submit_proposal_inv _ b pf H0) as [H1 N1].
  destruct (submit_proposal _ b pf) as [c1 [u1|e1|]]; cbn in *; [|done..].
  match goal with |- context [submit_prevote c1 ?v] =>
    pose proof (submit_prevote_inv c1 v H1) as [H2 N2]; destruct (submit_prevote c1 v) as [c2 [u2|e2|]] end;
    cbn in *; [|done..].
  match goal with |- context [submit_precommit c2 ?v] =>
    pose proof (submit_precommit_inv c2 v H2) as [H3 N3]; destruct (submit_precommit c2 v) as [c3 [u3|e3|]] end;
    cbn in *; done.
Qed.

Lemma advance_inv self :
  engine_inv (state self) -> coordinator (state self) = None ->
  engine_inv (state (advance_single self).1) /\ (advance_single self).2 <> Panic.
Proof.
  intros Hg Hnone. unfold advance_single. destruct (negb _); [done|].
  destruct (checked_add _ _ _) as [n|]; [|done].
  destruct (drain_pending_txs_into_body self) as [b s] eqn:Ed.
  assert (state s = state self) as Hs by (unfold drain_pending_txs_into_body in Ed; by simplify_eq).
  set (pf := LeaderProof_produce _ _ _ _). set (blk := build_block_with_body _ _ _ _ _ _ _).
  destruct (solo_round s (block_hash blk) n pf) as [c|e|] eqn:Es; cbn.
  - destruct (final_cert c) as [cert|]; cbn; [|by rewrite Hs]. split; [|done].
    destruct Hg. split; try done; cbn; [by rewrite Hnone|by apply cache_size].
  - by rewrite Hs.
  - by apply solo_round_no_panic in Es; [|rewrite Hs; apply Hg].
Qed.

Lemma void_no_panic {A E} (r : res E A) : r <> Panic -> void r <> Panic.
Proof. by destruct r. Qed.

Lemma step_inv self :
  engine_inv (state self) -> op_ok (state self) OpStep ->
  engine_inv (state (Engine_step self).1) /\ (Engine_step self).2 <> Panic.
Proof.
  intros Hg Hok. unfold Engine_step, is_single_validator in *. cbn in Hok.
  destruct (N.eqb_spec (size (validator_set (state self))) 1).
  - destruct (advance_inv self Hg (Hok e)) as [Hi Hnp].
    destruct (advance_single self) as [s [o|e'|]]; done.
  - destruct (negb _); [done|]. destruct (proposal (state self)) as [[b pf]|]; [|done].
    destruct (_ ≫= _); [|done]. split; [by apply install_head_inv|done].
Qed.

Lemma engine_apply_inv self op :
  engine_inv (state self) -> op_ok (state self) op ->
  engine_inv (state (engine_apply self op).1) /\ (engine_apply self op).2 <> Panic.
Proof.
  intros Hg Hok. destruct op; cbn [engine_apply].
  - destruct (cast_proposal_inv self Hg) as [? Hnp]. destruct (cast_proposal self).
    split; [done|by apply void_no_panic].
  - destruct (cast_prevote_inv self Hg) as [? Hnp]. destruct (cast_prevote self).
    split; [done|by apply void_no_panic].
  - destruct (cast_precommit_inv self Hg) as [? Hnp]. destruct (cast_precommit self).
    split; [done|by apply void_no_panic].
  - by apply remote_proposal_inv.
  - by apply remote_prevote_inv.
  - by apply remote_precommit_inv.
  - by apply tick_timeout_inv.
  - split; [by apply harvest_inv|done].
  - destruct (adopt_inv self blk cert Hg) as [? Hnp]. destruct (adopt_synced_block self blk cert).
    split; [done|by apply void_no_panic].
  - by apply fast_forward_inv.
  - by apply rotate_inv.
  - destruct (advance_inv self Hg Hok) as [? Hnp]. destruct (advance_single self).
    split; [done|by apply void_no_panic].
  - destruct (step_inv self Hg Hok) as [? Hnp]. destruct (Engine_step self) as [s [| |]]; done.
  - split; [|done]. unfold extend_pending_txs. by destruct txs.
  - split; [|done]. by apply (engine_inv_frame (state self)).
  - cbn in *. split; [|done]. destruct Hg. split; try done. cbn. by rewrite Hok.
Qed.

Lemma engine_reachable_inv cfg self :
  cfg_ok cfg -> engine_reachable cfg self -> engine_inv (state self).
Proof.
  intros Hcfg. induction 1; [by apply initial_inv..|]. by apply engine_apply_inv.
Qed.
End machine.
