(* ===== verification/EngineProps.v ===== *)
(** * EngineProps: the properties of the chain engine

    Panic freedom, termination and idempotence of the drain, what a commit and
    an adopted block install, the linkage of the chain of heads, the cache, the
    agreement of leader and follower, and single-validator progress. *)
From stdpp Require Import base tactics gmap numbers strings list.
From Stdlib Require Import NArith Lia.
From S2P Require Import Prelude Bytes Crypto Bft BftFacts Coordinator CoordinatorFacts Slashing.
From S2P Require Import Codec Tx Trie Block Engine EngineFacts Demo.

(** ** A refused vote leaves the coordinator as it was *)
Section drained.
Context `{P : Primitives} `{R : Rlp}.
Implicit Types (g : BftEngineState) (c : RoundCoordinator).

Lemma Tallier_submit_Err {k} (t : Tallier k) v e :
  (Tallier_submit t v).2 = Err e -> (Tallier_submit t v).1 = t.
Proof. unfold Tallier_submit. by destruct (check_vote t v). Qed.

Lemma submit_prevote_Err c v e : (submit_prevote c v).2 = Err e -> (submit_prevote c v).1 = c.
Proof.
  unfold submit_prevote. destruct (negb _); [done|].
  destruct (prevote_tally c) as [t|] eqn:Et; [|done].
  pose proof (Tallier_submit_Err t v) as Hs. unfold PrevoteTallier_submit.
  destruct (Tallier_submit t v) as [t' [[]|e'|]]; cbn in *; try done.
  - by repeat case_match.
  - intros _. rewrite (Hs e' eq_refl). unfold with_prevote_tally. rewrite <-Et. by destruct c.
Qed.

Lemma submit_precommit_Err c v e : (submit_precommit c v).2 = Err e -> (submit_precommit c v).1 = c.
Proof.
  unfold submit_precommit. destruct (negb _); [done|].
  destruct (precommit_tally c) as [t|] eqn:Et; [|done].
  pose proof (Tallier_submit_Err t v) as Hs. unfold PrecommitTallier_submit.
  destruct (Tallier_submit t v) as [t' [[]|e'|]]; cbn in *; try done.
  - by repeat case_match.
  - intros _. rewrite (Hs e' eq_refl). unfold with_precommit_tally. rewrite <-Et. by destruct c.
Qed.

(** A pass that applied nothing kept the coordinator and the votes that it may
    meet again; those are refused again. *)
Definition refused {k} (submit : RoundCoordinator -> vote k -> RoundCoordinator * res BftError unit)
    c (v : vote k) : Prop := exists e, submit c v = (c, Err e) /\ retryable e = true.

Lemma apply_votes_none {k} submit c (votes l : list (vote k)) c' l' :
  (forall c v e, (submit c v).2 = Err e -> (submit c v).1 = c) ->
  apply_votes submit c votes l false = Ok (c', l', false) -> Forall (refused submit c) l ->
  c' = c /\ Forall (refused submit c) l' /\ (forall v, v ∈ l' -> v ∈ l \/ v ∈ votes).
Proof.
  intros Hsub. revert l. induction votes as [|v votes IH]; intros l; cbn [apply_votes].
  - intros [= <- <-] Hl. auto.
  - pose proof (Hsub c v) as Hv. destruct (submit c v) as [c1 [u|e|]] eqn:E; [| |done]; cbn in Hv.
    + intros Ha%apply_votes_flag. done.
    + rewrite (Hv e eq_refl) in *. intros Ha Hl. destruct (retryable e) eqn:Er.
      * destruct (IH _ Ha) as (-> & Hl' & Hin); [|split_and!; try done; set_solver].
        apply Forall_app. split; [done|]. constructor; [|constructor]. by exists e.
      * destruct (IH _ Ha Hl) as (-> & Hl' & Hin). split_and!; try done. set_solver.
Qed.

Lemma apply_votes_refused {k} submit c (votes l : list (vote k)) a :
  Forall (refused submit c) votes -> apply_votes submit c votes l a = Ok (c, l ++ votes, a).
Proof.
  intros Hr. revert l. induction Hr as [|v votes (e & He & Hret) _ IH]; intros l; cbn [apply_votes].
  - by rewrite app_nil_r.
  - rewrite He, Hret, IH. by rewrite <-app_assoc.
Qed.

(** What a drain returns: no stale vote, and no vote that could be applied. *)
Definition drained g : Prop :=
  Forall (fun v => head_number g < vote_height v) (pending_prevotes g) /\
  Forall (fun v => head_number g < vote_height v) (pending_precommits g) /\
  forall c, coordinator g = Some c ->
    Forall (refused submit_prevote c) (pending_prevotes g) /\
    Forall (refused submit_precommit c) (pending_precommits g).

Lemma retain_live g :
  Forall (fun v => head_number g < vote_height v) (pending_prevotes (retain_votes g)) /\
  Forall (fun v => head_number g < vote_height v) (pending_precommits (retain_votes g)).
Proof.
  split; apply Forall_forall; intros v Hv; cbn in Hv; unfold live_votes in Hv;
    by apply list_elem_of_filter in Hv as [? _].
Qed.

Lemma drain_turn_drained g c g' :
  coordinator g = Some c ->
  Forall (fun v => head_number g < vote_height v) (pending_prevotes g) ->
  Forall (fun v => head_number g < vote_height v) (pending_precommits g) ->
  drain_turn g c = Ok (g', false) -> drained g'.
Proof.
  intros Hc Hpv Hpc. unfold drain_turn. intros H.
  apply bind_Ok in H as ([[c1 l1] a1] & H1 & H). apply bind_Ok in H as ([[c2 l2] a2] & H2 & [= <- ->]).
  assert (a1 = false) as -> by (destruct a1; [by apply apply_votes_flag in H2|done]).
  destruct (apply_votes_none _ _ _ _ _ _ submit_prevote_Err H1) as (-> & Hl1 & Hin1); [done|].
  destruct (apply_votes_none _ _ _ _ _ _ submit_precommit_Err H2) as (-> & Hl2 & Hin2); [done|].
  pose proof (proj1 (Forall_forall _ _) Hpv) as Hpv'. pose proof (proj1 (Forall_forall _ _) Hpc) as Hpc'.
  split_and!; cbn.
  - apply Forall_forall. intros v Hv. apply Hpv'. destruct (Hin1 v Hv); [set_solver|done].
  - apply Forall_forall. intros v Hv. apply Hpc'. destruct (Hin2 v Hv); [set_solver|done].
  - intros c' [= <-]. done.
Qed.

Lemma drain_loop_drained fuel g g' : drain_loop fuel g = Ok g' -> drained g'.
Proof.
  revert g. induction fuel as [|fuel IH]; intros g; cbn [drain_loop]; [done|].
  destruct (retain_live g) as [Hpv Hpc].
  destruct (coordinator (retain_votes g)) as [c|] eqn:Ec.
  - intros ([g1 a] & Ht & H)%bind_Ok. destruct a; [by apply IH in H|]. injection H as <-.
    by eapply (drain_turn_drained (retain_votes g)).
  - intros [= <-]. split_and!; try done. congruence.
Qed.

Lemma retain_drained g : drained g -> retain_votes g = g.
Proof.
  intros (Hpv & Hpc & _). unfold retain_votes, live_votes.
  rewrite !filter_all by done. by destruct g.
Qed.

Lemma drain_drained g : drained g -> drain_pending_votes g = Ok g.
Proof.
  intros Hd. unfold drain_pending_votes. cbn [drain_loop]. rewrite (retain_drained g Hd).
  destruct (coordinator g) as [c|] eqn:Ec; [|done]. destruct Hd as (_ & _ & Hc).
  destruct (Hc c Ec) as [H1 H2]. unfold drain_turn.
  rewrite (apply_votes_refused _ _ _ _ _ H1). cbn [mbind res_bind].
  rewrite (apply_votes_refused _ _ _ _ _ H2). cbn. rewrite <-Ec. by destruct g.
Qed.
End drained.

(** ** What a commit installs *)
Section commit.
Context `{HL : PrimitiveLaws} `{R : Rlp}.
Implicit Types (self : BftEngine) (g : BftEngineState) (c : RoundCoordinator).

(** A certificate for [blk], for the height after [g], under the set of [g]. *)
Record finality g (blk : Block) (n : N) (cert : PrecommitCertificate) : Prop := {
  fin_block : c_block_hash cert = block_hash blk;
  fin_height : c_height cert = n;
  fin_verify :
    blst_pks_cancel (keys_of (validator_set g) (signers (validator_set g) (signer_bitmap cert))) = false ->
    PrecommitCertificate_verify cert (validator_set g) = Ok tt
}.

Lemma final_cert_facts c cert :
  coord_inv c -> final_cert c = Some cert ->
  exists b, proposed_block c = Some b /\ cert_of c b (round c) cert.
Proof.
  intros Hi Hf. pose proof (ci_phase c Hi) as Hp. unfold phase_inv in Hp.
  destruct (phase c); naive_solver.
Qed.

Lemma committed_final c : coord_inv c -> phase c = Committed -> is_Some (final_cert c).
Proof.
  intros Hi Hph. pose proof (ci_phase c Hi) as Hp. unfold phase_inv in Hp. rewrite Hph in Hp.
  destruct Hp as (b & p & cert & _ & _ & _ & -> & _). eauto.
Qed.

Lemma finality_of g c cert blk :
  coord_inv c -> vs c = validator_set g -> final_cert c = Some cert ->
  proposed_block c = Some (block_hash blk) -> finality g blk (height c) cert.
Proof.
  intros Hi Hv Hf Hb. destruct (final_cert_facts c cert Hi Hf) as (b & Hb' & Hc).
  simplify_eq. pose proof Hc as (H1 & H2 & _). split; [congruence|done|].
  intros Hcancel. apply Certificate_verify_Ok; [rewrite <-Hv; apply Hi|].
  rewrite <-Hv in *. by eapply cert_of_certifies.
Qed.

Lemma harvest_spec self :
  engine_inv (state self) -> is_committed (state self) = true ->
  exists c blk pf cert,
    coordinator (state self) = Some c /\ proposal (state self) = Some (blk, pf) /\
    final_cert c = Some cert /\ proof_ok c pf /\
    finality (state self) blk (next_height (state self)) cert /\
    try_harvest_committed self =
      (with_state self (install_head (state self) blk (vrf_output pf) cert), Some blk).
Proof.
  intros Hg Hcom. unfold is_committed in Hcom.
  destruct (coordinator (state self)) as [c|] eqn:Ec; [|done]. apply bool_decide_eq_true in Hcom.
  destruct (ei_coord _ Hg c Ec) as [Hi Hh Hs Hv Hp].
  destruct (committed_final c Hi Hcom) as [cert Hcert].
  destruct (final_cert_facts c cert Hi Hcert) as (b & Hb & _).
  destruct (Hp b Hb) as (blk & pf & Hprop & Hblk & Hpf). exists c, blk, pf, cert.
  split_and!; try done.
  - rewrite <-Hh. apply finality_of; try done. congruence.
  - unfold try_harvest_committed, is_committed. rewrite Ec, bool_decide_eq_true_2 by done. cbn.
    by rewrite Hprop, Hcert.
Qed.
End commit.

(** C2. No panic: from a configuration whose validator set is well formed (and
    whose own index is in it), in every engine reached from [new] or
    [from_recovered] by calls of its methods under the conditions of [op_ok], and
    for every further such call, none of the [expect]s, unwraps and indexings of
    the engine, the coordinator and the talliers fires, and the invariant that
    ties the round to the head, the seed, the set and the captured proposal is
    preserved. The conditions, with every argument otherwise free: a rotation is
    to a set as [ValidatorSet::new] makes it; [tick_timeout] is not called on a
    round that is committed and not yet harvested (see [timeout_loses_commit]);
    [advance_single], [step] on a set of one validator, and [init] are called
    with no round open. *)
Theorem engine_never_panics `{HL : PrimitiveLaws} `{R : Rlp} (cfg : BftConfig) (self : BftEngine)
    (op : engine_op) :
  cfg_ok cfg -> engine_reachable cfg self -> op_ok (state self) op ->
  (engine_apply self op).2 <> Panic /\ engine_inv (state (engine_apply self op).1).
Proof.
  intros Hcfg Hr Hok. destruct (engine_apply_inv self op (engine_reachable_inv _ _ Hcfg Hr) Hok). done.
Qed.

(** C33. [drain_pending_votes] terminates within one turn per buffered vote plus
    one from every state, whatever the coordinator does (in particular when it is
    in no reachable state), and it is complete: it returns a state that holds no
    stale vote and on which a second drain changes nothing. *)
Theorem drain_terminates `{P : Primitives} `{R : Rlp} (g : BftEngineState) :
  drain_pending_votes g <> Err OutOfFuel /\
  forall g', drain_pending_votes g = Ok g' ->
    drain_pending_votes g' = Ok g' /\
    Forall (fun v => head_number g' < vote_height v) (pending_prevotes g') /\
    Forall (fun v => head_number g' < vote_height v) (pending_precommits g').
Proof.
  split; [apply drain_returns|]. intros g' Hd%drain_loop_drained.
  split; [by apply drain_drained|]. by destruct Hd as (? & ? & _).
Qed.

(** C5. A harvest finalizes: in every reachable engine whose round is committed,
    [try_harvest_committed] returns the captured block; the block was proposed
    with a valid proof of the elected leader, the certificate that is cached with
    it is for its hash and for the height after the head and passes the verifier
    under the validator set in force (unless its signers' keys cancel); the new
    head is that block, the new seed is the leader's VRF output, and the round is
    closed. *)
Theorem harvest_finalizes `{HL : PrimitiveLaws} `{R : Rlp} (cfg : BftConfig) (self : BftEngine) :
  cfg_ok cfg -> engine_reachable cfg self -> is_committed (state self) = true ->
  exists c blk pf cert self',
    try_harvest_committed self = (self', Some blk) /\
    coordinator (state self) = Some c /\ proof_ok c pf /\
    finality (state self) blk (next_height (state self)) cert /\
    head_hash (state self') = block_hash blk /\ head_number (state self') = number (header blk) /\
    head_timestamp (state self') = timestamp (header blk) /\ st_seed (state self') = vrf_output pf /\
    coordinator (state self') = None /\ proposal (state self') = None /\
    recent_blocks (state self') = cache_recent_block (recent_blocks (state self)) blk cert.
Proof.
  intros Hcfg Hr Hcom.
  destruct (harvest_spec self (engine_reachable_inv _ _ Hcfg Hr) Hcom)
    as (c & blk & pf & cert & Hc & Hp & Hf & Hpf & Hfin & Hh).
  eexists c, blk, pf, cert, _. split; [exact Hh|]. done.
Qed.

(** ** Adopting a block of a peer *)
Section adopt.
Context `{P : Primitives} `{R : Rlp}.
Implicit Types (self : BftEngine).

(** What [adopt_synced_block] checks. *)
Definition adoptable (g : BftEngineState) (blk : Block) (cert : PrecommitCertificate) : Prop :=
  number (header blk) = next_height g /\ c_height cert = number (header blk) /\
  parent_hash (header blk) = head_hash g /\ c_block_hash cert = block_hash blk /\
  PrecommitCertificate_verify cert (validator_set g) = Ok tt.

#[local] Instance adoptable_dec g blk cert : Decision (adoptable g blk cert).
Proof. unfold adoptable. apply _. Defined.

Lemma adopt_cases self blk cert : adoptable (state self) blk cert \/ ~ adoptable (state self) blk cert.
Proof. destruct (decide (adoptable (state self) blk cert)); auto. Qed.

Lemma adopt_Ok self blk cert :
  adoptable (state self) blk cert ->
  adopt_synced_block self blk cert =
    (with_state self (with_votes (install_head (state self) blk (mix_hash (header blk)) cert) [] []),
     Ok blk).
Proof.
  intros (Hn & Hh & Hp & Hb & Hv). unfold adopt_synced_block. cbn zeta.
  rewrite (proj2 (N.eqb_eq _ _) Hn), (proj2 (N.eqb_eq _ _) Hh).
  rewrite !bool_decide_eq_true_2 by done. cbn [negb orb guard_err mbind res_bind]. by rewrite Hv.
Qed.

Lemma adopt_not_Ok self blk cert :
  ~ adoptable (state self) blk cert ->
  (adopt_synced_block self blk cert).1 = self /\
  forall b, (adopt_synced_block self blk cert).2 <> Ok b.
Proof.
  intros Hn. unfold adopt_synced_block. cbn zeta.
  match goal with |- context [match ?r with Ok _ => _ | Err _ => _ | Panic => _ end] =>
    destruct r as [u|e|] eqn:E end; [|done..].
  exfalso. apply Hn. inv_ok. apply orb_false_elim in H as [H1 H2], H0 as [H3 H4].
  apply negb_false_iff in H1, H2, H3, H4.
  apply N.eqb_eq in H1, H2. apply bool_decide_eq_true in H3, H4.
  by split_and!.
Qed.
End adopt.

(** [adopt_synced_block] accepts exactly the blocks that extend the head by one
    (number and parent hash) and carry a certificate for that hash and height
    that verifies under the set in force; it then installs the block as the head,
    rolls the seed to its [mix_hash], closes the round and drops the early votes.
    Otherwise it changes nothing. *)
Theorem adopt_spec `{P : Primitives} `{R : Rlp} (self : BftEngine) (blk : Block)
    (cert : PrecommitCertificate) :
  let '(self', r) := adopt_synced_block self blk cert in
  let g := state self in
  (adoptable g blk cert /\ r = Ok blk /\
   self' = with_state self (mkState (validator_set g) (my_index g) (block_hash blk)
     (number (header blk)) (timestamp (header blk)) (mix_hash (header blk)) None None (detector g)
     (pending_evidence g) [] [] (cache_recent_block (recent_blocks g) blk cert))) \/
  (~ adoptable g blk cert /\ self' = self /\ forall b, r <> Ok b).
Proof.
  destruct (adopt_cases self blk cert) as [Ha|Hn].
  - rewrite (adopt_Ok _ _ _ Ha). by left.
  - pose proof (adopt_not_Ok self blk cert Hn) as [? ?].
    destruct (adopt_synced_block self blk cert). by right.
Qed.

(** Block sync authenticates the header and not the body: if a block is adopted
    with its certificate, then the same header with any other body (other
    transactions, withdrawals, ommers) is adopted with the same certificate, and
    the engine returns and caches the substituted body. *)
Theorem adopt_body_unchecked `{P : Primitives} `{R : Rlp} (self : BftEngine) (blk : Block)
    (cert : PrecommitCertificate) (b : BlockBody) :
  (adopt_synced_block self blk cert).2 = Ok blk ->
  let forged := mkBlock (header blk) b in
  (adopt_synced_block self forged cert).2 = Ok forged /\
  head_hash (state (adopt_synced_block self forged cert).1) =
    head_hash (state (adopt_synced_block self blk cert).1) /\
  recent_blocks (state (adopt_synced_block self forged cert).1) =
    cache_recent_block (recent_blocks (state self)) forged cert.
Proof.
  intros Hok forged.
  destruct (adopt_cases self blk cert) as [Ha|Hn].
  2:{ by destruct (proj2 (adopt_not_Ok self blk cert Hn) blk). }
  rewrite (adopt_Ok self blk cert Ha), (adopt_Ok self forged cert) by exact Ha. done.
Qed.

(** ** The chain of heads *)
Section chain.
Context `{HL : PrimitiveLaws} `{R : Rlp}.
Implicit Types (self : BftEngine) (g : BftEngineState).

(** The block is for the height after the head, on top of it. *)
Definition linked g (blk : Block) (pf : LeaderProof) : Prop :=
  number (header blk) = next_height g /\ parent_hash (header blk) = head_hash g /\
  mix_hash (header blk) = vrf_output pf.

Definition chain_inv g : Prop := forall blk pf, proposal g = Some (blk, pf) -> linked g blk pf.

(** The premise on the calls: a peer's proposal is the block that
    [reconstruct_proposed_block_with_body] builds for the next height, the
    single-validator drive runs with no proposal captured, and [init], which
    starts the chain over from a genesis block, is not called. *)
Definition op_linked g (op : engine_op) : Prop :=
  match op with
  | OpRemoteProposal blk pf => linked g blk pf
  | OpAdvance => proposal g = None
  | OpStep => size (validator_set g) = 1 -> proposal g = None
  | OpInit _ => False
  | _ => True
  end.

Inductive chain_reachable (cfg : BftConfig) : BftEngine -> Prop :=
| cr_new genesis : chain_reachable cfg (BftEngine_new cfg genesis)
| cr_recovered head : chain_reachable cfg (from_recovered cfg head)
| cr_step self op : chain_reachable cfg self -> op_ok (state self) op ->
    op_linked (state self) op -> chain_reachable cfg (engine_apply self op).1.

Definition same_head g g' : Prop :=
  head_hash g' = head_hash g /\ head_number g' = head_number g /\ st_seed g' = st_seed g /\
  recent_blocks g' = recent_blocks g.

(** One block was added, with its certificate. *)
Definition extends g g' : Prop :=
  exists blk cert,
    number (header blk) = next_height g /\ parent_hash (header blk) = head_hash g /\
    finality g blk (next_height g) cert /\
    head_hash g' = block_hash blk /\ head_number g' = next_height g /\
    st_seed g' = mix_hash (header blk) /\
    recent_blocks g' = cache_recent_block (recent_blocks g) blk cert.

Definition chain_step g g' : Prop :=
  (same_head g g' /\ forall blk pf, proposal g' = Some (blk, pf) ->
     proposal g = Some (blk, pf) \/ linked g blk pf) \/
  (extends g g' /\ proposal g' = None).

Lemma chain_step_same g g' : same_head g g' -> proposal g' = proposal g -> chain_step g g'.
Proof. intros Hs Hp. left. split; [done|]. rewrite Hp. auto. Qed.

Lemma chain_step_linked g g' blk pf :
  same_head g g' -> proposal g' = Some (blk, pf) -> linked g blk pf -> chain_step g g'.
Proof. intros Hs Hp Hl. left. split; [done|]. rewrite Hp. intros ? ? [= <- <-]. auto. Qed.

Lemma chain_step_inv g g' : chain_inv g -> chain_step g g' -> chain_inv g'.
Proof.
  intros Hg [[(Hh & Hn & _) Hp]|[_ Hp]] blk pf Hb; [|congruence].
  assert (linked g blk pf) as (H1 & H2 & H3) by (destruct (Hp _ _ Hb); auto).
  unfold linked, next_height in *. rewrite Hh, Hn. done.
Qed.

Lemma only_votes_head g g' : only_votes g g' -> same_head g g' /\ proposal g' = proposal g.
Proof. intros ->. done. Qed.

Lemma ensure_head g : same_head g (ensure_coordinator g) /\
  proposal (ensure_coordinator g) = proposal g /\ next_height (ensure_coordinator g) = next_height g.
Proof. unfold ensure_coordinator. by destruct (coordinator g). Qed.

Lemma then_drain_step self g0 g :
  engine_inv g -> same_head g0 g ->
  same_head g0 (state (then_drain self g).1) /\ proposal (state (then_drain self g).1) = proposal g.
Proof.
  intros Hg Hs. destruct (then_drain_inv self g Hg) as (_ & _ & [Hs' Hp]%only_votes_head & _).
  split; [|done]. unfold same_head in *. naive_solver congruence.
Qed.

Lemma build_linked g c pf cb b n :
  n = next_height g -> linked g (build_block_with_body c (head_hash g) (head_timestamp g) n pf cb b) pf.
Proof. intros ->. done. Qed.

Lemma cast_proposal_step self :
  engine_inv (state self) -> chain_step (state self) (state (cast_proposal self).1).
Proof.
  intros Hg. unfold cast_proposal.
  destruct (ensure_spec (state self) Hg) as (c & Hc & Hok & Heq). rewrite Hc.
  destruct (ensure_head (state self)) as (Hs & Hp & Hn).
  destruct (negb _); [by apply chain_step_same|].
  set (pf := LeaderProof_produce _ _ _ _). destruct (drain_pending_txs_into_body _) as [b s].
  set (blk := build_block_with_body _ _ _ _ _ _ _).
  destruct (submit_proposal c (block_hash blk) pf) as [c1 [[]|e|]]; cbn;
    [|by apply chain_step_same..].
  apply (chain_step_linked _ _ blk pf); [done..|]. destruct Hs as (Hh & _).
  split_and!; cbn; [|done|done]. by rewrite (co_height _ _ Hok), Hn.
Qed.

Lemma remote_proposal_step self blk pf :
  engine_inv (state self) -> linked (state self) blk pf ->
  chain_step (state self) (state (submit_remote_proposal self blk pf).1).
Proof.
  intros Hg Hl. unfold submit_remote_proposal.
  destruct (ensure_spec (state self) Hg) as (c & Hc & Hok & Heq). rewrite Hc.
  destruct (ensure_head (state self)) as (Hs & Hp & Hn).
  pose proof (coord_ok_proposal _ c blk pf tt Hok) as Hprop.
  destruct (submit_proposal c (block_hash blk) pf) as [c1 [[]|e|]]; cbn;
    [|by apply chain_step_same..].
  destruct (then_drain_step self (state self)
    (with_round (ensure_coordinator (state self)) (Some c1) (Some (blk, pf)))) as [Hs' Hp'].
  - apply engine_inv_round; [rewrite Heq in *; by apply engine_inv_round|]. by apply Hprop.
  - exact Hs.
  - by eapply (chain_step_linked _ _ blk pf).
Qed.

Lemma remote_prevote_step self v :
  engine_inv (state self) -> chain_step (state self) (state (submit_remote_prevote self v).1).
Proof.
  intros Hg. unfold submit_remote_prevote. destruct (record_prevote _ _) as [d ev].
  set (g1 := with_detector _ _ _). assert (Hg1 : engine_inv g1) by by eapply engine_inv_frame.
  destruct (_ <=? _); [by apply chain_step_same|].
  destruct (coordinator g1) as [c|] eqn:Ec; [|by apply chain_step_same].
  destruct (coord_ok_prevote _ c v (ei_coord _ Hg1 _ Ec)) as [Hok _].
  destruct (submit_prevote c v) as [c1 [u|e|]]; [|destruct (retryable e)|]; try by apply chain_step_same.
  destruct (then_drain_step self (state self) (with_round g1 (Some c1) (proposal g1))) as [Hs Hp];
    [|done|by apply chain_step_same].
  apply engine_inv_round; [done|]. by eapply coord_ok_frame.
Qed.

Lemma remote_precommit_step self v :
  engine_inv (state self) -> chain_step (state self) (state (submit_remote_precommit self v).1).
Proof.
  intros Hg. unfold submit_remote_precommit. destruct (record_precommit _ _) as [d ev].
  set (g1 := with_detector _ _ _). assert (Hg1 : engine_inv g1) by by eapply engine_inv_frame.
  destruct (_ <=? _); [by apply chain_step_same|].
  destruct (coordinator g1) as [c|] eqn:Ec; [|by apply chain_step_same].
  destruct (coord_ok_precommit _ c v (ei_coord _ Hg1 _ Ec)) as [Hok _].
  destruct (submit_precommit c v) as [c1 [u|e|]]; [|destruct (retryable e)|]; try by apply chain_step_same.
  destruct (then_drain_step self (state self) (with_round g1 (Some c1) (proposal g1))) as [Hs Hp];
    [|done|by apply chain_step_same].
  apply engine_inv_round; [done|]. by eapply coord_ok_frame.
Qed.

Lemma tick_timeout_step self :
  engine_inv (state self) -> is_committed (state self) = false ->
  chain_step (state self) (state (tick_timeout self).1).
Proof.
  intros Hg Hnc. unfold tick_timeout.
  destruct (ensure_spec (state self) Hg) as (c & Hc & _ & _). rewrite Hc.
  destruct (then_drain_step self (state self)
    (with_round (ensure_coordinator (state self)) (Some (fire_timeout c)) None)) as [Hs Hp].
  - by apply timeout_round_inv.
  - apply ensure_head.
  - left. split; [exact Hs|]. by rewrite Hp.
Qed.

Lemma harvest_extends self blk pf cert :
  chain_inv (state self) -> proposal (state self) = Some (blk, pf) ->
  finality (state self) blk (next_height (state self)) cert ->
  chain_step (state self) (install_head (state self) blk (vrf_output pf) cert).
Proof.
  intros Hc Hp Hf. destruct (Hc _ _ Hp) as (Hn & Hpar & Hmix). right. split; [|done].
  exists blk, cert. split_and!; done.
Qed.

Lemma harvest_step self :
  engine_inv (state self) -> chain_inv (state self) ->
  chain_step (state self) (state (try_harvest_committed self).1).
Proof.
  intros Hg Hc. destruct (is_committed (state self)) eqn:Ecom.
  - destruct (harvest_spec self Hg Ecom) as (c & blk & pf & cert & _ & Hp & _ & _ & Hf & ->).
    by apply harvest_extends.
  - unfold try_harvest_committed. rewrite Ecom. by apply chain_step_same.
Qed.

Lemma adopt_step self blk cert :
  chain_step (state self) (state (adopt_synced_block self blk cert).1).
Proof.
  destruct (adopt_cases self blk cert) as [Ha|Hn].
  - rewrite (adopt_Ok _ _ _ Ha). destruct Ha as (Hn & Hh & Hp & Hb & Hv). right. split; [|done].
    exists blk, cert. split_and!; try done. split; congruence.
  - destruct (adopt_not_Ok self blk cert Hn) as [-> _]. by apply chain_step_same.
Qed.

(** The solo round ends with a certificate for its own block. *)
Lemma solo_round_Ok self b n pf c :
  vs_wf (validator_set (state self)) -> solo_round self b n pf = Ok c ->
  coord_inv c /\ height c = n /\ vs c = validator_set (state self) /\ proposed_block c = Some b.
Proof.
  intros Hwf. unfold solo_round.
  set (c0 := Coordinator_new n (st_seed (state self)) (validator_set (state self))).
  pose proof (coord_inv_new n (st_seed (state self)) _ Hwf) as H0. fold c0 in H0.
  pose proof (submit_proposal_inv c0 b pf H0) as [H1 _].
  pose proof (submit_proposal_Ok c0 b pf tt H0) as Hb.
  pose proof (handle_const c0 (EProposal b pf)) as K1. cbn [handle] in K1.
  destruct (submit_proposal c0 b pf) as [c1 [[]|e1|]]; cbn in *; [|done..].
  destruct (Hb eq_refl) as (-> & _ & _). clear Hb.
  match goal with |- context [submit_prevote ?c1 ?v] =>
    pose proof (proj1 (submit_prevote_inv c1 v H1)) as H2; pose proof (submit_prevote_const c1 v) as [_ B2];
    pose proof (handle_const c1 (EPrevote v)) as K2; cbn [handle] in K2;
    destruct (submit_prevote c1 v) as [c2 [u2|e2|]] end; cbn in *; [|done..].
  match goal with |- context [submit_precommit ?c2 ?v] =>
    pose proof (proj1 (submit_precommit_inv c2 v H2)) as H3;
    pose proof (submit_precommit_const c2 v) as [_ B3];
    pose proof (handle_const c2 (EPrecommit v)) as K3; cbn [handle] in K3;
    destruct (submit_precommit c2 v) as [c3 [u3|e3|]] end; cbn in *; [|done..].
  intros [= <-]. destruct K2 as (? & ? & _), K3 as (? & ? & _). split_and!; congruence.
Qed.

Lemma advance_step self :
  engine_inv (state self) -> proposal (state self) = None ->
  chain_step (state self) (state (advance_single self).1).
Proof.
  intros Hg Hnone. unfold advance_single. destruct (negb _); [by apply chain_step_same|].
  destruct (checked_add _ _ _) as [n|] eqn:En; [|by apply chain_step_same].
  apply checked_add_Some in En as [Hn Hlt].
  destruct (drain_pending_txs_into_body self) as [b s] eqn:Ed.
  assert (state s = state self) as Hs by (unfold drain_pending_txs_into_body in Ed; by simplify_eq).
  set (pf := LeaderProof_produce _ _ _ _). set (blk := build_block_with_body _ _ _ _ _ _ _).
  destruct (solo_round s (block_hash blk) n pf) as [c|e|] eqn:Es; cbn;
    [|rewrite Hs; by apply chain_step_same..].
  destruct (solo_round_Ok _ _ _ _ _ ltac:(rewrite Hs; apply Hg) Es) as (Hi & Hh & Hv & Hb).
  destruct (final_cert c) as [cert|] eqn:Ec; cbn; [|rewrite Hs; by apply chain_step_same].
  assert (n = next_height (state self)) as Hnext.
  { unfold next_height. by rewrite wrapping_add_small. }
  right. split; [|done]. exists blk, cert. rewrite Hs in Hv. split_and!; try done.
  rewrite <-Hnext, <-Hh. by apply finality_of.
Qed.

Lemma step_step self :
  engine_inv (state self) -> chain_inv (state self) ->
  (size (validator_set (state self)) = 1 -> proposal (state self) = None) ->
  chain_step (state self) (state (Engine_step self).1).
Proof.
  intros Hg Hc Hone. unfold Engine_step, is_single_validator.
  destruct (N.eqb_spec (size (validator_set (state self))) 1) as [E|].
  - pose proof (advance_step self Hg (Hone E)). by destruct (advance_single self).
  - destruct (is_committed (state self)) eqn:Ecom; [|by apply chain_step_same].
    destruct (harvest_spec self Hg Ecom) as (c & blk & pf & cert & Hcoord & Hp & Hcert & _ & Hf & _).
    cbn. rewrite Hp, Hcoord. cbn. rewrite Hcert. by apply harvest_extends.
Qed.

Lemma engine_apply_step self op :
  engine_inv (state self) -> chain_inv (state self) -> op_ok (state self) op ->
  op_linked (state self) op -> chain_step (state self) (state (engine_apply self op).1).
Proof.
  intros Hg Hc Hok Hl. destruct op; cbn [engine_apply].
  - pose proof (cast_proposal_step self Hg). by destruct (cast_proposal self).
  - unfold cast_prevote. destruct (coordinator (state self)) as [c|]; [|by apply chain_step_same].
    destruct (proposed_block c); [|by apply chain_step_same].
    destruct (submit_prevote c _). by apply chain_step_same.
  - unfold cast_precommit. destruct (coordinator (state self)) as [c|]; [|by apply chain_step_same].
    destruct (negb _); [by apply chain_step_same|].
    destruct (proposed_block c); [|by apply chain_step_same].
    destruct (submit_precommit c _). by apply chain_step_same.
  - by apply remote_proposal_step.
  - by apply remote_prevote_step.
  - by apply remote_precommit_step.
  - by apply tick_timeout_step.
  - by apply harvest_step.
  - pose proof (adopt_step self blk cert). by destruct (adopt_synced_block self blk cert).
  - unfold fast_forward_to_round. destruct (match coordinator _ with Some _ => _ | None => _ end);
      by apply chain_step_same.
  - unfold rotate_validator_set. destruct (_ <=? _); [by apply chain_step_same|].
    destruct (coordinator (state self)), (proposal (state self)) eqn:Ep; try by apply chain_step_same.
  - pose proof (advance_step self Hg Hl). by destruct (advance_single self).
  - pose proof (step_step self Hg Hc Hl). by destruct (Engine_step self).
  - unfold extend_pending_txs. destruct txs; by apply chain_step_same.
  - by apply chain_step_same.
  - done.
Qed.

Lemma chain_reachable_inv cfg self :
  cfg_ok cfg -> chain_reachable cfg self -> engine_inv (state self) /\ chain_inv (state self).
Proof.
  intros Hcfg. induction 1 as [genesis|head|self op _ [Hi Hc] Hok Hl].
  - split; [by apply initial_inv|done].
  - split; [by apply initial_inv|done].
  - split; [by apply engine_apply_inv|].
    eapply chain_step_inv; [exact Hc|]. by apply engine_apply_step.
Qed.
End chain.

(** C6. The heads form a chain: in every engine reached from [new] or
    [from_recovered] by calls under the conditions of [op_ok] and [op_linked],
    each further such call either leaves the head, the seed and the cache, or
    extends the chain by exactly one block: its parent hash is the old head, its
    number the next height, the new seed is its [mix_hash] (what a peer that
    adopts or recovers from the block computes), and it is cached with a
    certificate for its hash and height that passes the verifier under the set
    in force unless its signers' keys cancel. The conditions: a rotation is to a
    set as [ValidatorSet::new] makes it; no timeout of a round committed and not
    harvested; a peer's proposal that is submitted is for the next height, has
    the head as its parent and its proof's VRF output as [mix_hash] (the block
    [reconstruct_proposed_block_with_body] builds); [advance_single], and [step]
    on a set of one validator, are called with no round open and no proposal
    captured; and [init], which starts the chain over from a genesis block, is
    not among the calls. *)
Theorem heads_form_chain `{HL : PrimitiveLaws} `{R : Rlp} (cfg : BftConfig) (self : BftEngine)
    (op : engine_op) :
  cfg_ok cfg -> chain_reachable cfg self -> op_ok (state self) op -> op_linked (state self) op ->
  let self' := (engine_apply self op).1 in
  same_head (state self) (state self') \/ extends (state self) (state self').
Proof.
  intros Hcfg Hr Hok Hl. destruct (chain_reachable_inv cfg self Hcfg Hr) as [Hg Hc].
  destruct (engine_apply_step self op Hg Hc Hok Hl) as [[? _]|[? _]]; auto.
Qed.

(** The cache of committed blocks: inserting a block above every cached height
    leaves at most [RECENT_BLOCKS_CAP] entries, the new block among them; every
    other entry is an old one, and an entry that was dropped is below every
    height that was kept. *)
Theorem cache_keeps_recent `{P : Primitives} `{R : Rlp} (m : gmap N RecentCommittedBlock)
    (b : Block) (cert : PrecommitCertificate) :
  (forall h x, m !! h = Some x -> h <= number (header b)) ->
  let m' := cache_recent_block m b cert in
  (base.size m' <= RECENT_BLOCKS_CAP)%nat /\
  m' !! number (header b) = Some (b, cert) /\
  (forall h x, h <> number (header b) -> m' !! h = Some x -> m !! h = Some x) /\
  (forall h x h' y, m !! h = Some x -> m' !! h = None -> m' !! h' = Some y -> h < h').
Proof.
  intros Hmax. unfold cache_recent_block. cbn zeta. set (m1 := <[number (header b) := (b, cert)]> m).
  assert (Hin : m1 !! number (header b) = Some (b, cert)) by apply lookup_insert_eq.
  split_and!.
  - apply evict_size. lia.
  - apply evict_keeps_max; [done|]. intros j y [[-> _]|[_ Hj]]%lookup_insert_Some; [lia|by eapply Hmax].
  - intros h x Hne Hx. pose proof (lookup_weaken _ _ _ _ Hx (evict_subseteq _ _)) as Hx'.
    unfold m1 in Hx'. by rewrite lookup_insert_ne in Hx' by done.
  - intros h x h' y Hx Hn Hy. destruct (decide (h = number (header b))) as [->|Hne].
    + exfalso. refine (eq_ind (Some (b, cert)) (fun o => match o with Some _ => True | None => False end) I None _).
      etransitivity; [symmetry|exact Hn]. apply evict_keeps_max; [done|].
      intros j z [[-> _]|[_ Hj]]%lookup_insert_Some; [lia|by eapply Hmax].
    + eapply (evict_drops_oldest _ m1 h x); [unfold m1; by rewrite lookup_insert_ne|done|done].
Qed.

(** ** Leader and follower *)
Section follower.
Context `{HL : PrimitiveLaws} `{R : Rlp}.
Implicit Types (self : BftEngine).

(** Two nodes on the same head, seed and set, with the same chain parameters;
    keys, coinbase, staged transactions and round state are each node's own. *)
Record peers self self' : Prop := {
  pe_hash : head_hash (state self') = head_hash (state self);
  pe_number : head_number (state self') = head_number (state self);
  pe_time : head_timestamp (state self') = head_timestamp (state self);
  pe_seed : st_seed (state self') = st_seed (state self);
  pe_set : validator_set (state self') = validator_set (state self);
  pe_gas : cfg_gas_limit (config self') = cfg_gas_limit (config self);
  pe_fee : cfg_base_fee_per_gas (config self') = cfg_base_fee_per_gas (config self);
  pe_slot : slot_seconds (config self') = slot_seconds (config self);
  pe_exec : executor (config self') = executor (config self)
}.

Lemma build_peers self self' n pf cb b :
  peers self self' ->
  reconstruct_proposed_block_with_body self' n pf cb b =
    build_block_with_body (config self) (head_hash (state self)) (head_timestamp (state self)) n pf cb b.
Proof.
  intros [Hh _ Ht _ _ Hg Hf Hs He].
  unfold reconstruct_proposed_block_with_body, build_block_with_body, roots_for.
  by rewrite Hh, Ht, Hg, Hf, Hs, He.
Qed.

Lemma cast_proposal_Ok self self' blk pf :
  engine_inv (state self) -> cast_proposal self = (self', Ok (blk, pf)) ->
  exists c, coordinator (ensure_coordinator (state self)) = Some c /\
    coord_ok (ensure_coordinator (state self)) c /\ phase c = AwaitingProposal /\
    leader_index c = N.to_nat (my_index (state self)) /\
    pf = LeaderProof_produce (my_vrf_sk (config self)) (height c) (round c) (st_seed (state self)) /\
    body blk = (drain_pending_txs_into_body self).1 /\
    pending_txs self' = pending_txs (drain_pending_txs_into_body self).2 /\
    blk = build_block_with_body (config self) (head_hash (state self)) (head_timestamp (state self))
            (height c) pf (coinbase (config self)) (body blk) /\
    coordinator (state self') = Some (with_proposal c (block_hash blk)) /\
    proposal (state self') = Some (blk, pf).
Proof.
  intros Hg. unfold cast_proposal.
  destruct (ensure_spec (state self) Hg) as (c & Hc & Hok & Heq). rewrite Hc.
  assert (Hen : my_index (ensure_coordinator (state self)) = my_index (state self) /\
    st_seed (ensure_coordinator (state self)) = st_seed (state self) /\
    head_hash (ensure_coordinator (state self)) = head_hash (state self) /\
    head_timestamp (ensure_coordinator (state self)) = head_timestamp (state self)) by (by rewrite Heq).
  destruct Hen as (Hi & Hs & Hh & Ht). rewrite Hi, Hs, Hh, Ht.
  destruct (Nat.eqb_spec (leader_index c) (N.to_nat (my_index (state self)))) as [Hl|]; [|done].
  cbn [negb]. set (pf0 := LeaderProof_produce _ _ _ _).
  destruct (drain_pending_txs_into_body (with_state self _)) as [b s] eqn:Ed.
  assert (b = (drain_pending_txs_into_body self).1 /\
          pending_txs s = pending_txs (drain_pending_txs_into_body self).2 /\
          config s = config self) as (Hb & Htx & Hcfg)
    by (unfold drain_pending_txs_into_body in Ed; by simplify_eq).
  cbn [with_state config]. set (blk0 := build_block_with_body _ _ _ _ _ _ _).
  pose proof (submit_proposal_Ok c (block_hash blk0) pf0 tt (co_inv _ _ Hok)) as Hsp.
  destruct (submit_proposal c (block_hash blk0) pf0) as [c1 [[]|e|]]; cbn in *; [|done..].
  destruct (Hsp eq_refl) as (-> & _ & Hph).
  intros [= <- <- <-]. exists c. split_and!; try done. unfold blk0. by rewrite Hcfg.
Qed.

(** The proof that the holder of the leader's key makes is accepted. *)
Lemma produced_proof_accepted c b leader sk :
  phase c = AwaitingProposal -> validators (vs c) !! leader_index c = Some leader ->
  v_vrf_pubkey leader = sr_to_public sk ->
  submit_proposal c b (LeaderProof_produce sk (height c) (round c) (seed c)) =
    (with_proposal c b, Ok tt).
Proof.
  intros Hph Hlead Hkey. unfold submit_proposal.
  rewrite Hph, bool_decide_eq_true_2 by done. cbn [negb guard_err mbind res_bind].
  rewrite Hlead. cbn [expect mbind res_bind]. rewrite Hkey.
  unfold LeaderProof_verify, LeaderProof_produce.
  pose proof (vrf_prove_verify sk (arr_bytes (LeaderProof_input (height c) (round c) (seed c)))) as Hv.
  destruct (vrf.prove _ _) as [p o]. cbn in *. rewrite Hv. cbn.
  by rewrite bool_decide_eq_true_2 by done.
Qed.

Lemma remote_proposal_Ok self c blk pf :
  engine_inv (state self) -> coordinator (ensure_coordinator (state self)) = Some c ->
  submit_proposal c (block_hash blk) pf = (with_proposal c (block_hash blk), Ok tt) ->
  (submit_remote_proposal self blk pf).2 = Ok tt.
Proof.
  intros Hg Hc Hsp. destruct (ensure_spec (state self) Hg) as (c' & Hc' & Hok & Heq).
  assert (c' = c) as -> by congruence.
  unfold submit_remote_proposal. rewrite Hc, Hsp.
  pose proof (coord_ok_proposal _ c blk pf tt Hok) as Hprop. rewrite Hsp in Hprop. cbn in Hprop.
  edestruct then_drain_inv as (_ & -> & _); [|done].
  apply engine_inv_round; [rewrite Heq in *; by apply engine_inv_round|]. by apply Hprop.
Qed.

Lemma ensure_seed g : st_seed (ensure_coordinator g) = st_seed g /\
  validator_set (ensure_coordinator g) = validator_set g.
Proof. unfold ensure_coordinator. by destruct (coordinator g). Qed.

(** The coordinators of peers on the same head are for the same height. *)
Lemma peers_coordinators self self' c c' :
  engine_inv (state self) -> engine_inv (state self') -> peers self self' ->
  coordinator (ensure_coordinator (state self)) = Some c ->
  coordinator (ensure_coordinator (state self')) = Some c' ->
  height c' = height c /\ seed c' = seed c /\ vs c' = vs c.
Proof.
  intros Hg Hg' [_ H1 _ H2 H3 _ _ _ _] Hc Hc'.
  destruct (ensure_spec _ Hg) as (c1 & E1 & O1 & _), (ensure_spec _ Hg') as (c2 & E2 & O2 & _).
  assert (c1 = c) as -> by congruence. assert (c2 = c') as -> by congruence.
  destruct (ensure_head (state self)) as (_ & _ & N1), (ensure_head (state self')) as (_ & _ & N2).
  destruct (ensure_seed (state self)) as [S1 V1], (ensure_seed (state self')) as [S2 V2].
  rewrite (co_height _ _ O1), (co_height _ _ O2), (co_seed _ _ O1), (co_seed _ _ O2),
    (co_vs _ _ O1), (co_vs _ _ O2), N1, N2, S1, S2, V1, V2.
  split_and!; try done. unfold next_height. by rewrite H1.
Qed.
End follower.

(** C24. Leader and follower agree: when a leader's [cast_proposal] succeeds, its
    block is for the next height on its head, with a prefix of its staged
    transactions within the gas limit as body (the rest stays staged, in order);
    every peer on the same head rebuilds exactly that block from the height,
    proof, coinbase and body of the message, and a peer whose coordinator waits in
    the same round accepts the proposal, provided the leader's key is the one the
    set lists. *)
Theorem follower_accepts_leader `{HL : PrimitiveLaws} `{R : Rlp} (self self1 peer : BftEngine)
    (c cp : RoundCoordinator) (leader : Validator) (blk : Block) (pf : LeaderProof) :
  engine_inv (state self) -> engine_inv (state peer) -> peers self peer ->
  cast_proposal self = (self1, Ok (blk, pf)) ->
  coordinator (ensure_coordinator (state self)) = Some c ->
  validators (vs c) !! leader_index c = Some leader ->
  v_vrf_pubkey leader = sr_to_public (my_vrf_sk (config self)) ->
  coordinator (ensure_coordinator (state peer)) = Some cp ->
  phase cp = AwaitingProposal -> round cp = round c ->
  number (header blk) = next_height (state self) /\ parent_hash (header blk) = head_hash (state self) /\
  transactions (body blk) ++ pending_txs self1 = pending_txs self /\
  len (transactions (body blk)) * PLACEHOLDER_TX_GAS <= cfg_gas_limit (config self) /\
  reconstruct_proposed_block_with_body peer (number (header blk)) pf (beneficiary (header blk)) (body blk)
    = blk /\
  (submit_remote_proposal peer blk pf).2 = Ok tt.
Proof.
  intros Hg Hgp Hpeers Hcast Hc Hlead Hkey Hcp Hph Hround.
  destruct (cast_proposal_Ok _ _ _ _ Hg Hcast)
    as (c' & Hc' & Hok & _ & Hl & Hpf & Hbody & Htx & Hblk & _).
  assert (c' = c) as -> by congruence.
  destruct (ensure_head (state self)) as (_ & _ & Hn), (ensure_seed (state self)) as [Hsd _].
  assert (Hnum : number (header blk) = next_height (state self)).
  { rewrite Hblk. cbn. by rewrite (co_height _ _ Hok), Hn. }
  assert (Hben : beneficiary (header blk) = coinbase (config self)) by (by rewrite Hblk).
  split_and!.
  - done.
  - by rewrite Hblk.
  - rewrite Hbody, Htx. unfold drain_pending_txs_into_body. cbn. apply take_drop.
  - rewrite Hbody. unfold drain_pending_txs_into_body. cbn.
    pose proof (N.Div0.mul_div_le (cfg_gas_limit (config self)) PLACEHOLDER_TX_GAS).
    unfold len. rewrite length_take. nia.
  - rewrite (build_peers _ _ _ _ _ _ Hpeers), Hben, Hnum, <-Hn, <-(co_height _ _ Hok). by symmetry.
  - destruct (peers_coordinators _ _ _ _ Hg Hgp Hpeers Hc Hcp) as (Hh & Hs & Hv).
    apply (remote_proposal_Ok peer cp); [done..|].
    rewrite Hpf, <-Hsd, <-(co_seed _ _ Hok), <-Hh, <-Hs, <-Hround.
    apply (produced_proof_accepted _ _ leader); [done| |done].
    unfold leader_index in *. by rewrite Hh, Hs, Hv, Hround.
Qed.

(** ** A validator that holds a quorum alone *)
Section solo.
Context `{HL : PrimitiveLaws} `{R : Rlp}.
Implicit Types (self : BftEngine) (c : RoundCoordinator).

Definition key_at (v : ValidatorSet) (i : N) (sk : bls_sk) : Prop :=
  exists val, get v i = Some val /\ v_bls_pubkey val = bls.public_key sk.

Lemma solo_prevote c b i sk :
  coord_inv c -> phase c = Prevoting -> proposed_block c = Some b ->
  prevote_tally c = Some (PrevoteTallier_new b (height c) (round c) (vs c)) ->
  key_at (vs c) i sk -> quorum_threshold (vs c) <= stake_at (vs c) i ->
  exists t p, submit_prevote c (PrevoteVote_sign sk b (height c) (round c) i) =
    (enter_precommit (with_prevote_tally c t) b p, Ok tt).
Proof.
  intros Hi Hph Hb Ht Hkey Hq. set (v := PrevoteVote_sign _ _ _ _ _).
  pose proof (submit_prevote_inv c v Hi) as [_ Hnp]. revert Hnp. unfold submit_prevote.
  rewrite Hph, bool_decide_eq_true_2, Ht by done. cbn [negb].
  destruct (tally_at_submit (k := KPrevote) c b _ [] (fun _ => sk) i (tally_at_new c b (ci_vs c Hi)) Hkey)
    as [[t' Hs]|(t' & Hs & Hta & Hst)]; [set_solver| |].
  - unfold PrevoteTallier_submit, PrevoteTallier_new, v, PrevoteVote_sign in *. rewrite Hs. cbn.
    rewrite Hb.
    destruct (try_form_polc t') as [p|]; [|done]. intros _. by exists t', p.
  - pose proof (ta_below _ _ _ _ Hta). rewrite Hst in *. cbn in *. lia.
Qed.

Lemma solo_precommit c b i sk :
  coord_inv c -> phase c = Precommitting -> proposed_block c = Some b ->
  precommit_tally c = Some (PrecommitTallier_new b (height c) (round c) (vs c)) ->
  key_at (vs c) i sk -> quorum_threshold (vs c) <= stake_at (vs c) i ->
  exists t cert, submit_precommit c (PrecommitVote_sign sk b (height c) (round c) i) =
    (commit (with_precommit_tally c t) cert, Ok tt).
Proof.
  intros Hi Hph Hb Ht Hkey Hq. set (v := PrecommitVote_sign _ _ _ _ _).
  pose proof (submit_precommit_inv c v Hi) as [_ Hnp]. revert Hnp. unfold submit_precommit.
  rewrite Hph, bool_decide_eq_true_2, Ht by done. cbn [negb].
  destruct (tally_at_submit (k := KPrecommit) c b _ [] (fun _ => sk) i (tally_at_new c b (ci_vs c Hi)) Hkey)
    as [[t' Hs]|(t' & Hs & Hta & Hst)]; [set_solver| |].
  - unfold PrecommitTallier_submit, PrecommitTallier_new, v, PrecommitVote_sign in *. rewrite Hs. cbn.
    destruct (try_finalize t') as [p|]; [|done]. intros _. by exists t', p.
  - pose proof (ta_below _ _ _ _ Hta). rewrite Hst in *. cbn in *. lia.
Qed.

Lemma solo_round_commits self b n pf :
  vs_wf (validator_set (state self)) ->
  submit_proposal (Coordinator_new n (st_seed (state self)) (validator_set (state self))) b pf =
    (with_proposal (Coordinator_new n (st_seed (state self)) (validator_set (state self))) b, Ok tt) ->
  key_at (validator_set (state self)) (my_index (state self)) (my_bls_sk (config self)) ->
  quorum_threshold (validator_set (state self)) <=
    stake_at (validator_set (state self)) (my_index (state self)) ->
  exists c cert, solo_round self b n pf = Ok c /\ final_cert c = Some cert.
Proof.
  intros Hwf Hsp Hkey Hq. unfold solo_round. rewrite Hsp. cbn [mbind res_bind].
  pose proof (coord_inv_new n (st_seed (state self)) _ Hwf) as H0.
  set (c0 := Coordinator_new _ _ _) in *.
  pose proof (proj1 (submit_proposal_inv c0 b pf H0)) as H1. rewrite Hsp in H1. cbn [fst] in H1.
  destruct (solo_prevote (with_proposal c0 b) b (my_index (state self)) (my_bls_sk (config self)))
    as (t & p & Hpv); [done..|].
  pose proof (proj1 (submit_prevote_inv _ (PrevoteVote_sign (my_bls_sk (config self)) b n 0
    (my_index (state self))) H1)) as H2.
  cbn [with_proposal height round c0 Coordinator_new] in Hpv. rewrite Hpv in *. cbn [mbind res_bind fst] in *.
  match type of H2 with coord_inv ?c =>
    destruct (solo_precommit c b (my_index (state self)) (my_bls_sk (config self)))
      as (t2 & cert & Hpc); [done..|] end.
  cbn [with_proposal height round c0 Coordinator_new enter_precommit with_prevote_tally] in Hpc.
  rewrite Hpc. cbn. by eexists _, cert.
Qed.

(** One validator with some stake, below 2^63, is a quorum of its set. *)
Lemma singleton_quorum v :
  vs_wf v -> size v = 1 -> total_stake v < 9223372036854775808 ->
  quorum_threshold v <= stake_at v 0 /\ (forall s r h, select_leader v h r s = 0%nat) /\
  exists val, validators v = [val].
Proof.
  intros Hwf Hone Hlt. assert (exists val, validators v = [val]) as [val Hval].
  { unfold size, len in Hone. destruct (validators v) as [|val [|? ?]]; cbn in Hone; [lia|eauto|lia]. }
  pose proof (vs_total v Hwf) as Hw.
  split_and!; [|intros s r h|by exists val].
  - rewrite quorum_threshold_small by done. pose proof (vs_total_pos v Hwf).
    assert (stake_at v 0 = v_stake val) as -> by (unfold stake_at, get; by rewrite Hval).
    assert (total_stake v = v_stake val + 0) as Ht by (by rewrite Hw, Hval). div_lia.
  - destruct (select_leader_in v h r s Hwf) as (w & Hw' & _). rewrite Hval in Hw'.
    by destruct (select_leader v h r s) as [|[|?]].
Qed.
End solo.

(** Progress of the single-validator chain: an engine whose set is this
    validator alone (with its keys, total stake below 2^63) and whose head is below
    the last [u64] height always commits: [advance_single] succeeds, the block is
    on top of the old head at the next height with a prefix of the staged
    transactions, its certificate is final for it, and the head, seed and cache are
    updated to it. *)
Theorem advance_single_commits `{HL : PrimitiveLaws} `{R : Rlp} (self : BftEngine) (val : Validator) :
  engine_inv (state self) -> coordinator (state self) = None -> proposal (state self) = None ->
  validators (validator_set (state self)) = [val] ->
  total_stake (validator_set (state self)) < 9223372036854775808 ->
  v_bls_pubkey val = bls.public_key (my_bls_sk (config self)) ->
  v_vrf_pubkey val = sr_to_public (my_vrf_sk (config self)) ->
  head_number (state self) + 1 < u64_mod ->
  exists self' out,
    advance_single self = (self', Ok out) /\
    o_block_hash out = block_hash (o_block out) /\
    number (header (o_block out)) = head_number (state self) + 1 /\
    parent_hash (header (o_block out)) = head_hash (state self) /\
    transactions (body (o_block out)) ++ pending_txs self' = pending_txs self /\
    finality (state self) (o_block out) (head_number (state self) + 1) (o_certificate out) /\
    head_hash (state self') = o_block_hash out /\ head_number (state self') = head_number (state self) + 1 /\
    st_seed (state self') = mix_hash (header (o_block out)) /\
    recent_blocks (state self') = cache_recent_block (recent_blocks (state self)) (o_block out) (o_certificate out).
Proof.
  intros Hg Hnc Hnp Hval Hlt Hbls Hvrf Hmax. pose proof (ei_vs _ Hg) as Hwf.
  assert (Hone : size (validator_set (state self)) = 1) by (unfold size; by rewrite Hval).
  assert (Hidx : my_index (state self) = 0) by (pose proof (ei_index _ Hg); lia).
  destruct (singleton_quorum _ Hwf Hone Hlt) as (Hq & Hsel & _).
  unfold advance_single. rewrite Hone. cbn [N.eqb Pos.eqb negb].
  rewrite (proj2 (checked_add_Some _ _ _ _) (conj eq_refl Hmax)).
  set (n := head_number (state self) + 1) in *.
  destruct (drain_pending_txs_into_body self) as [b s] eqn:Ed.
  assert (Hd : state s = state self /\ config s = config self /\ transactions b ++ pending_txs s = pending_txs self).
  { unfold drain_pending_txs_into_body in Ed. simplify_eq. cbn. split_and!; try done. apply take_drop. }
  destruct Hd as (Hs & Hc & Htx). set (pf := LeaderProof_produce _ _ _ _). rewrite Hc.
  set (blk := build_block_with_body _ _ _ _ _ _ _).
  pose proof (produced_proof_accepted (Coordinator_new n (st_seed (state self)) (validator_set (state self)))
    (block_hash blk) val (my_vrf_sk (config self)) eq_refl) as Hsp.
  unfold leader_index in Hsp. cbn [Coordinator_new vs height round seed] in Hsp.
  rewrite Hsel, Hval in Hsp. specialize (Hsp eq_refl Hvrf).
  destruct (solo_round_commits s (block_hash blk) n pf) as (c & cert & Hsolo & Hcert);
    [by rewrite Hs|by rewrite Hs| |by rewrite Hs, Hidx|].
  { rewrite Hs, Hc, Hidx. exists val. split; [unfold get; by rewrite Hval|done]. }
  rewrite Hsolo. cbn. rewrite Hcert. cbn.
  destruct (solo_round_Ok _ _ _ _ _ ltac:(rewrite Hs; exact Hwf) Hsolo) as (Hi & Hh & Hv & Hb).
  eexists _, _. split; [reflexivity|]. cbn. split_and!; try done.
  rewrite <-Hh. rewrite Hs in Hv. by apply finality_of.
Qed.

(** ** Two hazards of the handlers *)
Section hazards.
Context `{HL : PrimitiveLaws} `{R : Rlp}.
Implicit Types (self : BftEngine) (g : BftEngineState).

(** A committed round without the block that it committed. *)
Definition stalled g : Prop := is_committed g = true /\ proposal g = None.

Lemma timeout_stalls self :
  is_committed (state self) = true ->
  (tick_timeout self).2 = Ok tt /\ stalled (state (tick_timeout self).1) /\
  same_head (state self) (state (tick_timeout self).1).
Proof.
  intros Hcom. unfold is_committed in Hcom.
  destruct (coordinator (state self)) as [c|] eqn:Ec; [|done]. apply bool_decide_eq_true in Hcom.
  unfold tick_timeout, ensure_coordinator. rewrite Ec, Ec.
  assert (fire_timeout c = c) as -> by (unfold fire_timeout; by rewrite bool_decide_eq_true_2).
  unfold then_drain.
  destruct (drain_loop_inv (eq c))
    with (fuel := S (buffered (with_round (state self) (Some c) None)))
         (g := with_round (state self) (Some c) None) as (g' & Hd & Hov & Hq & Hsome).
  - intros ? v <-. rewrite submit_prevote_wrong_phase by congruence. done.
  - intros ? v <-. rewrite submit_precommit_wrong_phase by congruence. done.
  - cbn. intros ? [= <-]. done.
  - lia.
  - unfold drain_pending_votes, buffered in *. rewrite Hd. cbn [fst snd with_state state].
    destruct Hsome as [c' Hc']; [by eexists|]. destruct (Hq _ Hc').
    split_and!; [done| | |by rewrite Hov..].
    + split; [|by rewrite Hov]. unfold is_committed. rewrite Hc'. by apply bool_decide_eq_true.
    + by rewrite Hov.
Qed.
End hazards.

(** A timeout that fires between the commit and the harvest loses the commit:
    [tick_timeout] on a committed round drops the captured block and keeps the
    committed coordinator, so the head stays, no harvest returns a block, every
    further proposal is refused, and further timeouts leave it so. *)
Theorem timeout_loses_commit `{HL : PrimitiveLaws} `{R : Rlp} (self : BftEngine) (n : nat) :
  is_committed (state self) = true ->
  let self' := Nat.iter (S n) (fun s => (tick_timeout s).1) self in
  same_head (state self) (state self') /\
  try_harvest_committed self' = (self', None) /\
  forall blk pf, (submit_remote_proposal self' blk pf).2 = Err (WrongPhase AwaitingProposal Committed).
Proof.
  intros Hcom self'.
  assert (same_head (state self) (state self') /\ stalled (state self')) as [Hs [Hc Hp]].
  { subst self'. induction n as [|n IH]; cbn in *.
    - by destruct (timeout_stalls self Hcom) as (_ & ? & ?).
    - destruct IH as [Hs [Hc _]]. destruct (timeout_stalls _ Hc) as (_ & ? & Hs').
      split; [|done]. destruct Hs as (? & ? & ? & ?), Hs' as (? & ? & ? & ?). split_and!; congruence. }
  split_and!; [done|..].
  - unfold try_harvest_committed. by rewrite Hc, Hp.
  - intros blk pf. unfold submit_remote_proposal, ensure_coordinator. unfold is_committed in Hc.
    destruct (coordinator (state self')) as [c|] eqn:Ec; [|done]. apply bool_decide_eq_true in Hc.
    rewrite Ec. unfold submit_proposal. rewrite Hc. done.
Qed.

(** Early votes: while the round waits for its proposal a PRE-VOTE of a height
    above the head is kept for later, as documented; but once a proposal is being
    voted on, a PRE-VOTE of a later round (whose block differs) is refused with
    [WrongBlockHash] and is not kept, because the tally compares the block hash
    before the round. *)
Theorem early_prevote_fate `{HL : PrimitiveLaws} `{R : Rlp} (self : BftEngine)
    (c : RoundCoordinator) (v : PrevoteVote) :
  engine_inv (state self) -> coordinator (state self) = Some c ->
  head_number (state self) < vote_height v ->
  let '(self', r) := submit_remote_prevote self v in
  (phase c = AwaitingProposal ->
   r = Ok tt /\ pending_prevotes (state self') = pending_prevotes (state self) ++ [v]) /\
  (phase c = Prevoting -> proposed_block c <> Some (vote_block_hash v) ->
   r = Err WrongBlockHash /\ pending_prevotes (state self') = pending_prevotes (state self) /\
   coordinator (state self') = Some c).
Proof.
  intros Hg Hc Hlt. unfold submit_remote_prevote. destruct (record_prevote _ _) as [d ev].
  cbn [with_detector head_number coordinator]. rewrite (proj2 (N.leb_gt _ _) Hlt), Hc.
  destruct (decide (phase c = Prevoting)) as [Hph|Hph].
  - pose proof (ci_phase _ (co_inv _ _ (ei_coord _ Hg _ Hc))) as Hp. unfold phase_inv in Hp.
    rewrite Hph in Hp. destruct Hp as (b & t & Hb & Ht & Hof & _).
    destruct (decide (b = vote_block_hash v)) as [->|Hne].
    + destruct (submit_prevote c v) as [c1 r]. destruct (match r with Ok _ => _ | Err _ => _ | Panic => _ end).
      split; congruence.
    + assert (submit_prevote c v = (c, Err WrongBlockHash)) as ->.
      { unfold submit_prevote. rewrite Hph, bool_decide_eq_true_2, Ht by done. cbn [negb].
        assert (Tallier_submit t v = (t, Err WrongBlockHash)) as Hs.
        { unfold Tallier_submit, check_vote. destruct Hof as (Hbt & _). rewrite Hbt.
          by rewrite (bool_decide_eq_false_2 (vote_block_hash v = b)) by (intros E; by apply Hne). }
        unfold PrevoteTallier_submit. rewrite Hs. f_equal. unfold with_prevote_tally.
        rewrite <-Ht. by destruct c. }
      cbn. split; [congruence|]. done.
  - rewrite submit_prevote_wrong_phase by done. cbn. split; [done|congruence].
Qed.
