(* ===== verification/EngineDemo.v ===== *)
(** * EngineDemo: concrete engines, and the instances of the engine's properties

    Four validators with the keys of [Demo] on a genesis at height 4; validator 0
    leads height 5 and validators 1 to 3 vote for its block. *)
From stdpp Require Import base tactics gmap numbers strings list.
From Stdlib Require Import NArith Lia.
From S2P Require Import Prelude Bytes Crypto Bft BftFacts Coordinator CoordinatorFacts Slashing.
From S2P Require Import Codec Tx ToyRlp Trie Block Engine EngineFacts EngineProps Demo.

Module EngineDemo.
Export Demo ToyRlp BlockDemo.

Definition cfg (i : N) : BftConfig :=
  mkConfig vset i (sk i) (vsk i) seed0 (be_array 20 i) 30000000 1000000000 3 None.
Definition genesis : Block := mkBlock header0 default_body.
Definition engine_of (i : N) : BftEngine := BftEngine_new (cfg i) genesis.

Lemma cfg_is_ok i : i < 4 -> cfg_ok (cfg i).
Proof. intros Hi. split; [apply vset_wf|exact Hi]. Qed.

Definition run_ops (e : BftEngine) (ops : list engine_op) : BftEngine :=
  foldl (fun e op => (engine_apply e op).1) e ops.

(** Operations that any state allows. *)
Definition free_op (op : engine_op) : bool :=
  match op with
  | OpCastProposal | OpCastPrevote | OpCastPrecommit | OpRemotePrevote _ | OpRemotePrecommit _
  | OpHarvest | OpAdopt _ _ | OpFastForward _ | OpTxs _ | OpDrainEvidence => true
  | _ => false
  end.

Lemma run_ops_reachable c e ops :
  engine_reachable c e -> forallb free_op ops = true -> engine_reachable c (run_ops e ops).
Proof.
  revert e. induction ops as [|op ops IH]; intros e He; [done|]. cbn.
  intros [Hop Hops]%andb_prop. apply IH; [|done]. apply er_step; [done|]. by destruct op.
Qed.

Lemma run_ops_chain c e ops :
  chain_reachable c e -> forallb free_op ops = true -> chain_reachable c (run_ops e ops).
Proof.
  revert e. induction ops as [|op ops IH]; intros e He; [done|]. cbn.
  intros [Hop Hops]%andb_prop. apply IH; [|done]. apply cr_step; [done|by destruct op..].
Qed.

(** The leader's engine with two staged transactions, and its proposal. *)
Definition txs : list Tx := [tx0; tx1].
Definition leader : BftEngine := run_ops (engine_of 0) [OpTxs txs].
Definition proposed : Block * LeaderProof :=
  match (cast_proposal leader).2 with
  | Ok p => p
  | _ => (genesis, proof0)
  end.
Definition blk : Block := proposed.1.

Definition votes (b : H256) : list engine_op :=
  (OpRemotePrevote <$> prevotes b) ++ (OpRemotePrecommit <$> precommits b).
Definition proposing : BftEngine := (engine_apply leader OpCastProposal).1.
Definition committed_engine : BftEngine := run_ops proposing (votes (block_hash blk)).

Lemma leader_reachable : engine_reachable (cfg 0) leader.
Proof. apply run_ops_reachable; [apply er_new|reflexivity]. Qed.

Lemma proposing_reachable : engine_reachable (cfg 0) proposing.
Proof. apply (er_step _ leader OpCastProposal); [apply leader_reachable|exact I]. Qed.

Lemma committed_engine_reachable : engine_reachable (cfg 0) committed_engine.
Proof. apply run_ops_reachable; [apply proposing_reachable|reflexivity]. Qed.

Lemma committed_engine_chain : chain_reachable (cfg 0) committed_engine.
Proof.
  apply run_ops_chain; [|reflexivity]. apply (cr_step _ leader OpCastProposal); [|exact I..].
  apply run_ops_chain; [apply cr_new|reflexivity].
Qed.

Lemma committed_engine_committed : is_committed (state committed_engine) = true.
Proof. vm_compute. reflexivity. Qed.

Definition final : PrecommitCertificate :=
  default (mkCertificate KPrecommit (zero_array 32) 0 0 0 (zero_array 96))
    (coordinator (state committed_engine) ≫= final_cert).

(** The follower 3 adopts the block with the certificate. *)
Lemma adoptable3 : adoptable (state (engine_of 3)) blk final.
Proof. split_and!; vm_compute; reflexivity. Qed.

Lemma engine_is_inv i : i < 4 -> engine_inv (state (engine_of i)).
Proof. intros Hi. apply initial_inv. by apply cfg_is_ok. Qed.

(** A chain of one validator. *)
Definition solo_set : ValidatorSet := mkValidatorSet [validator 0 10] 10.
Definition solo_cfg : BftConfig :=
  mkConfig solo_set 0 (sk 0) (vsk 0) seed0 (be_array 20 0) 42000 1000000000 3 None.
Definition solo : BftEngine := extend_pending_txs (BftEngine_new solo_cfg genesis) txs.

Lemma solo_cfg_ok : cfg_ok solo_cfg.
Proof. split; [|reflexivity]. split; [discriminate|by vm_compute..]. Qed.
End EngineDemo.
Import EngineDemo.

Lemma engine_never_panics_witness :
  (engine_apply EngineDemo.committed_engine OpHarvest).2 <> Panic /\
  engine_inv (state (engine_apply EngineDemo.committed_engine OpHarvest).1).
Proof.
  apply (engine_never_panics (HL := Toy.laws) (EngineDemo.cfg 0));
    [apply EngineDemo.cfg_is_ok; reflexivity|apply EngineDemo.committed_engine_reachable|exact I].
Defined.

Lemma harvest_finalizes_witness :
  exists blk, (try_harvest_committed EngineDemo.committed_engine).2 = Some blk /\
    head_hash (state (try_harvest_committed EngineDemo.committed_engine).1) = block_hash blk.
Proof.
  destruct (harvest_finalizes (HL := Toy.laws) (EngineDemo.cfg 0) EngineDemo.committed_engine
    (EngineDemo.cfg_is_ok 0 eq_refl) EngineDemo.committed_engine_reachable
    EngineDemo.committed_engine_committed) as (c & blk & pf & cert & self' & Heq & _ & _ & _ & Hh & _).
  exists blk. rewrite Heq. by split.
Defined.

Lemma adopt_body_unchecked_witness :
  let forged := mkBlock (header EngineDemo.blk) default_body in
  (adopt_synced_block (EngineDemo.engine_of 3) forged EngineDemo.final).2 = Ok forged.
Proof.
  exact (proj1 (adopt_body_unchecked (EngineDemo.engine_of 3) EngineDemo.blk EngineDemo.final default_body
    (f_equal snd (adopt_Ok (EngineDemo.engine_of 3) EngineDemo.blk EngineDemo.final EngineDemo.adoptable3)))).
Defined.

Lemma heads_form_chain_witness :
  same_head (state EngineDemo.committed_engine)
    (state (engine_apply EngineDemo.committed_engine OpHarvest).1) \/
  extends (state EngineDemo.committed_engine)
    (state (engine_apply EngineDemo.committed_engine OpHarvest).1).
Proof.
  exact (heads_form_chain (HL := Toy.laws) (EngineDemo.cfg 0) EngineDemo.committed_engine OpHarvest
    (EngineDemo.cfg_is_ok 0 eq_refl) EngineDemo.committed_engine_chain I I).
Defined.

Lemma cache_keeps_recent_witness :
  cache_recent_block ∅ EngineDemo.blk EngineDemo.final !! number (header EngineDemo.blk) =
    Some (EngineDemo.blk, EngineDemo.final).
Proof.
  assert (Hm : forall h x, (∅ : gmap N RecentCommittedBlock) !! h = Some x ->
    h <= number (header EngineDemo.blk)) by (intros h x Hx; by rewrite lookup_empty in Hx).
  destruct (cache_keeps_recent ∅ EngineDemo.blk EngineDemo.final Hm) as (_ & Hk & _). exact Hk.
Defined.

Lemma timeout_loses_commit_witness :
  let self' := Nat.iter 1 (fun s => (tick_timeout s).1) EngineDemo.committed_engine in
  try_harvest_committed self' = (self', None).
Proof.
  destruct (timeout_loses_commit (HL := Toy.laws) EngineDemo.committed_engine 0
    EngineDemo.committed_engine_committed) as (_ & Hh & _). exact Hh.
Defined.

Lemma early_prevote_fate_witness :
  (submit_remote_prevote EngineDemo.proposing
     (vote_sign KPrevote (Demo.sk 1) Demo.block_b 5 1 1)).2 = Err WrongBlockHash.
Proof.
  set (v := @vote_sign Toy.prims KPrevote (Demo.sk 1) Demo.block_b 5 1 1).
  assert (Hc : is_Some (coordinator (state EngineDemo.proposing))).
  { assert ((if coordinator (state EngineDemo.proposing) then true else false) = true) as Hb
      by (vm_compute; reflexivity).
    destruct (coordinator (state EngineDemo.proposing)); [eauto|discriminate Hb]. }
  assert (Hph : phase <$> coordinator (state EngineDemo.proposing) = Some Prevoting)
    by (vm_compute; reflexivity).
  assert (Hb : bool_decide ((coordinator (state EngineDemo.proposing) ≫= proposed_block) =
    Some Demo.block_b) = false) by (vm_compute; reflexivity).
  destruct Hc as [c Hc]. rewrite Hc in Hph, Hb. cbn in Hph, Hb. injection Hph as Hph.
  apply bool_decide_eq_false in Hb.
  pose proof (early_prevote_fate (HL := Toy.laws) EngineDemo.proposing c v
    (engine_reachable_inv (HL := Toy.laws) _ _ (EngineDemo.cfg_is_ok 0 eq_refl) EngineDemo.proposing_reachable)
    Hc eq_refl) as H.
  destruct (submit_remote_prevote EngineDemo.proposing v) as [s r]. exact (proj1 (proj2 H Hph Hb)).
Defined.

Lemma advance_single_commits_witness :
  exists self' out, advance_single EngineDemo.solo = (self', Ok out) /\
    number (header (o_block out)) = head_number (state EngineDemo.solo) + 1.
Proof.
  destruct (advance_single_commits (HL := Toy.laws) EngineDemo.solo (Demo.validator 0 10)
    (initial_inv EngineDemo.solo_cfg EngineDemo.genesis Demo.seed0 EngineDemo.solo_cfg_ok)
    eq_refl eq_refl eq_refl eq_refl eq_refl eq_refl eq_refl) as (self' & out & Ha & _ & Hn & _).
  exists self', out. by split.
Defined.

Lemma follower_accepts_leader_witness :
  reconstruct_proposed_block_with_body (EngineDemo.engine_of 1) (number (header EngineDemo.blk))
    EngineDemo.proposed.2 (beneficiary (header EngineDemo.blk)) (body EngineDemo.blk) = EngineDemo.blk /\
  (submit_remote_proposal (EngineDemo.engine_of 1) EngineDemo.blk EngineDemo.proposed.2).2 = Ok tt.
Proof.
  assert (Hcast : cast_proposal EngineDemo.leader =
    ((cast_proposal EngineDemo.leader).1, Ok (EngineDemo.blk, EngineDemo.proposed.2))).
  { unfold EngineDemo.blk, EngineDemo.proposed.
    assert (Hok : is_ok (cast_proposal EngineDemo.leader).2 = true) by (vm_compute; reflexivity).
    destruct (cast_proposal EngineDemo.leader) as [s [[b p]|e|]]; [reflexivity|discriminate Hok..]. }
  assert (Hidx : leader_index (new_coordinator (state EngineDemo.leader)) = 0%nat) by (vm_compute; reflexivity).
  pose proof (follower_accepts_leader (HL := Toy.laws) EngineDemo.leader _ (EngineDemo.engine_of 1)
    (new_coordinator (state EngineDemo.leader)) (new_coordinator (state (EngineDemo.engine_of 1)))
    (Demo.validator 0 10) EngineDemo.blk EngineDemo.proposed.2
    (engine_reachable_inv (HL := Toy.laws) _ _ (EngineDemo.cfg_is_ok 0 eq_refl) EngineDemo.leader_reachable)
    (EngineDemo.engine_is_inv 1 eq_refl) ltac:(split; reflexivity) Hcast eq_refl
    ltac:(rewrite Hidx; reflexivity) eq_refl eq_refl eq_refl eq_refl) as H.
  destruct H as (_ & _ & _ & _ & Hr & Hs). exact (conj Hr Hs).
Defined.
