(* ===== verification/ConsensusBft.v ===== *)
(** * ConsensusBft: the BFT engine behind the engine interface

    The instance of [Engine] for [BftEngine] (the [impl] at the end of [engine.rs]) and
    its laws; the driver of [Consensus] then applies to it unchanged. *)
From stdpp Require Import base tactics gmap numbers strings list.
From Stdlib Require Import NArith Lia.
From S2P Require Import Prelude Bytes Crypto Bft BftFacts Coordinator CoordinatorFacts Slashing Codec Tx ToyRlp Trie Block.
From S2P Require Import Engine EngineFacts EngineProps EngineDemo Consensus.

#[export] Instance bft_engine `{Primitives} `{Rlp} : Consensus.Engine BftEngine := {
  eng_init := Engine_init;
  eng_step := Engine_step;
  eng_head self := head_hash (state self);
  eng_coinbase self := Some (coinbase (config self))
}.

Section bft.
Context `{HL : PrimitiveLaws} `{R : Rlp}.

(** What a step changes, by its result. *)
Definition stepped (g g' : BftEngineState) (r : option H256) : Prop :=
  match r with
  | Some h => head_hash g' = h /\ head_number g' = next_height g
  | None => head_hash g' = head_hash g /\ head_number g' = head_number g
  end.

Definition new_head (r : res ConsensusError EngineProgress) : option H256 :=
  match r with Ok (NewBlock h) => Some h | _ => None end.

Definition keeps_idle g g' : Prop :=
  validator_set g' = validator_set g /\ coordinator g' = coordinator g /\ proposal g' = proposal g.

Lemma advance_stepped self :
  head_number (state self) < u64_mod - 1 ->
  let '(self', r) := advance_single self in
  stepped (state self) (state self') (match r with Ok out => Some (o_block_hash out) | _ => None end) /\
  keeps_idle (state self) (state self').
Proof.
  intros Hn. unfold advance_single. destruct (negb _); [done|].
  unfold checked_add. rewrite (proj2 (N.ltb_lt _ _)) by lia. cbn [drain_pending_txs_into_body].
  set (blk := build_block_with_body _ _ _ _ _ _ _).
  destruct (_ ≫= _) as [cert|e|]; cbn; [|done..].
  split; [|done]. split; [done|]. unfold next_height. by rewrite wrapping_add_small by lia.
Qed.

Lemma step_stepped self :
  engine_inv (state self) -> chain_inv (state self) -> head_number (state self) < u64_mod - 1 ->
  let '(self', r) := Engine_step self in
  stepped (state self) (state self') (new_head r) /\
  (size (validator_set (state self)) = 1 -> keeps_idle (state self) (state self')) /\
  validator_set (state self') = validator_set (state self).
Proof.
  intros Hg Hc Hn. unfold Engine_step, is_single_validator.
  destruct (N.eqb_spec (size (validator_set (state self))) 1) as [E|].
  - pose proof (advance_stepped self Hn) as Ha. destruct (advance_single self) as [s r].
    destruct Ha as [Hs Hk]. split_and!; [by destruct r|done|apply Hk].
  - destruct (is_committed (state self)) eqn:Ecom; cbn [negb]; [|done].
    destruct (harvest_spec self Hg Ecom) as (c & blk & pf & cert & Hcoord & Hp & Hcert & _).
    rewrite Hp, Hcoord. cbn. rewrite Hcert. cbn. split_and!; [done|by apply (Hc blk pf)|done|done].
Qed.

(** The states of a driver: a single validator has no round open. *)
Definition drivable (self : BftEngine) : Prop :=
  engine_inv (state self) /\ chain_inv (state self) /\
  (size (validator_set (state self)) = 1 -> coordinator (state self) = None /\ proposal (state self) = None).

#[export] Instance bft_laws : EngineLaws BftEngine.
Proof.
  refine {| eng_ok := drivable; eng_number self := head_number (state self) |}.
  - intros e genesis. eexists. by split_and!.
  - intros e (Hg & Hc & H1) Hn. cbn [eng_step eng_head bft_engine].
    pose proof (step_inv e Hg (fun E => proj1 (H1 E))) as [Hg' Hnp].
    pose proof (step_step e Hg Hc (fun E => proj2 (H1 E))) as Hstep.
    pose proof (step_stepped e Hg Hc Hn) as Hs. destruct (Engine_step e) as [e' r]. cbn [fst snd] in *.
    destruct Hs as (Hs & Hk & Hv). split_and!; [split_and!; [done|by eapply chain_step_inv|]|done|].
    + rewrite Hv. intros E. destruct (Hk E) as (_ & -> & ->). by apply H1.
    + destruct r as [[|h]|err|]; try done. destruct Hs as [Hh Hnum]. split; [done|]. rewrite Hnum.
      unfold next_height. apply wrapping_add_small. lia.
Defined.

(** A fresh BFT engine can be driven. *)
Lemma new_drivable (cfg : BftConfig) (genesis : Block) : cfg_ok cfg -> drivable (BftEngine_new cfg genesis).
Proof. intros Hcfg. split_and!; [by apply initial_inv|done|done]. Qed.
End bft.

Import EngineDemo.

(** Three steps of the single validator of [EngineDemo]. *)
Lemma driver_follows_head_witness :
  exists h1 h2 h3, run_steps 3 (BftEngine_new solo_cfg genesis) =
      ((run_steps 3 (BftEngine_new solo_cfg genesis)).1, [h1; h2; h3]) /\
    eng_head (run_steps 3 (BftEngine_new solo_cfg genesis)).1 = h3.
Proof.
  pose proof (driver_follows_head (HL := bft_laws) 3
    (BftEngine_new solo_cfg genesis)
    (new_drivable solo_cfg genesis solo_cfg_ok) eq_refl) as Hd.
  assert (length (run_steps 3 (BftEngine_new solo_cfg genesis)).2 = 3%nat) as Hl
    by (vm_compute; reflexivity).
  destruct (run_steps 3 _) as [e hs]. cbn [fst snd] in *. destruct Hd as (_ & Hh & _).
  destruct hs as [|h1 [|h2 [|h3 [|]]]]; try discriminate Hl. exists h1, h2, h3. split; [reflexivity|exact Hh].
Defined.
