(* ===== verification/Wire.v ===== *)
(** * Wire: the byte format of the consensus messages

    Models [src/crates/aii-consensus-bft/src/wire.rs].  A slice of the source
    that could be out of range is [slice], which panics; [decode] is shown never
    to reach that, to read back every message [encode] wrote, and to accept no
    other bytes. *)
From stdpp Require Import base tactics gmap numbers strings list.
From Stdlib Require Import NArith Lia.
From Stdlib.Init Require Import Byte.
From Stdlib.Strings Require Byte.
From S2P Require Import Prelude Bytes Crypto Bft Demo.

Definition TAG_PROPOSAL : byte := x00.
Definition TAG_PREVOTE : byte := x01.
Definition TAG_PRECOMMIT : byte := x02.
Definition TAG_BLOCK_REQUEST : byte := x03.
Definition TAG_BLOCK_RESPONSE : byte := x04.

Definition BLOCK_REQUEST_LEN : N := 1 + 8.
Definition BLOCK_RESPONSE_HEADER_LEN : N := 1 + 4.
Definition BLOCK_CERT_LEN : N := 32 + 8 + 4 + 16 + 96.
Definition BLOCK_RESPONSE_MIN_LEN : N := BLOCK_RESPONSE_HEADER_LEN + BLOCK_CERT_LEN.
Definition PROPOSAL_HEADER_LEN : N := 1 + 8 + 4 + 32 + 32 + 64 + 32 + 20.
Definition PROPOSAL_MIN_LEN : N := PROPOSAL_HEADER_LEN + 4.
Definition MAX_PROPOSAL_BODY_LEN : N := 16 * 1024 * 1024.
Definition MAX_BLOCK_RESPONSE_LEN : N := MAX_PROPOSAL_BODY_LEN + 64 * 1024.
Definition VOTE_LEN : N := 1 + 32 + 8 + 4 + 4 + 96.

Inductive CodecError :=
| Empty
| UnknownTag (t : byte)
| WrongLength (expected got : N)
| InvalidBlsSignature
| ProposalBodyTooLarge (max got : N)
| BlockResponseTooLarge (max got : N).

Section wire.
Context `{Primitives}.

Inductive BftMessage :=
| Proposal (height round : N) (block_hash : H256) (leader_proof : LeaderProof)
    (coinbase : Address) (body_bytes : bytes)
| Prevote (v : PrevoteVote)
| Precommit (v : PrecommitVote)
| BlockRequest (height : N)
| BlockResponse (block_bytes : bytes) (certificate : PrecommitCertificate).

Definition tag (m : BftMessage) : byte :=
  match m with
  | Proposal _ _ _ _ _ _ => TAG_PROPOSAL
  | Prevote _ => TAG_PREVOTE
  | Precommit _ => TAG_PRECOMMIT
  | BlockRequest _ => TAG_BLOCK_REQUEST
  | BlockResponse _ _ => TAG_BLOCK_RESPONSE
  end.

Definition encoded_len (m : BftMessage) : N :=
  match m with
  | Proposal _ _ _ _ _ b => PROPOSAL_MIN_LEN + len b
  | Prevote _ | Precommit _ => VOTE_LEN
  | BlockRequest _ => BLOCK_REQUEST_LEN
  | BlockResponse b _ => BLOCK_RESPONSE_HEADER_LEN + len b + BLOCK_CERT_LEN
  end.

(** [u32::try_from(len).unwrap_or(u32::MAX)] *)
Definition len_u32 (b : bytes) : N := N.min (len b) (u32_mod - 1).

Definition encode_vote_body (block_hash : H256) (height round validator_index : N) : bytes :=
  arr_bytes block_hash ++ be_bytes 8 height ++ be_bytes 4 round ++ be_bytes 4 validator_index.

Definition encode_vote {k} (t : byte) (v : vote k) : bytes :=
  [t] ++ encode_vote_body (vote_block_hash v) (vote_height v) (vote_round v) (vote_index v) ++
  arr_bytes (bls.Signature_to_compressed (vote_sig v)).

Definition encode_precommit_certificate (c : PrecommitCertificate) : bytes :=
  arr_bytes (c_block_hash c) ++ be_bytes 8 (c_height c) ++ be_bytes 4 (c_round c) ++
  be_bytes 16 (signer_bitmap c) ++ arr_bytes (bls.Signature_to_compressed (aggregated_sig c)).

Definition encode (m : BftMessage) : bytes :=
  match m with
  | Proposal height round block_hash pf coinbase body_bytes =>
      [TAG_PROPOSAL] ++ be_bytes 8 height ++ be_bytes 4 round ++ arr_bytes block_hash ++
      arr_bytes (pre_output (vrf_proof pf)) ++ arr_bytes (proof (vrf_proof pf)) ++
      arr_bytes (vrf_output pf) ++ arr_bytes coinbase ++ be_bytes 4 (len_u32 body_bytes) ++
      body_bytes
  | Prevote v => encode_vote TAG_PREVOTE v
  | Precommit v => encode_vote TAG_PRECOMMIT v
  | BlockRequest height => [TAG_BLOCK_REQUEST] ++ be_bytes 8 height
  | BlockResponse block_bytes c =>
      [TAG_BLOCK_RESPONSE] ++ be_bytes 4 (len_u32 block_bytes) ++ block_bytes ++
      encode_precommit_certificate c
  end.

Definition decode_proposal (b : bytes) : res CodecError BftMessage :=
  _ ← guard_err (len b <? PROPOSAL_MIN_LEN) (WrongLength PROPOSAL_MIN_LEN (len b));
  height ← slice_be 8 b 1;
  round ← slice_be 4 b 9;
  block_hash ← slice_array 32 b 13;
  pre_output ← slice_array 32 b 45;
  proof ← slice_array 64 b 77;
  vrf_output ← slice_array 32 b 141;
  coinbase ← slice_array 20 b 173;
  body_len ← slice_be 4 b 193;
  _ ← guard_err (MAX_PROPOSAL_BODY_LEN <? body_len)
        (ProposalBodyTooLarge MAX_PROPOSAL_BODY_LEN body_len);
  let expected_total := PROPOSAL_MIN_LEN + body_len in
  _ ← guard_err (negb (len b =? expected_total)) (WrongLength expected_total (len b));
  body_bytes ← slice b 197 (N.to_nat body_len);
  mret (Proposal height round block_hash (mkLeaderProof (mkVrfProof pre_output proof) vrf_output)
          coinbase body_bytes).

(** The fields of a vote; the caller's tag selects the variant. *)
Definition decode_vote_fields (k : vote_kind) (b : bytes) : res CodecError (vote k) :=
  _ ← guard_err (negb (len b =? VOTE_LEN)) (WrongLength VOTE_LEN (len b));
  block_hash ← slice_array 32 b 1;
  height ← slice_be 8 b 33;
  round ← slice_be 4 b 41;
  validator_index ← slice_be 4 b 45;
  sig_bytes ← slice_array 96 b 49;
  bls_sig ← map_err (fun _ => InvalidBlsSignature) (bls.Signature_from_compressed sig_bytes);
  mret (mkVote k block_hash height round validator_index bls_sig).

Definition decode_vote (b : bytes) (t : byte) : res CodecError BftMessage :=
  if bool_decide (t = TAG_PREVOTE)
  then Prevote <$> decode_vote_fields KPrevote b
  else Precommit <$> decode_vote_fields KPrecommit b.

Definition decode_block_request (b : bytes) : res CodecError BftMessage :=
  _ ← guard_err (negb (len b =? BLOCK_REQUEST_LEN)) (WrongLength BLOCK_REQUEST_LEN (len b));
  height ← slice_be 8 b 1;
  mret (BlockRequest height).

Definition decode_precommit_certificate (b : bytes) : res CodecError PrecommitCertificate :=
  _ ← guard_err (negb (len b =? BLOCK_CERT_LEN)) (WrongLength BLOCK_CERT_LEN (len b));
  block_hash ← slice_array 32 b 0;
  height ← slice_be 8 b 32;
  round ← slice_be 4 b 40;
  bitmap ← slice_be 16 b 44;
  sig_bytes ← slice_array 96 b 60;
  agg ← map_err (fun _ => InvalidBlsSignature) (bls.Signature_from_compressed sig_bytes);
  mret (mkCertificate KPrecommit block_hash height round bitmap agg).

Definition decode_block_response (b : bytes) : res CodecError BftMessage :=
  _ ← guard_err (len b <? BLOCK_RESPONSE_MIN_LEN) (WrongLength BLOCK_RESPONSE_MIN_LEN (len b));
  n ← slice_be 4 b 1;
  _ ← guard_err (MAX_BLOCK_RESPONSE_LEN <? n) (BlockResponseTooLarge MAX_BLOCK_RESPONSE_LEN n);
  let expected_total := BLOCK_RESPONSE_HEADER_LEN + n + BLOCK_CERT_LEN in
  _ ← guard_err (negb (len b =? expected_total)) (WrongLength expected_total (len b));
  block_bytes ← slice b 5 (N.to_nat n);
  cert_bytes ← slice b (5 + N.to_nat n) (length b - (5 + N.to_nat n));
  certificate ← decode_precommit_certificate cert_bytes;
  mret (BlockResponse block_bytes certificate).

Definition decode (b : bytes) : res CodecError BftMessage :=
  match b with
  | [] => Err Empty
  | t :: _ =>
      if bool_decide (t = TAG_PROPOSAL) then decode_proposal b
      else if bool_decide (t = TAG_PREVOTE) then decode_vote b TAG_PREVOTE
      else if bool_decide (t = TAG_PRECOMMIT) then decode_vote b TAG_PRECOMMIT
      else if bool_decide (t = TAG_BLOCK_REQUEST) then decode_block_request b
      else if bool_decide (t = TAG_BLOCK_RESPONSE) then decode_block_response b
      else Err (UnknownTag t)
  end.

(** The messages that fit their machine types and the caps. *)
Definition vote_fits {k} (v : vote k) : Prop :=
  vote_height v < u64_mod /\ vote_round v < u32_mod /\ vote_index v < u32_mod.

Definition msg_wf (m : BftMessage) : Prop :=
  match m with
  | Proposal h r _ _ _ b => h < u64_mod /\ r < u32_mod /\ len b <= MAX_PROPOSAL_BODY_LEN
  | Prevote v => vote_fits v
  | Precommit v => vote_fits v
  | BlockRequest h => h < u64_mod
  | BlockResponse b c => len b <= MAX_BLOCK_RESPONSE_LEN /\ c_height c < u64_mod /\
      c_round c < u32_mod /\ signer_bitmap c < u128_mod
  end.
End wire.

(** ** The decoder never slices out of range *)
Section total.
Context `{Primitives}.

(** A panic of a chain of reads is a panic of one of them. *)
Ltac no_panic H :=
  repeat match type of H with
  | _ ≫= _ = Panic => apply bind_Panic in H as [H|(? & ? & H)]
  | guard_err ?b _ = Panic => by destruct b
  | slice_be _ _ _ = Panic => revert H; apply slice_be_fits
  | slice_array _ _ _ = Panic => revert H; apply slice_array_fits
  | slice _ _ _ = Panic => revert H; apply slice_fits
  | mret _ = Panic => discriminate H
  end.

(** The length that a passed check establishes. *)
Ltac have_len :=
  repeat match goal with
  | H : guard_err _ _ = Ok _ |- _ => apply guard_err_Ok in H
  | H : negb (_ =? _) = false |- _ => apply negb_false_iff, N.eqb_eq in H
  | H : (_ <? _) = false |- _ => apply N.ltb_ge in H
  end; unfold len, VOTE_LEN, PROPOSAL_MIN_LEN, PROPOSAL_HEADER_LEN, BLOCK_REQUEST_LEN,
    BLOCK_CERT_LEN, BLOCK_RESPONSE_MIN_LEN, BLOCK_RESPONSE_HEADER_LEN in *; lia.

Lemma from_compressed_no_panic b : bls.Signature_from_compressed b <> Panic.
Proof. unfold bls.Signature_from_compressed. by destruct (blst_sig_from_bytes b). Qed.

Lemma decode_vote_fields_no_panic k b : decode_vote_fields k b <> Panic.
Proof.
  intros Hp. unfold decode_vote_fields in Hp. no_panic Hp; try have_len.
  by destruct (bls.Signature_from_compressed _) eqn:E; [| |apply from_compressed_no_panic in E].
Qed.

Lemma decode_certificate_no_panic b : decode_precommit_certificate b <> Panic.
Proof.
  intros Hp. unfold decode_precommit_certificate in Hp. no_panic Hp; try have_len.
  by destruct (bls.Signature_from_compressed _) eqn:E; [| |apply from_compressed_no_panic in E].
Qed.

Lemma decode_proposal_no_panic b : decode_proposal b <> Panic.
Proof. intros Hp. unfold decode_proposal in Hp. no_panic Hp; have_len. Qed.

Lemma decode_block_response_no_panic b : decode_block_response b <> Panic.
Proof.
  intros Hp. unfold decode_block_response in Hp.
  no_panic Hp; try have_len. by apply decode_certificate_no_panic in Hp.
Qed.

Lemma decode_no_panic b : decode b <> Panic.
Proof.
  unfold decode. destruct b as [|t l]; [done|].
  assert (Hv : forall b t, decode_vote b t <> Panic).
  { intros b' t'. unfold decode_vote. pose proof (decode_vote_fields_no_panic KPrevote b').
    pose proof (decode_vote_fields_no_panic KPrecommit b').
    destruct (bool_decide _); [by destruct (decode_vote_fields KPrevote b')|
                               by destruct (decode_vote_fields KPrecommit b')]. }
  repeat case_bool_decide; try done.
  - apply decode_proposal_no_panic.
  - intros Hp. unfold decode_block_request in Hp. no_panic Hp; have_len.
  - apply decode_block_response_no_panic.
Qed.
End total.

(** ** Encoding and decoding *)
Section roundtrip.
Context `{HL : PrimitiveLaws}.

(** Read the field that the rest of the buffer starts with, and advance. *)
Ltac read_be H :=
  match type of H with drop ?off ?b = be_bytes ?n ?x ++ ?rest =>
    let Hs := fresh in let Hd := fresh in
    destruct (slice_be_cursor (E := CodecError) b off n x rest H) as [Hs Hd]; [assumption || reflexivity|lia|];
    cbn [Nat.add] in Hd; rewrite Hs; clear H Hs; rename Hd into H; cbn [mbind res_bind]
  end.
Ltac read_array H :=
  match type of H with drop ?off ?b = arr_bytes (n := ?n) ?a ++ ?rest =>
    let Hs := fresh in let Hd := fresh in
    destruct (slice_array_cursor (E := CodecError) n b off a rest H) as [Hs Hd]; [lia|];
    cbn [Nat.add] in Hd; rewrite Hs; clear H Hs; rename Hd into H; cbn [mbind res_bind]
  end.

Lemma signature_roundtrip s :
  bls.Signature_from_compressed (bls.Signature_to_compressed s) = Ok s.
Proof.
  unfold bls.Signature_from_compressed, bls.Signature_to_compressed. by rewrite blst_sig_roundtrip.
Qed.

Lemma len_encode_vote {k} t (v : vote k) : len (encode_vote t v) = VOTE_LEN.
Proof.
  unfold encode_vote, encode_vote_body, len. rewrite !length_app, !length_be_bytes, !arr_length. done.
Qed.

Lemma decode_encode_vote {k} t (v : vote k) :
  vote_fits v -> decode_vote_fields k (encode_vote t v) = Ok v.
Proof.
  intros (Hh & Hr & Hi). unfold decode_vote_fields.
  rewrite len_encode_vote, N.eqb_refl. cbn [negb guard_err mbind res_bind].
  assert (H : drop 1 (encode_vote t v) = arr_bytes (vote_block_hash v) ++ be_bytes 8 (vote_height v) ++
    be_bytes 4 (vote_round v) ++ be_bytes 4 (vote_index v) ++
    arr_bytes (bls.Signature_to_compressed (vote_sig v)) ++ []).
  { unfold encode_vote, encode_vote_body. cbn [drop app]. by rewrite <-!app_assoc, app_nil_r. }
  read_array H. read_be H. read_be H. read_be H. read_array H.
  rewrite signature_roundtrip. cbn. by destruct v.
Qed.

Lemma decode_encode_certificate c :
  c_height c < u64_mod -> c_round c < u32_mod -> signer_bitmap c < u128_mod ->
  decode_precommit_certificate (encode_precommit_certificate c) = Ok c.
Proof.
  intros Hh Hr Hb. unfold decode_precommit_certificate.
  assert (len (encode_precommit_certificate c) = BLOCK_CERT_LEN) as ->.
  { unfold encode_precommit_certificate, len. by rewrite !length_app, !length_be_bytes, !arr_length. }
  rewrite N.eqb_refl. cbn [negb guard_err mbind res_bind].
  assert (H : drop 0 (encode_precommit_certificate c) = arr_bytes (c_block_hash c) ++
    be_bytes 8 (c_height c) ++ be_bytes 4 (c_round c) ++ be_bytes 16 (signer_bitmap c) ++
    arr_bytes (bls.Signature_to_compressed (aggregated_sig c)) ++ []).
  { unfold encode_precommit_certificate. cbn [drop]. by rewrite app_nil_r. }
  read_array H. read_be H. read_be H. read_be H. read_array H.
  rewrite signature_roundtrip. cbn. by destruct c.
Qed.

Lemma len_encode m : msg_wf m -> len (encode m) = encoded_len m.
Proof.
  destruct m; cbn [encode encoded_len]; intros Hwf; rewrite ?len_encode_vote; try done;
    unfold encode_precommit_certificate, len;
    rewrite ?length_app, ?length_be_bytes, ?arr_length; cbn [length];
    unfold PROPOSAL_MIN_LEN, PROPOSAL_HEADER_LEN, BLOCK_RESPONSE_HEADER_LEN, BLOCK_CERT_LEN,
      BLOCK_REQUEST_LEN; lia.
Qed.

Lemma decode_encode_proposal h r bh pf cb b :
  msg_wf (Proposal h r bh pf cb b) ->
  decode_proposal (encode (Proposal h r bh pf cb b)) = Ok (Proposal h r bh pf cb b).
Proof.
  intros Hwf. pose proof Hwf as (Hh & Hr & Hb). unfold decode_proposal.
  set (e := encode (Proposal h r bh pf cb b)).
  assert (Hlen : len e = PROPOSAL_MIN_LEN + len b) by apply (len_encode _ Hwf).
  assert (Hu : len_u32 b = len b) by (unfold len_u32, MAX_PROPOSAL_BODY_LEN in *; lia).
  assert (Hl : len b < 256 ^ N.of_nat 4) by (unfold MAX_PROPOSAL_BODY_LEN in *; cbn; lia).
  rewrite Hlen. rewrite (proj2 (N.ltb_ge _ _)) by lia. cbn [guard_err mbind res_bind].
  assert (H : drop 1 e = be_bytes 8 h ++ be_bytes 4 r ++ arr_bytes bh ++
    arr_bytes (pre_output (vrf_proof pf)) ++ arr_bytes (proof (vrf_proof pf)) ++
    arr_bytes (vrf_output pf) ++ arr_bytes cb ++ be_bytes 4 (len b) ++ b ++ []).
  { unfold e. cbn [encode drop app]. by rewrite Hu, app_nil_r. }
  read_be H. read_be H. read_array H. read_array H. read_array H. read_array H. read_array H.
  read_be H. rewrite (proj2 (N.ltb_ge _ _) Hb), N.eqb_refl. cbn [negb guard_err mbind res_bind].
  destruct (slice_cursor (E := CodecError) e 197 (N.to_nat (len b)) b [] H) as [Hs _].
  { unfold len. lia. }
  { unfold len, PROPOSAL_MIN_LEN, PROPOSAL_HEADER_LEN in *. lia. }
  rewrite Hs. cbn. by destruct pf as [[] ?].
Qed.

Lemma decode_encode_response b c :
  msg_wf (BlockResponse b c) ->
  decode_block_response (encode (BlockResponse b c)) = Ok (BlockResponse b c).
Proof.
  intros Hwf. pose proof Hwf as (Hb & Hh & Hr & Hbm). unfold decode_block_response.
  set (e := encode (BlockResponse b c)).
  assert (Hlen : len e = BLOCK_RESPONSE_HEADER_LEN + len b + BLOCK_CERT_LEN) by apply (len_encode _ Hwf).
  assert (Hu : len_u32 b = len b)
    by (unfold len_u32, MAX_BLOCK_RESPONSE_LEN, MAX_PROPOSAL_BODY_LEN in *; lia).
  assert (Hl : len b < 256 ^ N.of_nat 4)
    by (unfold MAX_BLOCK_RESPONSE_LEN, MAX_PROPOSAL_BODY_LEN in *; cbn; lia).
  rewrite Hlen. rewrite (proj2 (N.ltb_ge _ _)) by (unfold BLOCK_RESPONSE_MIN_LEN; lia).
  cbn [guard_err mbind res_bind].
  assert (H : drop 1 e = be_bytes 4 (len b) ++ b ++ encode_precommit_certificate c).
  { unfold e. cbn [encode drop app]. by rewrite Hu. }
  read_be H. rewrite (proj2 (N.ltb_ge _ _) Hb), N.eqb_refl. cbn [negb guard_err mbind res_bind].
  assert (Hn : N.to_nat (len b) = length b) by (unfold len; lia). rewrite Hn.
  unfold len, BLOCK_RESPONSE_HEADER_LEN, BLOCK_CERT_LEN in Hlen.
  destruct (slice_cursor (E := CodecError) e 5 (length b) b _ H eq_refl) as [Hs Hd]; [lia|].
  rewrite Hs. cbn [mbind res_bind].
  destruct (slice_cursor (E := CodecError) e (5 + length b) (length e - (5 + length b))
    (encode_precommit_certificate c) []) as [Hs2 _].
  { by rewrite Hd, app_nil_r. }
  { rewrite <-Hd, length_drop. done. }
  { lia. }
  rewrite Hs2. cbn [mbind res_bind]. by rewrite decode_encode_certificate.
Qed.

Lemma decode_encode m : msg_wf m -> decode (encode m) = Ok m.
Proof.
  intros Hwf. destruct m as [h r bh pf cb b|v|v|h|b c].
  - apply decode_encode_proposal, Hwf.
  - change (decode_vote (encode_vote TAG_PREVOTE v) TAG_PREVOTE = Ok (Prevote v)).
    unfold decode_vote. rewrite bool_decide_eq_true_2 by done. by rewrite decode_encode_vote.
  - change (decode_vote (encode_vote TAG_PRECOMMIT v) TAG_PRECOMMIT = Ok (Precommit v)).
    unfold decode_vote. rewrite bool_decide_eq_false_2 by done. by rewrite decode_encode_vote.
  - change (decode_block_request (encode (BlockRequest h)) = Ok (BlockRequest h)).
    unfold decode_block_request. rewrite (len_encode _ Hwf). cbn [encoded_len].
    rewrite N.eqb_refl. cbn [negb guard_err mbind res_bind].
    assert (H : drop 1 (encode (BlockRequest h)) = be_bytes 8 h ++ []) by (by rewrite app_nil_r).
    cbn in Hwf. read_be H. done.
  - apply decode_encode_response, Hwf.
Qed.
End roundtrip.

(** ** Only what [encode] writes is accepted *)
Section canonical.
Context `{P : Primitives}.
Hypothesis sig_canonical : forall b s, blst_sig_from_bytes b = Some s -> blst_sig_compress s = b.

(** Turn successful reads into equations between suffixes of the buffer. *)
Ltac collect :=
  repeat match goal with
  | H : negb (_ =? _) = false |- _ => apply negb_false_iff, N.eqb_eq in H
  | H : (_ <? _) = false |- _ => apply N.ltb_ge in H
  | H : slice_be _ _ _ = Ok _ |- _ =>
      let Hx := fresh "Hx" in apply slice_be_Ok in H as [H Hx]; cbn [Nat.add] in H
  | H : slice_array _ _ _ = Ok _ |- _ => apply slice_array_Ok in H; cbn [Nat.add] in H
  | H : slice _ _ _ = Ok _ |- _ =>
      let Hn := fresh "Hn" in let Hl := fresh "Hl" in apply slice_Ok in H as (H & Hn & Hl)
  | H : bls.Signature_from_compressed _ = Ok _ |- _ =>
      unfold bls.Signature_from_compressed in H; apply ok_or_Ok, sig_canonical in H
  end.

(** Compare the written fields with the suffixes that were read. *)
Ltac suffix :=
  lazymatch goal with
  | |- _ = drop ?n ?b =>
      lazymatch goal with
      | H : drop n b = _ ++ drop _ b |- _ => rewrite H; (f_equal; suffix) || idtac
      | _ => idtac
      end
  | _ => idtac
  end.

Lemma encode_decode_vote {k} b t (v : vote k) l :
  b = t :: l -> decode_vote_fields k b = Ok v -> encode_vote t v = b /\ vote_fits v.
Proof.
  intros Hb Hd. unfold decode_vote_fields in Hd. inv_ok. collect. subst v.
  split; [|split_and!; done].
  unfold encode_vote, encode_vote_body, bls.Signature_to_compressed.
  cbn [vote_block_hash vote_height vote_round vote_index vote_sig].
  transitivity (t :: drop 1 b); [|by rewrite Hb]. cbn [app]. f_equal. rewrite <-!app_assoc. suffix.
  rewrite H5, drop_ge; [by rewrite app_nil_r|]. unfold len, VOTE_LEN in *. lia.
Qed.

Lemma encode_decode_certificate b c :
  decode_precommit_certificate b = Ok c ->
  encode_precommit_certificate c = b /\ c_height c < u64_mod /\ c_round c < u32_mod /\
  signer_bitmap c < u128_mod.
Proof.
  intros Hd. unfold decode_precommit_certificate in Hd. inv_ok. collect. subst c.
  split; [|split_and!; done].
  unfold encode_precommit_certificate, bls.Signature_to_compressed.
  cbn [c_block_hash c_height c_round signer_bitmap aggregated_sig].
  change b with (drop 0 b). suffix.
  rewrite H5, drop_ge; [by rewrite app_nil_r|]. unfold len, BLOCK_CERT_LEN in *. lia.
Qed.

Lemma encode_decode_proposal b m l :
  b = TAG_PROPOSAL :: l -> decode_proposal b = Ok m -> encode m = b /\ msg_wf m.
Proof.
  intros Hb Hd. unfold decode_proposal in Hd. inv_ok. collect. subst m.
  assert (Hlen : len x10 = x7) by (unfold len; lia).
  split; [|split_and!; [done..|by rewrite Hlen]].
  cbn [encode vrf_proof vrf_output pre_output proof].
  assert (len_u32 x10 = x7) as -> by (unfold len_u32, MAX_PROPOSAL_BODY_LEN in *; lia).
  transitivity (TAG_PROPOSAL :: drop 1 b); [|by rewrite Hb]. cbn [app]. f_equal. suffix.
  rewrite (drop_ge b); [by rewrite app_nil_r|].
  unfold len, PROPOSAL_MIN_LEN, PROPOSAL_HEADER_LEN in *. lia.
Qed.

Lemma encode_decode_response b m l :
  b = TAG_BLOCK_RESPONSE :: l -> decode_block_response b = Ok m -> encode m = b /\ msg_wf m.
Proof.
  intros Hb Hd. unfold decode_block_response in Hd. inv_ok.
  match goal with H : decode_precommit_certificate _ = Ok _ |- _ =>
    apply encode_decode_certificate in H as (Hc & ? & ? & ?) end.
  collect. subst m.
  assert (Hlen : len x3 = x0) by (unfold len; lia).
  split; [|split_and!; [by rewrite Hlen|done..]]. cbn [encode]. rewrite Hc.
  assert (len_u32 x3 = x0) as ->
    by (unfold len_u32, MAX_BLOCK_RESPONSE_LEN, MAX_PROPOSAL_BODY_LEN in *; lia).
  transitivity (TAG_BLOCK_RESPONSE :: drop 1 b); [|by rewrite Hb]. cbn [app]. f_equal.
  rewrite H0, H3, H4. rewrite (drop_ge b) by lia. by rewrite app_nil_r.
Qed.

Lemma encode_decode b m : decode b = Ok m -> encode m = b /\ msg_wf m.
Proof.
  unfold decode. destruct b as [|t l]; [done|]. set (b := t :: l). intros Hd.
  repeat case_bool_decide; subst; try done.
  - by apply (encode_decode_proposal b m l).
  - unfold decode_vote in Hd. rewrite bool_decide_eq_true_2 in Hd by done.
    destruct (decode_vote_fields KPrevote b) as [v| |] eqn:E; cbn in Hd; simplify_eq.
    by apply (encode_decode_vote b _ v l).
  - unfold decode_vote in Hd. rewrite bool_decide_eq_false_2 in Hd by done.
    destruct (decode_vote_fields KPrecommit b) as [v| |] eqn:E; cbn in Hd; simplify_eq.
    by apply (encode_decode_vote b _ v l).
  - unfold decode_block_request in Hd. inv_ok. collect. subst m. split; [|done].
    cbn [encode]. transitivity (TAG_BLOCK_REQUEST :: drop 1 b); [|done]. cbn [app]. f_equal.
    rewrite H3. rewrite drop_ge; [by rewrite app_nil_r|]. unfold len, BLOCK_REQUEST_LEN in *. lia.
  - by apply (encode_decode_response b m l).
Qed.
End canonical.

(** C25. Messages round-trip: every message whose integers fit their types and whose
    payload is within the cap decodes back from its encoding, whose length is the
    documented one and whose first byte is the variant's tag. *)
Theorem wire_roundtrip `{HL : PrimitiveLaws} (m : BftMessage) :
  msg_wf m ->
  decode (encode m) = Ok m /\ len (encode m) = encoded_len m /\ head (encode m) = Some (tag m).
Proof.
  intros Hwf. split_and!; [by apply decode_encode|by apply len_encode|by destruct m].
Qed.

(** Decoding is safe and strict on every byte string a peer may send: no slice
    is out of range, and when a message is returned its re-encoding is exactly the
    bytes that were received, so no two encodings of one message exist and no
    trailing or missing byte is accepted (where the signature encoding of the
    BLS library is itself canonical). *)
Theorem wire_decode_strict `{P : Primitives} (b : bytes) :
  (forall s sig, blst_sig_from_bytes s = Some sig -> blst_sig_compress sig = s) ->
  decode b <> Panic /\ forall m, decode b = Ok m -> encode m = b /\ msg_wf m.
Proof.
  intros Hcan. split; [apply decode_no_panic|]. intros m. by apply encode_decode.
Qed.

Lemma wire_roundtrip_witness :
  decode (encode (BlockResponse [x01; x02] (Demo.cert Demo.block_a))) =
    Ok (BlockResponse [x01; x02] (Demo.cert Demo.block_a)).
Proof.
  apply (wire_roundtrip (HL := Toy.laws) (BlockResponse [x01; x02] (Demo.cert Demo.block_a))).
  split_and!; vm_compute; (reflexivity || discriminate).
Defined.

Lemma wire_decode_strict_witness :
  @decode Toy.prims [x01; x02] <> Panic /\
  forall m, @decode Toy.prims [x01; x02] = Ok m -> encode m = [x01; x02] /\ msg_wf m.
Proof.
  apply (wire_decode_strict (P := Toy.prims) [x01; x02]). intros s sig [= <-]. reflexivity.
Defined.
