(* ===== verification/Capacity.v ===== *)
(** * Capacity: the bandwidth budget of a committee

    Models [src/crates/aii-consensus-bft/src/capacity.rs].  The budget's quorum is the
    one of [Bft], its votes and proposals are those of [Wire]. *)
From stdpp Require Import base tactics numbers strings list.
From Stdlib Require Import NArith Lia.
From S2P Require Import Prelude Bytes Crypto Bft BftFacts Codec Tx Trie Block Wire.

Definition FINALITY_TARGET_SECS : N := 30.
Definition VOTE_PHASES_PER_ROUND : N := 2.

Record CapacityBudget := mkBudget {
  cb_validators : N;
  target_secs : N;
  proposal_bytes : N;
  cb_equal_stake_quorum_votes : N;
  cb_vote_messages_per_round : N;
  vote_payload_bytes_per_round : N;
  leader_proposal_fanout_bytes : N;
  min_leader_upload_mbps : N
}.

Inductive CapacityError :=
| CapEmptyValidatorSet
| TooManyValidators (got max : N)
| ZeroTarget
| ProposalTooLarge (got max : N).

Definition satisfies_design_cap (self : CapacityBudget) : bool :=
  (cb_validators self <=? MAX_VALIDATORS) && (target_secs self <=? FINALITY_TARGET_SECS).

Definition max_wire_proposal_bytes : N := PROPOSAL_HEADER_LEN + MAX_PROPOSAL_BODY_LEN.

Definition equal_stake_quorum_votes (validators : N) : N :=
  wrapping_add u64_mod (wrapping_mul u64_mod validators 2 / 3) 1.

Definition vote_messages_per_round (validators : N) : N :=
  wrapping_mul u64_mod (wrapping_mul u64_mod VOTE_PHASES_PER_ROUND validators) (saturating_sub validators 1).

(** [u64::div_ceil] *)
Definition div_ceil (a b : N) : N := if a mod b =? 0 then a / b else a / b + 1.

Definition mbps_required (bytes seconds : N) : N :=
  div_ceil (div_ceil (saturating_mul u64_mod bytes 8) seconds) 1000000.

Definition capacity_budget (validators proposal_bytes target_secs : N) : res CapacityError CapacityBudget :=
  _ ← guard_err (validators =? 0) CapEmptyValidatorSet;
  _ ← guard_err (MAX_VALIDATORS <? validators) (TooManyValidators validators MAX_VALIDATORS);
  _ ← guard_err (target_secs =? 0) ZeroTarget;
  _ ← guard_err (max_wire_proposal_bytes <? proposal_bytes) (ProposalTooLarge proposal_bytes max_wire_proposal_bytes);
  let votes := vote_messages_per_round validators in
  let fanout := saturating_mul u64_mod proposal_bytes (saturating_sub validators 1) in
  mret (mkBudget validators target_secs proposal_bytes (equal_stake_quorum_votes validators) votes
          (wrapping_mul u64_mod votes VOTE_LEN) fanout (N.max (mbps_required fanout target_secs) 1)).

(** ** Properties *)
Lemma div_ceil_spec a b : 0 < b -> a <= b * div_ceil a b /\ (0 < a -> b * (div_ceil a b - 1) < a).
Proof.
  intros Hb. unfold div_ceil. pose proof (N.div_mod' a b) as Hd. pose proof (N.mod_lt a b ltac:(lia)) as Hm.
  revert Hd Hm. generalize (a / b), (a mod b). intros q r Hd Hm.
  destruct (N.eqb_spec r 0) as [Hz|Hz].
  - split; [lia|]. intros Ha. rewrite N.mul_sub_distr_l, N.mul_1_r. lia.
  - rewrite N.add_sub, N.mul_add_distr_l. lia.
Qed.

(** The number of equal votes that make a quorum is the BFT engine's threshold: in a
    set of [n] validators of equal stake, [k] of them together reach
    [quorum_threshold] exactly if [k] is at least [equal_stake_quorum_votes n]. *)
Theorem equal_votes_quorum `{Primitives} (vs : ValidatorSet) (stake k : N) :
  vs_wf vs -> Forall (fun v => v_stake v = stake) (validators vs) -> 0 < stake -> total_stake vs * 2 < u64_mod ->
  (quorum_threshold vs <= k * stake <-> equal_stake_quorum_votes (size vs) <= k).
Proof.
  intros Hwf Heq Hs Hsm.
  assert (total_stake vs = stake * size vs) as Ht.
  { rewrite (vs_total _ Hwf). unfold sum_stakes, size, len. clear -Heq.
    induction Heq as [|v l Hv _ IH]; [cbn; lia|]. rewrite weight_cons, IH, Hv. cbn [length]. lia. }
  pose proof (vs_size_le _ Hwf) as Hsz. unfold MAX_VALIDATORS in Hsz.
  rewrite quorum_threshold_small by lia. rewrite Ht. unfold equal_stake_quorum_votes.
  rewrite wrapping_mul_small by lia.
  assert (size vs * 2 / 3 <= size vs) as Hle by (apply N.Div0.div_le_upper_bound; lia).
  rewrite wrapping_add_small by lia.
  pose proof (N.div_mod' (stake * size vs * 2) 3) as H1. pose proof (N.mod_lt (stake * size vs * 2) 3 ltac:(lia)) as H2.
  pose proof (N.div_mod' (size vs * 2) 3) as H3. pose proof (N.mod_lt (size vs * 2) 3 ltac:(lia)) as H4.
  revert H1 H2 H3 H4. generalize (stake * size vs * 2 / 3), ((stake * size vs * 2) mod 3), (size vs * 2 / 3), ((size vs * 2) mod 3).
  intros p r q r' H1 H2 H3 H4. assert (stake * size vs * 2 = stake * (3 * q + r')) as Heqs by (rewrite <-H3; lia).
  rewrite Heqs in H1. rewrite N.mul_add_distr_l in H1.
  split; intros Hk.
  - destruct (N.le_gt_cases (q + 1) k) as [|Hlt]; [done|]. exfalso.
    assert (k * stake <= q * stake) as Hks by (apply N.mul_le_mono_r; lia). lia.
  - assert ((q + 1) * stake <= k * stake) as Hks by (by apply N.mul_le_mono_r).
    assert (stake * r' <= stake * 2) as Hr by (apply N.mul_le_mono_l; lia). lia.
Qed.

(** A budget that is computed at all: the committee is within the bitmap cap, no
    arithmetic wrapped or saturated, every validator's two votes reach each other one,
    and the leader's bandwidth is enough for the proposal to reach everybody in the
    target time, while one megabit per second less is not (unless it is the floor). *)
Theorem capacity_budget_sound (v p t : N) (b : CapacityBudget) :
  t < u64_mod -> capacity_budget v p t = Ok b ->
  0 < v <= MAX_VALIDATORS /\ p <= max_wire_proposal_bytes /\ 0 < t /\
  cb_equal_stake_quorum_votes b = v * 2 / 3 + 1 /\
  cb_vote_messages_per_round b = 2 * v * (v - 1) /\
  vote_payload_bytes_per_round b = 2 * v * (v - 1) * VOTE_LEN /\
  leader_proposal_fanout_bytes b = p * (v - 1) /\
  leader_proposal_fanout_bytes b * 8 <= min_leader_upload_mbps b * 1000000 * t /\
  (1 < min_leader_upload_mbps b ->
   (min_leader_upload_mbps b - 1) * 1000000 * t < leader_proposal_fanout_bytes b * 8).
Proof.
  intros Ht Hb. unfold capacity_budget in Hb. inv_ok.
  repeat match goal with
  | H : (_ =? _) = false |- _ => apply N.eqb_neq in H
  | H : (_ <? _) = false |- _ => apply N.ltb_ge in H
  end.
  subst b.
  cbn [cb_equal_stake_quorum_votes cb_vote_messages_per_round vote_payload_bytes_per_round
       leader_proposal_fanout_bytes min_leader_upload_mbps].
  assert (v <= 128) as Hv by (unfold MAX_VALIDATORS in *; lia).
  assert (p <= 16777216 * 16) as Hp.
  { etransitivity; [eassumption|]. vm_compute. discriminate. }
  unfold vote_messages_per_round, equal_stake_quorum_votes, VOTE_PHASES_PER_ROUND, VOTE_LEN, saturating_sub.
  assert (v * 2 / 3 <= v) as Hq by (apply N.Div0.div_le_upper_bound; lia).
  assert (v * (v - 1) <= 128 * 128) as Hvm by (apply N.mul_le_mono; lia).
  rewrite !(wrapping_mul_small _ 2) by lia. rewrite (wrapping_mul_small _ v 2) by lia.
  rewrite wrapping_add_small by lia. rewrite (wrapping_mul_small _ (2 * v)) by lia.
  rewrite wrapping_mul_small by lia.
  assert (p * (v - 1) <= 16777216 * 16 * 128) as Hpf by (apply N.mul_le_mono; lia).
  rewrite (saturating_mul_small _ p) by lia. unfold mbps_required. rewrite saturating_mul_small by lia.
  set (f := p * (v - 1)) in *.
  pose proof (div_ceil_spec (f * 8) t ltac:(lia)) as [Hc Hc'].
  pose proof (div_ceil_spec (div_ceil (f * 8) t) 1000000 ltac:(lia)) as [Hd Hd'].
  set (x := div_ceil (f * 8) t) in *. set (y := div_ceil x 1000000) in *.
  split_and!; try lia; try done.
  - transitivity (t * x); [lia|]. transitivity (t * (1000000 * y)); [apply N.mul_le_mono_l; lia|].
    rewrite <-N.mul_assoc, (N.mul_comm (N.max y 1)). nia.
  - intros Hy. assert (N.max y 1 = y) as -> by lia.
    assert (0 < x) as Hx by (destruct (N.eq_dec x 0) as [->|]; [vm_compute in y; subst y; lia|lia]).
    specialize (Hd' Hx). assert (0 < f * 8) as Hf.
    { destruct (N.eq_dec (f * 8) 0) as [He|]; [|lia]. exfalso. subst x. rewrite He in Hx.
      unfold div_ceil in Hx. rewrite N.Div0.mod_0_l, N.Div0.div_0_l in Hx. cbn in Hx. lia. }
    specialize (Hc' Hf). apply (N.le_lt_trans _ (t * (x - 1))); [|done].
    rewrite N.mul_comm. apply N.mul_le_mono_l. lia.
Qed.
