(* ===== verification/Gossip.v ===== *)
(** * Gossip: the driver between the engine and the peers

    Models [src/crates/aii-consensus-bft/src/gossip.rs].  The transport is its two
    queues: the payloads not yet received, and the payloads broadcast so far.
    Every method is a function from the driver to the driver; the activity count
    of [tick] is its result. *)
From stdpp Require Import base tactics gmap numbers strings list.
From Stdlib Require Import NArith Lia.
From S2P Require Import Prelude Bytes Crypto Bft Coordinator Slashing Codec Tx Trie Block Engine Wire.

Section gossip.
Context `{Primitives} `{Rlp}.

Record RoundFlags := mkFlags {
  f_proposed : option (N * N);
  f_prevoted : option (N * N);
  f_precommitted : option (N * N);
  last_proposal : option bytes;
  last_prevote : option bytes;
  last_precommit : option bytes;
  requested_blocks : gset N
}.

Definition default_flags : RoundFlags := mkFlags None None None None None None ∅.

Definition already_proposed (f : RoundFlags) (h r : N) : bool := bool_decide (f_proposed f = Some (h, r)).
Definition already_prevoted (f : RoundFlags) (h r : N) : bool := bool_decide (f_prevoted f = Some (h, r)).
Definition already_precommitted (f : RoundFlags) (h r : N) : bool :=
  bool_decide (f_precommitted f = Some (h, r)).

Record BftGossip := mkGossip {
  engine : BftEngine;
  inbox : list bytes;
  outbox : list bytes;
  flags : RoundFlags;
  harvested_blocks : list Block
}.

Definition BftGossip_new (e : BftEngine) : BftGossip := mkGossip e [] [] default_flags [].

Definition with_engine (self : BftGossip) (e : BftEngine) : BftGossip :=
  mkGossip e (inbox self) (outbox self) (flags self) (harvested_blocks self).
Definition with_flags (self : BftGossip) (f : RoundFlags) : BftGossip :=
  mkGossip (engine self) (inbox self) (outbox self) f (harvested_blocks self).
Definition broadcast (self : BftGossip) (b : bytes) : BftGossip :=
  mkGossip (engine self) (inbox self) (outbox self ++ [b]) (flags self) (harvested_blocks self).
Definition push_harvested (self : BftGossip) (b : Block) : BftGossip :=
  mkGossip (engine self) (inbox self) (outbox self) (flags self) (harvested_blocks self ++ [b]).

Definition drain_harvested (self : BftGossip) : BftGossip * list Block :=
  (mkGossip (engine self) (inbox self) (outbox self) (flags self) [], harvested_blocks self).

(** [while let Some(block) = try_harvest_committed()]: a harvest closes the
    round, so the second turn finds nothing. *)
Fixpoint auto_harvest_loop (fuel : nat) (self : BftGossip) : BftGossip :=
  match fuel with
  | O => self
  | S fuel =>
      let '(e, block) := try_harvest_committed (engine self) in
      match block with
      | Some b => auto_harvest_loop fuel (push_harvested (with_engine self e) b)
      | None => with_engine self e
      end
  end.

Definition auto_harvest (self : BftGossip) : BftGossip := auto_harvest_loop 2 self.

(** ** Bodies on the wire *)

Definition encode_block_body (b : BlockBody) : bytes := encode_body b.

Definition decode_block_body (b : bytes) : res BftError BlockBody :=
  fst <$> map_err (fun e => InvalidProposalBody (rlp_error_string e)) (decode_body b).

(** ** Outbound: propose and vote once per round *)

Definition proposal_msg (self : BftEngine) (h r : N) (block : Block) (pf : LeaderProof) : BftMessage :=
  Proposal h r (block_hash block) pf (coinbase (config self)) (encode_block_body (body block)).

Definition set_proposed (f : RoundFlags) (h r : N) (b : bytes) : RoundFlags :=
  mkFlags (Some (h, r)) (f_prevoted f) (f_precommitted f) (Some b) (last_prevote f)
    (last_precommit f) (requested_blocks f).
Definition set_prevoted (f : RoundFlags) (h r : N) (b : bytes) : RoundFlags :=
  mkFlags (f_proposed f) (Some (h, r)) (f_precommitted f) (last_proposal f) (Some b)
    (last_precommit f) (requested_blocks f).
Definition set_precommitted (f : RoundFlags) (h r : N) (b : bytes) : RoundFlags :=
  mkFlags (f_proposed f) (f_prevoted f) (Some (h, r)) (last_proposal f) (last_prevote f)
    (Some b) (requested_blocks f).
Definition set_requested (f : RoundFlags) (s : gset N) : RoundFlags :=
  mkFlags (f_proposed f) (f_prevoted f) (f_precommitted f) (last_proposal f) (last_prevote f)
    (last_precommit f) s.

(** A driver method that may panic; it returns the activity it caused. *)
Definition acting : Type := res BftError (BftGossip * N).

Definition bootstrap_propose (self : BftGossip) : acting :=
  let '(e, r) := cast_proposal (engine self) in
  let self := with_engine self e in
  match r with
  | Ok (block, pf) =>
      match current_round_state e with
      | None => Panic
      | Some (h, r, _) =>
          let b := encode (proposal_msg e h r block pf) in
          Ok (broadcast (with_flags self (set_proposed (flags self) h r b)) b, 1)
      end
  | Err _ => Ok (self, 0)
  | Panic => Panic
  end.

Definition maybe_propose (self : BftGossip) (h r : N) : acting :=
  if already_proposed (flags self) h r then Ok (self, 0)
  else
    match current_leader_index (engine self) with
    | None => Ok (self, 0)
    | Some leader_idx =>
        if negb (leader_idx =? N.to_nat (my_index (state (engine self))))%nat then Ok (self, 0)
        else
          let '(e, cp) := cast_proposal (engine self) in
          let self := with_engine self e in
          match cp with
          | Ok (block, pf) =>
              let b := encode (proposal_msg e h r block pf) in
              Ok (broadcast (with_flags self (set_proposed (flags self) h r b)) b, 1)
          | Err _ => Ok (self, 0)
          | Panic => Panic
          end
    end.

Definition maybe_prevote (self : BftGossip) (h r : N) : acting :=
  if already_prevoted (flags self) h r then Ok (self, 0)
  else
    let '(e, cv) := cast_prevote (engine self) in
    let self := with_engine self e in
    match cv with
    | Ok v =>
        let b := encode (Prevote v) in
        Ok (broadcast (with_flags self (set_prevoted (flags self) h r b)) b, 1)
    | Err _ => Ok (self, 0)
    | Panic => Panic
    end.

Definition maybe_precommit (self : BftGossip) (h r : N) : acting :=
  if already_precommitted (flags self) h r then Ok (self, 0)
  else
    let '(e, cp) := cast_precommit (engine self) in
    let self := with_engine self e in
    match cp with
    | Ok v =>
        let b := encode (Precommit v) in
        Ok (broadcast (with_flags self (set_precommitted (flags self) h r b)) b, 1)
    | Err _ => Ok (self, 0)
    | Panic => Panic
    end.

Definition retransmit (last : option bytes) (self : BftGossip) : BftGossip * N :=
  match last with
  | Some b => (broadcast self b, 1)
  | None => (self, 0)
  end.

Definition retransmit_proposal (self : BftGossip) := retransmit (last_proposal (flags self)) self.
Definition retransmit_prevote (self : BftGossip) := retransmit (last_prevote (flags self)) self.
Definition retransmit_precommit (self : BftGossip) := retransmit (last_precommit (flags self)) self.

Definition drive_phase (self : BftGossip) (h r : N) (ph : Phase) : acting :=
  match ph with
  | AwaitingProposal =>
      '(self, a) ← maybe_propose self h r;
      let '(self, b) := retransmit_proposal self in
      mret (self, a + b)
  | Prevoting =>
      '(self, a) ← maybe_prevote self h r;
      let '(self, b) := retransmit_proposal self in
      let '(self, c) := retransmit_prevote self in
      mret (self, a + b + c)
  | Precommitting =>
      '(self, a) ← maybe_precommit self h r;
      let '(self, b) := retransmit_prevote self in
      let '(self, c) := retransmit_precommit self in
      mret (self, a + b + c)
  | Committed => Ok (self, 0)
  end.

(** ** Inbound *)

Definition request_catchup_if_future_height (self : BftGossip) (remote_height : N)
    : BftGossip * bool :=
  let next_height := saturating_add u64_mod (head_number (state (engine self))) 1 in
  if remote_height <=? next_height then (self, false)
  else if bool_decide (next_height ∈ requested_blocks (flags self)) then (self, true)
  else
    let self := with_flags self
      (set_requested (flags self) ({[ next_height ]} ∪ requested_blocks (flags self))) in
    (broadcast self (encode (BlockRequest next_height)), true).

Definition handle_block_response (self : BftGossip) (block_bytes : bytes)
    (cert : PrecommitCertificate) : BftGossip * res BftError unit :=
  match map_err (fun e => InvalidProposalBody (rlp_error_string e)) (decode_block block_bytes) with
  | Ok (block, slice) =>
      if negb (len slice =? 0)
      then (self, Err (InvalidProposalBody "trailing bytes after synced block"))
      else
        let '(e, r) := adopt_synced_block (engine self) block cert in
        let self := with_engine self e in
        match r with
        | Ok adopted =>
            let self := with_flags self (set_requested (flags self)
              (requested_blocks (flags self) ∖ {[ number (header adopted) ]})) in
            (push_harvested self adopted, Ok tt)
        | Err e => (self, Err e)
        | Panic => (self, Panic)
        end
  | Err e => (self, Err e)
  | Panic => (self, Panic)
  end.

(** The condition of the fast forward at the head of [handle_proposal_msg]. *)
Definition should_jump (e : BftEngine) (h r : N) : bool :=
  (h =? saturating_add u64_mod (head_number (state e)) 1) &&
  match current_round_state e with
  | None => true
  | Some (active_height, active_round, _) => (active_height =? h) && (active_round <? r)
  end && (0 <? r).

Definition handle_proposal_msg (self : BftGossip) (h r : N) (bh : H256) (pf : LeaderProof)
    (coinbase : Address) (body_bytes : bytes) : BftGossip * res BftError unit :=
  let '(e, jumped) :=
    if should_jump (engine self) h r then fast_forward_to_round (engine self) r
    else (engine self, Ok tt) in
  let self := with_engine self e in
  match (_ ← jumped; decode_block_body body_bytes) with
  | Ok b =>
      let block := reconstruct_proposed_block_with_body e h pf coinbase b in
      if negb (bool_decide (block_hash block = bh)) then (self, Err ProposalHashMismatch)
      else
        let '(e, r) := submit_remote_proposal e block pf in
        (with_engine self e, r)
  | Err e => (self, Err e)
  | Panic => (self, Panic)
  end.

Definition dispatch_inbound (self : BftGossip) (msg : BftMessage) : BftGossip * res BftError unit :=
  match msg with
  | Proposal h r bh pf cb body_bytes =>
      let '(self, future) := request_catchup_if_future_height self h in
      if (future : bool) then (self, Ok tt)
      else handle_proposal_msg self h r bh pf cb body_bytes
  | Prevote v =>
      let '(self, future) := request_catchup_if_future_height self (vote_height v) in
      if (future : bool) then (self, Ok tt)
      else let '(e, r) := submit_remote_prevote (engine self) v in (with_engine self e, r)
  | Precommit v =>
      let '(self, future) := request_catchup_if_future_height self (vote_height v) in
      if (future : bool) then (self, Ok tt)
      else let '(e, r) := submit_remote_precommit (engine self) v in (with_engine self e, r)
  | BlockRequest h =>
      match committed_block_at (engine self) h with
      | Some (block, cert) =>
          (broadcast self (encode (BlockResponse (encode_block block) cert)), Ok tt)
      | None => (self, Ok tt)
      end
  | BlockResponse block_bytes cert => handle_block_response self block_bytes cert
  end.

(** ** [tick] *)

(** The inbox loop; the errors of [decode] and [dispatch_inbound] are dropped. *)
Fixpoint drain_inbox (msgs : list bytes) (self : BftGossip) (activity : N) : acting :=
  match msgs with
  | [] => Ok (self, activity)
  | b :: msgs =>
      match decode b with
      | Ok m =>
          let '(self, r) := dispatch_inbound self m in
          match r with
          | Panic => Panic
          | _ => drain_inbox msgs (auto_harvest self) (activity + 1)
          end
      | Err _ => drain_inbox msgs (auto_harvest self) activity
      | Panic => Panic
      end
  end.

Definition take_inbox (self : BftGossip) : list bytes * BftGossip :=
  (inbox self, mkGossip (engine self) [] (outbox self) (flags self) (harvested_blocks self)).

Definition tick (self : BftGossip) : acting :=
  let '(msgs, self) := take_inbox self in
  '(self, activity) ← drain_inbox msgs self 0;
  '(self, a) ← match current_round_state (engine self) with
               | Some (h, r, ph) => drive_phase self h r ph
               | None => if would_be_leader_next_height (engine self)
                         then bootstrap_propose self else mret (self, 0)
               end;
  mret (auto_harvest self, activity + a).
End gossip.
