(* ===== verification/GossipProps.v ===== *)
(** * GossipProps: the driver against arbitrary peers

    No payload a peer can send makes a tick panic; and two things a peer without
    stake, or a single leader, can do to a node. *)
From stdpp Require Import base tactics gmap numbers strings list.
From Stdlib Require Import NArith Lia.
From S2P Require Import Prelude Bytes Crypto Bft BftFacts Coordinator CoordinatorFacts Slashing.
From S2P Require Import Codec Tx ToyRlp Trie Block Engine EngineFacts EngineProps Demo EngineDemo Wire Gossip.

Section safety.
Context `{HL : PrimitiveLaws} `{R : Rlp} `{!RlpSafe R}.
Implicit Types (self : BftGossip).

Definition gossip_inv self : Prop := engine_inv (state (engine self)).

(** What every step of a tick establishes. *)
Definition safe_act (r : acting) : Prop := exists self a, r = Ok (self, a) /\ gossip_inv self.

Lemma auto_harvest_inv self : gossip_inv self -> gossip_inv (auto_harvest self).
Proof.
  unfold auto_harvest. generalize 2%nat as fuel. intros fuel. revert self.
  induction fuel as [|fuel IH]; intros self Hi; cbn [auto_harvest_loop]; [done|].
  pose proof (harvest_inv (engine self) Hi) as Hh.
  destruct (try_harvest_committed (engine self)) as [e [b|]]; [|done]. by apply IH.
Qed.

(** The fuel of the harvest loop is enough: nothing is left to harvest. *)
Lemma auto_harvest_done self : (try_harvest_committed (engine (auto_harvest self))).2 = None.
Proof.
  unfold auto_harvest. cbn [auto_harvest_loop].
  assert (Hstop : forall e e' b, try_harvest_committed e = (e', Some b) -> try_harvest_committed e' = (e', None)).
  { intros e e' b. unfold try_harvest_committed. destruct (negb _); [done|].
    destruct (proposal (state e)) as [[blk pf]|]; [|done].
    destruct (coordinator (state e) ≫= final_cert); [|done]. by intros [= <- _]. }
  destruct (try_harvest_committed (engine self)) as [e [b|]] eqn:E; cbn.
  - rewrite (Hstop _ _ _ E). cbn. by rewrite (Hstop _ _ _ E).
  - assert (e = engine self) as -> by
      (revert E; unfold try_harvest_committed; repeat case_match; by intros [= <-]).
    by rewrite E.
Qed.

Lemma maybe_propose_safe self h r : gossip_inv self -> safe_act (maybe_propose self h r).
Proof.
  intros Hi. unfold maybe_propose. destruct (already_proposed _ _ _); [by eexists _, _|].
  destruct (current_leader_index _); [|by eexists _, _]. destruct (negb _); [by eexists _, _|].
  destruct (cast_proposal_inv (engine self) Hi) as [Hi' Hnp].
  by destruct (cast_proposal (engine self)) as [e [[blk pf]| |]]; [eexists _, _..|].
Qed.

Lemma maybe_prevote_safe self h r : gossip_inv self -> safe_act (maybe_prevote self h r).
Proof.
  intros Hi. unfold maybe_prevote. destruct (already_prevoted _ _ _); [by eexists _, _|].
  destruct (cast_prevote_inv (engine self) Hi) as [Hi' Hnp].
  by destruct (cast_prevote (engine self)) as [e [v| |]]; [eexists _, _..|].
Qed.

Lemma maybe_precommit_safe self h r : gossip_inv self -> safe_act (maybe_precommit self h r).
Proof.
  intros Hi. unfold maybe_precommit. destruct (already_precommitted _ _ _); [by eexists _, _|].
  destruct (cast_precommit_inv (engine self) Hi) as [Hi' Hnp].
  by destruct (cast_precommit (engine self)) as [e [v| |]]; [eexists _, _..|].
Qed.

Lemma bootstrap_safe self : gossip_inv self -> safe_act (bootstrap_propose self).
Proof.
  intros Hi. unfold bootstrap_propose.
  destruct (cast_proposal_inv (engine self) Hi) as [Hi' Hnp].
  destruct (cast_proposal (engine self)) as [e [[blk pf]| |]] eqn:E; [|by eexists _, _|done].
  destruct (cast_proposal_Ok _ _ _ _ Hi E) as (c & _ & _ & _ & _ & _ & _ & _ & _ & Hc & _).
  unfold current_round_state. rewrite Hc. cbn. by eexists _, _.
Qed.

Lemma retransmit_inv last self : gossip_inv self -> gossip_inv (retransmit last self).1.
Proof. by destruct last. Qed.

Lemma drive_phase_safe self h r ph : gossip_inv self -> safe_act (drive_phase self h r ph).
Proof.
  intros Hi. unfold drive_phase, retransmit_proposal, retransmit_prevote, retransmit_precommit.
  assert (Hre : forall l s, gossip_inv s -> exists s' n, retransmit l s = (s', n) /\ gossip_inv s').
  { intros l s Hs. pose proof (retransmit_inv l s Hs). destruct (retransmit l s). eauto. }
  destruct ph.
  - destruct (maybe_propose_safe self h r Hi) as (s & a & -> & Hs). cbn [mbind res_bind].
    destruct (Hre (last_proposal (flags s)) s Hs) as (s1 & n1 & -> & ?). by eexists _, _.
  - destruct (maybe_prevote_safe self h r Hi) as (s & a & -> & Hs). cbn [mbind res_bind].
    destruct (Hre (last_proposal (flags s)) s Hs) as (s1 & n1 & -> & Hs1).
    destruct (Hre (last_prevote (flags s1)) s1 Hs1) as (s2 & n2 & -> & ?). by eexists _, _.
  - destruct (maybe_precommit_safe self h r Hi) as (s & a & -> & Hs). cbn [mbind res_bind].
    destruct (Hre (last_prevote (flags s)) s Hs) as (s1 & n1 & -> & Hs1).
    destruct (Hre (last_precommit (flags s1)) s1 Hs1) as (s2 & n2 & -> & ?). by eexists _, _.
  - by eexists _, _.
Qed.

Lemma request_catchup_inv self h :
  gossip_inv self -> gossip_inv (request_catchup_if_future_height self h).1.
Proof. intros Hi. unfold request_catchup_if_future_height. by repeat case_match. Qed.

Lemma decode_block_body_no_panic b : decode_block_body b <> Panic.
Proof.
  unfold decode_block_body. pose proof (proj1 (decode_body_safe b)).
  by destruct (decode_body b) as [[]| |].
Qed.

Lemma handle_proposal_safe self h r bh pf cb b :
  gossip_inv self ->
  gossip_inv (handle_proposal_msg self h r bh pf cb b).1 /\ (handle_proposal_msg self h r bh pf cb b).2 <> Panic.
Proof.
  intros Hi. unfold handle_proposal_msg.
  assert (Hj : engine_inv (state (if should_jump (engine self) h r
      then fast_forward_to_round (engine self) r else (engine self, Ok tt)).1) /\
    (if should_jump (engine self) h r
      then fast_forward_to_round (engine self) r else (engine self, Ok tt)).2 <> Panic).
  { destruct (should_jump _ _ _); [by apply fast_forward_inv|done]. }
  destruct (if should_jump _ _ _ then _ else _) as [e j]. destruct Hj as [He Hnp]. cbn in He, Hnp.
  pose proof (decode_block_body_no_panic b) as Hb.
  destruct j as [[]| |]; cbn [mbind res_bind]; [|done..].
  destruct (decode_block_body b) as [body| |]; [|done..].
  destruct (negb _); [done|].
  pose proof (remote_proposal_inv e (reconstruct_proposed_block_with_body e h pf cb body) pf He) as [Hs Hn].
  by destruct (submit_remote_proposal e _ pf).
Qed.

Lemma handle_response_safe self b cert :
  gossip_inv self ->
  gossip_inv (handle_block_response self b cert).1 /\ (handle_block_response self b cert).2 <> Panic.
Proof.
  intros Hi. unfold handle_block_response. pose proof (proj1 (decode_block_safe b)).
  destruct (decode_block b) as [[blk rest]| |]; cbn; [|done..]. destruct (negb _); [done|].
  destruct (adopt_inv (engine self) blk cert Hi) as [Ha Hn].
  by destruct (adopt_synced_block (engine self) blk cert) as [e [| |]].
Qed.

Lemma dispatch_safe self m :
  gossip_inv self -> gossip_inv (dispatch_inbound self m).1 /\ (dispatch_inbound self m).2 <> Panic.
Proof.
  intros Hi. destruct m as [h r bh pf cb b|v|v|h|b cert]; cbn [dispatch_inbound].
  - pose proof (request_catchup_inv self h Hi) as Hc.
    destruct (request_catchup_if_future_height self h) as [s []]; [done|]. by apply handle_proposal_safe.
  - pose proof (request_catchup_inv self (vote_height v) Hi) as Hc.
    destruct (request_catchup_if_future_height self (vote_height v)) as [s []]; [done|]. cbn in Hc.
    pose proof (remote_prevote_inv (engine s) v Hc). by destruct (submit_remote_prevote (engine s) v).
  - pose proof (request_catchup_inv self (vote_height v) Hi) as Hc.
    destruct (request_catchup_if_future_height self (vote_height v)) as [s []]; [done|]. cbn in Hc.
    pose proof (remote_precommit_inv (engine s) v Hc). by destruct (submit_remote_precommit (engine s) v).
  - destruct (committed_block_at _ _) as [[blk cert]|]; done.
  - by apply handle_response_safe.
Qed.

Lemma drain_inbox_safe msgs self a : gossip_inv self -> safe_act (drain_inbox msgs self a).
Proof.
  revert self a. induction msgs as [|b msgs IH]; intros self a Hi; cbn [drain_inbox]; [by eexists _, _|].
  pose proof (decode_no_panic b) as Hd. destruct (decode b) as [m| |]; [| |done].
  - destruct (dispatch_safe self m Hi) as [Hs Hn].
    destruct (dispatch_inbound self m) as [s [| |]]; [| |done]; apply IH; by apply auto_harvest_inv.
  - apply IH. by apply auto_harvest_inv.
Qed.

Lemma tick_safe self : gossip_inv self -> safe_act (tick self).
Proof.
  intros Hi. unfold tick, take_inbox.
  destruct (drain_inbox_safe (inbox self)
    (mkGossip (engine self) [] (outbox self) (flags self) (harvested_blocks self)) 0 Hi) as (s & a & -> & Hs).
  cbn [mbind res_bind].
  match goal with |- safe_act (?x ≫= _) =>
    assert (safe_act x) as (s1 & a1 & -> & Hs1) end.
  { destruct (current_round_state (engine s)) as [[[h r] ph]|]; [by apply drive_phase_safe|].
    destruct (would_be_leader_next_height _); [by apply bootstrap_safe|by eexists _, _]. }
  cbn. eexists _, _. split; [reflexivity|]. by apply auto_harvest_inv.
Qed.
End safety.

(** C23. A peer cannot crash a node: whatever byte strings wait in the inbox (any
    number, any content), a tick of a driver whose engine satisfies the invariant
    returns, without a panic in decoding, dispatching, voting, proposing or
    harvesting, and its engine satisfies the invariant again; afterwards nothing
    committed is left to harvest. *)
Theorem tick_never_panics `{HL : PrimitiveLaws} `{R : Rlp} (self : BftGossip) (payloads : list bytes) :
  RlpSafe R -> engine_inv (state (engine self)) ->
  exists self' activity,
    tick (mkGossip (engine self) payloads (outbox self) (flags self) (harvested_blocks self)) =
      Ok (self', activity) /\
    engine_inv (state (engine self')) /\ (try_harvest_committed (engine self')).2 = None.
Proof.
  intros Hsafe Hi. set (g := mkGossip _ _ _ _ _).
  destruct (tick_safe g Hi) as (s & a & Ht & Hs). exists s, a. split_and!; [done|done|].
  unfold tick in Ht. destruct (take_inbox g). apply bind_Ok in Ht as ([s1 a1] & _ & Ht).
  apply bind_Ok in Ht as ([s2 a2] & _ & [= <- _]). apply auto_harvest_done.
Qed.

(** A proposal message moves the round before it is authenticated: if it names
    the height after the head and a later round than the active one, then whatever
    its hash, proof, coinbase and body are, a message that is rejected (or one that
    does not even decode) has already replaced the round: the coordinator is a
    fresh one at the named round, waiting for a proposal, with no tally and no
    lock. *)
Theorem rejected_proposal_jumps_round `{HL : PrimitiveLaws} `{R : Rlp} (self : BftGossip)
    (h r : N) (bh : H256) (pf : LeaderProof) (cb : Address) (b : bytes) :
  engine_inv (state (engine self)) -> head_number (state (engine self)) + 1 < u64_mod ->
  should_jump (engine self) h r = true -> r < u32_mod ->
  let '(self', res) := handle_proposal_msg self h r bh pf cb b in
  forall e, res = Err e ->
  exists c, coordinator (state (engine self')) = Some c /\ round c = r /\ height c = h /\
    phase c = AwaitingProposal /\ locked c = None.
Proof.
  intros Hi Hmax Hj Hr. unfold handle_proposal_msg. rewrite Hj.
  unfold should_jump in Hj. apply andb_true_iff in Hj as [[Hh Hact]%andb_true_iff Hpos].
  apply N.eqb_eq in Hh. rewrite saturating_add_small in Hh by done.
  assert (Hnext : next_height (state (engine self)) = h) by (unfold next_height; by rewrite wrapping_add_small).
  pose proof (coord_ok_new (state (engine self)) (ei_vs _ Hi)) as Hnew.
  set (c := N.iter r fire_timeout (new_coordinator (state (engine self)))).
  destruct (iter_timeout (new_coordinator (state (engine self))) r (co_inv _ _ Hnew) eq_refl eq_refl)
    as (Hci & Hph & Hrd & Hht & _ & _). fold c in Hci, Hph, Hrd, Hht.
  assert (Hlock : locked c = None).
  { unfold c. clear. induction r as [|r IH] using N.peano_ind; [done|]. rewrite N.iter_succ.
    set (c1 := N.iter _ _ _) in *. clearbody c1. unfold fire_timeout. by case_bool_decide. }
  set (g' := with_round (state (engine self)) (Some c) (proposal (state (engine self)))).
  assert (fast_forward_to_round (engine self) r = (with_state (engine self) g', Ok tt)) as ->.
  { unfold fast_forward_to_round. fold c. destruct (coordinator (state (engine self))) as [c0|] eqn:Ec; [|done].
    rewrite Hnext. unfold current_round_state in Hact. rewrite Ec in Hact. cbn in Hact.
    apply andb_true_iff in Hact as [Hc0 _]. by rewrite Hc0. }
  assert (Hgoal : exists c, coordinator g' = Some c /\ round c = r /\ height c = h /\
    phase c = AwaitingProposal /\ locked c = None).
  { exists c. split_and!; try done; [rewrite Hrd; lia|by rewrite Hht]. }
  cbn [mbind res_bind]. destruct (decode_block_body b) as [body| |]; [|done..].
  destruct (negb _); [done|]. unfold submit_remote_proposal.
  assert (ensure_coordinator (state (with_state (engine self) g')) = g') as -> by done.
  change (coordinator g') with (Some c). cbv beta iota.
  match goal with |- context [submit_proposal ?c ?bh ?p] =>
    pose proof (submit_proposal_not_Ok c bh p) as Hsame;
    destruct (submit_proposal c bh p) as [c1 [[]|e|]]; cbn in * end; [|by rewrite Hsame|done].
  unfold then_drain. by destruct (drain_pending_votes _).
Qed.

(** The height of a proposal is not checked against the head: a message for a
    height that is not above the head, with a proof of the leader of the round in
    progress (which is for the next height) and a hash that matches the block
    rebuilt for the named height, is accepted, and the block captured for the
    commit has the old number; a harvest of it moves [head_number] to that number,
    at or below the current one. *)
Theorem old_height_proposal_accepted `{HL : PrimitiveLaws} `{R : Rlp} (self : BftGossip)
    (h r : N) (pf : LeaderProof) (cb : Address) (b : bytes) (body : BlockBody) (c : RoundCoordinator)
    (leader : Validator) :
  let e := engine self in
  let blk := reconstruct_proposed_block_with_body e h pf cb body in
  engine_inv (state e) -> h <= head_number (state e) -> head_number (state e) + 1 < u64_mod ->
  coordinator (ensure_coordinator (state e)) = Some c -> phase c = AwaitingProposal ->
  validators (vs c) !! leader_index c = Some leader ->
  LeaderProof_verify pf (v_vrf_pubkey leader) (height c) (round c) (seed c) = Ok tt ->
  decode_block_body b = Ok body ->
  let '(self', res) := dispatch_inbound self (Proposal h r (block_hash blk) pf cb b) in
  res = Ok tt /\ proposal (state (engine self')) = Some (blk, pf) /\ number (header blk) = h /\
  forall e' blk', try_harvest_committed (engine self') = (e', Some blk') ->
    head_number (state e') <= head_number (state e).
Proof.
  intros e blk Hi Hle Hmax Hc Hph Hlead Hpf Hb. cbn [dispatch_inbound].
  unfold request_catchup_if_future_height.
  rewrite (proj2 (N.leb_le _ _)) by (unfold e in *; rewrite saturating_add_small; lia).
  unfold handle_proposal_msg. assert (should_jump (engine self) h r = false) as ->.
  { unfold should_jump. rewrite saturating_add_small by done.
    by rewrite (proj2 (N.eqb_neq _ _)) by (unfold e in *; lia). }
  cbn [mbind res_bind]. rewrite Hb. fold e. fold blk. rewrite bool_decide_eq_true_2 by done. cbn [negb].
  assert (Hsp : submit_proposal c (block_hash blk) pf = (with_proposal c (block_hash blk), Ok tt)).
  { unfold submit_proposal. rewrite Hph, bool_decide_eq_true_2 by done. cbn [negb guard_err mbind res_bind].
    rewrite Hlead. cbn [expect mbind res_bind]. by rewrite Hpf. }
  pose proof (remote_proposal_Ok e c blk pf Hi Hc Hsp) as Hok.
  destruct (ensure_spec (state e) Hi) as (c' & Hc' & Hcok & Heq).
  assert (c' = c) as -> by congruence.
  assert (Hp : proposal (state (submit_remote_proposal e blk pf).1) = Some (blk, pf)).
  { unfold submit_remote_proposal. rewrite Hc, Hsp.
    pose proof (coord_ok_proposal _ c blk pf tt Hcok) as Hprop. rewrite Hsp in Hprop. cbn in Hprop.
    edestruct then_drain_inv as (_ & _ & [_ ->]%only_votes_head & _); [|done].
    apply engine_inv_round; [rewrite Heq in *; by apply engine_inv_round|]. by apply Hprop. }
  destruct (submit_remote_proposal e blk pf) as [e1 r1]. cbn in Hok, Hp.
  split_and!; [done|done|done|]. cbn [with_engine engine]. intros e2 blk2.
  unfold try_harvest_committed. destruct (negb _); [done|]. rewrite Hp.
  destruct (coordinator (state e1) ≫= final_cert); [|done]. by intros [= <- _].
Qed.

Module GossipDemo.
Export EngineDemo.

Definition node (i : N) : BftGossip := BftGossip_new (EngineDemo.engine_of i).
Definition empty_body : bytes := encode_block_body default_body.

Lemma empty_body_decodes : decode_block_body empty_body = Ok default_body.
Proof.
  unfold decode_block_body, empty_body, encode_block_body.
  pose proof (decode_encode_body (RlpLaws0 := ToyRlp.rlp_laws) default_body []) as H.
  rewrite app_nil_r in H. rewrite H; [done|]. split; [constructor|constructor|constructor|vm_compute; reflexivity].
Qed.

(** Two unreadable payloads and a vote of nobody. *)
Definition junk : list bytes := [[]; [Byte.x09]; encode (Prevote forged)].
End GossipDemo.
Import GossipDemo.

Lemma tick_never_panics_witness :
  exists self' activity,
    tick (mkGossip (engine (GossipDemo.node 1)) GossipDemo.junk (outbox (GossipDemo.node 1))
            (flags (GossipDemo.node 1)) (harvested_blocks (GossipDemo.node 1))) = Ok (self', activity).
Proof.
  destruct (tick_never_panics (HL := Toy.laws) (GossipDemo.node 1) GossipDemo.junk ToyRlp.rlp_safe
    (EngineDemo.engine_is_inv 1 eq_refl)) as (s & a & H & _). exists s, a. exact H.
Defined.

Lemma rejected_proposal_jumps_round_witness :
  let self' := (handle_proposal_msg (GossipDemo.node 1) 5 7 Demo.block_a Demo.proof0 (zero_array 20) []).1 in
  exists c, coordinator (state (engine self')) = Some c /\ round c = 7.
Proof.
  pose proof (rejected_proposal_jumps_round (HL := Toy.laws) (GossipDemo.node 1) 5 7 Demo.block_a
    Demo.proof0 (zero_array 20) [] (EngineDemo.engine_is_inv 1 eq_refl) eq_refl eq_refl eq_refl) as H.
  assert (Hr : is_ok (handle_proposal_msg (GossipDemo.node 1) 5 7 Demo.block_a Demo.proof0 (zero_array 20) []).2
    = false) by (vm_compute; reflexivity).
  assert (Hp : (handle_proposal_msg (GossipDemo.node 1) 5 7 Demo.block_a Demo.proof0 (zero_array 20) []).2 <> Panic)
    by (vm_compute; discriminate).
  destruct (handle_proposal_msg (GossipDemo.node 1) 5 7 Demo.block_a Demo.proof0 (zero_array 20) []) as [s [u|e|]].
  - discriminate Hr.
  - destruct (H e eq_refl) as (c & Hc & Hrd & _). exists c. split; [exact Hc|exact Hrd].
  - destruct (Hp eq_refl).
Defined.

Lemma old_height_proposal_accepted_witness :
  let blk := reconstruct_proposed_block_with_body (engine (GossipDemo.node 1)) 2 EngineDemo.proposed.2
    (zero_array 20) default_body in
  (dispatch_inbound (GossipDemo.node 1)
    (Proposal 2 0 (block_hash blk) EngineDemo.proposed.2 (zero_array 20) GossipDemo.empty_body)).2 = Ok tt /\
  head_number (state (engine (GossipDemo.node 1))) = 4.
Proof.
  assert (Hidx : leader_index (new_coordinator (state (EngineDemo.engine_of 1))) = 0%nat) by (vm_compute; reflexivity).
  assert (Hpf : LeaderProof_verify EngineDemo.proposed.2 (Demo.vsk 0) 5 0 Demo.seed0 = Ok tt)
    by (vm_compute; reflexivity).
  pose proof (old_height_proposal_accepted (HL := Toy.laws) (GossipDemo.node 1) 2 0 EngineDemo.proposed.2
    (zero_array 20) GossipDemo.empty_body default_body (new_coordinator (state (EngineDemo.engine_of 1)))
    (Demo.validator 0 10) (EngineDemo.engine_is_inv 1 eq_refl) ltac:(discriminate) eq_refl eq_refl eq_refl
    ltac:(rewrite Hidx; reflexivity) Hpf GossipDemo.empty_body_decodes) as H.
  cbv zeta. split; [|reflexivity].
  match goal with |- (?X).2 = _ => destruct X as [s r] end. exact (proj1 H).
Defined.
