(* ===== verification/BftProps.v ===== *)
(** * BftProps: the properties of the finality state machine

    Quorum intersection, the refinement of a tallier by its log, certificates
    that verify, leader selection, and the safety, refinement and progress of a
    round.  Each property is followed by its instance on [Demo]. *)
From stdpp Require Import base tactics gmap numbers list.
From Stdlib Require Import NArith Lia.
From S2P Require Import Prelude Bytes Crypto Bft BftFacts Coordinator CoordinatorFacts Demo.

(** C1. Accountable safety: two certificates that both verify under one
    validator set of total stake below 2^63 (whatever blocks, heights and rounds
    they are for) share signers holding strictly more than one third of the
    stake; conflicting finality needs that much equivocating stake. *)
Theorem quorum_intersection `{Primitives} {k k'} (vs : ValidatorSet)
    (c1 : Certificate k) (c2 : Certificate k') u1 u2 :
  vs_wf vs -> total_stake vs < 9223372036854775808 ->
  Certificate_verify c1 vs = Ok u1 -> Certificate_verify c2 vs = Ok u2 ->
  total_stake vs <
    3 * weight (stake_at vs) (signers vs (N.land (signer_bitmap c1) (signer_bitmap c2))).
Proof.
  intros Hwf Hlt (_ & H1 & _)%(Certificate_verify_Ok _ _ _ Hwf) (_ & H2 & _)%(Certificate_verify_Ok _ _ _ Hwf).
  by apply signers_overlap.
Qed.

Lemma quorum_intersection_witness :
  total_stake Demo.vset < 3 * weight (stake_at Demo.vset)
    (signers Demo.vset (N.land (signer_bitmap (Demo.cert Demo.block_a))
                               (signer_bitmap (Demo.cert Demo.block_b)))).
Proof.
  apply (quorum_intersection Demo.vset (Demo.cert Demo.block_a) (Demo.cert Demo.block_b) tt tt
    Demo.vset_wf); vm_compute; reflexivity.
Defined.

(** A tallier refines its abstract specification: after any sequence of
    submissions its voter set, bitmap, signatures, keys and stake are those of
    the log that keeps, in order, the valid votes that are the first of their
    validator. *)
Theorem tallier_refines_log `{Primitives} {k} (b : H256) (h r : N) (vs : ValidatorSet)
    (votes : list (vote k)) :
  vs_wf vs ->
  tally_inv (submit_all (Tallier_new k b h r vs) votes)
    (foldl (log_step (Tallier_new k b h r vs)) [] votes).
Proof. intros Hwf. by apply submit_all_log, Tallier_new_inv. Qed.

Lemma tallier_refines_log_witness :
  let t0 := Tallier_new KPrecommit Demo.block_a 5 0 Demo.vset in
  tally_inv (submit_all t0 (Demo.precommits Demo.block_a))
    (foldl (log_step t0) [] (Demo.precommits Demo.block_a)).
Proof.
  exact (tallier_refines_log Demo.block_a 5 0 Demo.vset (Demo.precommits Demo.block_a) Demo.vset_wf).
Defined.

(** C9. Completeness of certificates: whatever votes were submitted, a tallier
    whose stake reaches the threshold issues a certificate, for its own block,
    height and round, and the verifier accepts it (unless the signers' keys sum
    to the point at infinity). *)
Theorem tallier_certificate_verifies `{HL : PrimitiveLaws} {k} (b : H256) (h r : N)
    (vs : ValidatorSet) (votes : list (vote k)) :
  let t := submit_all (Tallier_new k b h r vs) votes in
  vs_wf vs -> quorum_threshold vs <= stake_collected t ->
  exists c, Tallier_certificate t = Some c /\
    c_block_hash c = b /\ c_height c = h /\ c_round c = r /\
    (blst_pks_cancel (keys_of vs (signers vs (signer_bitmap c))) = false ->
     Certificate_verify c vs = Ok tt).
Proof.
  intros t Hwf Hq.
  pose proof (submit_all_log _ votes [] (Tallier_new_inv (k := k) b h r vs Hwf)) as Hinv.
  fold t in Hinv.
  destruct (submit_all_const (Tallier_new k b h r vs) votes) as (Hv & Hb & Hh & Hr).
  fold t in Hv, Hb, Hh, Hr. cbn in Hv, Hb, Hh, Hr. rewrite <-Hv in Hq.
  destruct (tally_quorum_certificate _ _ Hinv Hq) as [c Hc].
  destruct (Tallier_certificate_Some _ _ _ Hinv Hc) as (_ & H1 & H2 & H3 & _).
  exists c. split_and!; try congruence. intros Hcancel.
  apply Certificate_verify_Ok; [done|]. rewrite <-Hv in *. by eapply tally_certificate_certifies.
Qed.

Lemma tallier_certificate_verifies_witness :
  exists c, Tallier_certificate (Demo.tally Demo.block_a) = Some c /\
    c_block_hash c = Demo.block_a /\ c_height c = 5 /\ c_round c = 0 /\
    (blst_pks_cancel (keys_of Demo.vset (signers Demo.vset (signer_bitmap c))) = false ->
     Certificate_verify c Demo.vset = Ok tt).
Proof.
  apply (tallier_certificate_verifies (HL := Toy.laws) Demo.block_a 5 0 Demo.vset
    (Demo.precommits Demo.block_a) Demo.vset_wf).
  vm_compute. discriminate.
Defined.

(** Leader selection is proportional to stake: validator [i] is the leader
    for exactly the picks of its own interval, whose width is its stake; in
    particular the leader exists and has stake. *)
Theorem leader_proportional `{Primitives} (vs : ValidatorSet) (pick : N) (i : nat) :
  vs_wf vs -> pick < total_stake vs ->
  leader_of_pick vs pick = i <->
  exists v, validators vs !! i = Some v /\
    sum_stakes (take i (validators vs)) <= pick <
      sum_stakes (take i (validators vs)) + v_stake v.
Proof. apply leader_of_pick_iff. Qed.

Lemma leader_proportional_witness :
  leader_of_pick Demo.vset 59 = 2%nat <->
  exists v, validators Demo.vset !! 2%nat = Some v /\
    sum_stakes (take 2 (validators Demo.vset)) <= 59 <
      sum_stakes (take 2 (validators Demo.vset)) + v_stake v.
Proof. apply (leader_proportional Demo.vset 59 2 Demo.vset_wf). reflexivity. Defined.

(** No panic: in every reachable coordinator and for every event, none of
    the [expect]s and indexings of the handlers fires, and the invariant of the
    phase (which tallies, POLC and certificate are present and for what) holds. *)
Theorem coordinator_never_panics `{HL : PrimitiveLaws} (h : N) (s : array 32)
    (vs : ValidatorSet) (c : RoundCoordinator) (e : event) :
  vs_wf vs -> reachable h s vs c -> (handle c e).2 <> Panic /\ coord_inv (handle c e).1.
Proof.
  intros Hwf Hr. destruct (handle_inv c e (reachable_inv _ _ _ _ Hwf Hr)). done.
Qed.

Lemma coordinator_never_panics_witness :
  (handle (Demo.committed Demo.block_a) ETimeout).2 <> Panic /\
  coord_inv (handle (Demo.committed Demo.block_a) ETimeout).1.
Proof.
  exact (coordinator_never_panics (HL := Toy.laws) 5 Demo.seed0 Demo.vset _ ETimeout Demo.vset_wf
    (Demo.committed_reachable Demo.block_a)).
Defined.

(** Finality is two-phase: a reachable committed coordinator holds a POLC
    and a final certificate for the same block, height and round, and both pass
    their verifiers. *)
Theorem committed_has_certificates `{HL : PrimitiveLaws} (h : N) (s : array 32)
    (vset : ValidatorSet) (c : RoundCoordinator) :
  vs_wf vset -> reachable h s vset c -> phase c = Committed ->
  (forall bm, blst_pks_cancel (keys_of vset (signers vset bm)) = false) ->
  exists b p cert, proposed_block c = Some b /\ polc c = Some p /\ final_cert c = Some cert /\
    c_block_hash p = b /\ c_height p = h /\ c_round p = round c /\
    c_block_hash cert = b /\ c_height cert = h /\ c_round cert = round c /\
    PolcCertificate_verify p vset = Ok tt /\ PrecommitCertificate_verify cert vset = Ok tt.
Proof.
  intros Hwf Hr Hph Hcancel. destruct (reachable_const _ _ _ _ Hr) as (Hh & Hv & _).
  pose proof (ci_phase c (reachable_inv _ _ _ _ Hwf Hr)) as Hp. unfold phase_inv in Hp.
  rewrite Hph in Hp. destruct Hp as (b & p & cert & Hb & Hpolc & Hp & Hf & Hc).
  exists b, p, cert. rewrite <-Hh. subst vset.
  pose proof Hp as (? & ? & ? & _). pose proof Hc as (? & ? & ? & _).
  split_and!; try done; apply Certificate_verify_Ok; try done;
    by eapply cert_of_certifies.
Qed.

Lemma committed_has_certificates_witness :
  exists b p cert, proposed_block (Demo.committed Demo.block_a) = Some b /\
    polc (Demo.committed Demo.block_a) = Some p /\
    final_cert (Demo.committed Demo.block_a) = Some cert /\
    c_block_hash p = b /\ c_height p = 5 /\ c_round p = round (Demo.committed Demo.block_a) /\
    c_block_hash cert = b /\ c_height cert = 5 /\
    c_round cert = round (Demo.committed Demo.block_a) /\
    PolcCertificate_verify p Demo.vset = Ok tt /\ PrecommitCertificate_verify cert Demo.vset = Ok tt.
Proof.
  apply (committed_has_certificates (HL := Toy.laws) 5 Demo.seed0 Demo.vset _ Demo.vset_wf
    (Demo.committed_reachable Demo.block_a)); [vm_compute; reflexivity|intros; reflexivity].
Defined.

(** Finality is final: no sequence of proposals, votes and timeouts changes
    a committed coordinator in any field. *)
Theorem committed_is_final `{Primitives} (c : RoundCoordinator) (es : list event) :
  phase c = Committed -> run c es = c.
Proof.
  intros Hph. unfold run. induction es as [|e es IH]; [done|]. cbn.
  replace (handle c e).1 with c; [done|].
  destruct e; cbn; unfold submit_proposal, submit_prevote, submit_precommit, fire_timeout;
    by rewrite Hph.
Qed.

Lemma committed_is_final_witness :
  run (Demo.committed Demo.block_a) (ETimeout :: Demo.round0 Demo.block_b) =
    Demo.committed Demo.block_a.
Proof. apply committed_is_final. vm_compute. reflexivity. Defined.

(** C32. Refinement: what an observer sees of a run (round, phase, block) follows
    the abstract machine propose, lock, commit, or time out into the next round;
    in particular a block is never replaced inside a round. *)
Theorem coordinator_refines_view `{HL : PrimitiveLaws} (h : N) (s : array 32)
    (vs : ValidatorSet) (c : RoundCoordinator) (e : event) :
  vs_wf vs -> reachable h s vs c -> view_step (view_of c) (view_of (handle c e).1).
Proof. intros Hwf Hr. by eapply handle_view, reachable_inv. Qed.

Lemma coordinator_refines_view_witness :
  view_step (view_of Demo.coord0) (view_of (handle Demo.coord0 (EProposal Demo.block_a Demo.proof0)).1).
Proof.
  exact (coordinator_refines_view (HL := Toy.laws) 5 Demo.seed0 Demo.vset Demo.coord0 _ Demo.vset_wf
    (reachable_new 5 Demo.seed0 Demo.vset)).
Defined.

(** C10. Progress: from a round that awaits its proposal, the honest leader's
    proposal followed by the PRE-VOTES and the PRE-COMMITS of validators whose
    stake reaches the threshold commits the proposed block in that round. *)
Theorem honest_round_commits `{HL : PrimitiveLaws} (c : RoundCoordinator) (b : H256)
    (lsk : vrf_sk) (leader : Validator) (sk : N -> bls_sk) (idx : list N) :
  coord_inv c -> phase c = AwaitingProposal ->
  validators (vs c) !! leader_index c = Some leader -> v_vrf_pubkey leader = sr_to_public lsk ->
  holds_keys (vs c) sk idx -> NoDup idx ->
  quorum_threshold (vs c) <= weight (stake_at (vs c)) idx ->
  view_of (run c
    (EProposal b (LeaderProof_produce lsk (height c) (round c) (seed c)) ::
     (EPrevote <$> signed_by KPrevote sk b (height c) (round c) idx) ++
     (EPrecommit <$> signed_by KPrecommit sk b (height c) (round c) idx))) =
  mkView (round c) Committed (Some b).
Proof.
  intros Hci Hph Hl Hlk Hkeys Hnd Hq. rewrite run_cons, run_app. cbn [handle].
  set (pf := LeaderProof_produce _ _ _ _).
  assert (Hsub : (submit_proposal c b pf).1 = with_proposal c b).
  { unfold submit_proposal. rewrite Hph, Hl. cbn. rewrite Hlk.
    unfold pf, LeaderProof_verify, LeaderProof_produce.
    pose proof (vrf_prove_verify lsk (arr_bytes (LeaderProof_input (height c) (round c) (seed c)))) as Hv.
    destruct (vrf.prove _ _) as [p out]. cbn in *. rewrite Hv. cbn.
    by rewrite bool_decide_eq_true_2. }
  pose proof (proj1 (submit_proposal_inv c b pf Hci)) as Hci1. rewrite Hsub in *.
  set (c1 := with_proposal c b) in *.
  pose proof (run_prevotes c1 b _ [] sk idx eq_refl eq_refl eq_refl
    (tally_at_new c1 b (ci_vs c Hci)) Hci1 Hkeys Hnd Hq) as Hview.
  pose proof (run_prevotes_tally c1 b _ sk idx eq_refl eq_refl eq_refl) as Htally.
  change (height c1) with (height c) in *. change (round c1) with (round c) in *.
  set (c2 := run c1 _) in *. injection Hview as Hr2 Hp2 Hb2.
  destruct (run_invariant c1 (EPrevote <$> signed_by KPrevote sk b (height c) (round c) idx) Hci1)
    as (Hci2 & Hh2 & Hv2). fold c2 in Hci2, Hh2, Hv2. cbn in Hh2, Hv2.
  pose proof (run_precommits c2 b _ [] sk idx Hp2 Hb2 (Htally Hp2)) as Hfin.
  rewrite Hh2, Hr2, Hv2 in Hfin. apply Hfin; try done.
  pose proof (tally_at_new (k := KPrecommit) c2 b (ci_vs c2 Hci2)) as Hta.
  by rewrite Hh2, Hr2, Hv2 in Hta.
Qed.

Lemma honest_round_commits_witness :
  view_of (run Demo.coord0 (Demo.round0 Demo.block_a)) = mkView 0 Committed (Some Demo.block_a).
Proof.
  apply (honest_round_commits (HL := Toy.laws) Demo.coord0 Demo.block_a (Demo.vsk Demo.leader0)
    (Demo.validator Demo.leader0 10) Demo.sk Demo.quorum).
  - apply coord_inv_new, Demo.vset_wf.
  - reflexivity.
  - rewrite Demo.leader0_index. reflexivity.
  - reflexivity.
  - exact Demo.holds_quorum.
  - apply (bool_decide_unpack _). vm_compute. exact I.
  - vm_compute. discriminate.
Defined.

(** [ValidatorSet::new] accepts exactly the non-empty lists of at most 128
    validators whose stakes sum to a positive [u64], keeps them in order and
    records their exact sum. *)
Theorem validator_set_new_spec `{Primitives} (l : list Validator) (s : ValidatorSet) :
  ValidatorSet_new l = Ok s <-> s = mkValidatorSet l (sum_stakes l) /\ vs_wf s.
Proof. apply ValidatorSet_new_Ok. Qed.

(** Bounds: a set of total stake 2^63 or more is accepted, but there the
    doubling in [quorum_threshold] wraps and the threshold is no supermajority:
    it lies below two thirds of the stake by more than 2^62 units. *)
Theorem quorum_threshold_wraps `{Primitives} (vs : ValidatorSet) :
  vs_wf vs -> 9223372036854775808 <= total_stake vs ->
  quorum_threshold vs = (2 * total_stake vs - 18446744073709551616) / 3 + 1 /\
  3 * quorum_threshold vs + 13835058055282163712 < 2 * total_stake vs.
Proof.
  intros Hwf Hge. pose proof (vs_total_lt vs Hwf). unfold quorum_threshold, wrapping_mul.
  split; div_lia.
Qed.

(** A set of stake 2^63 whose second validator, with one unit, is a quorum alone. *)
Lemma quorum_threshold_wraps_witness :
  ValidatorSet_new (validators Demo.heavy) = Ok Demo.heavy /\ quorum_threshold Demo.heavy = 1 /\
  3 * quorum_threshold Demo.heavy + 13835058055282163712 < 2 * total_stake Demo.heavy.
Proof.
  split; [apply ValidatorSet_new_Ok; split; [reflexivity|exact Demo.heavy_wf]|].
  split; [vm_compute; reflexivity|].
  apply (quorum_threshold_wraps Demo.heavy Demo.heavy_wf). vm_compute. discriminate.
Defined.

(** The lock only moves forward: any event keeps the lock or replaces it by
    one of the current round, which is at least as high. *)
Theorem lock_monotone `{HL : PrimitiveLaws} (h : N) (s : array 32) (vset : ValidatorSet)
    (c : RoundCoordinator) (e : event) (l : LockedState) :
  vs_wf vset -> reachable h s vset c -> locked c = Some l ->
  exists l', locked (handle c e).1 = Some l' /\ l_round l <= l_round l' /\
    l_round l' <= round (handle c e).1.
Proof.
  intros Hwf Hr Hl.
  pose proof (reachable_inv _ _ _ _ Hwf Hr) as Hci.
  assert (exists l', locked (handle c e).1 = Some l' /\ l_round l <= l_round l') as (l' & Hl' & Hle).
  { pose proof (proj1 (ci_locked c Hci l Hl)) as Hlr. destruct e; cbn [handle].
    - destruct (submit_proposal_cases c block_hash pf) as [[_ ->]| ->]; eauto with lia.
    - unfold submit_prevote. repeat case_match; cbn; eauto with lia.
      unfold enter_precommit. cbn. case_match; eauto with lia.
    - unfold submit_precommit. repeat case_match; cbn; eauto with lia.
    - cbn. unfold fire_timeout. case_match; cbn; eauto with lia. }
  exists l'. split_and!; [done..|].
  by apply (ci_locked _ (proj1 (handle_inv c e Hci)) l').
Qed.

Lemma lock_monotone_witness :
  exists l l', locked (Demo.committed Demo.block_a) = Some l /\
    locked (handle (Demo.committed Demo.block_a) ETimeout).1 = Some l' /\ l_round l <= l_round l' /\
    l_round l' <= round (handle (Demo.committed Demo.block_a) ETimeout).1.
Proof.
  destruct Demo.committed_locked as [l E].
  destruct (lock_monotone (HL := Toy.laws) 5 Demo.seed0 Demo.vset _ ETimeout l Demo.vset_wf
    (Demo.committed_reachable Demo.block_a) E) as (l' & H).
  exists l, l'. split; [exact E|exact H].
Defined.
