(* ===== verification/Htlc.v ===== *)
(** * Htlc: hash time-locked contracts

    Models [src/crates/aii-crosschain/src/htlc.rs]: the record, its constructor,
    the two transitions [claim] and [refund], and the content-addressed id.  The
    theorems follow a contract through any sequence of calls: it settles at most
    once, and only the way its terms allow. *)
From stdpp Require Import base tactics gmap numbers sets list.
From Stdlib Require Import NArith Lia.
From S2P Require Import Prelude Bytes Crypto.

Inductive HtlcState := Locked | Claimed | Refunded.

#[export] Instance HtlcState_eq_dec : EqDecision HtlcState.
Proof. solve_decision. Defined.

Record Htlc := mkHtlc {
  sender : Address;
  recipient : Address;
  amount : N;
  secret_hash : H256;
  timeout : N;
  htlc_state : HtlcState
}.

Inductive HtlcError :=
| AmountZero
| SelfLock
| NotLocked (s : HtlcState)
| WrongPreimage
| TooEarly (now timeout : N).

Section htlc.
Context `{Primitives}.

Definition Htlc_new (sender recipient : Address) (amount : N) (secret_hash : H256) (timeout : N)
    : res HtlcError Htlc :=
  _ ← guard_err (amount =? 0) AmountZero;
  _ ← guard_err (bool_decide (sender = recipient)) SelfLock;
  mret (mkHtlc sender recipient amount secret_hash timeout Locked).

Definition with_htlc_state (self : Htlc) (s : HtlcState) : Htlc :=
  mkHtlc (sender self) (recipient self) (amount self) (secret_hash self) (timeout self) s.

Definition claim (self : Htlc) (preimage : bytes) : Htlc * res HtlcError unit :=
  if negb (bool_decide (htlc_state self = Locked)) then (self, Err (NotLocked (htlc_state self)))
  else if negb (bool_decide (keccak256 preimage = secret_hash self)) then (self, Err WrongPreimage)
  else (with_htlc_state self Claimed, Ok tt).

Definition refund (self : Htlc) (now : N) : Htlc * res HtlcError unit :=
  if negb (bool_decide (htlc_state self = Locked)) then (self, Err (NotLocked (htlc_state self)))
  else if now <? timeout self then (self, Err (TooEarly now (timeout self)))
  else (with_htlc_state self Refunded, Ok tt).

Definition is_open (self : Htlc) : bool := bool_decide (htlc_state self = Locked).

(** The bytes that [htlc_id] hashes. *)
Definition htlc_preimage (h : Htlc) : bytes :=
  arr_bytes (sender h) ++ arr_bytes (recipient h) ++ be_bytes 32 (amount h) ++
  arr_bytes (secret_hash h) ++ be_bytes 8 (timeout h).

Definition htlc_id (h : Htlc) : H256 := keccak256 (htlc_preimage h).

(** ** Sequences of calls *)
Inductive htlc_op := OpClaim (preimage : bytes) | OpRefund (now : N).

Definition htlc_apply (h : Htlc) (op : htlc_op) : Htlc * res HtlcError unit :=
  match op with OpClaim p => claim h p | OpRefund now => refund h now end.

Fixpoint htlc_run (h : Htlc) (ops : list htlc_op) : Htlc * list (res HtlcError unit) :=
  match ops with
  | [] => (h, [])
  | op :: ops =>
      let '(h, r) := htlc_apply h op in
      let '(h, rs) := htlc_run h ops in
      (h, r :: rs)
  end.

(** What the terms allow: the call, and the state it leads to. *)
Definition allowed (h : Htlc) (op : htlc_op) (s : HtlcState) : Prop :=
  match op, s with
  | OpClaim p, Claimed => keccak256 p = secret_hash h
  | OpRefund now, Refunded => timeout h <= now
  | _, _ => False
  end.

Definition refusals (rs : list (res HtlcError unit)) : Prop :=
  Forall (fun r => exists e, r = Err e) rs.

(** The terms fit their machine types. *)
Definition terms_wf (h : Htlc) : Prop := amount h < u256_mod /\ timeout h < u64_mod.

Definition same_terms (h h' : Htlc) : Prop := with_htlc_state h Locked = with_htlc_state h' Locked.

(** ** Lemmas *)
Lemma htlc_apply_settled h op :
  htlc_state h <> Locked -> htlc_apply h op = (h, Err (NotLocked (htlc_state h))).
Proof. intros Hs. destruct op; cbn; unfold claim, refund; rewrite bool_decide_false by done; done. Qed.

Lemma htlc_run_settled h ops :
  htlc_state h <> Locked ->
  htlc_run h ops = (h, replicate (length ops) (Err (NotLocked (htlc_state h)))).
Proof.
  intros Hs. induction ops as [|op ops IH]; [done|].
  cbn [htlc_run]. rewrite htlc_apply_settled by done. by rewrite IH.
Qed.

(** A call on an open contract settles it as allowed, or is refused and changes nothing. *)
Lemma htlc_apply_open h op :
  htlc_state h = Locked ->
  (exists s, htlc_apply h op = (with_htlc_state h s, Ok tt) /\ allowed h op s) \/
  (exists e, htlc_apply h op = (h, Err e) /\ forall s, ~ allowed h op s).
Proof.
  intros Hs. destruct op as [p|now]; cbn; unfold claim, refund; rewrite Hs, bool_decide_true by done; cbn.
  - case_bool_decide; cbn; [left; by exists Claimed|right].
    exists WrongPreimage. split; [done|]. intros []; cbn; tauto.
  - destruct (N.ltb_spec now (timeout h)); cbn; [right|left; by exists Refunded].
    eexists. split; [done|]. intros []; cbn; [tauto..|lia].
Qed.

(** A preimage that comes after the timeout, with refunds refused before it, still claims. *)
Theorem claim_after_timeout h p early late :
  htlc_state h = Locked -> keccak256 p = secret_hash h ->
  Forall (fun now => now < timeout h) early -> timeout h <= late ->
  htlc_run h ((OpRefund <$> early) ++ [OpClaim p; OpRefund late]) =
    (with_htlc_state h Claimed,
     ((fun now => Err (TooEarly now (timeout h))) <$> early) ++ [Ok tt; Err (NotLocked Claimed)]).
Proof.
  intros Hs Hp He Hlate. induction He as [|now early Hnow _ IH]; cbn [fmap list_fmap app htlc_run].
  - cbn. unfold claim, refund. rewrite Hs, !bool_decide_true by done. done.
  - cbn [htlc_apply]. unfold refund at 1. rewrite Hs, bool_decide_true by done. cbn [negb].
    rewrite (proj2 (N.ltb_lt _ _) Hnow). by rewrite IH.
Qed.

Lemma refusals_replicate n e : refusals (replicate n (Err e)).
Proof. apply Forall_replicate. by eexists. Qed.
End htlc.

(** ** Properties *)

(** C36. A contract settles at most once, and only as its terms allow: over any
    sequence of claims and refunds on an open contract its terms never change, and
    either every call is refused and the contract stays open, or exactly one call
    succeeds - a claim that reveals a preimage of the secret hash, or a refund at or
    after the timeout - every call before it was not allowed by the terms, and
    every call after it is refused with [NotLocked].  The terms are those of [claim]
    and [refund]: a claim looks at no clock, so the recipient may claim after the
    timeout as long as nobody has refunded, although the header of the module says that
    it claims before the timelock expires ([claim_after_timeout]). *)
Theorem htlc_settles_once `{Primitives} (h : Htlc) (ops : list htlc_op) :
  htlc_state h = Locked ->
  let '(h', rs) := htlc_run h ops in
  (h' = h /\ refusals rs /\ length rs = length ops /\
   Forall (fun op => forall s, ~ allowed h op s) ops) \/
  (exists before op after s es,
     ops = before ++ op :: after /\ allowed h op s /\ h' = with_htlc_state h s /\
     Forall (fun op => forall s, ~ allowed h op s) before /\
     refusals es /\ length es = length before /\
     rs = es ++ Ok tt :: replicate (length after) (Err (NotLocked s))).
Proof.
  intros Hs. induction ops as [|op ops IH]; cbn [htlc_run].
  { left. split_and!; [done|constructor|done|constructor]. }
  destruct (htlc_apply_open h op Hs) as [(s & -> & Ha)|(e & -> & Hn)].
  - assert (s <> Locked) as Hl by (intros ->; by destruct op).
    rewrite htlc_run_settled by done. right. exists [], op, ops, s, [].
    split_and!; try done; by constructor.
  - destruct (htlc_run h ops) as [h' rs].
    destruct IH as [(-> & Hr & Hlen & Hf)|(before & op' & after & s & es & -> & Ha & -> & Hf & Hr & Hlen & ->)].
    + left. split_and!; [done|constructor; [by exists e|done]|cbn; by rewrite Hlen|by constructor].
    + right. exists (op :: before), op', after, s, (Err e :: es).
      split_and!; try done; [by constructor|constructor; [by exists e|done]|cbn; by rewrite Hlen].
Qed.

(** The id commits to the terms: two contracts whose terms fit their types and
    whose ids are equal have the same terms, or exhibit a collision of Keccak-256;
    the id does not depend on the state, so it is stable through settlement. *)
Theorem htlc_id_binds `{Primitives} (h h' : Htlc) (s : HtlcState) :
  terms_wf h -> terms_wf h' -> htlc_id h = htlc_id h' ->
  htlc_id (with_htlc_state h s) = htlc_id h /\
  (same_terms h h' \/ exists a b : bytes, a <> b /\ keccak256 a = keccak256 b).
Proof.
  intros [Ha Ht] [Ha' Ht'] Hid. split; [done|].
  destruct (decide (htlc_preimage h = htlc_preimage h')) as [He|Hn]; [left|right; eauto].
  unfold htlc_preimage in He.
  apply app_inj_1 in He as [H1 He]; [|by rewrite !arr_length].
  apply app_inj_1 in He as [H2 He]; [|by rewrite !arr_length].
  apply app_inj_1 in He as [H3 He]; [|by rewrite !length_be_bytes].
  apply app_inj_1 in He as [H4 H5]; [|by rewrite !arr_length].
  apply (inj arr_bytes) in H1, H2, H4. apply be_bytes_inj in H3; [|done..]. apply be_bytes_inj in H5; [|done..].
  unfold same_terms, with_htlc_state. congruence.
Qed.

Module HtlcDemo.
Definition secret : bytes := be_bytes 32 12345.
Definition contract : Htlc :=
  mkHtlc (be_array 20 1) (be_array 20 2) 1000 (@keccak256 Toy.prims secret) 500 Locked.
End HtlcDemo.

(** An early refund and a wrong preimage, the claim, a late refund. *)
Lemma htlc_settles_once_witness :
  let ops := [OpRefund 499; OpClaim []; OpClaim HtlcDemo.secret; OpRefund 500] in
  (@htlc_run Toy.prims HtlcDemo.contract ops).2 =
    [Err (TooEarly 499 500); Err WrongPreimage; Ok tt; Err (NotLocked Claimed)] /\
  exists before op after s, ops = before ++ op :: after /\
    @allowed Toy.prims HtlcDemo.contract op s /\
    (@htlc_run Toy.prims HtlcDemo.contract ops).1 = with_htlc_state HtlcDemo.contract s.
Proof.
  intros ops. split; [vm_compute; reflexivity|].
  pose proof (@htlc_settles_once Toy.prims HtlcDemo.contract ops eq_refl) as Hrun.
  assert (is_open (@htlc_run Toy.prims HtlcDemo.contract ops).1 = false) as Hclosed
    by (vm_compute; reflexivity).
  destruct (@htlc_run Toy.prims HtlcDemo.contract ops) as [h' rs].
  destruct Hrun as [(-> & _)|(before & op & after & s & es & He & Ha & -> & _)]; [discriminate Hclosed|].
  exists before, op, after, s. split_and!; [exact He|exact Ha|reflexivity].
Defined.

Lemma htlc_id_binds_witness :
  @htlc_id Toy.prims (with_htlc_state HtlcDemo.contract Refunded) = @htlc_id Toy.prims HtlcDemo.contract.
Proof.
  refine (proj1 (@htlc_id_binds Toy.prims HtlcDemo.contract HtlcDemo.contract Refunded _ _ eq_refl));
    split; reflexivity.
Defined.
