(* ===== verification/Federation.v ===== *)
(** * Federation: the multisig bridge vault

    Models [src/crates/aii-crosschain/src/federation.rs]: the [t]-of-[n] set of BLS
    keys and its id, the receipt and its digest, and [Vault::release], which keeps
    the nonces it has released.  The theorems say exactly which bundles are
    released, that a vault never releases a nonce twice whatever it is sent, and
    that [t] members who sign are enough. *)
From stdpp Require Import base tactics gmap numbers sets list.
From Stdlib Require Import NArith Lia.
From S2P Require Import Prelude Bytes Crypto Bft BftFacts.

Definition MAX_FEDERATION_SIZE : N := 64.

Inductive BridgeError :=
| EmptyFederation
| FederationTooLarge (got max : N)
| InvalidThreshold (threshold federation_size : N)
| SignerBitmapOversized (highest_bit federation_size : N)
| BelowThreshold (signers threshold : N)
| InvalidAggregateSig
| NonceReused (nonce : N).

Section federation.
Context `{Primitives}.

Record FederationSet := mkFederation { fed_pubkeys : list bls_pk; fed_threshold : N }.

Definition FederationSet_new (pubkeys : list bls_pk) (threshold : N) : res BridgeError FederationSet :=
  _ ← guard_err (len pubkeys =? 0) EmptyFederation;
  _ ← guard_err (MAX_FEDERATION_SIZE <? len pubkeys) (FederationTooLarge (len pubkeys) MAX_FEDERATION_SIZE);
  _ ← guard_err ((threshold =? 0) || (len pubkeys <? threshold)) (InvalidThreshold threshold (len pubkeys));
  mret (mkFederation pubkeys threshold).

Definition fed_size (self : FederationSet) : N := len (fed_pubkeys self).

Definition fed_preimage (self : FederationSet) : bytes :=
  be_bytes 8 (fed_threshold self) ++
  concat ((fun pk => arr_bytes (bls.PublicKey_to_compressed pk)) <$> fed_pubkeys self).

Definition fed_id (self : FederationSet) : H256 := keccak256 (fed_preimage self).

Record LockReceipt := mkReceipt {
  src_chain_id : N;
  asset : H256;
  r_amount : N;
  r_recipient : Address;
  r_nonce : N
}.

Definition receipt_preimage (self : LockReceipt) (federation_id : H256) : bytes :=
  arr_bytes federation_id ++ be_bytes 8 (src_chain_id self) ++ arr_bytes (asset self) ++
  be_bytes 32 (r_amount self) ++ arr_bytes (r_recipient self) ++ be_bytes 8 (r_nonce self).

Definition receipt_digest (self : LockReceipt) (federation_id : H256) : H256 :=
  keccak256 (receipt_preimage self federation_id).

Record AttestationBundle := mkBundle {
  receipt : LockReceipt;
  b_aggregated_sig : bls_sig;
  b_signer_bitmap : N
}.

Record Released := mkReleased { released_receipt : LockReceipt }.

Record Vault := mkVault { federation : FederationSet; used_nonces : gset N }.

Definition Vault_new (f : FederationSet) : Vault := mkVault f ∅.

(** [u64::count_ones] *)
Definition count_ones (bm : N) : N := len (filter (fun i => bit_set bm i = true) (seq 0 64)).

(** The positions the bitmap selects and their keys. *)
Definition fed_members (f : FederationSet) (bm : N) : list nat :=
  filter (fun i => bit_set bm i = true) (seq 0 (length (fed_pubkeys f))).

Definition signer_pks (f : FederationSet) (bm : N) : list bls_pk :=
  omap (fun i => fed_pubkeys f !! i) (fed_members f bm).

Definition release (self : Vault) (bundle : AttestationBundle) : Vault * res BridgeError Released :=
  let f := federation self in
  let n := fed_size f in
  let bm := b_signer_bitmap bundle in
  let checked : res BridgeError unit :=
    _ ← guard_err (negb (bm =? 0) && (n <=? N.log2 bm)) (SignerBitmapOversized (N.log2 bm) n);
    let signers := count_ones bm in
    _ ← guard_err (signers <? fed_threshold f) (BelowThreshold signers (fed_threshold f));
    _ ← guard_err (bool_decide (r_nonce (receipt bundle) ∈ used_nonces self))
          (NonceReused (r_nonce (receipt bundle)));
    let digest := receipt_digest (receipt bundle) (fed_id f) in
    map_err (fun _ => InvalidAggregateSig)
      (bls.fast_aggregate_verify (b_aggregated_sig bundle) (arr_bytes digest) (signer_pks f bm))
  in
  match checked with
  | Ok _ =>
      (mkVault f ({[ r_nonce (receipt bundle) ]} ∪ used_nonces self),
       Ok (mkReleased (receipt bundle)))
  | Err e => (self, Err e)
  | Panic => (self, Panic)
  end.

(** ** Specification *)

(** What [FederationSet::new] guarantees. *)
Record fed_wf (f : FederationSet) : Prop := {
  fed_pos : 0 < fed_threshold f;
  fed_enough : fed_threshold f <= fed_size f;
  fed_max : fed_size f <= 64
}.

(** At least [t] members, and nobody else, signed the receipt for this federation. *)
Definition authorised (f : FederationSet) (b : AttestationBundle) : Prop :=
  (forall i, N.testbit (b_signer_bitmap b) i = true -> i < fed_size f) /\
  fed_threshold f <= len (fed_members f (b_signer_bitmap b)) /\
  blst_fast_aggregate_verify (b_aggregated_sig b)
    (arr_bytes (receipt_digest (receipt b) (fed_id f))) (signer_pks f (b_signer_bitmap b)) = true.

Fixpoint run_vault (v : Vault) (bundles : list AttestationBundle)
    : Vault * list (res BridgeError Released) :=
  match bundles with
  | [] => (v, [])
  | b :: bundles =>
      let '(v, r) := release v b in
      let '(v, rs) := run_vault v bundles in
      (v, r :: rs)
  end.

(** The nonces of the releases in a list of outcomes. *)
Definition released_nonces (rs : list (res BridgeError Released)) : list N :=
  omap (fun r => match r with Ok x => Some (r_nonce (released_receipt x)) | _ => None end) rs.
End federation.

(** ** Lemmas *)
Section facts.
Context `{Primitives}.
Implicit Types (f : FederationSet) (b : AttestationBundle) (v : Vault).

Lemma FederationSet_new_Ok pks t f :
  FederationSet_new pks t = Ok f <-> f = mkFederation pks t /\ fed_wf f.
Proof.
  unfold FederationSet_new. split.
  - intros Hn. inv_ok. subst. split; [done|].
    rewrite ?orb_false_iff in *. destruct_and?.
    rewrite ?N.eqb_neq, ?N.ltb_ge in *. unfold MAX_FEDERATION_SIZE in *.
    split; cbn; unfold fed_size; cbn; lia.
  - intros [-> [Hp He Hm]]. unfold fed_size in *. cbn in *.
    rewrite (proj2 (N.eqb_neq (len pks) 0)) by lia. cbn.
    rewrite (proj2 (N.ltb_ge MAX_FEDERATION_SIZE (len pks))) by (unfold MAX_FEDERATION_SIZE; lia). cbn.
    rewrite (proj2 (N.eqb_neq t 0)), (proj2 (N.ltb_ge (len pks) t)) by lia. done.
Qed.

(** The range check says that no bit at or above the size is set. *)
Lemma bitmap_in_range bm n :
  negb (bm =? 0) && (n <=? N.log2 bm) = false <-> (forall i, N.testbit bm i = true -> i < n).
Proof.
  rewrite andb_false_iff, negb_false_iff, N.eqb_eq, N.leb_gt. split.
  - intros [->|Hl] i Hi; [by rewrite N.bits_0 in Hi|].
    destruct (N.le_gt_cases i (N.log2 bm)); [lia|]. by rewrite N.bits_above_log2 in Hi.
  - intros Hb. destruct (decide (bm = 0)) as [->|Hn]; [by left|right].
    apply Hb. by apply N.bit_log2.
Qed.

(** Within the range, the population count is the number of members. *)
Lemma count_ones_members f bm :
  fed_size f <= 64 -> (forall i, N.testbit bm i = true -> i < fed_size f) ->
  count_ones bm = len (fed_members f bm).
Proof.
  unfold count_ones, fed_members, fed_size. intros Hm Hb. f_equal.
  assert (64 = length (fed_pubkeys f) + (64 - length (fed_pubkeys f)))%nat as ->
    by (unfold len in *; lia).
  rewrite seq_app, filter_app.
  rewrite (filter_none _ (seq (0 + length (fed_pubkeys f)) _)); [by rewrite app_nil_r|].
  apply Forall_forall. intros i Hi%elem_of_seq. rewrite bit_set_testbit. intros Ht%Hb.
  unfold len in *. lia.
Qed.

Lemma elem_of_members f bm i :
  i ∈ fed_members f bm <-> N.testbit bm (N.of_nat i) = true /\ (i < length (fed_pubkeys f))%nat.
Proof.
  unfold fed_members. rewrite list_elem_of_filter, elem_of_seq, bit_set_testbit. naive_solver lia.
Qed.

Lemma length_signer_pks f bm : length (signer_pks f bm) = length (fed_members f bm).
Proof.
  unfold signer_pks.
  assert (Forall (fun i => i < length (fed_pubkeys f))%nat (fed_members f bm)) as Hf.
  { apply Forall_forall. intros i Hi%elem_of_members. tauto. }
  induction Hf as [|i l Hi _ IH]; [done|]. cbn [omap list_omap].
  apply lookup_lt_is_Some in Hi as [pk ->]. cbn. by rewrite IH.
Qed.

Lemma release_cases v b :
  fed_wf (federation v) ->
  (authorised (federation v) b /\ r_nonce (receipt b) ∉ used_nonces v /\
   release v b = (mkVault (federation v) ({[ r_nonce (receipt b) ]} ∪ used_nonces v),
                  Ok (mkReleased (receipt b)))) \/
  (~ (authorised (federation v) b /\ r_nonce (receipt b) ∉ used_nonces v) /\
   exists e, release v b = (v, Err e)).
Proof.
  intros [Hp He Hm]. unfold release, authorised. cbv zeta.
  destruct (negb _ && _) eqn:Hr; cbn [guard_err mbind res_bind].
  { right. split; [|by eexists]. intros [(Hb & _) _]. apply bitmap_in_range in Hb. congruence. }
  rewrite bitmap_in_range in Hr. rewrite (count_ones_members (federation v)) by done.
  destruct (N.ltb_spec (len (fed_members (federation v) (b_signer_bitmap b))) (fed_threshold (federation v)))
    as [Ht|Ht]; cbn [guard_err mbind res_bind].
  { right. split; [|by eexists]. intros [(_ & Hb & _) _]. lia. }
  case_bool_decide as Hnonce; cbn [guard_err mbind res_bind].
  { right. split; [tauto|by eexists]. }
  assert (signer_pks (federation v) (b_signer_bitmap b) <> []) as Hne.
  { intros Hnil. pose proof (length_signer_pks (federation v) (b_signer_bitmap b)) as Hl.
    rewrite Hnil in Hl. unfold len in Ht. cbn in Hl. lia. }
  unfold bls.fast_aggregate_verify.
  destruct (signer_pks (federation v) (b_signer_bitmap b)) as [|pk pks] eqn:Hpks; [done|].
  destruct (blst_fast_aggregate_verify _ _ _) eqn:Hv; cbn [map_err].
  - left. done.
  - right. split; [|by eexists]. intros [(_ & _ & Hv') _]. congruence.
Qed.

Lemma run_vault_spec v bundles :
  fed_wf (federation v) ->
  let '(v', rs) := run_vault v bundles in
  federation v' = federation v /\
  Forall2 (fun b r => (exists e, r = Err e) \/
             (r = Ok (mkReleased (receipt b)) /\ authorised (federation v) b)) bundles rs /\
  NoDup (released_nonces rs) /\
  (forall n, n ∈ released_nonces rs -> n ∉ used_nonces v) /\
  used_nonces v' = list_to_set (released_nonces rs) ∪ used_nonces v.
Proof.
  revert v. induction bundles as [|b bundles IH]; intros v Hwf; cbn [run_vault].
  { split_and!; [done|constructor|constructor|cbn; set_solver|cbn; set_solver]. }
  destruct (release_cases v b Hwf) as [(Ha & Hn & ->)|(_ & e & ->)].
  - pose proof (IH (mkVault (federation v) ({[ r_nonce (receipt b) ]} ∪ used_nonces v)) Hwf) as Hr.
    destruct (run_vault _ bundles) as [v' rs].
    destruct Hr as (Hf & Hall & Hnd & Hfresh & Hused). cbn [federation used_nonces] in *.
    split_and!; [done|constructor; [right; done|done]|..].
    + cbn. constructor; [|done]. intros Hin%Hfresh. set_solver.
    + cbn. intros n [->|Hin]%elem_of_cons; [done|]. apply Hfresh in Hin. set_solver.
    + rewrite Hused. cbn. set_solver.
  - specialize (IH v Hwf). destruct (run_vault v bundles) as [v' rs].
    destruct IH as (Hf & Hall & Hnd & Hfresh & Hused).
    split_and!; [done|constructor; [left; by eexists|done]|done..].
Qed.

Lemma members_perm f bm idx :
  NoDup idx -> (forall i, i ∈ idx -> (i < length (fed_pubkeys f))%nat) ->
  (forall i, N.testbit bm i = bool_decide (N.to_nat i ∈ idx)) -> fed_members f bm ≡ₚ idx.
Proof.
  intros Hnd Hin Hbm. apply NoDup_Permutation; [apply NoDup_filter, NoDup_seq|done|].
  intros i. rewrite elem_of_members, Hbm, Nat2N.id, bool_decide_eq_true. naive_solver.
Qed.
End facts.

(** ** Properties *)

(** C35. A vault never releases twice: whatever sequence of bundles it is sent, each is
    either refused or releases its own receipt, on the authority of at least [t]
    distinct members who signed it for this very federation; the nonces of the
    releases are pairwise distinct and none was used before, and the vault
    remembers exactly the used ones. *)
Theorem vault_releases_once `{Primitives} (v : Vault) (bundles : list AttestationBundle) :
  fed_wf (federation v) ->
  let '(v', rs) := run_vault v bundles in
  Forall2 (fun b r => (exists e, r = Err e) \/
             (r = Ok (mkReleased (receipt b)) /\ authorised (federation v) b)) bundles rs /\
  NoDup (released_nonces rs) /\
  (forall n, n ∈ released_nonces rs -> n ∉ used_nonces v) /\
  used_nonces v' = list_to_set (released_nonces rs) ∪ used_nonces v.
Proof.
  intros Hwf. pose proof (run_vault_spec v bundles Hwf) as Hs.
  destruct (run_vault v bundles). by destruct Hs.
Qed.

(** [t] members are enough: if any set of at least [t] members sign the digest of a
    receipt with a fresh nonce, the signatures aggregate, and the bundle with the
    aggregate and the bitmap of exactly those members is released by the vault
    (unless the members' keys sum to the point at infinity). *)
Theorem threshold_releases `{HL : PrimitiveLaws} (v : Vault) (r : LockReceipt) (sk : nat -> bls_sk)
    (idx : list nat) (bm : N) :
  let f := federation v in
  let digest := arr_bytes (receipt_digest r (fed_id f)) in
  let sigs := (fun i => bls.sign (sk i) digest) <$> idx in
  fed_wf f -> NoDup idx -> fed_threshold f <= len idx ->
  Forall (fun i => fed_pubkeys f !! i = Some (bls.public_key (sk i))) idx ->
  (forall i, N.testbit bm i = bool_decide (N.to_nat i ∈ idx)) ->
  r_nonce r ∉ used_nonces v -> blst_pks_cancel ((fun i => bls.public_key (sk i)) <$> idx) = false ->
  exists agg, bls.aggregate_signatures sigs = Ok agg /\
    (release v (mkBundle r agg bm)).2 = Ok (mkReleased r).
Proof.
  intros f digest sigs Hwf Hnd Ht Hk Hbm Hnonce Hcancel.
  assert (Hne : sigs <> []).
  { intros Hnil%fmap_nil_inv. rewrite Hnil in Ht. pose proof (fed_pos f Hwf).
    unfold len in Ht. cbn [length] in Ht. lia. }
  assert (Hsigs : Forall2 (fun s pk => blst_verify s digest pk = true) sigs
                    ((fun i => bls.public_key (sk i)) <$> idx)).
  { apply Forall2_fmap, Forall2_same_length_lookup_2; [done|]. intros k i i' Hi Hi'.
    rewrite Hi in Hi'. injection Hi' as <-. apply blst_sign_verify. }
  destruct (blst_aggregate_ok sigs Hne) as [agg Hagg].
  { apply Forall_fmap, Forall_forall. intros i _. eexists _, _. apply blst_sign_verify. }
  exists agg. split; [apply bls_aggregate_Ok; by split|].
  destruct (release_cases v (mkBundle r agg bm) Hwf) as [(_ & _ & ->)|[Hn _]]; [done|].
  exfalso. apply Hn. split; [|done].
  assert (Hin : forall i, i ∈ idx -> (i < length (fed_pubkeys f))%nat).
  { intros i Hi. rewrite Forall_forall in Hk. by apply lookup_lt_Some with (1 := Hk i Hi). }
  pose proof (members_perm f bm idx Hnd Hin Hbm) as Hperm.
  split_and!; cbn [b_signer_bitmap b_aggregated_sig receipt].
  - intros i. rewrite Hbm, bool_decide_eq_true. intros Hi%Hin.
    change (i < N.of_nat (length (fed_pubkeys f))). lia.
  - unfold len. fold f. by rewrite Hperm.
  - rewrite (blst_fast_aggregate_perm _ _ _ ((fun i => bls.public_key (sk i)) <$> idx)).
    + by apply (blst_aggregate_verifies sigs).
    + unfold signer_pks. fold f. rewrite Hperm. clear -Hk. induction Hk as [|i l Hi _ IH]; [done|].
      cbn [omap list_omap fmap list_fmap]. rewrite Hi. by rewrite IH.
Qed.

(** A federation of three members, two of whom are enough. *)
Module FederationDemo.
Definition sk (i : nat) : array 48 := be_array 48 (N.of_nat i + 1).
Definition fed : @FederationSet Toy.prims := @mkFederation Toy.prims [sk 0; sk 1; sk 2] 2.
Definition vault : @Vault Toy.prims := @Vault_new Toy.prims fed.
Definition lock1 : LockReceipt := mkReceipt 1 (be_array 32 9) 1000 (be_array 20 5) 77.
Definition digest (r : LockReceipt) : bytes :=
  arr_bytes (@receipt_digest Toy.prims r (@fed_id Toy.prims fed)).
Definition signed (r : LockReceipt) (idx : list nat) (bm : N) : @AttestationBundle Toy.prims :=
  @mkBundle Toy.prims r
    (match @bls.aggregate_signatures Toy.prims ((fun i => @bls.sign Toy.prims (sk i) (digest r)) <$> idx) with
     | Ok agg => agg | _ => zero_array 96 end) bm.

Lemma fed_is_wf : @fed_wf Toy.prims fed.
Proof. split; vm_compute; (reflexivity || discriminate). Qed.
End FederationDemo.

(** Too few signers, members 0 and 2, a replay. *)
Lemma vault_releases_once_witness :
  let bundles := [FederationDemo.signed FederationDemo.lock1 [0%nat] 1;
                  FederationDemo.signed FederationDemo.lock1 [0%nat; 2%nat] 5;
                  FederationDemo.signed FederationDemo.lock1 [0%nat; 1%nat] 3] in
  let rs := (@run_vault Toy.prims FederationDemo.vault bundles).2 in
  rs = [Err (BelowThreshold 1 2); Ok (mkReleased FederationDemo.lock1); Err (NonceReused 77)] /\
  NoDup (released_nonces rs).
Proof.
  intros bundles rs. split; [vm_compute; reflexivity|].
  pose proof (@vault_releases_once Toy.prims FederationDemo.vault bundles FederationDemo.fed_is_wf) as Hv.
  subst rs. destruct (@run_vault Toy.prims FederationDemo.vault bundles) as [v' rs].
  destruct Hv as (_ & Hnd & _). exact Hnd.
Defined.

Lemma threshold_releases_witness :
  exists agg, (@release Toy.prims FederationDemo.vault
    (@mkBundle Toy.prims FederationDemo.lock1 agg 5)).2 = Ok (mkReleased FederationDemo.lock1).
Proof.
  destruct (threshold_releases (HL := Toy.laws) FederationDemo.vault FederationDemo.lock1
    FederationDemo.sk [0%nat; 2%nat] 5) as (agg & _ & Hr).
  - exact FederationDemo.fed_is_wf.
  - apply (bool_decide_unpack (NoDup [0%nat; 2%nat])). vm_compute. exact I.
  - vm_compute. discriminate.
  - repeat constructor.
  - intros i. destruct (N.lt_ge_cases i 3) as [Hi|Hi].
    + assert (i = 0 \/ i = 1 \/ i = 2) as [->|[->| ->]] by lia; vm_compute; reflexivity.
    + rewrite (bool_decide_eq_false_2 (N.to_nat i ∈ [0%nat; 2%nat]))
        by (rewrite !elem_of_cons, elem_of_nil; lia).
      apply N.bits_above_log2. change (N.log2 5) with 2. lia.
  - apply not_elem_of_empty.
  - vm_compute. reflexivity.
  - exists agg. exact Hr.
Defined.
