(* ===== verification/Storage.v ===== *)
(** * Storage: the key-value backend

    Models [src/crates/aii-storage]: the closed set of column families, the trait
    [KvBackend] as the class of the same name, and the in-memory backend of
    [memory.rs] as its instance.  [KvLaws] is what the tables of the node rely on: a
    fault-free backend behaves as one finite map per column family, and iterates a
    prefix in ascending key order.  The memory backend satisfies the laws; RocksDB
    (third-party, [rocksdb.rs]) is used through the same interface. *)
From stdpp Require Import base tactics countable gmap numbers sets sorting strings list.
From Stdlib Require Import NArith Lia.
From Stdlib.Init Require Import Byte.
From Stdlib.Strings Require Byte.
From S2P Require Import Prelude Bytes.

(** ** Column families: [cf.rs] *)
Inductive ColumnFamily :=
| CfDefault | Headers | Bodies | Receipts | Transactions | State | AccountStorage | TxLookup
| Meta | MicroChain | Code.

#[export] Instance ColumnFamily_eq_dec : EqDecision ColumnFamily.
Proof. solve_decision. Defined.

(** [ColumnFamily::ALL] *)
Definition all_families : list ColumnFamily :=
  [CfDefault; Headers; Bodies; Receipts; Transactions; State; AccountStorage; TxLookup; Meta;
   MicroChain; Code].

Definition cf_index (cf : ColumnFamily) : nat :=
  match cf with
  | CfDefault => 0 | Headers => 1 | Bodies => 2 | Receipts => 3 | Transactions => 4 | State => 5
  | AccountStorage => 6 | TxLookup => 7 | Meta => 8 | MicroChain => 9 | Code => 10
  end.

#[export] Instance ColumnFamily_countable : Countable ColumnFamily.
Proof.
  apply (inj_countable cf_index (fun n => all_families !! n)). by intros [].
Defined.

(** [error.rs] *)
Inductive StorageError :=
| BackendError (msg : string)
| InvalidColumnFamily (cf : ColumnFamily)
| IoError.

(** ** Batches: [batch.rs] *)
Inductive Op :=
| Put (cf : ColumnFamily) (key value : bytes)
| Delete (cf : ColumnFamily) (key : bytes).

Abbreviation WriteBatch := (list Op).

Abbreviation kv_item := (res StorageError (bytes * bytes)).

(** ** The interface: [backend.rs] *)
Class KvBackend (B : Type) := {
  kv_get : B -> ColumnFamily -> bytes -> res StorageError (option bytes);
  kv_put : B -> ColumnFamily -> bytes -> bytes -> B * res StorageError unit;
  kv_delete : B -> ColumnFamily -> bytes -> B * res StorageError unit;
  kv_write : B -> WriteBatch -> B * res StorageError unit;
  kv_iter : B -> ColumnFamily -> list kv_item;
  kv_iter_prefix : B -> ColumnFamily -> bytes -> list kv_item
}.

(** Byte strings in the order of the keys. *)
Definition bytes_le (a b : bytes) : bool := lex_le (Byte.to_N <$> a) (Byte.to_N <$> b).

(** The keys ascend strictly. *)
Definition ascending (items : list (bytes * bytes)) : Prop :=
  StronglySorted (fun x y => bytes_le x.1 y.1 = true /\ x.1 <> y.1) items.

Definition apply_op (m : gmap (ColumnFamily * bytes) bytes) (op : Op) : gmap (ColumnFamily * bytes) bytes :=
  match op with
  | Put cf k v => <[(cf, k) := v]> m
  | Delete cf k => delete (cf, k) m
  end.

(** A fault-free backend, seen as a finite map. *)
Class KvLaws (B : Type) `{KvBackend B} := {
  kv_ok : B -> Prop;
  kv_view : B -> gmap (ColumnFamily * bytes) bytes;
  kv_get_view b cf k : kv_ok b -> kv_get b cf k = Ok (kv_view b !! (cf, k));
  kv_put_view b cf k v : kv_ok b -> exists b', kv_put b cf k v = (b', Ok tt) /\
    kv_ok b' /\ kv_view b' = <[(cf, k) := v]> (kv_view b);
  kv_delete_view b cf k : kv_ok b -> exists b', kv_delete b cf k = (b', Ok tt) /\
    kv_ok b' /\ kv_view b' = delete (cf, k) (kv_view b);
  kv_write_view b ops : kv_ok b -> exists b', kv_write b ops = (b', Ok tt) /\
    kv_ok b' /\ kv_view b' = foldl apply_op (kv_view b) ops;
  kv_iter_view b cf : kv_ok b -> exists items,
    kv_iter b cf = Ok <$> items /\ ascending items /\
    forall k v, (k, v) ∈ items <-> kv_view b !! (cf, k) = Some v;
  kv_iter_prefix_view b cf p : kv_ok b -> exists items,
    kv_iter_prefix b cf p = Ok <$> items /\ ascending items /\
    forall k v, (k, v) ∈ items <-> kv_view b !! (cf, k) = Some v /\ p `prefix_of` k
}.

(** ** The in-memory backend: [memory.rs] *)
Abbreviation CfMap := (gmap bytes bytes).
Abbreviation Store := (gmap ColumnFamily CfMap).

Record MemoryBackend := mkMemory { inner : Store }.

Definition MemoryBackend_new : MemoryBackend :=
  mkMemory (list_to_map ((fun cf => (cf, ∅)) <$> all_families)).

(** The entries of a [BTreeMap], in key order. *)
Definition cf_items (m : CfMap) : list (bytes * bytes) :=
  sort_by (fun x y => bytes_le x.1 y.1) (map_to_list m).

Definition mem_get (self : MemoryBackend) (cf : ColumnFamily) (key : bytes)
    : res StorageError (option bytes) :=
  cf_map ← ok_or (inner self !! cf) (InvalidColumnFamily cf);
  mret (cf_map !! key).

Definition mem_op (self : MemoryBackend) (op : Op) : MemoryBackend * res StorageError unit :=
  let '(cf, f) := match op with
                  | Put cf k v => (cf, <[k := v]>)
                  | Delete cf k => (cf, delete k)
                  end : ColumnFamily * (CfMap -> CfMap) in
  match inner self !! cf with
  | Some cf_map => (mkMemory (<[cf := f cf_map]> (inner self)), Ok tt)
  | None => (self, Err (InvalidColumnFamily cf))
  end.

Definition mem_put (self : MemoryBackend) (cf : ColumnFamily) (key value : bytes) :=
  mem_op self (Put cf key value).
Definition mem_delete (self : MemoryBackend) (cf : ColumnFamily) (key : bytes) :=
  mem_op self (Delete cf key).

(** The loop of [write]: it stops at the first error, with the earlier operations applied. *)
Fixpoint mem_write (self : MemoryBackend) (batch : WriteBatch) : MemoryBackend * res StorageError unit :=
  match batch with
  | [] => (self, Ok tt)
  | op :: batch =>
      let '(self, r) := mem_op self op in
      match r with
      | Ok _ => mem_write self batch
      | Err e => (self, Err e)
      | Panic => (self, Panic)
      end
  end.

Definition mem_iter (self : MemoryBackend) (cf : ColumnFamily) : list kv_item :=
  match inner self !! cf with
  | Some m => Ok <$> cf_items m
  | None => [Err (InvalidColumnFamily cf)]
  end.

(** [map.range(prefix..).take_while(|(k, _)| k.starts_with(prefix))] *)
Definition mem_iter_prefix (self : MemoryBackend) (cf : ColumnFamily) (prefix : bytes) : list kv_item :=
  match inner self !! cf with
  | Some m =>
      Ok <$> take_while (fun x => bool_decide (prefix `prefix_of` x.1))
               (filter (fun x => bytes_le prefix x.1 = true) (cf_items m))
  | None => [Err (InvalidColumnFamily cf)]
  end.

#[export] Instance memory_backend : KvBackend MemoryBackend := {
  kv_get := mem_get;
  kv_put := mem_put;
  kv_delete := mem_delete;
  kv_write := mem_write;
  kv_iter := mem_iter;
  kv_iter_prefix := mem_iter_prefix
}.

(** ** The memory backend is a fault-free backend *)
Section memory.
Implicit Types (b : MemoryBackend) (cf : ColumnFamily) (k v p : bytes).

Definition mem_ok b : Prop := forall cf, is_Some (inner b !! cf).

Definition mem_view b : gmap (ColumnFamily * bytes) bytes :=
  map_uncurry (M1 := gmap ColumnFamily) (M2 := gmap bytes) (inner b).

Lemma mem_view_lookup b cf k : mem_view b !! (cf, k) = inner b !! cf ≫= lookup k.
Proof. apply lookup_map_uncurry. Qed.

Lemma MemoryBackend_new_ok : mem_ok MemoryBackend_new.
Proof. intros []; by eexists. Qed.

Lemma mem_op_view b op :
  mem_ok b -> exists b', mem_op b op = (b', Ok tt) /\ mem_ok b' /\ mem_view b' = apply_op (mem_view b) op.
Proof.
  intros Hok. destruct op as [cf k v|cf k]; cbn [mem_op apply_op]; destruct (Hok cf) as [m Hm]; rewrite Hm;
    (eexists; split; [done|split]).
  1, 3: intros cf'; cbn; destruct (decide (cf = cf')) as [->|]; [rewrite lookup_insert_eq; by eexists|];
        rewrite lookup_insert_ne by done; apply Hok.
  all: apply map_eq; intros [cf' k']; rewrite mem_view_lookup; cbn [inner].
  all: destruct (decide (cf = cf')) as [->|Hcf];
    [rewrite lookup_insert_eq; cbn|rewrite lookup_insert_ne by done; rewrite <-mem_view_lookup].
  - destruct (decide (k = k')) as [->|Hk]; [by rewrite !lookup_insert_eq|].
    rewrite !lookup_insert_ne by congruence. by rewrite mem_view_lookup, Hm.
  - by rewrite lookup_insert_ne by congruence.
  - destruct (decide (k = k')) as [->|Hk]; [by rewrite !lookup_delete_eq|].
    rewrite !lookup_delete_ne by congruence. by rewrite mem_view_lookup, Hm.
  - by rewrite lookup_delete_ne by congruence.
Qed.

Lemma mem_write_view b ops :
  mem_ok b -> exists b', mem_write b ops = (b', Ok tt) /\ mem_ok b' /\
    mem_view b' = foldl apply_op (mem_view b) ops.
Proof.
  revert b. induction ops as [|op ops IH]; intros b Hok; [by exists b|].
  destruct (mem_op_view b op Hok) as (b1 & He & Hok1 & Hv). cbn [mem_write foldl].
  rewrite He, <-Hv. by apply IH.
Qed.

Lemma bytes_le_antisym (a c : bytes) : bytes_le a c = true -> bytes_le c a = true -> a = c.
Proof. intros H1 H2. apply (inj (fmap Byte.to_N)). by apply lex_le_antisym. Qed.

Lemma bytes_le_trans (a c d : bytes) :
  bytes_le a c = true -> bytes_le c d = true -> bytes_le a d = true.
Proof. apply lex_le_trans. Qed.

Lemma fmap_prefix (a c : bytes) :
  (Byte.to_N <$> a) `prefix_of` (Byte.to_N <$> c) <-> a `prefix_of` c.
Proof.
  split; [|intros [x ->]; exists (Byte.to_N <$> x); apply fmap_app].
  revert c. induction a as [|x a IH]; intros c Hp; [apply prefix_nil|].
  destruct c as [|y c]; [by apply prefix_nil_not in Hp|].
  cbn in Hp. pose proof (prefix_cons_inv_1 _ _ _ _ Hp) as ->%(inj Byte.to_N).
  by apply prefix_cons, IH, (prefix_cons_inv_2 _ _ _ _ Hp).
Qed.

Lemma bytes_le_prefix p (x y : bytes) :
  bytes_le p x = true -> bytes_le x y = true -> p `prefix_of` y -> p `prefix_of` x.
Proof.
  intros H1 H2 Hp%fmap_prefix. apply fmap_prefix. by apply (lex_le_prefix _ _ _ H1 H2).
Qed.

Lemma elem_of_cf_items (m : CfMap) k v : (k, v) ∈ cf_items m <-> m !! k = Some v.
Proof. unfold cf_items. rewrite sort_by_perm. apply elem_of_map_to_list. Qed.

Lemma cf_items_ascending (m : CfMap) : ascending (cf_items m).
Proof.
  assert (NoDup (cf_items m).*1) as Hn.
  { unfold cf_items. rewrite (sort_by_perm _ (map_to_list m)). apply NoDup_fst_map_to_list. }
  assert (StronglySorted (fun x y : bytes * bytes => bytes_le x.1 y.1 = true) (cf_items m)) as Hs.
  { apply sort_by_sorted; [intros; apply lex_le_total|intros ???; apply lex_le_trans]. }
  unfold ascending. induction Hs as [|x l Hs IH Hx]; [constructor|].
  apply NoDup_cons in Hn as [Hx' Hl]. constructor; [by apply IH|].
  rewrite Forall_forall in Hx |- *. intros y Hy. split; [by apply Hx|].
  intros He. apply Hx'. rewrite He. by apply list_elem_of_fmap_2.
Qed.

Lemma StronglySorted_filter {A} (R : A -> A -> Prop) (P : A -> Prop) `{forall x, Decision (P x)} l :
  StronglySorted R l -> StronglySorted R (filter P l).
Proof.
  induction 1 as [|x l Hs IH Hx]; [constructor|]. rewrite filter_cons. case_decide; [|done].
  constructor; [done|]. rewrite Forall_forall in Hx |- *.
  intros y [_ Hy]%list_elem_of_filter. by apply Hx.
Qed.

Lemma mem_iter_prefix_view b cf p :
  mem_ok b -> exists items, mem_iter_prefix b cf p = Ok <$> items /\ ascending items /\
    forall k v, (k, v) ∈ items <-> mem_view b !! (cf, k) = Some v /\ p `prefix_of` k.
Proof.
  intros Hok. destruct (Hok cf) as [m Hm]. unfold mem_iter_prefix. rewrite Hm.
  eexists. split; [done|]. pose proof (cf_items_ascending m) as Ha.
  rewrite take_while_filter.
  - split; [by apply StronglySorted_filter, StronglySorted_filter|].
    intros k v. rewrite mem_view_lookup, Hm, !list_elem_of_filter, elem_of_cf_items. cbn.
    rewrite bool_decide_eq_true. split; [tauto|]. intros [Hl Hp]. split_and!; [done| |done].
    by apply lex_le_of_prefix, fmap_prefix.
  - eapply (StronglySorted_impl_Forall (fun x => bytes_le p x.1 = true)).
    + apply Forall_filter_self.
    + by apply StronglySorted_filter.
    + intros [k1 v1] [k2 v2] Hk1 [Hle _]. cbn in *. rewrite !bool_decide_eq_true. eauto using bytes_le_prefix.
Qed.

Lemma mem_iter_view b cf :
  mem_ok b -> exists items, mem_iter b cf = Ok <$> items /\ ascending items /\
    forall k v, (k, v) ∈ items <-> mem_view b !! (cf, k) = Some v.
Proof.
  intros Hok. destruct (Hok cf) as [m Hm]. unfold mem_iter. rewrite Hm. exists (cf_items m).
  split; [done|]. split; [apply cf_items_ascending|]. intros k v.
  by rewrite mem_view_lookup, Hm, elem_of_cf_items.
Qed.

Lemma mem_get_view b cf k : mem_ok b -> mem_get b cf k = Ok (mem_view b !! (cf, k)).
Proof.
  intros Hok. unfold mem_get. destruct (Hok cf) as [m Hm]. by rewrite mem_view_lookup, Hm.
Qed.
End memory.

#[export] Instance memory_laws : KvLaws MemoryBackend := {
  kv_ok := mem_ok;
  kv_view := mem_view;
  kv_put_view b cf k v := mem_op_view b (Put cf k v);
  kv_delete_view b cf k := mem_op_view b (Delete cf k);
  kv_write_view := mem_write_view;
  kv_get_view := mem_get_view;
  kv_iter_view := mem_iter_view;
  kv_iter_prefix_view := mem_iter_prefix_view
}.

Lemma ascending_keys (items : list (bytes * bytes)) : ascending items -> NoDup items.*1.
Proof.
  induction 1 as [|x l Hs IH Hx]; cbn; constructor; [|done].
  intros (y & He & Hy)%list_elem_of_fmap. rewrite Forall_forall in Hx. by apply (Hx y Hy).
Qed.

(** An ascending list is determined by its members. *)
Lemma ascending_unique (l k : list (bytes * bytes)) :
  ascending l -> ascending k -> (forall x, x ∈ l <-> x ∈ k) -> l = k.
Proof.
  intros Hl. revert k. induction Hl as [|x l Hl IH Hx]; intros k Hk Hm.
  { destruct k as [|y k]; [done|]. exfalso. apply (not_elem_of_nil y), Hm. left. }
  destruct Hk as [|y k Hk Hy]. { exfalso. apply (not_elem_of_nil x), Hm. left. }
  rewrite Forall_forall in Hx, Hy.
  assert (x = y) as ->.
  { assert (x ∈ y :: k) as Hxk by (apply Hm; left). assert (y ∈ x :: l) as Hyl by (apply Hm; left).
    apply elem_of_cons in Hxk as [->|Hxk]; [done|]. apply elem_of_cons in Hyl as [->|Hyl]; [done|].
    destruct (Hy _ Hxk) as [H1 Hn], (Hx _ Hyl) as [H2 _]. exfalso. by apply Hn, bytes_le_antisym. }
  f_equal. apply IH; [done|]. intros z. specialize (Hm z). rewrite !elem_of_cons in Hm.
  split; intros Hz.
  - destruct (proj1 Hm (or_intror Hz)) as [->|]; [|done]. by destruct (Hx _ Hz) as [_ []].
  - destruct (proj2 Hm (or_intror Hz)) as [->|]; [|done]. by destruct (Hy _ Hz) as [_ []].
Qed.
