(* ===== verification/Kademlia.v ===== *)
(** * Kademlia: the routing table of the peer discovery

    Models [src/crates/aii-net-p2p/src/kademlia.rs]: 256 buckets of at most [K] peers,
    one per length of the prefix shared with the local id. *)
From stdpp Require Import base tactics gmap numbers sorting list.
From Stdlib Require Import NArith Lia.
From Stdlib.Init Require Import Byte.
From S2P Require Import Prelude Bytes Crypto Storage.

Definition K : nat := 16.
Definition BUCKETS : nat := 256.

Record PeerEntry := mkPeer {
  node_id : H256;
  payload : bytes
}.

Record KademliaTable := mkTable {
  local_id : H256;
  buckets : list (list PeerEntry)
}.

Definition KademliaTable_new (local : H256) : KademliaTable := mkTable local (replicate BUCKETS []).

Definition table_len (self : KademliaTable) : nat := sum_list (length <$> buckets self).

Definition table_is_empty (self : KademliaTable) : bool :=
  forallb (fun b => bool_decide (length b = 0%nat)) (buckets self).

(** The bits of a byte above its highest one. *)
Definition byte_leading_zeros (x : N) : N := 8 - N.size x.

Fixpoint index_scan (i : N) (l r : bytes) : N :=
  match l, r with
  | a :: l, b :: r =>
      let x := N.lxor (Byte.to_N a) (Byte.to_N b) in
      if negb (x =? 0) then i * 8 + byte_leading_zeros x else index_scan (i + 1) l r
  | _, _ => N.of_nat BUCKETS - 1
  end.

Definition bucket_index (self : KademliaTable) (id : H256) : N :=
  index_scan 0 (arr_bytes (local_id self)) (arr_bytes id).

Definition same_id (id : H256) (e : PeerEntry) : bool := bool_decide (node_id e = id).

(** What [insert] does to the bucket of the entry. *)
Definition bucket_insert (bucket : list PeerEntry) (entry : PeerEntry) : list PeerEntry :=
  match list_find (fun e => same_id (node_id entry) e = true) bucket with
  | Some (pos, existing) => delete pos bucket ++ [existing]
  | None => (if (length bucket =? K)%nat then drop 1 bucket else bucket) ++ [entry]
  end.

(** An index outside the table would panic. *)
Definition table_insert (self : KademliaTable) (entry : PeerEntry) : res Empty_set KademliaTable :=
  if bool_decide (node_id entry = local_id self) then Ok self
  else
    let idx := N.to_nat (bucket_index self (node_id entry)) in
    match buckets self !! idx with
    | None => Panic
    | Some bucket => Ok (mkTable (local_id self) (<[idx := bucket_insert bucket entry]> (buckets self)))
    end.

Definition xor_byte (l r : byte) : byte := byte_of_N (N.lxor (Byte.to_N l) (Byte.to_N r)).

Definition xor_distance (a b : H256) : bytes := zip_with xor_byte (arr_bytes a) (arr_bytes b).

Definition find_closest (self : KademliaTable) (target_id : H256) (n : nat) : list PeerEntry :=
  take n (sort_by (fun a b => bytes_le (xor_distance (node_id a) target_id) (xor_distance (node_id b) target_id))
            (concat (buckets self))).

(** ** Distances as integers *)
Lemma testbit_low_high (b x n : N) :
  b < 256 -> N.testbit (b + 256 * x) n = if n <? 8 then N.testbit b n else N.testbit x (n - 8).
Proof.
  intros Hb. destruct (N.ltb_spec n 8) as [Hn|Hn].
  - rewrite <-(N.mod_pow2_bits_low (b + 256 * x) 8 n) by done. change (2 ^ 8) with 256.
    rewrite (N.mul_comm 256), N.Div0.mod_add, N.mod_small by done. done.
  - replace n with (n - 8 + 8) at 1 by lia. rewrite <-N.div_pow2_bits. change (2 ^ 8) with 256.
    rewrite (N.mul_comm 256), N.div_add, N.div_small by done. done.
Qed.

Lemma lxor_byte_lt a b : a < 256 -> b < 256 -> N.lxor a b < 256.
Proof.
  intros Ha Hb. destruct (N.eq_dec (N.lxor a b) 0) as [->|Hne]; [done|]. change 256 with (2 ^ 8).
  apply N.log2_lt_pow2; [lia|]. pose proof (N.log2_lxor a b) as Hle.
  assert (forall c, c < 256 -> N.log2 c < 8) as Hl.
  { intros c Hc. destruct (N.eq_dec c 0) as [->|]; [done|]. apply N.log2_lt_pow2; [lia|done]. }
  pose proof (Hl a Ha). pose proof (Hl b Hb). lia.
Qed.

Lemma lxor_low_high a b x y :
  a < 256 -> b < 256 -> N.lxor (a + 256 * x) (b + 256 * y) = N.lxor a b + 256 * N.lxor x y.
Proof.
  intros Ha Hb. pose proof (lxor_byte_lt a b Ha Hb).
  apply N.bits_inj. intros n. rewrite N.lxor_spec, !testbit_low_high by done.
  destruct (n <? 8); by rewrite N.lxor_spec.
Qed.

Lemma to_N_xor_byte l r : Byte.to_N (xor_byte l r) = N.lxor (Byte.to_N l) (Byte.to_N r).
Proof.
  unfold xor_byte. rewrite to_N_byte_of_N. apply N.mod_small, lxor_byte_lt; apply to_N_lt.
Qed.

Lemma le_value_xor l r :
  length l = length r -> le_value (zip_with xor_byte l r) = N.lxor (le_value l) (le_value r).
Proof.
  revert r. induction l as [|a l IH]; intros [|b r]; try done. cbn [length zip_with le_value]. intros [= Hl].
  rewrite IH, to_N_xor_byte, lxor_low_high by (done || apply to_N_lt). done.
Qed.

Lemma rev_zip_with {A B C} (f : A -> B -> C) l r :
  length l = length r -> rev (zip_with f l r) = zip_with f (rev l) (rev r).
Proof.
  revert r. induction l as [|a l IH]; intros [|b r]; try done. cbn [length zip_with rev]. intros [= Hl].
  rewrite zip_with_app by by rewrite !length_rev. by rewrite IH.
Qed.

(** The distance is the exclusive or of the two ids read as big-endian integers. *)
Lemma distance_value a b :
  be_value (xor_distance a b) = N.lxor (be_value (arr_bytes a)) (be_value (arr_bytes b)).
Proof.
  unfold be_value, xor_distance. rewrite rev_zip_with by by rewrite !arr_length.
  apply le_value_xor. by rewrite !length_rev, !arr_length.
Qed.

Lemma length_distance a b : length (xor_distance a b) = 32%nat.
Proof. unfold xor_distance. by rewrite length_zip_with, !arr_length. Qed.

Lemma le_value_app l k : le_value (l ++ k) = le_value l + 256 ^ N.of_nat (length l) * le_value k.
Proof.
  induction l as [|b l IH]; cbn [app le_value length]; [lia|]. rewrite IH, Nat2N.inj_succ, N.pow_succ_r'. lia.
Qed.

Lemma be_value_cons b l : be_value (b :: l) = Byte.to_N b * 256 ^ len l + be_value l.
Proof.
  unfold be_value, len. cbn [rev]. rewrite le_value_app, length_rev. cbn [le_value]. lia.
Qed.

(** Lexicographic order on byte strings of one length is numeric order. *)
Lemma bytes_le_value l r : length l = length r -> bytes_le l r = (be_value l <=? be_value r).
Proof.
  unfold bytes_le. revert r. induction l as [|a l IH]; intros [|b r]; try done. cbn [length]. intros [= Hl].
  cbn [fmap list_fmap lex_le]. rewrite IH, !be_value_cons by done. unfold len. rewrite Hl.
  pose proof (be_value_lt l). pose proof (be_value_lt r). rewrite Hl in *. set (m := 256 ^ N.of_nat (length r)) in *.
  destruct (N.ltb_spec (Byte.to_N a) (Byte.to_N b)); [symmetry; apply N.leb_le; nia|].
  destruct (N.eqb_spec (Byte.to_N a) (Byte.to_N b)) as [->|].
  - destruct (N.leb_spec (be_value l) (be_value r)); symmetry; [apply N.leb_le|apply N.leb_gt]; lia.
  - symmetry. apply N.leb_gt. nia.
Qed.

Definition distance (a b : H256) : N := N.lxor (be_value (arr_bytes a)) (be_value (arr_bytes b)).

Lemma distance_0 a b : distance a b = 0 <-> a = b.
Proof.
  unfold distance. rewrite N.lxor_eq_0_iff. split; [|by intros ->]. intros Heq.
  apply arr_ext, be_value_inj; [by rewrite !arr_length|done].
Qed.

Lemma distance_inj a b t : distance a t = distance b t -> a = b.
Proof.
  unfold distance. intros Heq. apply arr_ext, be_value_inj; [by rewrite !arr_length|].
  apply (f_equal (fun x => N.lxor x (be_value (arr_bytes t)))) in Heq.
  by rewrite !N.lxor_assoc, !N.lxor_nilpotent, !N.lxor_0_r in Heq.
Qed.

(** ** Buckets *)
Lemma index_scan_log2 i l r :
  length l = length r -> be_value (zip_with xor_byte l r) <> 0 ->
  index_scan i l r + N.log2 (be_value (zip_with xor_byte l r)) + 1 = i * 8 + 8 * len l.
Proof.
  revert i r. induction l as [|a l IH]; intros i [|b r]; try done. cbn [length zip_with index_scan]. intros [= Hl].
  rewrite be_value_cons, to_N_xor_byte. unfold len. rewrite length_zip_with, Hl, Nat.min_id. cbn [length].
  pose proof (be_value_lt (zip_with xor_byte l r)) as Hlt. rewrite length_zip_with, Hl, Nat.min_id in Hlt.
  pose proof (lxor_byte_lt _ _ (to_N_lt a) (to_N_lt b)) as Hx. set (x := N.lxor _ _) in *.
  set (v := be_value _) in *. destruct (N.eqb_spec x 0) as [Hz|Hnz]; cbn [negb].
  - rewrite Hz, N.mul_0_l, N.add_0_l. intros Hv. specialize (IH (i + 1) r Hl Hv). fold v in IH. unfold len in IH. lia.
  - intros _. assert (N.log2 (x * 256 ^ N.of_nat (length r) + v) = N.log2 x + 8 * N.of_nat (length r)) as ->.
    { change 256 with (2 ^ 8) in *. rewrite <-N.pow_mul_r in *. pose proof (N.log2_spec x ltac:(lia)) as [H1 H2].
      set (m := 8 * N.of_nat (length r)) in *. rewrite N.pow_succ_r' in H2.
      apply N.log2_unique; [lia|]. rewrite N.pow_succ_r', N.pow_add_r. nia. }
    unfold byte_leading_zeros. rewrite N.size_log2 by done.
    assert (N.log2 x < 8) by (apply N.log2_lt_pow2; [lia|done]). lia.
Qed.

Lemma bucket_index_log2 self id :
  id <> local_id self -> bucket_index self id + N.log2 (distance (local_id self) id) = 255.
Proof.
  intros Hne. pose proof (distance_value (local_id self) id) as Hv. unfold xor_distance in Hv.
  pose proof (index_scan_log2 0 (arr_bytes (local_id self)) (arr_bytes id)) as Hi.
  unfold len in Hi. rewrite !arr_length, Hv in Hi. fold (distance (local_id self) id) in Hi.
  unfold bucket_index. specialize (Hi eq_refl). destruct (N.eq_dec (distance (local_id self) id) 0) as [Hz|Hz].
  - apply distance_0 in Hz. by subst.
  - specialize (Hi Hz). lia.
Qed.

Lemma bucket_index_lt self id : (N.to_nat (bucket_index self id) < BUCKETS)%nat.
Proof.
  unfold BUCKETS. destruct (decide (id = local_id self)) as [->|Hne].
  - unfold bucket_index. assert (forall i l, index_scan i l l = 255) as ->; [|lia].
    intros i l. revert i. induction l as [|b l IH]; intros i; [done|]. cbn [index_scan]. by rewrite N.lxor_nilpotent, IH.
  - pose proof (bucket_index_log2 _ _ Hne). lia.
Qed.

(** A peer in a later bucket shares a longer prefix and is strictly closer. *)
Lemma later_bucket_closer self a b :
  a <> local_id self -> b <> local_id self -> bucket_index self a < bucket_index self b ->
  distance (local_id self) b < distance (local_id self) a.
Proof.
  intros Ha Hb Hlt. pose proof (bucket_index_log2 _ _ Ha). pose proof (bucket_index_log2 _ _ Hb).
  assert (N.log2 (distance (local_id self) b) < N.log2 (distance (local_id self) a)) as Hl by lia.
  by apply N.log2_lt_cancel.
Qed.

(** The table: every peer is in the bucket of its shared prefix, at most [K] to a bucket,
    once, and never the local node. *)
Record bucket_wf (self : KademliaTable) (i : nat) (b : list PeerEntry) : Prop := {
  bw_size : (length b <= K)%nat;
  bw_nodup : NoDup (node_id <$> b);
  bw_place : forall e, e ∈ b -> node_id e <> local_id self /\ N.to_nat (bucket_index self (node_id e)) = i
}.

Record table_wf (self : KademliaTable) : Prop := {
  tw_buckets : length (buckets self) = BUCKETS;
  tw_bucket : forall i b, buckets self !! i = Some b -> bucket_wf self i b
}.

Lemma table_new_wf local : table_wf (KademliaTable_new local).
Proof.
  split; [apply length_replicate|]. intros i b [-> _]%lookup_replicate. split; cbn; [lia|constructor|].
  intros e He. by apply elem_of_nil in He.
Qed.

(** A bucket after an insertion: the refreshed or new peer is last, and one other peer at
    most, the oldest, is gone. *)
Lemma bucket_insert_spec bucket entry :
  NoDup (node_id <$> bucket) -> (length bucket <= K)%nat ->
  exists kept e, bucket_insert bucket entry = kept ++ [e] /\ node_id e = node_id entry /\
    NoDup (node_id <$> kept ++ [e]) /\ (length (kept ++ [e]) <= K)%nat /\ (e ∈ bucket \/ e = entry) /\
    exists gone, gone ++ kept ≡ₚ filter (fun x => node_id x <> node_id entry) bucket /\
      (gone = [] \/ length bucket = K /\ exists x, gone = [x] /\ head bucket = Some x).
Proof.
  intros Hnd Hk. unfold bucket_insert.
  destruct (list_find _ bucket) as [[pos x]|] eqn:Hf.
  - apply list_find_Some in Hf as (Hpos & Hx & _). apply bool_decide_eq_true in Hx.
    pose proof (delete_Permutation _ _ _ Hpos) as Hp. exists (delete pos bucket), x.
    assert (delete pos bucket ++ [x] ≡ₚ bucket) as Hp' by (rewrite Hp at 2; by rewrite Permutation_app_comm).
    split_and!; [done|done|by rewrite Hp'|by rewrite Hp'|left; by eapply list_elem_of_lookup_2|].
    exists []. split; [|by left]. cbn [app]. rewrite Hp at 2. rewrite filter_cons_False by (intros Hn; by apply Hn).
    rewrite filter_all; [done|]. apply Forall_forall. intros y Hy Heq. rewrite Hp in Hnd. cbn in Hnd. apply NoDup_cons in Hnd as [Hnin _].
    apply Hnin. rewrite Hx, <-Heq. by apply list_elem_of_fmap_2.
  - apply list_find_None in Hf. assert (filter (fun x => node_id x <> node_id entry) bucket = bucket) as Hfil.
    { apply filter_all, Forall_forall. intros y Hy Heq. rewrite Forall_forall in Hf. apply (Hf y Hy). unfold same_id. by apply bool_decide_eq_true. }
    assert (node_id entry ∉ node_id <$> bucket) as Hnin.
    { intros (y & Heq & Hy)%list_elem_of_fmap. rewrite Forall_forall in Hf. apply (Hf y Hy). by apply bool_decide_eq_true. }
    rewrite Hfil. destruct (Nat.eqb_spec (length bucket) K) as [Hfull|Hfull].
    + destruct bucket as [|y bucket]; [done|]. cbn [drop] in *. exists bucket, entry. split_and!; [done|done| | |by right|].
      * rewrite fmap_app. cbn in *. apply NoDup_cons in Hnd as [Hy Hnd]. apply NoDup_app. split_and!; [done| |apply NoDup_singleton].
        intros z Hz ->%list_elem_of_singleton. apply Hnin. by right.
      * rewrite length_app. cbn in *. lia.
      * exists [y]. split; [done|]. right. split; [done|]. by exists y.
    + exists bucket, entry. split_and!; [done|done| | |by right|].
      * rewrite fmap_app. apply NoDup_app. split_and!; [done| |apply NoDup_singleton].
        intros z Hz ->%list_elem_of_singleton. by apply Hnin.
      * rewrite length_app. cbn. lia.
      * exists []. split; [done|by left].
Qed.

Lemma table_insert_wf self entry :
  table_wf self ->
  exists self', table_insert self entry = Ok self' /\ table_wf self' /\ local_id self' = local_id self /\
  (node_id entry <> local_id self ->
   exists kept e, buckets self' !! N.to_nat (bucket_index self (node_id entry)) = Some (kept ++ [e]) /\
     node_id e = node_id entry).
Proof.
  intros [Hlen Hb]. unfold table_insert. case_bool_decide as Hself; [by exists self|].
  pose proof (bucket_index_lt self (node_id entry)) as Hlt. remember (N.to_nat _) as idx eqn:Hidx.
  destruct (lookup_lt_is_Some_2 (buckets self) idx) as [bucket Hbk]; [by rewrite Hlen|]. rewrite Hbk.
  destruct (Hb _ _ Hbk) as [Hk Hnd Hpl].
  destruct (bucket_insert_spec bucket entry Hnd Hk) as (kept & e & Heq & He & Hnd' & Hk' & Hor & gone & Hperm & _).
  eexists. split; [done|]. split_and!; [|done|].
  - split; cbn; [by rewrite length_insert|]. intros i b [(<- & <- & _)|[Hne Hi]]%list_lookup_insert_Some.
    + rewrite Heq. split; [done|done|]. cbn. intros x [Hx| ->%list_elem_of_singleton]%elem_of_app.
      * assert (x ∈ gone ++ kept) as Hx' by (by apply elem_of_app; right). rewrite Hperm in Hx'.
        apply list_elem_of_filter in Hx' as [_ Hx']. exact (Hpl x Hx').
      * rewrite He. by rewrite Hidx.
    + destruct (Hb _ _ Hi) as [H1 H2 H3]. by split.
  - intros _. exists kept, e. cbn. rewrite list_lookup_insert_eq by by rewrite Hlen. by rewrite Heq.
Qed.

Definition table_insert_all (self : KademliaTable) (entries : list PeerEntry) : res Empty_set KademliaTable :=
  foldl (fun r e => t ← r; table_insert t e) (Ok self) entries.

Lemma table_insert_all_wf self entries :
  table_wf self -> exists self', table_insert_all self entries = Ok self' /\ table_wf self' /\ local_id self' = local_id self.
Proof.
  unfold table_insert_all. revert self. induction entries as [|e entries IH]; intros self Hwf; [by exists self|].
  cbn [foldl]. destruct (table_insert_wf self e Hwf) as (self1 & Hi & Hwf1 & Hl & _).
  cbn [mbind res_bind]. rewrite Hi. destruct (IH self1 Hwf1) as (self2 & H1 & H2 & H3). exists self2. by rewrite H3.
Qed.

(** Whatever peers are inserted into a new table, no insertion panics, and the table
    keeps its shape: 256 buckets of at most [K], no peer twice, none of them the local
    node, each in the bucket of the prefix it shares; and peers of later buckets are
    strictly closer to the local node. *)
Theorem kademlia_invariant (local : H256) (entries : list PeerEntry) :
  exists t, table_insert_all (KademliaTable_new local) entries = Ok t /\ table_wf t /\ local_id t = local /\
  forall i j b c x y, buckets t !! i = Some b -> buckets t !! j = Some c -> x ∈ b -> y ∈ c -> (i < j)%nat ->
    distance local (node_id y) < distance local (node_id x).
Proof.
  destruct (table_insert_all_wf _ entries (table_new_wf local)) as (t & Hi & Hwf & Hl). cbn in Hl.
  exists t. split_and!; [done|done|done|]. intros i j b c x y Hb Hc Hx Hy Hij.
  destruct (bw_place _ _ _ (tw_bucket _ Hwf _ _ Hb) x Hx) as [Hx1 Hx2].
  destruct (bw_place _ _ _ (tw_bucket _ Hwf _ _ Hc) y Hy) as [Hy1 Hy2].
  rewrite <-Hl. apply later_bucket_closer; [done|done|lia].
Qed.

(** All ids of a table are distinct. *)
Lemma table_nodup self : table_wf self -> NoDup (node_id <$> concat (buckets self)).
Proof.
  intros [_ Hb]. rewrite <-(take_drop 0 (buckets self)) in Hb. change (take 0 (buckets self)) with (@nil (list PeerEntry)) in Hb.
  assert (forall k bs, (forall i b, bs !! i = Some b -> bucket_wf self (k + i)%nat b) -> NoDup (node_id <$> concat bs)) as Hgen.
  { intros k bs. revert k. induction bs as [|b bs IH]; intros k Hbs; [constructor|]. cbn [concat]. rewrite fmap_app.
    pose proof (Hbs 0%nat b eq_refl) as Hb0. apply NoDup_app. split_and!; [apply Hb0| |].
    - intros z (x & -> & Hx)%list_elem_of_fmap (y & Heq & Hy)%list_elem_of_fmap.
      apply list_elem_of_In, in_concat in Hy as (c & Hc%list_elem_of_In & Hyc%list_elem_of_In).
      apply list_elem_of_lookup_1 in Hc as [j Hj].
      destruct (bw_place _ _ _ Hb0 x Hx) as [_ H1]. destruct (bw_place _ _ _ (Hbs (S j) c Hj) y Hyc) as [_ H2].
      rewrite Heq in H1. lia.
    - apply (IH (S k)). intros i c Hi. replace (S k + i)%nat with (k + S i)%nat by lia. by apply Hbs. }
  by apply (Hgen 0%nat).
Qed.

Lemma distance_le_value a b t :
  bytes_le (xor_distance a t) (xor_distance b t) = (distance a t <=? distance b t).
Proof. rewrite bytes_le_value by by rewrite !length_distance. by rewrite !distance_value. Qed.

(** [find_closest] returns the [n] closest peers of the table, all of them if there are
    fewer, nearest first and none twice. *)
Theorem find_closest_spec (local : H256) (entries : list PeerEntry) (target : H256) (n : nat) :
  exists t, table_insert_all (KademliaTable_new local) entries = Ok t /\
  let found := find_closest t target n in
  length found = Nat.min n (table_len t) /\
  StronglySorted (fun x y => distance (node_id x) target < distance (node_id y) target) found /\
  exists rest, found ++ rest ≡ₚ concat (buckets t) /\
    forall x y, x ∈ found -> y ∈ rest -> distance (node_id x) target < distance (node_id y) target.
Proof.
  destruct (table_insert_all_wf _ entries (table_new_wf local)) as (t & Hi & Hwf & _).
  exists t. split; [done|]. cbn zeta. unfold find_closest.
  set (le := fun a b => bytes_le (xor_distance (node_id a) target) (xor_distance (node_id b) target)).
  assert (sort_by le (concat (buckets t)) ≡ₚ concat (buckets t)) as Hp by apply sort_by_perm.
  assert (StronglySorted (fun x y => distance (node_id x) target < distance (node_id y) target)
    (sort_by le (concat (buckets t)))) as Hs.
  { assert (StronglySorted (fun x y => le x y = true) (sort_by le (concat (buckets t)))) as Hs.
    { apply sort_by_sorted; unfold le; intros *; rewrite !distance_le_value, !N.leb_le; lia. }
    pose proof (table_nodup t Hwf) as Hnd. rewrite <-Hp in Hnd. clear Hp.
    induction Hs as [|x l Hs IH Hx]; [constructor|]. cbn in Hnd. apply NoDup_cons in Hnd as [Hnin Hnd].
    constructor; [by apply IH|]. rewrite Forall_forall in Hx |- *. intros y Hy. specialize (Hx y Hy).
    unfold le in Hx. rewrite distance_le_value, N.leb_le in Hx.
    assert (distance (node_id x) target <> distance (node_id y) target); [|lia].
    intros Heq%distance_inj. apply Hnin. rewrite Heq. by apply list_elem_of_fmap_2. }
  rewrite <-(take_drop n (sort_by le _)) in Hs, Hp. apply StronglySorted_app in Hs as (Hcross & Hs & _).
  split_and!; [|done|].
  - rewrite length_take, sort_by_perm. f_equal. unfold table_len. clear.
    induction (buckets t) as [|b bs IH]; [done|]. cbn. by rewrite length_app, IH.
  - exists (drop n (sort_by le (concat (buckets t)))). split; [done|]. intros x y Hx Hy. by apply Hcross.
Qed.

(** A refresh keeps the entry as it was first inserted: the new payload is dropped. *)
Lemma refresh_keeps_payload bucket old new :
  NoDup (node_id <$> bucket) -> old ∈ bucket -> node_id old = node_id new ->
  old ∈ bucket_insert bucket new /\ (payload new <> payload old -> new ∉ bucket_insert bucket new).
Proof.
  intros Hnd Hold Heq. unfold bucket_insert.
  destruct (list_find _ bucket) as [[pos x]|] eqn:Hf.
  - apply list_find_Some in Hf as (Hpos & Hx & _). apply bool_decide_eq_true in Hx.
    assert (x = old) as ->.
    { eapply (NoDup_fst_inj node_id); [exact Hnd|by eapply list_elem_of_lookup_2|done|congruence]. }
    split; [apply elem_of_app; right; by apply list_elem_of_singleton|]. intros Hp [Hn|Hn]%elem_of_app.
    + pose proof (delete_Permutation _ _ _ Hpos) as Hperm. apply Hp. f_equal.
      eapply (NoDup_fst_inj node_id); [exact Hnd| |done|congruence]. rewrite Hperm. by right.
    + apply list_elem_of_singleton in Hn. by subst.
  - apply list_find_None in Hf. rewrite Forall_forall in Hf. exfalso. apply (Hf old Hold). by apply bool_decide_eq_true.
Qed.
