(* ===== verification/Ssz.v ===== *)
(** * Ssz: the SSZ encodings of the primitive types and of signed transactions

    Models [src/crates/aii-codec/src/ssz.rs] and the [SignedTx] of
    [src/crates/aii-types/src/signed_tx.rs].  The fixed-size types share one definition,
    indexed by their length. *)
From stdpp Require Import base tactics numbers list.
From Stdlib Require Import NArith Lia.
From Stdlib.Init Require Import Byte.
From S2P Require Import Prelude Bytes Crypto Codec Tx.

Inductive SszError :=
| SszInvalidLength (expected actual : nat)
| SszInvalidByte (b : N)
| BadOffsetTable.

Record SignedTx := mkSignedTx {
  st_algo_id : AlgoId;
  st_pubkey : bytes;
  st_signature : bytes;
  st_payload : bytes
}.

(** [H256], [Address], [BlsPubKey] and [BlsSignature]: a copy of [n] bytes. *)
Definition ssz_encode_fixed {n} (a : array n) : bytes := arr_bytes a.

Definition ssz_decode_fixed (n : nat) (b : bytes) : res SszError (array n) :=
  if negb (length b =? n)%nat then Err (SszInvalidLength n (length b)) else expect (arr_of b).

Definition ssz_encode_h256 (h : H256) : bytes := ssz_encode_fixed h.
Definition ssz_decode_h256 (b : bytes) : res SszError H256 := ssz_decode_fixed 32 b.
Definition ssz_encode_address (a : Address) : bytes := ssz_encode_fixed a.
Definition ssz_decode_address (b : bytes) : res SszError Address := ssz_decode_fixed 20 b.
Definition encode_bls_pubkey (k : array 48) : bytes := ssz_encode_fixed k.
Definition decode_bls_pubkey (b : bytes) : res SszError (array 48) := ssz_decode_fixed 48 b.
Definition encode_bls_signature (s : array 96) : bytes := ssz_encode_fixed s.
Definition decode_bls_signature (b : bytes) : res SszError (array 96) := ssz_decode_fixed 96 b.

Definition ssz_algo (b : N) : res SszError AlgoId := map_err (fun _ => SszInvalidByte b) (algo_from_byte b).

Definition encode_algo_id (a : AlgoId) : bytes := [byte_of_N (algo_as_byte a)].

Definition decode_algo_id (b : bytes) : res SszError AlgoId :=
  if negb (length b =? 1)%nat then Err (SszInvalidLength 1 (length b))
  else x ← slice_be 1 b 0; ssz_algo x.

(** The algorithm byte and the three offsets. *)
Definition FIXED_PART : nat := 13.

Definition encode_signed_tx (tx : SignedTx) : bytes :=
  let off1 := N.of_nat FIXED_PART in
  let off2 := wrapping_add u32_mod off1 (len (st_pubkey tx) mod u32_mod) in
  let off3 := wrapping_add u32_mod off2 (len (st_signature tx) mod u32_mod) in
  byte_of_N (algo_as_byte (st_algo_id tx)) ::
    le_bytes 4 off1 ++ le_bytes 4 off2 ++ le_bytes 4 off3 ++ st_pubkey tx ++ st_signature tx ++ st_payload tx.

Definition slice_le (n : nat) (l : bytes) (off : nat) : res SszError N :=
  s ← slice l off n; mret (le_value s).

Definition decode_signed_tx (b : bytes) : res SszError SignedTx :=
  if (length b <? FIXED_PART)%nat then Err (SszInvalidLength FIXED_PART (length b))
  else
    x ← slice_be 1 b 0;
    algo_id ← ssz_algo x;
    off1 ← slice_le 4 b 1;
    off2 ← slice_le 4 b 5;
    off3 ← slice_le 4 b 9;
    if negb (off1 =? N.of_nat FIXED_PART) || (off2 <? off1) || (off3 <? off2) || (len b <? off3)
    then Err BadOffsetTable
    else
      pubkey ← slice b (N.to_nat off1) (N.to_nat (off2 - off1));
      signature ← slice b (N.to_nat off2) (N.to_nat (off3 - off2));
      payload ← slice b (N.to_nat off3) (length b - N.to_nat off3);
      mret (mkSignedTx algo_id pubkey signature payload).

(** ** Properties *)

(** The fixed types decode exactly from their own encoding. *)
Theorem ssz_fixed_iff n (b : bytes) (a : array n) : ssz_decode_fixed n b = Ok a <-> b = ssz_encode_fixed a.
Proof.
  unfold ssz_decode_fixed, ssz_encode_fixed. destruct (Nat.eqb_spec (length b) n) as [Hl|Hl]; cbn [negb].
  - rewrite expect_Ok, arr_of_Some. by split.
  - split; [done|]. intros ->. by rewrite arr_length in Hl.
Qed.

Lemma algo_from_as a : algo_from_byte (algo_as_byte a) = Ok a.
Proof. by destruct a. Qed.

Lemma algo_from_byte_Ok x a : algo_from_byte x = Ok a -> x = algo_as_byte a.
Proof.
  unfold algo_from_byte. intros H. repeat (case_match; simplify_eq; try done).
Qed.

Lemma slice_le_cursor l off n x rest :
  drop off l = le_bytes n x ++ rest -> x < 256 ^ N.of_nat n -> (0 < n)%nat ->
  slice_le n l off = Ok x /\ drop (off + n) l = rest.
Proof.
  intros H Hx Hn. pose proof (drop_cons_le l off n _ _ H (length_le_bytes n x) Hn).
  destruct (slice_cursor (E := SszError) l off n _ _ H (length_le_bytes n x)) as [Hs Hd]; [lia|].
  split; [|done]. unfold slice_le. rewrite Hs. cbn [mbind res_bind]. by rewrite le_value_small.
Qed.

Lemma slice_le_Ok l off n x :
  slice_le n l off = Ok x -> drop off l = le_bytes n x ++ drop (off + n) l /\ x < 256 ^ N.of_nat n.
Proof.
  unfold slice_le. intros (s & Hs & [= <-])%bind_Ok. apply slice_Ok in Hs as (Hd & <- & _).
  split; [|apply le_value_lt]. by rewrite le_bytes_value.
Qed.

(** A signed transaction decodes exactly from its own encoding: decoding what was encoded
    gives it back as long as the offsets fit 32 bits, and no other byte string decodes
    to it. *)
Theorem signed_tx_iff (b : bytes) (tx : SignedTx) :
  decode_signed_tx b = Ok tx <->
  b = encode_signed_tx tx /\ 13 + len (st_pubkey tx) + len (st_signature tx) < u32_mod.
Proof.
  split.
  - unfold decode_signed_tx. destruct (Nat.ltb_spec (length b) FIXED_PART) as [|Hlen]; [done|].
    intros (x & Hx & H)%bind_Ok. apply bind_Ok in H as (algo & Halgo & H).
    apply bind_Ok in H as (off1 & H1 & H). apply bind_Ok in H as (off2 & H2 & H). apply bind_Ok in H as (off3 & H3 & H).
    destruct (_ || _) eqn:Hc; [done|]. rewrite !orb_false_iff, negb_false_iff, N.eqb_eq, !N.ltb_ge in Hc.
    destruct Hc as [[[-> Hle2] Hle3] Hle]. apply bind_Ok in H as (pk & Hpk & H).
    apply bind_Ok in H as (sig & Hsig & H). apply bind_Ok in H as (pl & Hpl & [= <-]). cbn [st_pubkey st_signature].
    unfold ssz_algo in Halgo. apply map_err_Ok, algo_from_byte_Ok in Halgo. subst x.
    apply slice_be_Ok in Hx as [Hx _]. apply slice_le_Ok in H1 as [H1 _], H2 as [H2 Hlt2], H3 as [H3 Hlt3].
    apply slice_Ok in Hpk as (Hpk & Hlpk & _), Hsig as (Hsig & Hlsig & _), Hpl as (Hpl & Hlpl & _).
    assert (u32_mod = 256 ^ 4) as Hm by done. assert (len pk = off2 - 13) as Hpn by (unfold len, FIXED_PART in *; lia).
    assert (len sig = off3 - off2) as Hsn by (unfold len; lia). change (N.of_nat 4) with 4 in *. unfold FIXED_PART in *.
    split; [|lia]. unfold encode_signed_tx. cbn [st_algo_id st_pubkey st_signature st_payload]. unfold FIXED_PART.
    rewrite Hpn, Hsn, !N.mod_small, !wrapping_add_small by (rewrite ?N.mod_small; lia).
    replace (N.of_nat 13 + (off2 - 13)) with off2 by lia. replace (off2 + (off3 - off2)) with off3 by lia.
    cbn [drop Nat.add] in *. rewrite drop_0 in Hx. rewrite Hx. cbn [be_bytes le_bytes rev app].
    f_equal. rewrite H1. f_equal. rewrite H2. f_equal. rewrite H3. f_equal.
    change (N.to_nat (N.of_nat 13)) with 13%nat in *. rewrite Hpk. f_equal.
    replace (13 + N.to_nat (off2 - N.of_nat 13))%nat with (N.to_nat off2) by lia. rewrite Hsig. f_equal.
    replace (N.to_nat off2 + N.to_nat (off3 - off2))%nat with (N.to_nat off3) by lia. rewrite Hpl.
    rewrite (drop_ge b) by (unfold len in Hle; lia). by rewrite app_nil_r.
  - destruct tx as [algo pk sig pl]. cbn [st_pubkey st_signature]. intros [-> Hfit].
    unfold encode_signed_tx. cbn [st_algo_id st_pubkey st_signature st_payload]. unfold FIXED_PART.
    rewrite !N.mod_small, !wrapping_add_small by (rewrite ?N.mod_small, ?wrapping_add_small; lia).
    set (off2 := N.of_nat 13 + len pk). set (off3 := off2 + len sig).
    set (b := _ :: _). assert (drop 0 b = be_bytes 1 (algo_as_byte algo) ++ drop 1 b) as H0 by done.
    assert (drop 1 b = le_bytes 4 (N.of_nat 13) ++ (le_bytes 4 off2 ++ le_bytes 4 off3 ++ pk ++ sig ++ pl)) as H1 by done.
    assert (length b = 13 + length pk + length sig + length pl)%nat as Hb.
    { unfold b. cbn [length]. rewrite !length_app, !length_le_bytes. lia. }
    unfold decode_signed_tx, FIXED_PART. rewrite (proj2 (Nat.ltb_ge _ _)) by lia.
    destruct (slice_be_cursor (E := SszError) b 0 1 _ _ H0) as [-> _]; [by destruct algo|lia|].
    cbn [mbind res_bind]. unfold ssz_algo. rewrite algo_from_as. cbn [map_err mbind res_bind].
    destruct (slice_le_cursor b 1 4 _ _ H1) as [-> H2]; [done|lia|]. cbn [mbind res_bind].
    change (256 ^ N.of_nat 4) with u32_mod in *.
    destruct (slice_le_cursor b 5 4 _ _ H2) as [-> H3]; [unfold off2; cbn; lia|lia|]. cbn [mbind res_bind].
    destruct (slice_le_cursor b 9 4 _ _ H3) as [-> H4]; [unfold off3, off2; cbn; lia|lia|]. cbn [mbind res_bind].
    cbn [Nat.add] in H4. rewrite N.eqb_refl. cbn [negb orb]. unfold len in *.
    rewrite !(proj2 (N.ltb_ge _ _)) by lia. cbn [orb].
    destruct (slice_cursor (E := SszError) b 13 (N.to_nat (off2 - N.of_nat 13)) pk _ H4) as [Hp H5]; [lia..|].
    change (N.to_nat (N.of_nat 13)) with 13%nat. rewrite Hp. cbn [mbind res_bind].
    replace (13 + N.to_nat (off2 - N.of_nat 13))%nat with (N.to_nat off2) in H5 by lia.
    destruct (slice_cursor (E := SszError) b (N.to_nat off2) (N.to_nat (off3 - off2)) sig _ H5) as [Hs H6]; [lia..|].
    rewrite Hs. cbn [mbind res_bind]. replace (N.to_nat off2 + N.to_nat (off3 - off2))%nat with (N.to_nat off3) in H6 by lia.
    rewrite <-(app_nil_r pl) in H6.
    destruct (slice_cursor (E := SszError) b (N.to_nat off3) (length b - N.to_nat off3) pl [] H6) as [Hl _]; [lia..|].
    by rewrite Hl.
Qed.

(** Decoding arbitrary bytes returns a transaction or an error: no slice is out of range. *)
Theorem decode_signed_tx_total (b : bytes) : decode_signed_tx b <> Panic.
Proof.
  unfold decode_signed_tx. destruct (Nat.ltb_spec (length b) FIXED_PART) as [|Hlen]; [done|]. unfold FIXED_PART in *.
  rewrite slice_be_in by lia. cbn [mbind res_bind]. destruct (ssz_algo _) as [a|e|] eqn:Ha; [|done|].
  2: { unfold ssz_algo in Ha. destruct (algo_from_byte _) eqn:Hf; try done.
       unfold algo_from_byte in Hf. repeat (case_match; try done). }
  unfold slice_le. cbn [mbind res_bind]. rewrite !slice_in by lia. cbn [mbind res_bind mret res_ret].
  generalize (le_value (take 4 (drop 1 b))), (le_value (take 4 (drop 5 b))), (le_value (take 4 (drop 9 b))).
  intros o1 o2 o3. destruct (_ || _) eqn:Hc; [done|]. rewrite !orb_false_iff, !N.ltb_ge in Hc.
  destruct Hc as [[[_ H2] H3] Hb]. unfold len in Hb. rewrite !slice_in by lia. done.
Qed.
