(* ===== verification/RlpUint.v ===== *)
(** * RlpUint: 16- and 32-bit integers and the lengths of encodings in RLP

    What the network formats ([src/crates/aii-net-p2p]) use of [alloy_rlp] beyond the class
    [Rlp]: the integers of two more widths, and how long an encoding gets.  A list encoded
    by hand is a header with the sum of its fields' lengths followed by the fields
    ([rlp_list]). *)
From stdpp Require Import base tactics numbers strings list.
From Stdlib Require Import NArith Lia.
From Stdlib.Init Require Import Byte.
From S2P Require Import Prelude Bytes Crypto Codec ToyRlp.

Class RlpUint := {
  rlp_u16 : N -> bytes;
  rlp_u32 : N -> bytes;
  rlp_decode_u16 : decoder N;
  rlp_decode_u32 : decoder N
}.

(** What is assumed of [alloy_rlp]: the readers undo the writers, stay
    in their width and never panic, a
    header is as long as [length_of_length] says, and no header or integer takes more
    bytes than its width and one. *)
Class RlpUintLaws (R : Rlp) (U : RlpUint) : Prop := {
  rlp_u16_roundtrip : forall x rest, x < 65536 -> rlp_decode_u16 (rlp_u16 x ++ rest) = Ok (x, rest);
  rlp_u32_roundtrip : forall x rest, x < u32_mod -> rlp_decode_u32 (rlp_u32 x ++ rest) = Ok (x, rest);
  rlp_u16_bound : forall buf x rest, rlp_decode_u16 buf = Ok (x, rest) -> x < 65536;
  safe_u16 : reader_ok rlp_decode_u16;
  safe_u32 : reader_ok rlp_decode_u32;
  rlp_header_len : forall n, len (rlp_list_header n) = rlp_length_of_length n;
  rlp_length_of_length_le : forall n, rlp_length_of_length n <= 9;
  rlp_string_len : forall s, len s <= len (rlp_string s) <= 9 + len s;
  rlp_u16_len : forall x, x < 65536 -> 1 <= len (rlp_u16 x) <= 3;
  rlp_u32_len : forall x, x < u32_mod -> len (rlp_u32 x) <= 5;
  rlp_u64_len : forall x, x < u64_mod -> len (rlp_u64 x) <= 9
}.

(** The header of a list is read and must be one: [if !h.list { return Err(e) }]. *)
Definition list_header `{Rlp} {E} (rlp_err : RlpError -> E) (e : E) (buf : bytes)
    : res E (N * bytes) :=
  '((is_list, payload), buf) ← map_err rlp_err (rlp_decode_header buf);
  _ ← guard_err (negb is_list) e;
  mret (payload, buf).

Lemma list_header_roundtrip `{R : Rlp} `{!RlpLaws R} {E} f (e : E) n rest :
  n < u64_mod -> n <= len rest -> list_header f e (rlp_list_header n ++ rest) = Ok (n, rest).
Proof. intros. unfold list_header. by rewrite rlp_header_roundtrip. Qed.

(** [map_err] leaves what is read as it is. *)
Lemma map_err_bind_Ok {E E' A B} (f : E -> E') (r : res E A) a (k : A -> res E' B) :
  r = Ok a -> map_err f r ≫= k = k a.
Proof. by intros ->. Qed.

Lemma map_err_Panic {E E' A} (f : E -> E') (r : res E A) : map_err f r = Panic <-> r = Panic.
Proof. by destruct r. Qed.

Lemma list_header_safe `{R : Rlp} `{!RlpSafe R} {E} f (e : E) buf : list_header f e buf <> Panic.
Proof.
  unfold list_header. destruct (safe_header buf) as [Hnp _].
  destruct (rlp_decode_header buf) as [[[[|] n] r]| |]; done.
Qed.

(** ** The concrete codec *)
Module ToyUint.
Import ToyRlp.
Definition read_u16 : decoder N := fun buf =>
  '(x, buf) ← read_uint buf; _ ← guard_err (65536 <=? x) UnexpectedLength; mret (x, buf).

#[export] Instance uint : RlpUint := {|
  rlp_u16 x := toy_string (trim_zeros (be_bytes 2 x));
  rlp_u32 x := toy_string (trim_zeros (be_bytes 4 x));
  rlp_decode_u16 := read_u16;
  rlp_decode_u32 := read_uint
|}.

Lemma len_toy_header base n : len (toy_header base n) <= 9 /\ (n < 56 -> len (toy_header base n) = 1).
Proof.
  unfold toy_header. destruct (N.ltb_spec n 56); (split; [|done || lia]);
    unfold len; cbn [length]; rewrite ?length_be_bytes; lia.
Qed.

Lemma toy_string_le s : len (toy_string s) <= 9 + len s /\ (len s < 56 -> len (toy_string s) <= 1 + len s).
Proof.
  assert (Hgen : forall s, len (toy_header 128 (len s) ++ s) <= 9 + len s /\
    (len s < 56 -> len (toy_header 128 (len s) ++ s) <= 1 + len s)).
  { clear. intros s. rewrite len_app. destruct (len_toy_header 128 (len s)) as [H1 H2].
    split; [lia|]. intros Hs. rewrite (H2 Hs). lia. }
  destruct s as [|b [|c s]]; [apply (Hgen [])| |apply Hgen].
  unfold toy_string. destruct (_ <? _); [unfold len; cbn; lia|apply (Hgen [b])].
Qed.

Lemma toy_uint_len n x : (n < 56)%nat -> len (toy_string (trim_zeros (be_bytes n x))) <= 1 + N.of_nat n.
Proof.
  intros Hn. pose proof (length_trim_zeros (be_bytes n x)) as Hle. rewrite length_be_bytes in Hle.
  destruct (toy_string_le (trim_zeros (be_bytes n x))) as [_ H]. unfold len in *. lia.
Qed.

#[export] Instance laws : RlpUintLaws rlp uint.
Proof.
  split; cbn [uint rlp_u16 rlp_u32 rlp_decode_u16 rlp_decode_u32 rlp rlp_list_header rlp_string rlp_u64
    rlp_length_of_length].
  - intros x rest Hx. unfold read_u16. rewrite (read_uint_app 2) by done. cbn [mbind res_bind].
    by rewrite (proj2 (N.leb_gt _ _)).
  - intros. by apply (read_uint_app 4).
  - intros buf x rest. unfold read_u16. intros Hx. inv_ok. destruct x0. inv_ok. simplify_eq. by apply N.leb_gt.
  - apply reader_bind; [apply read_uint_safe|]. intros x buf. apply reads_guard, reads_ret.
  - apply read_uint_safe.
  - done.
  - intros n. apply len_toy_header.
  - intros s. split; [apply len_toy_string|apply toy_string_le].
  - intros x _. pose proof (toy_string_nonempty (trim_zeros (be_bytes 2 x))).
    pose proof (toy_uint_len 2 x ltac:(lia)). lia.
  - intros. apply (toy_uint_len 4). lia.
  - intros. apply (toy_uint_len 8). lia.
Qed.
End ToyUint.
