(* ===== verification/P2p.v ===== *)
(** * P2p: the peer messages and their framing

    Models [src/crates/aii-net-p2p/src/lib.rs] and the framing functions of
    [src/crates/aii-node/src/bft_p2p.rs].  A stream is the bytes that arrive before the
    peer closes it: [read_exact] past its end is an I/O error.  The text of a framing error
    is its constructor. *)
From stdpp Require Import base tactics numbers strings list.
From Stdlib Require Import NArith Lia.
From Stdlib.Init Require Import Byte.
From S2P Require Import Prelude Bytes Crypto Codec ToyRlp RlpUint.

Definition AII_P2P_VERSION : N := 1.
Definition MAX_FRAME_BYTES : N := 1024 * 1024.

Inductive Message :=
| Hello (version : N) (name : bytes)
| Ping (n : N)
| Pong (n : N)
| Disconnect (r : N)
| MBft (payload : bytes).

#[export] Instance Message_eq_dec : EqDecision Message.
Proof. solve_decision. Defined.

Definition TYPE_HELLO : byte := x01.
Definition TYPE_PING : byte := x02.
Definition TYPE_PONG : byte := x03.
Definition TYPE_DISCONNECT : byte := x04.
Definition TYPE_BFT : byte := x05.

Inductive FrameError :=
| EmptyFrame
| RlpFailed (msg : string)
| ExpectedList
| NameNotUtf8
| PayloadTooLarge (n : N)
| UnknownType (b : byte)
| FrameOverU32
| FrameTooLarge (n : N).

Inductive P2pError :=
| P2pUnexpectedEof
| Frame (e : FrameError).

Section p2p.
Context `{Rlp} `{RlpUint}.

(** ** Messages *)
Definition Message_encode (m : Message) : bytes :=
  match m with
  | Hello version name =>
      TYPE_HELLO :: rlp_list_header (len (rlp_u32 version) + len (rlp_string name))
        ++ rlp_u32 version ++ rlp_string name
  | Ping n => TYPE_PING :: rlp_list_header (len (rlp_u64 n)) ++ rlp_u64 n
  | Pong n => TYPE_PONG :: rlp_list_header (len (rlp_u64 n)) ++ rlp_u64 n
  | Disconnect r => TYPE_DISCONNECT :: rlp_list_header (len (rlp_u32 r)) ++ rlp_u32 r
  | MBft payload => TYPE_BFT :: rlp_list_header (len (rlp_string payload)) ++ rlp_string payload
  end.

Definition frame_err (e : RlpError) : P2pError := Frame (RlpFailed (rlp_error_string e)).

Definition Message_decode (buf : bytes) : res P2pError Message :=
  match buf with
  | [] => Err (Frame EmptyFrame)
  | ty :: buf =>
      '(_, buf) ← list_header frame_err (Frame ExpectedList) buf;
      if bool_decide (ty = TYPE_HELLO) then
        '(version, buf) ← map_err frame_err (rlp_decode_u32 buf);
        '(name, _) ← map_err frame_err (rlp_decode_string buf);
        _ ← guard_err (negb (utf8_valid name)) (Frame NameNotUtf8);
        mret (Hello version name)
      else if bool_decide (ty = TYPE_PING) then
        '(n, _) ← map_err frame_err (rlp_decode_u64 buf); mret (Ping n)
      else if bool_decide (ty = TYPE_PONG) then
        '(n, _) ← map_err frame_err (rlp_decode_u64 buf); mret (Pong n)
      else if bool_decide (ty = TYPE_DISCONNECT) then
        '(r, _) ← map_err frame_err (rlp_decode_u32 buf); mret (Disconnect r)
      else if bool_decide (ty = TYPE_BFT) then
        '(payload, _) ← map_err frame_err (rlp_decode_string buf);
        _ ← guard_err (MAX_FRAME_BYTES <? len payload) (Frame (PayloadTooLarge (len payload)));
        mret (MBft payload)
      else Err (Frame (UnknownType ty))
  end.

(** ** Frames: four bytes of length, then the message *)

(** [Peer::send]: the bytes written. *)
Definition Peer_send (m : Message) : res P2pError bytes :=
  let body := Message_encode m in
  _ ← guard_err (u32_mod <=? len body) (Frame FrameOverU32);
  _ ← guard_err (MAX_FRAME_BYTES <? len body) (Frame (FrameTooLarge (len body)));
  mret (be_bytes 4 (len body) ++ body).

(** [write_message] of the consensus transport: [body.len() as u32], unchecked. *)
Definition write_message (m : Message) : bytes :=
  let body := Message_encode m in be_bytes 4 (len body mod u32_mod) ++ body.

Definition read_exact (n : N) (stream : bytes) : res P2pError (bytes * bytes) :=
  if len stream <? n then Err P2pUnexpectedEof
  else Ok (take (N.to_nat n) stream, drop (N.to_nat n) stream).

(** [Peer::recv] and [read_message], which only wraps the errors. *)
Definition Peer_recv (stream : bytes) : res P2pError (Message * bytes) :=
  '(len_buf, stream) ← read_exact 4 stream;
  let len := be_value len_buf in
  _ ← guard_err (MAX_FRAME_BYTES <? len) (Frame (FrameTooLarge len));
  '(body, stream) ← read_exact len stream;
  m ← Message_decode body;
  mret (m, stream).

(** The reader of a connection: messages until the first error, which ends it.  A message
    takes at least its length's four bytes, so the bytes bound the turns. *)
Fixpoint read_messages (fuel : nat) (stream : bytes) : list Message * res P2pError unit :=
  match fuel with
  | O => ([], Panic)
  | S fuel =>
      match Peer_recv stream with
      | Ok (m, stream) => let '(ms, r) := read_messages fuel stream in (m :: ms, r)
      | Err e => ([], Err e)
      | Panic => ([], Panic)
      end
  end.

Definition read_connection (stream : bytes) : list Message * res P2pError unit :=
  read_messages (S (length stream)) stream.

(** ** What holds of them *)

(** What Rust's types give: widths, and UTF-8 in a [String]. *)
Definition Message_wf (m : Message) : Prop :=
  match m with
  | Hello version name => version < u32_mod /\ utf8_valid name = true /\ len name < u32_mod
  | Ping n | Pong n => n < u64_mod
  | Disconnect r => r < u32_mod
  | MBft payload => len payload <= MAX_FRAME_BYTES
  end.
End p2p.

Section facts.
Context `{R : Rlp} `{U : RlpUint} `{!RlpLaws R} `{!RlpUintLaws R U}.

Ltac types :=
  cbn [mbind res_bind];
  repeat first [rewrite bool_decide_eq_true_2 by done | rewrite bool_decide_eq_false_2 by done].
Ltac field L := types; rewrite (map_err_bind_Ok _ _ _ _ L); cbn [mbind res_bind].

Lemma Message_decode_encode m : Message_wf m -> Message_decode (Message_encode m) = Ok m.
Proof.
  assert (Hone : forall f : bytes, len f < u64_mod ->
    list_header frame_err (Frame ExpectedList) (rlp_list_header (len f) ++ f) = Ok (len f, f)).
  { intros f Hf. by apply list_header_roundtrip. }
  intros Hwf. destruct m as [v s|n|n|r|p]; cbn [Message_wf] in Hwf; cbn [Message_encode Message_decode].
  - destruct Hwf as (Hv & Hs & Hlen). pose proof (rlp_u32_len v Hv). pose proof (rlp_string_len s).
    rewrite list_header_roundtrip by (rewrite ?len_app; lia).
    field (rlp_u32_roundtrip v (rlp_string s) Hv).
    rewrite <-(app_nil_r (rlp_string s)).
    field (rlp_string_roundtrip s [] ltac:(lia)). by rewrite Hs.
  - pose proof (rlp_u64_len n Hwf). rewrite Hone by (done || lia). cbn [mbind res_bind].
    rewrite <-(app_nil_r (rlp_u64 n)). by field (rlp_u64_roundtrip n [] Hwf).
  - pose proof (rlp_u64_len n Hwf). rewrite Hone by (done || lia). cbn [mbind res_bind].
    rewrite <-(app_nil_r (rlp_u64 n)). by field (rlp_u64_roundtrip n [] Hwf).
  - pose proof (rlp_u32_len r Hwf). rewrite Hone by (done || lia). cbn [mbind res_bind].
    rewrite <-(app_nil_r (rlp_u32 r)). by field (rlp_u32_roundtrip r [] Hwf).
  - pose proof (rlp_string_len p). unfold MAX_FRAME_BYTES in *.
    rewrite Hone by (done || lia). cbn [mbind res_bind].
    rewrite <-(app_nil_r (rlp_string p)). field (rlp_string_roundtrip p [] ltac:(lia)).
    cbn. rewrite (proj2 (N.ltb_ge _ _)) by done. done.
Qed.

Lemma read_exact_app a rest : read_exact (len a) (a ++ rest) = Ok (a, rest).
Proof.
  unfold read_exact. rewrite len_app. destruct (N.ltb_spec (len a + len rest) (len a)); [lia|].
  by rewrite to_nat_len, take_app_length, drop_app_length.
Qed.

Lemma Peer_recv_frame m rest :
  Message_wf m -> len (Message_encode m) <= MAX_FRAME_BYTES ->
  Peer_recv (write_message m ++ rest) = Ok (m, rest).
Proof.
  intros Hwf Hlen. unfold Peer_recv, write_message. rewrite <-app_assoc.
  assert (Hm : len (Message_encode m) < u32_mod) by (unfold MAX_FRAME_BYTES in *; lia).
  rewrite (N.mod_small _ _ Hm).
  pose proof (read_exact_app (be_bytes 4 (len (Message_encode m))) (Message_encode m ++ rest)) as H4.
  unfold len at 1 in H4. rewrite length_be_bytes in H4. change (N.of_nat 4) with 4 in H4. rewrite H4. cbn [mbind res_bind].
  rewrite be_value_small by done. rewrite (proj2 (N.ltb_ge _ _)) by done. cbn [guard_err mbind res_bind].
  rewrite read_exact_app. cbn [mbind res_bind]. by rewrite Message_decode_encode.
Qed.

(** [Peer::send] writes what the transport writes, when it writes at all. *)
Lemma Peer_send_spec m :
  Peer_send m =
    if len (Message_encode m) <=? MAX_FRAME_BYTES then Ok (write_message m)
    else if len (Message_encode m) <? u32_mod then Err (Frame (FrameTooLarge (len (Message_encode m))))
    else Err (Frame FrameOverU32).
Proof.
  unfold Peer_send, write_message. generalize (Message_encode m). intros b.
  unfold MAX_FRAME_BYTES. destruct (N.leb_spec u32_mod (len b)), (N.leb_spec (len b) (1024 * 1024)),
    (N.ltb_spec (len b) u32_mod), (N.ltb_spec (1024 * 1024) (len b)); try lia; try done.
  cbn. by rewrite N.mod_small.
Qed.

Lemma read_messages_frames ms : forall fuel rest,
  Forall (fun m => Message_wf m /\ len (Message_encode m) <= MAX_FRAME_BYTES) ms ->
  (length ms <= fuel)%nat ->
  read_messages fuel (concat (write_message <$> ms) ++ rest) =
    let '(more, r) := read_messages (fuel - length ms) rest in (ms ++ more, r).
Proof.
  induction ms as [|m ms IH]; intros fuel rest Hall Hfuel.
  - cbn. rewrite Nat.sub_0_r. by destruct (read_messages fuel rest).
  - apply Forall_cons in Hall as [[Hwf Hlen] Hall]. destruct fuel as [|fuel]; [cbn in Hfuel; lia|].
    rewrite fmap_cons. cbn [concat length read_messages]. rewrite <-app_assoc, Peer_recv_frame by done.
    rewrite IH by (done || cbn in Hfuel; lia). cbn [Nat.sub].
    by destruct (read_messages (fuel - length ms) rest).
Qed.

Lemma frames_long ms : (length ms <= length (concat (write_message <$> ms)))%nat.
Proof.
  induction ms as [|m ms IH]; [done|]. rewrite fmap_cons. cbn [concat length].
  rewrite length_app. unfold write_message at 1. rewrite length_app, length_be_bytes. lia.
Qed.

Lemma read_connection_frames ms :
  Forall (fun m => Message_wf m /\ len (Message_encode m) <= MAX_FRAME_BYTES) ms ->
  read_connection (concat (write_message <$> ms)) = (ms, Err P2pUnexpectedEof).
Proof.
  intros Hall. unfold read_connection. pose proof (frames_long ms) as Hle.
  pose proof (read_messages_frames ms (S (length (concat (write_message <$> ms)))) [] Hall ltac:(lia)) as Hr.
  rewrite app_nil_r in Hr. rewrite Hr.
  destruct (S (length (concat (write_message <$> ms))) - length ms)%nat as [|k] eqn:Hk; [lia|].
  cbn [read_messages]. change (Peer_recv []) with (@Err P2pError (Message * bytes) P2pUnexpectedEof).
  cbn iota beta. by rewrite app_nil_r.
Qed.

(** A payload whose frame is over the limit is still written, and ends the connection of
    whoever reads it. *)
Lemma oversized_frame_ends_connection m rest :
  MAX_FRAME_BYTES < len (Message_encode m) < u32_mod ->
  read_connection (write_message m ++ rest) =
    ([], Err (Frame (FrameTooLarge (len (Message_encode m))))).
Proof.
  intros [Hbig Hm]. unfold read_connection. cbn [read_messages].
  unfold Peer_recv, write_message. rewrite <-app_assoc, (N.mod_small _ _ Hm).
  pose proof (read_exact_app (be_bytes 4 (len (Message_encode m))) (Message_encode m ++ rest)) as H4.
  unfold len at 1 in H4. rewrite length_be_bytes in H4. change (N.of_nat 4) with 4 in H4. rewrite H4. cbn [mbind res_bind].
  rewrite be_value_small by done. by rewrite (proj2 (N.ltb_lt _ _) Hbig).
Qed.

(** Payloads up to 19 bytes below the limit fit a frame, those within a byte of it do not. *)
Lemma payload_fits p : len p <= MAX_FRAME_BYTES - 19 -> len (Message_encode (MBft p)) <= MAX_FRAME_BYTES.
Proof.
  intros Hp. pose proof (rlp_string_len p). cbn [Message_encode]. unfold len at 1. cbn [length].
  rewrite length_app. pose proof (rlp_header_len (len (rlp_string p))) as Hh.
  pose proof (rlp_length_of_length_le (len (rlp_string p))). unfold MAX_FRAME_BYTES, len in *. lia.
Qed.

Lemma payload_too_long p : MAX_FRAME_BYTES - 1 <= len p -> MAX_FRAME_BYTES < len (Message_encode (MBft p)).
Proof.
  intros Hp. pose proof (rlp_string_len p). cbn [Message_encode]. unfold len at 1. cbn [length].
  rewrite length_app. pose proof (rlp_list_header_nonempty (len (rlp_string p))).
  unfold MAX_FRAME_BYTES, len in *. lia.
Qed.
End facts.

(** ** Arbitrary bytes *)
Section safety.
Context `{R : Rlp} `{U : RlpUint} `{!RlpSafe R} `{!RlpUintLaws R U}.

Lemma map_err_safe {E A B} (f : RlpError -> E) (dec : decoder A) buf (k : A * bytes -> res E B) :
  reader_ok dec -> (forall x, k x <> Panic) -> map_err f (dec buf) ≫= k <> Panic.
Proof.
  intros Hd Hk. destruct (Hd buf) as [Hnp _]. destruct (dec buf); cbn; [apply Hk|done..].
Qed.

Lemma Message_decode_safe buf : Message_decode buf <> Panic.
Proof.
  destruct buf as [|ty buf]; [done|]. cbn [Message_decode].
  pose proof (list_header_safe frame_err (Frame ExpectedList) buf) as Hh.
  destruct (list_header _ _ _) as [[n b]| |]; cbn [mbind res_bind]; [|done..].
  repeat case_bool_decide; try done;
    (apply map_err_safe; [apply safe_u32 || apply safe_u64 || apply safe_string|intros [x r]; try done]).
  - apply map_err_safe; [apply safe_string|]. intros [s r']. by destruct (utf8_valid s).
  - by destruct (_ <? _).
Qed.

Lemma Peer_recv_safe stream :
  Peer_recv stream <> Panic /\
  forall m rest, Peer_recv stream = Ok (m, rest) -> (length rest < length stream)%nat.
Proof.
  unfold Peer_recv, read_exact. destruct (N.ltb_spec (len stream) 4) as [|Hlen]; [cbn; done|].
  cbn [mbind res_bind]. destruct (MAX_FRAME_BYTES <? _); [cbn; done|]. cbn [guard_err mbind res_bind].
  destruct (_ <? _); [cbn; done|]. cbn [mbind res_bind].
  match goal with |- context [Message_decode ?b] => pose proof (Message_decode_safe b) as Hnp;
    destruct (Message_decode b) as [m| |] end; [|cbn; done..].
  split; [done|]. intros ? ? [= _ <-]. rewrite !length_drop. unfold len in Hlen. lia.
Qed.

Lemma read_messages_safe fuel stream :
  (length stream < fuel)%nat -> exists e, snd (read_messages fuel stream) = Err e.
Proof.
  revert stream. induction fuel as [|fuel IH]; intros stream Hf; [lia|]. cbn [read_messages].
  destruct (Peer_recv_safe stream) as [Hnp Hlt].
  destruct (Peer_recv stream) as [[m rest]|e|]; [|by exists e|done].
  specialize (Hlt _ _ eq_refl). destruct (IH rest ltac:(lia)) as [e He].
  exists e. by destruct (read_messages fuel rest).
Qed.

(** A connection always ends with an error, whatever the peer sent before it. *)
Lemma read_connection_ends stream : exists e, snd (read_connection stream) = Err e.
Proof. apply read_messages_safe. lia. Qed.
End safety.
