(* ===== verification/Discovery.v ===== *)
(** * Discovery: the signed packets of peer discovery

    Models [src/crates/aii-net-p2p/src/discovery.rs] up to the socket: endpoints, the four
    packets, their RLP bodies, and [encode_packet] and [decode_packet], which frame a body
    with a hash and a recoverable signature.  The format reads back what it wrote with the
    sender's key, never panics on what the network brings, and holds a known number of
    endpoints. *)
From stdpp Require Import base tactics numbers strings list.
From Stdlib Require Import NArith Lia.
From Stdlib.Init Require Import Byte.
From S2P Require Import Prelude Bytes Crypto Codec Secp RlpUint.

Inductive IpAddr :=
| IpV4 (octets : array 4)
| IpV6 (octets : array 16).

#[export] Instance IpAddr_eq_dec : EqDecision IpAddr.
Proof. solve_decision. Defined.

Record Endpoint := mkEndpoint { ip : IpAddr; udp_port : N; tcp_port : N }.

#[export] Instance Endpoint_eq_dec : EqDecision Endpoint.
Proof. solve_decision. Defined.

Inductive Packet :=
| PktPing (version : N) (from to : Endpoint) (expiration : N)
| PktPong (to : Endpoint) (ping_hash : H256) (expiration : N)
| PktFindNode (target : H256) (expiration : N)
| PktNeighbours (nodes : list Endpoint) (expiration : N).

#[export] Instance Packet_eq_dec : EqDecision Packet.
Proof. solve_decision. Defined.

Inductive DiscoveryError :=
| DRlp (e : RlpError)
| DFrame (msg : string)
| DCrypto (e : CryptoError)
| UnknownPacketType (b : byte)
| PacketTooLarge (n : N)
| DIo (msg : string)
| DTimeout.

Definition TYPE_PING : byte := x01.
Definition TYPE_PONG : byte := x02.
Definition TYPE_FIND_NODE : byte := x03.
Definition TYPE_NEIGHBOURS : byte := x04.
Definition DISCOVERY_VERSION : N := 4.
Definition MAX_DISCOVERY_PACKET : N := 1280.

Definition type_byte (p : Packet) : byte :=
  match p with
  | PktPing _ _ _ _ => TYPE_PING
  | PktPong _ _ _ => TYPE_PONG
  | PktFindNode _ _ => TYPE_FIND_NODE
  | PktNeighbours _ _ => TYPE_NEIGHBOURS
  end.

Section discovery.
Context `{Primitives} `{Rlp} `{RlpUint} `{K256}.

(** ** Endpoints *)
Definition encode_ip_bytes (i : IpAddr) : bytes :=
  match i with IpV4 o => arr_bytes o | IpV6 o => arr_bytes o end.

Definition rlp_payload_length (e : Endpoint) : N :=
  len (rlp_string (encode_ip_bytes (ip e))) + len (rlp_u16 (udp_port e)) + len (rlp_u16 (tcp_port e)).

Definition encode_to (e : Endpoint) : bytes :=
  rlp_list_header (rlp_payload_length e) ++
  rlp_string (encode_ip_bytes (ip e)) ++ rlp_u16 (udp_port e) ++ rlp_u16 (tcp_port e).

(** The address of the length of the bytes. *)
Definition decode_ip (ip_bytes : bytes) : res RlpError IpAddr :=
  if (length ip_bytes =? 4)%nat then o ← expect (arr_of ip_bytes); mret (IpV4 o)
  else if (length ip_bytes =? 16)%nat then o ← expect (arr_of ip_bytes); mret (IpV6 o)
  else Err (RlpCustom (if (length ip_bytes =? 0)%nat then "empty ip" else "unexpected ip length")).

Definition decode_from : decoder Endpoint := fun buf =>
  '((is_list, _), buf) ← rlp_decode_header buf;
  _ ← guard_err (negb is_list) UnexpectedString;
  '(ip_bytes, buf) ← rlp_decode_string buf;
  '(udp, buf) ← rlp_decode_u16 buf;
  '(tcp, buf) ← rlp_decode_u16 buf;
  ip ← decode_ip ip_bytes;
  mret (mkEndpoint ip udp tcp, buf).

(** ** Packet bodies *)

(** What an endpoint takes: its fields and its header. *)
Definition endpoint_length (e : Endpoint) : N :=
  rlp_payload_length e + rlp_length_of_length (rlp_payload_length e).

Definition encode_data (p : Packet) : bytes :=
  match p with
  | PktPing version from to expiration =>
      let payload :=
        len (rlp_u32 version) + rlp_payload_length from + rlp_payload_length to
        + rlp_length_of_length (rlp_payload_length from)
        + rlp_length_of_length (rlp_payload_length to) + len (rlp_u64 expiration) in
      rlp_list_header payload ++ rlp_u32 version ++ encode_to from ++ encode_to to
        ++ rlp_u64 expiration
  | PktPong to ping_hash expiration =>
      let payload :=
        rlp_payload_length to + rlp_length_of_length (rlp_payload_length to)
        + len (encode_array ping_hash) + len (rlp_u64 expiration) in
      rlp_list_header payload ++ encode_to to ++ encode_array ping_hash ++ rlp_u64 expiration
  | PktFindNode target expiration =>
      let payload := len (encode_array target) + len (rlp_u64 expiration) in
      rlp_list_header payload ++ encode_array target ++ rlp_u64 expiration
  | PktNeighbours nodes expiration =>
      let nodes_inner := weight endpoint_length nodes in
      let nodes_field := nodes_inner + rlp_length_of_length nodes_inner in
      let payload := nodes_field + len (rlp_u64 expiration) in
      rlp_list_header payload ++ rlp_list_header nodes_inner ++ concat (encode_to <$> nodes)
        ++ rlp_u64 expiration
  end.

Definition decode_data (ty : byte) (data : bytes) : res DiscoveryError Packet :=
  '(_, data) ← list_header DRlp (DFrame "expected list") data;
  if bool_decide (ty = TYPE_PING) then
    '(version, data) ← map_err DRlp (rlp_decode_u32 data);
    '(from, data) ← map_err DRlp (decode_from data);
    '(to, data) ← map_err DRlp (decode_from data);
    '(expiration, _) ← map_err DRlp (rlp_decode_u64 data);
    mret (PktPing version from to expiration)
  else if bool_decide (ty = TYPE_PONG) then
    '(to, data) ← map_err DRlp (decode_from data);
    '(ping_hash, data) ← map_err DRlp (decode_array 32 data);
    '(expiration, _) ← map_err DRlp (rlp_decode_u64 data);
    mret (PktPong to ping_hash expiration)
  else if bool_decide (ty = TYPE_FIND_NODE) then
    '(target, data) ← map_err DRlp (decode_array 32 data);
    '(expiration, _) ← map_err DRlp (rlp_decode_u64 data);
    mret (PktFindNode target expiration)
  else if bool_decide (ty = TYPE_NEIGHBOURS) then
    '(payload, data) ← list_header DRlp (DFrame "expected nodes list") data;
    '(nodes, data) ← map_err DRlp
      (decode_items decode_from (S (length data)) (len data) payload [] data);
    '(expiration, _) ← map_err DRlp (rlp_decode_u64 data);
    mret (PktNeighbours nodes expiration)
  else Err (UnknownPacketType ty).

(** ** Signed packets *)

(** [keccak256(type || data)], which is signed, and [keccak256(sig || type || data)]. *)
Definition sign_hash (ty : byte) (data : bytes) : H256 := keccak256 (ty :: data).
Definition wire_hash (sig_bytes : bytes) (ty : byte) (data : bytes) : H256 :=
  keccak256 (sig_bytes ++ ty :: data).

Definition encode_packet (secret : ec_sk) (packet : Packet) : res DiscoveryError bytes :=
  let data := encode_data packet in
  let ty := type_byte packet in
  signature ← map_err DCrypto (secp.sign secret (sign_hash ty data));
  let sig_bytes := secp.Signature_to_bytes signature in
  let out := arr_bytes (wire_hash sig_bytes ty data) ++ sig_bytes ++ ty :: data in
  _ ← guard_err (MAX_DISCOVERY_PACKET <? len out) (PacketTooLarge (len out));
  mret out.

Record DecodedPacket := mkDecodedPacket {
  packet : Packet;
  sender_pubkey : ec_key;
  sender_address : Address;
  packet_hash : H256
}.

Definition decode_packet (buf : bytes) : res DiscoveryError DecodedPacket :=
  _ ← guard_err (len buf <? 32 + 65 + 1) (DFrame "packet too short");
  hash_bytes ← slice buf 0 32;
  sig_bytes ← slice buf 32 65;
  ty ← expect (buf !! 97%nat);
  let data := drop 98 buf in
  let expected_hash := wire_hash sig_bytes ty data in
  _ ← guard_err (negb (bool_decide (arr_bytes expected_hash = hash_bytes))) (DFrame "bad packet hash");
  sig_arr ← ok_or (arr_of sig_bytes) (DFrame "sig wrong size");
  signature ← map_err DCrypto (secp.Signature_from_bytes sig_arr);
  pubkey ← map_err DCrypto (secp.recover signature (sign_hash ty data));
  p ← decode_data ty data;
  mret (mkDecodedPacket p pubkey (secp.address pubkey) expected_hash).

(** ** What Rust's types give *)
Definition Endpoint_wf (e : Endpoint) : Prop := udp_port e < 65536 /\ tcp_port e < 65536.
Definition Packet_wf (p : Packet) : Prop :=
  match p with
  | PktPing version from to expiration =>
      version < u32_mod /\ Endpoint_wf from /\ Endpoint_wf to /\ expiration < u64_mod
  | PktPong to _ expiration => Endpoint_wf to /\ expiration < u64_mod
  | PktFindNode _ expiration => expiration < u64_mod
  | PktNeighbours nodes expiration => Forall Endpoint_wf nodes /\ expiration < u64_mod
  end.
End discovery.

(** ** Round trip *)
Section roundtrip.
Context `{Primitives} `{R : Rlp} `{U : RlpUint} `{K : K256}
  `{!RlpLaws R} `{!RlpUintLaws R U} `{!K256Laws K}.

Lemma encode_ip_len i : len (encode_ip_bytes i) <= 16.
Proof. unfold len. destruct i; cbn [encode_ip_bytes]; rewrite arr_length; lia. Qed.

Lemma decode_ip_bytes i : decode_ip (encode_ip_bytes i) = Ok i.
Proof.
  unfold decode_ip. destruct i as [o|o]; cbn [encode_ip_bytes]; rewrite arr_length;
    cbn [Nat.eqb]; by rewrite arr_of_arr_bytes.
Qed.

(** An endpoint takes between 8 and 24 bytes. *)
Lemma rlp_string_ip_len i : 5 <= len (rlp_string (encode_ip_bytes i)) <= 17.
Proof.
  rewrite rlp_string_short by (destruct i; cbn [encode_ip_bytes]; rewrite arr_length; lia).
  unfold len. destruct i; cbn [encode_ip_bytes]; rewrite arr_length; lia.
Qed.

Lemma rlp_payload_length_bounds e : Endpoint_wf e -> 7 <= rlp_payload_length e <= 23.
Proof.
  intros [Hu Ht]. unfold rlp_payload_length. pose proof (rlp_string_ip_len (ip e)).
  pose proof (rlp_u16_len _ Hu). pose proof (rlp_u16_len _ Ht). lia.
Qed.

Lemma len_encode_to e : len (encode_to e) = endpoint_length e.
Proof.
  unfold encode_to, endpoint_length. rewrite !len_app, rlp_header_len. unfold rlp_payload_length. lia.
Qed.

Lemma endpoint_length_bounds e : Endpoint_wf e -> 8 <= endpoint_length e <= 24.
Proof.
  intros Hwf. pose proof (rlp_payload_length_bounds e Hwf). unfold endpoint_length.
  rewrite rlp_length_short by lia. lia.
Qed.

Lemma len_encode_nodes nodes : len (concat (encode_to <$> nodes)) = weight endpoint_length nodes.
Proof.
  induction nodes as [|e nodes IH]; [done|]. rewrite fmap_cons. cbn [concat].
  rewrite len_app, len_encode_to, IH. done.
Qed.

Lemma nodes_length_bounds nodes : Forall Endpoint_wf nodes ->
  8 * len nodes <= weight endpoint_length nodes <= 24 * len nodes.
Proof.
  induction 1 as [|e nodes He _ IH]; [done|]. rewrite weight_cons.
  pose proof (endpoint_length_bounds e He). unfold len in *. cbn [length]. lia.
Qed.

Lemma decode_from_encode e rest : Endpoint_wf e -> decode_from (encode_to e ++ rest) = Ok (e, rest).
Proof.
  intros Hwf. pose proof (rlp_payload_length_bounds e Hwf) as Hb. destruct Hwf as [Hu Ht].
  unfold decode_from, encode_to. rewrite <-!app_assoc.
  rewrite rlp_header_roundtrip by (rewrite ?len_app; unfold rlp_payload_length in *; lia).
  cbn [mbind res_bind negb guard_err].
  rewrite rlp_string_roundtrip by (pose proof (encode_ip_len (ip e)); lia). cbn [mbind res_bind].
  rewrite rlp_u16_roundtrip by done. cbn [mbind res_bind].
  rewrite rlp_u16_roundtrip by done. cbn [mbind res_bind]. rewrite decode_ip_bytes. by destruct e.
Qed.

Lemma decode_nodes nodes rest : Forall Endpoint_wf nodes ->
  let buf := concat (encode_to <$> nodes) ++ rest in
  decode_items decode_from (S (length buf)) (len buf) (weight endpoint_length nodes) [] buf
    = Ok (nodes, rest).
Proof.
  intros Hwf buf. subst buf. pose proof (len_encode_nodes nodes) as Hlen.
  assert (length nodes <= length (concat (encode_to <$> nodes)))%nat as Hle.
  { pose proof (nodes_length_bounds nodes Hwf). unfold len in *. lia. }
  rewrite (decode_items_roundtrip encode_to); [done|..].
  - eapply Forall_impl; [exact Hwf|]. intros e He. split; [|by intros; apply decode_from_encode].
    rewrite len_encode_to. pose proof (endpoint_length_bounds e He). lia.
  - rewrite length_app. lia.
  - rewrite len_app. lia.
  - lia.
  - rewrite !len_app. lia.
Qed.

Lemma length_encode_array {n} (a : array n) : N.of_nat n < u32_mod ->
  len (encode_array a) <= 9 + N.of_nat n.
Proof.
  intros Hn. unfold encode_array. pose proof (rlp_string_len (arr_bytes a)).
  unfold len in *. rewrite arr_length in *. lia.
Qed.

Lemma weight_nodes_lt nodes : Forall Endpoint_wf nodes -> len nodes < u32_mod ->
  weight endpoint_length nodes < 24 * u32_mod.
Proof. intros Hwf Hlt. pose proof (nodes_length_bounds nodes Hwf). lia. Qed.

Ltac types :=
  cbn [mbind res_bind];
  repeat first [rewrite bool_decide_eq_true_2 by done | rewrite bool_decide_eq_false_2 by done].
Ltac field L := rewrite (map_err_bind_Ok _ _ _ _ L); cbn [mbind res_bind].

(** A body reads back; a list of endpoints needs to be shorter than 2^32. *)
Lemma decode_encode_data p :
  Packet_wf p -> (forall nodes x, p = PktNeighbours nodes x -> len nodes < u32_mod) ->
  decode_data (type_byte p) (encode_data p) = Ok p.
Proof.
  intros Hwf Hnodes. unfold decode_data.
  destruct p as [v f t x|t h x|h x|nodes x]; cbn [Packet_wf encode_data type_byte] in *.
  - destruct Hwf as (Hv & Hf & Ht & Hx). pose proof (rlp_u32_len _ Hv). pose proof (rlp_u64_len _ Hx).
    pose proof (endpoint_length_bounds f Hf). pose proof (endpoint_length_bounds t Ht).
    rewrite list_header_roundtrip
      by (rewrite ?len_app, ?len_encode_to; unfold endpoint_length in *; lia). types.
    field (rlp_u32_roundtrip v (encode_to f ++ encode_to t ++ rlp_u64 x) Hv).
    field (decode_from_encode f (encode_to t ++ rlp_u64 x) Hf).
    field (decode_from_encode t (rlp_u64 x) Ht).
    rewrite <-(app_nil_r (rlp_u64 x)). by field (rlp_u64_roundtrip x [] Hx).
  - destruct Hwf as (Ht & Hx). pose proof (rlp_u64_len _ Hx). pose proof (endpoint_length_bounds t Ht).
    pose proof (length_encode_array h ltac:(done)).
    rewrite list_header_roundtrip
      by (rewrite ?len_app, ?len_encode_to; unfold endpoint_length in *; lia). types.
    field (decode_from_encode t (encode_array h ++ rlp_u64 x) Ht).
    field (decode_encode_array h (rlp_u64 x) ltac:(done)).
    rewrite <-(app_nil_r (rlp_u64 x)). by field (rlp_u64_roundtrip x [] Hx).
  - pose proof (rlp_u64_len _ Hwf). pose proof (length_encode_array h ltac:(done)).
    rewrite list_header_roundtrip by (rewrite ?len_app; lia). types.
    field (decode_encode_array h (rlp_u64 x) ltac:(done)).
    rewrite <-(app_nil_r (rlp_u64 x)). by field (rlp_u64_roundtrip x [] Hwf).
  - destruct Hwf as (Hn & Hx). pose proof (rlp_u64_len _ Hx).
    pose proof (weight_nodes_lt nodes Hn (Hnodes _ _ eq_refl)) as Hw.
    pose proof (rlp_length_of_length_le (weight endpoint_length nodes)).
    rewrite list_header_roundtrip
      by (rewrite ?len_app, ?rlp_header_len, ?len_encode_nodes; lia). types.
    rewrite list_header_roundtrip by (rewrite ?len_app, ?len_encode_nodes; lia). types.
    field (decode_nodes nodes (rlp_u64 x) Hn).
    rewrite <-(app_nil_r (rlp_u64 x)). by field (rlp_u64_roundtrip x [] Hx).
Qed.

Lemma length_Signature s : length (secp.Signature_to_bytes s) = 65%nat.
Proof. unfold secp.Signature_to_bytes. by rewrite length_app, arr_length. Qed.

(** Signing succeeds; only the size can fail. *)
Lemma encode_packet_spec sk p :
  exists s, secp.sign sk (sign_hash (type_byte p) (encode_data p)) = Ok s /\
  let out := arr_bytes (wire_hash (secp.Signature_to_bytes s) (type_byte p) (encode_data p))
             ++ secp.Signature_to_bytes s ++ type_byte p :: encode_data p in
  len out = 98 + len (encode_data p) /\
  encode_packet sk p =
    if len out <=? MAX_DISCOVERY_PACKET then Ok out else Err (PacketTooLarge (len out)).
Proof.
  unfold encode_packet. generalize (encode_data p). intros data. unfold secp.sign.
  destruct (ec_sign_total sk (sign_hash (type_byte p) data)) as [[sg v] Hs]. rewrite Hs.
  cbn [ok_or mbind res_bind mret res_ret map_err]. eexists. split; [done|]. cbv zeta. split.
  - unfold len. rewrite !length_app, arr_length. cbn [length]. rewrite length_Signature. lia.
  - destruct (N.leb_spec (len (arr_bytes (wire_hash (secp.Signature_to_bytes (secp.mkSignature sg v))
        (type_byte p) data) ++ secp.Signature_to_bytes (secp.mkSignature sg v) ++ type_byte p :: data))
        MAX_DISCOVERY_PACKET) as [Hle|Hlt].
    + by rewrite (proj2 (N.ltb_ge _ _) Hle).
    + by rewrite (proj2 (N.ltb_lt _ _) Hlt).
Qed.

(** What [encode_packet] wrote is accepted, for any body, when the body reads back. *)
Lemma decode_packet_wire s sk ty data p :
  secp.sign sk (sign_hash ty data) = Ok s -> decode_data ty data = Ok p ->
  decode_packet (arr_bytes (wire_hash (secp.Signature_to_bytes s) ty data)
                 ++ secp.Signature_to_bytes s ++ ty :: data) =
    Ok (mkDecodedPacket p (ec_verifying_key sk) (secp.address (ec_verifying_key sk))
          (wire_hash (secp.Signature_to_bytes s) ty data)).
Proof.
  intros Hs Hp. destruct (sign_recover _ _ _ Hs) as (Hr & Hid & Hlt). unfold decode_packet.
  pose proof (length_Signature s) as Hlen.
  destruct (arr_of_is_Some (n := 65) (secp.Signature_to_bytes s) Hlen) as [sig_arr Harr].
  rewrite (proj2 (N.ltb_ge _ _)) by (unfold len; rewrite !length_app, arr_length, Hlen; cbn [length]; lia).
  cbn [guard_err mbind res_bind].
  pose proof (slice_app (E := DiscoveryError) [] (arr_bytes (wire_hash (secp.Signature_to_bytes s) ty data))
    (secp.Signature_to_bytes s ++ ty :: data)
    0 32 eq_refl ltac:(by rewrite arr_length)) as H0. cbn [app] in H0. rewrite H0. cbn [mbind res_bind].
  rewrite (slice_app (arr_bytes (wire_hash (secp.Signature_to_bytes s) ty data))) by (rewrite ?arr_length; done). cbn [mbind res_bind].
  rewrite app_assoc, lookup_app_r by (rewrite length_app, arr_length; lia).
  rewrite length_app, arr_length, Hlen. cbn [Nat.sub Nat.add lookup list_lookup expect mbind res_bind].
  assert (Hd : drop 98 ((arr_bytes (wire_hash (secp.Signature_to_bytes s) ty data)
    ++ secp.Signature_to_bytes s) ++ ty :: data) = data).
  { rewrite drop_app_ge by (rewrite length_app, arr_length; lia).
    rewrite length_app, arr_length, Hlen. done. }
  rewrite Hd. rewrite bool_decide_eq_true_2 by done. cbn [negb guard_err mbind res_bind].
  rewrite Harr. cbn [ok_or mbind res_bind].
  rewrite (Signature_from_to_bytes s sig_arr) by (done || by apply arr_of_Some).
  cbn [map_err mbind res_bind]. rewrite Hr. cbn [map_err mbind res_bind]. by rewrite Hp.
Qed.

(** Every packet that fits is accepted with the sender's key. *)
Lemma decode_encode_packet sk p w :
  Packet_wf p -> encode_packet sk p = Ok w ->
  decode_packet w = Ok (mkDecodedPacket p (ec_verifying_key sk) (secp.address (ec_verifying_key sk))
                          (be_array 32 (be_value (take 32 w)))).
Proof.
  intros Hwf Hw. destruct (encode_packet_spec sk p) as (s & Hs & Hlen & Henc). cbv zeta in Hlen, Henc.
  rewrite Henc in Hw. destruct (N.leb_spec (len (arr_bytes (wire_hash (secp.Signature_to_bytes s) (type_byte p)
    (encode_data p)) ++ secp.Signature_to_bytes s ++ type_byte p :: encode_data p)) MAX_DISCOVERY_PACKET)
    as [Hle|]; [|done].
  injection Hw as <-. rewrite (decode_packet_wire s sk _ _ p); [|done|].
  - do 2 f_equal. rewrite take_app_length' by (by rewrite arr_length). apply arr_ext. cbn [arr_bytes be_array].
    generalize (wire_hash (secp.Signature_to_bytes s) (type_byte p) (encode_data p)). intros h.
    symmetry. rewrite <-(arr_length h) at 1. apply be_bytes_value.
  - apply decode_encode_data; [done|]. intros nodes x ->. cbn [encode_data Packet_wf] in *.
    rewrite Hlen in Hle. rewrite !len_app, len_encode_nodes in Hle.
    pose proof (nodes_length_bounds nodes (proj1 Hwf)). unfold MAX_DISCOVERY_PACKET in Hle. lia.
Qed.

(** ** How many endpoints fit *)
Lemma neighbours_size nodes x : Forall Endpoint_wf nodes -> x < u64_mod ->
  8 * len nodes <= len (encode_data (PktNeighbours nodes x)) <= 24 * len nodes + 27.
Proof.
  intros Hn Hx. cbn [encode_data]. rewrite !len_app, !rlp_header_len, len_encode_nodes.
  pose proof (nodes_length_bounds nodes Hn). pose proof (rlp_u64_len x Hx).
  pose proof (rlp_length_of_length_le (weight endpoint_length nodes)).
  pose proof (rlp_length_of_length_le (weight endpoint_length nodes
    + rlp_length_of_length (weight endpoint_length nodes) + len (rlp_u64 x))). lia.
Qed.

Lemma neighbours_fit sk nodes x : Forall Endpoint_wf nodes -> x < u64_mod -> len nodes <= 48 ->
  exists w, encode_packet sk (PktNeighbours nodes x) = Ok w.
Proof.
  intros Hn Hx Hlen. destruct (encode_packet_spec sk (PktNeighbours nodes x)) as (s & _ & Hl & ->).
  cbv zeta in Hl. rewrite Hl. pose proof (neighbours_size nodes x Hn Hx).
  rewrite (proj2 (N.leb_le _ _)) by (unfold MAX_DISCOVERY_PACKET; lia). eauto.
Qed.

Lemma neighbours_overflow sk nodes x : Forall Endpoint_wf nodes -> x < u64_mod -> 148 <= len nodes ->
  exists n, encode_packet sk (PktNeighbours nodes x) = Err (PacketTooLarge n).
Proof.
  intros Hn Hx Hlen. destruct (encode_packet_spec sk (PktNeighbours nodes x)) as (s & _ & Hl & ->).
  cbv zeta in Hl. rewrite Hl. pose proof (neighbours_size nodes x Hn Hx).
  rewrite (proj2 (N.leb_gt _ _)) by (unfold MAX_DISCOVERY_PACKET; lia). eauto.
Qed.
End roundtrip.

(** ** Arbitrary bytes *)
Section safety.
Context `{Primitives} `{R : Rlp} `{U : RlpUint} `{K256} `{!RlpSafe R} `{!RlpUintLaws R U}.

Lemma decode_ip_safe b : decode_ip b <> Panic.
Proof.
  unfold decode_ip. repeat case_match; try done.
  - destruct (Nat.eqb_spec (length b) 4) as [E|]; [|done]. destruct (arr_of_is_Some b E) as [o ->]. done.
  - destruct (Nat.eqb_spec (length b) 16) as [E|]; [|done]. destruct (arr_of_is_Some b E) as [o ->]. done.
Qed.

Lemma decode_from_safe : reader_ok decode_from.
Proof.
  unfold decode_from.
  apply (struct_safe (fun _ buf =>
    '(ip_bytes, buf) ← rlp_decode_string buf; '(udp, buf) ← rlp_decode_u16 buf;
    '(tcp, buf) ← rlp_decode_u16 buf; ip ← decode_ip ip_bytes;
    mret (mkEndpoint ip udp tcp, buf))).
  intros _ buf.
  apply reads_weak; [intros; apply reader_weak, safe_string|intros i b1].
  apply reads_weak; [intros; apply reader_weak, safe_u16|intros u b2].
  apply reads_weak; [intros; apply reader_weak, safe_u16|intros t b3].
  pose proof (decode_ip_safe i) as Hnp. destruct (decode_ip i); cbn [mbind res_bind]; [apply reads_ret|by split|done].
Qed.

Lemma decode_data_safe ty data : decode_data ty data <> Panic.
Proof.
  assert (Hm : forall {A B} (dec : decoder A) buf (k : A * bytes -> res DiscoveryError B),
    reader_ok dec -> (forall x, k x <> Panic) -> map_err DRlp (dec buf) ≫= k <> Panic).
  { intros A B dec buf k Hd Hk. destruct (Hd buf) as [Hnp _]. destruct (dec buf); cbn; [apply Hk|done..]. }
  unfold decode_data. pose proof (list_header_safe DRlp (DFrame "expected list") data) as Hh.
  destruct (list_header _ _ data) as [[n b]| |]; cbn [mbind res_bind]; [|done..].
  repeat case_bool_decide; try done;
    repeat (apply Hm; [solve [apply safe_u32|apply safe_u64|apply decode_from_safe|apply decode_array_safe]
                      |intros [? ?]; try done]).
  pose proof (list_header_safe DRlp (DFrame "expected nodes list") b) as Hh'.
  destruct (list_header _ _ b) as [[payload d]| |]; cbn [mbind res_bind]; [|done..].
  destruct (decode_items_safe decode_from (S (length d)) (len d) payload [] d decode_from_safe) as [Hnp _]; [lia|].
  destruct (decode_items _ _ _ _ _ d) as [[nodes r]| |]; cbn [map_err mbind res_bind]; [|done..].
  apply Hm; [apply safe_u64|by intros [? ?]].
Qed.

(** No datagram makes the decoder panic. *)
Lemma decode_packet_safe buf : decode_packet buf <> Panic.
Proof.
  unfold decode_packet. destruct (N.ltb_spec (len buf) (32 + 65 + 1)) as [|Hlen]; [done|].
  cbn [guard_err mbind res_bind]. unfold len in Hlen.
  rewrite slice_in by lia. cbn [mbind res_bind]. rewrite slice_in by lia. cbn [mbind res_bind].
  destruct (lookup_lt_is_Some_2 buf 97) as [ty Hty]; [lia|]. rewrite Hty. cbn [expect mbind res_bind].
  destruct (bool_decide _); cbn [negb guard_err mbind res_bind]; [|done].
  destruct (arr_of _) as [a|]; cbn [ok_or mbind res_bind]; [|done].
  assert (Hsig : secp.Signature_from_bytes a <> Panic).
  { unfold secp.Signature_from_bytes. destruct (ec_sig_from_slice _); cbn; [|done].
    destruct (lookup_lt_is_Some_2 (arr_bytes a) 64) as [v ->]; [rewrite arr_length; lia|]. cbn.
    by destruct (recid_from_byte _). }
  destruct (secp.Signature_from_bytes a); cbn [map_err mbind res_bind]; [|done..].
  unfold secp.recover. destruct (ec_recover_from_prehash _ _ _); cbn [ok_or map_err mbind res_bind]; [|done].
  pose proof (decode_data_safe ty (drop 98 buf)). by destruct (decode_data ty (drop 98 buf)).
Qed.

(** What is accepted carries its hash, and a signature of its body that recovers to the
    sender. *)
Lemma decode_packet_authentic buf d :
  decode_packet buf = Ok d ->
  exists ty sig_arr s, arr_bytes (packet_hash d) ++ arr_bytes sig_arr ++ ty :: drop 98 buf = buf /\
  packet_hash d = wire_hash (arr_bytes sig_arr) ty (drop 98 buf) /\
  secp.Signature_from_bytes sig_arr = Ok s /\
  secp.recover s (sign_hash ty (drop 98 buf)) = Ok (sender_pubkey d) /\
  sender_address d = secp.address (sender_pubkey d) /\
  decode_data ty (drop 98 buf) = Ok (packet d).
Proof.
  unfold decode_packet. intros Hd.
  apply bind_Ok in Hd as ([] & _ & Hd). apply bind_Ok in Hd as (h & Hh & Hd).
  apply bind_Ok in Hd as (sb & Hsb & Hd). apply bind_Ok in Hd as (ty & Hty%expect_Ok & Hd).
  cbv zeta in Hd. apply bind_Ok in Hd as ([] & Hok%guard_err_Ok & Hd).
  apply bind_Ok in Hd as (sig_arr & Harr%ok_or_Ok & Hd). apply arr_of_Some in Harr as <-.
  apply bind_Ok in Hd as (s & Hs%map_err_Ok & Hd). apply bind_Ok in Hd as (k & Hk%map_err_Ok & Hd).
  apply bind_Ok in Hd as (p & Hp & [= <-]). cbn [packet_hash sender_pubkey sender_address packet].
  apply negb_false_iff, bool_decide_eq_true in Hok as <-.
  apply slice_Ok in Hh as (Hh & _ & _). apply slice_Ok in Hsb as (Hsb & _ & _). cbn [Nat.add] in *.
  exists ty, sig_arr, s. split_and!; try done.
  rewrite drop_0 in Hh. etrans; [|symmetry; exact Hh]. f_equal. rewrite Hsb. f_equal.
  symmetry. by apply drop_S.
Qed.
End safety.
