(* ===== verification/DiscoveryNode.v ===== *)
(** * DiscoveryNode: how a node answers and asks for peers

    Models [src/crates/aii-node/src/discovery_bootstrap.rs] over the packets of [Discovery]:
    the responder's loop body, one query window ([discover_once_full]), the choice of the
    advertised endpoint, [merge] of [peer_cache.rs], and the refresh of the peer sets in
    [main.rs], which shares the view of peers with the responder ([serve]).  A loop is a fold over the datagrams it receives, with the clock at each.  A
    [BTreeSet] of addresses and the sorted vector of the responder are sorted lists; flow
    labels and scope ids of IPv6 socket addresses are left out, and a lock is never poisoned. *)
From stdpp Require Import base tactics numbers strings sorting list.
From Stdlib Require Import NArith Lia.
From Stdlib.Init Require Import Byte.
From S2P Require Import Prelude Bytes Crypto Codec Secp RlpUint Discovery.

Record SocketAddr := mkSocketAddr { sa_ip : IpAddr; sa_port : N }.

#[export] Instance SocketAddr_eq_dec : EqDecision SocketAddr.
Proof. solve_decision. Defined.

(** The derived order: version, octets, port. *)
Definition sa_key (a : SocketAddr) : list N :=
  match sa_ip a with
  | IpV4 o => 4 :: (Byte.to_N <$> arr_bytes o)
  | IpV6 o => 6 :: (Byte.to_N <$> arr_bytes o)
  end ++ [sa_port a].

Definition sa_le (a b : SocketAddr) : bool := lex_le (sa_key a) (sa_key b).

(** ** Sorted sets of addresses *)

(** [Vec::binary_search] on a sorted vector: where the address is, or would go. *)
Fixpoint lower_bound (x : SocketAddr) (l : list SocketAddr) : nat :=
  match l with
  | [] => 0%nat
  | y :: l => if sa_le x y then 0%nat else S (lower_bound x l)
  end.

Definition binary_search (l : list SocketAddr) (x : SocketAddr) : nat + nat :=
  let i := lower_bound x l in if bool_decide (l !! i = Some x) then inl i else inr i.

(** [BTreeSet::insert], and [Vec::insert] at the place [binary_search] gives. *)
Definition set_insert (l : list SocketAddr) (x : SocketAddr) : list SocketAddr :=
  match binary_search l x with
  | inl _ => l
  | inr i => take i l ++ x :: drop i l
  end.

Definition set_of (l : list SocketAddr) : list SocketAddr := foldl set_insert [] l.

(** ** Addresses *)
Definition is_unspecified (i : IpAddr) : bool :=
  match i with
  | IpV4 o => bool_decide (o = zero_array 4)
  | IpV6 o => bool_decide (o = zero_array 16)
  end.

Definition is_loopback (i : IpAddr) : bool :=
  match i with
  | IpV4 o => bool_decide (head (arr_bytes o) = Some x7f)
  | IpV6 o => bool_decide (o = be_array 16 1)
  end.

Definition peer_is_advertisable (p : SocketAddr) : bool :=
  negb (is_unspecified (sa_ip p)) && negb (sa_port p =? 0).

Definition endpoint_is_advertisable (e : Endpoint) : bool :=
  negb (is_unspecified (ip e)) && negb (tcp_port e =? 0).

Definition peer_to_endpoint (p : SocketAddr) : Endpoint := mkEndpoint (sa_ip p) (sa_port p) (sa_port p).

Definition advertisable (p : SocketAddr) : option SocketAddr :=
  if peer_is_advertisable p then Some p else None.

Definition endpoint_to_peer (e : Endpoint) : option SocketAddr :=
  advertisable (mkSocketAddr (ip e) (tcp_port e)).

Definition endpoint_to_discovery_peer (e : Endpoint) : option SocketAddr :=
  advertisable (mkSocketAddr (ip e) (udp_port e)).

Definition endpoints_to_peers (nodes : list Endpoint) : list SocketAddr :=
  set_of (omap endpoint_to_peer nodes).

Definition endpoints_to_discovery_peers (nodes : list Endpoint) : list SocketAddr :=
  set_of (omap endpoint_to_discovery_peer nodes).

Definition normalize_peers (peers : list SocketAddr) : list SocketAddr :=
  set_of (filter (fun p => peer_is_advertisable p = true) peers).

Definition observed_pong_endpoint (src : SocketAddr) (from : Endpoint) : Endpoint :=
  mkEndpoint (sa_ip src) (sa_port src) (tcp_port from).

(** The view after the call, and whether the peer is new. *)
Definition insert_shared_peer (peers : list SocketAddr) (peer : SocketAddr) : list SocketAddr * bool :=
  if negb (peer_is_advertisable peer) then (peers, false)
  else match binary_search peers peer with
       | inl _ => (peers, false)
       | inr i => (take i peers ++ peer :: drop i peers, true)
       end.

(** ** What the node advertises *)
Record DiscoveryAdvertisement := mkAdvertisement {
  adv_discovery : option SocketAddr;
  adv_bft : option SocketAddr
}.

#[export] Instance DiscoveryAdvertisement_eq_dec : EqDecision DiscoveryAdvertisement.
Proof. solve_decision. Defined.

Definition advertised_endpoint (discovery_bound bft_listen : SocketAddr) (adv : DiscoveryAdvertisement)
    : Endpoint :=
  mkEndpoint
    match adv_bft adv, adv_discovery adv with
    | Some a, _ => sa_ip a
    | None, Some a => sa_ip a
    | None, None => if is_unspecified (sa_ip bft_listen) then sa_ip discovery_bound else sa_ip bft_listen
    end
    match adv_discovery adv with Some a => sa_port a | None => sa_port discovery_bound end
    match adv_bft adv with Some a => sa_port a | None => sa_port bft_listen end.

Definition advertisement_with_observed_endpoint (adv : DiscoveryAdvertisement) (bft_listen : SocketAddr)
    (observed_discovery : option SocketAddr) (advertise_bft : bool) : DiscoveryAdvertisement :=
  match observed_discovery ≫= advertisable with
  | None => adv
  | Some observed =>
      mkAdvertisement
        match adv_discovery adv with Some a => Some a | None => Some observed end
        (if bool_decide (is_Some (adv_bft adv)) || negb advertise_bft || (sa_port bft_listen =? 0)
            || is_loopback (sa_ip bft_listen)
         then adv_bft adv
         else Some (mkSocketAddr (sa_ip observed) (sa_port bft_listen)))
  end.

Definition expiration_in (now secs : N) : N := wrapping_add u64_mod now secs.

Record DiscoveryUpdate := mkUpdate {
  bft_peers : list SocketAddr;
  discovery_peers : list SocketAddr;
  observed_discovery : option SocketAddr
}.

(** [peer_cache::merge]: the first occurrence of each, in order. *)
Definition merge_push (out : list SocketAddr) (a : SocketAddr) : list SocketAddr :=
  if bool_decide (a ∈ out) then out else out ++ [a].

Definition merge (cached current : list SocketAddr) : list SocketAddr :=
  foldl merge_push [] (cached ++ current).

(** [set_shared_peers]: the whole view is replaced. *)
Definition set_shared_peers (peers next : list SocketAddr) : list SocketAddr := normalize_peers next.

(** ** The refresh of the peer sets after a query

    The loop of [main.rs] keeps the peers to query, the peers to dial, what it advertises,
    and the view that the responder serves; the peers to dial are handed to the transport. *)
Record Refresh := mkRefresh {
  known_discovery_peers : list SocketAddr;
  known_bft_peers : list SocketAddr;
  discovery_advertise : DiscoveryAdvertisement;
  peer_view : list SocketAddr
}.

Definition refresh_step (bft_listen : SocketAddr) (advertise_bft : bool) (s : Refresh)
    (d : DiscoveryUpdate) : Refresh :=
  let adv := advertisement_with_observed_endpoint (discovery_advertise s) bft_listen
               (observed_discovery d) advertise_bft in
  let disc := if bool_decide (discovery_peers d = []) then known_discovery_peers s
              else merge (known_discovery_peers s) (discovery_peers d) in
  if bool_decide (bft_peers d = []) then mkRefresh disc (known_bft_peers s) adv (peer_view s)
  else let bft := merge (known_bft_peers s) (bft_peers d) in
       mkRefresh disc bft adv (set_shared_peers (peer_view s) bft).

Section node.
Context `{Primitives} `{Rlp} `{RlpUint} `{K256}.

(** A datagram and where it goes. *)
Abbreviation datagram := (SocketAddr * bytes)%type.

(** [let _ = driver.send(dst, &packet).await]: nothing is sent when encoding fails. *)
Definition send (secret : ec_sk) (dst : SocketAddr) (p : Packet) : res DiscoveryError (list datagram) :=
  match encode_packet secret p with
  | Ok w => Ok [(dst, w)]
  | Err _ => Ok []
  | Panic => Panic
  end.

(** [driver.recv]: the buffer holds [MAX_DISCOVERY_PACKET] bytes of the datagram. *)
Definition recv (data : bytes) : res DiscoveryError DecodedPacket :=
  decode_packet (take (N.to_nat MAX_DISCOVERY_PACKET) data).

(** ** The responder *)
Record Responder := mkResponder {
  r_secret : ec_sk;
  r_local : option Endpoint;
  r_peers : list SocketAddr
}.

(** [spawn_responder]: the state its task starts with. *)
Definition spawn_responder (bound : SocketAddr) (secret : ec_sk) (bft_listen : SocketAddr)
    (advertise : DiscoveryAdvertisement) (peers : list SocketAddr) : Responder :=
  let local := advertised_endpoint bound bft_listen advertise in
  mkResponder secret (if endpoint_is_advertisable local then Some local else None) peers.

Definition with_peers (r : Responder) (peers : list SocketAddr) : Responder :=
  mkResponder (r_secret r) (r_local r) peers.

Definition pong (now : N) (src : SocketAddr) (from : Endpoint) (d : DecodedPacket) : Packet :=
  PktPong (observed_pong_endpoint src from) (packet_hash d) (expiration_in now 60).

(** The endpoints served to a [FindNode]. *)
Definition served_nodes (local : option Endpoint) (peers : list SocketAddr) : list Endpoint :=
  option_list local ++ (peer_to_endpoint <$> filter (fun p => peer_is_advertisable p = true) peers).

(** The loop body: the datagram [data] from [src] at the time [now]. *)
Definition respond (r : Responder) (now : N) (src : SocketAddr) (data : bytes)
    : res DiscoveryError (Responder * list datagram) :=
  match recv data with
  | Panic => Panic
  | Err _ => Ok (r, [])
  | Ok d =>
      match packet d with
      | PktPing _ from _ _ =>
          let r := match endpoint_to_peer from with
                   | Some peer => with_peers r (fst (insert_shared_peer (r_peers r) peer))
                   | None => r
                   end in
          out ← send (r_secret r) src (pong now src from d);
          mret (r, out)
      | PktFindNode _ _ =>
          out ← send (r_secret r) src
                  (PktNeighbours (served_nodes (r_local r) (r_peers r)) (expiration_in now 60));
          mret (r, out)
      | PktNeighbours _ _ | PktPong _ _ _ => mret (r, [])
      end
  end.

(** ** The responder beside the refresh loop

    Both tasks hold the same view: a datagram may insert an address, and a refresh that
    found peers replaces it.  Of the responder [r] its key and its endpoint count here;
    the view is that of the state. *)
Inductive view_event :=
| Arrived (now : N) (src : SocketAddr) (data : bytes)
| Refreshed (d : DiscoveryUpdate).

Definition with_view (s : Refresh) (view : list SocketAddr) : Refresh :=
  mkRefresh (known_discovery_peers s) (known_bft_peers s) (discovery_advertise s) view.

Definition serve_step (r : Responder) (bft_listen : SocketAddr) (advertise_bft : bool) (s : Refresh)
    (ev : view_event) : res DiscoveryError (Refresh * list datagram) :=
  match ev with
  | Arrived now src data =>
      '(r, out) ← respond (with_peers r (peer_view s)) now src data;
      mret (with_view s (r_peers r), out)
  | Refreshed d => mret (refresh_step bft_listen advertise_bft s d, [])
  end.

Fixpoint serve (r : Responder) (bft_listen : SocketAddr) (advertise_bft : bool) (s : Refresh)
    (evs : list view_event) : res DiscoveryError (Refresh * list datagram) :=
  match evs with
  | [] => mret (s, [])
  | ev :: evs =>
      '(s, out) ← serve_step r bft_listen advertise_bft s ev;
      '(s, out') ← serve r bft_listen advertise_bft s evs;
      mret (s, out ++ out')
  end.

(** ** One query window *)
Record Query := mkQuery {
  found_bft : list SocketAddr;
  found_discovery : list SocketAddr;
  observed : option SocketAddr
}.

Definition no_query : Query := mkQuery [] [] None.

Definition query_step (secret : ec_sk) (known_peers : list SocketAddr) (expires : N)
    (q : Query) (now : N) (src : SocketAddr) (data : bytes)
    : res DiscoveryError (Query * list datagram) :=
  match recv data with
  | Panic => Panic
  | Err _ => Ok (q, [])
  | Ok d =>
      match packet d with
      | PktPing _ from _ _ =>
          out ← send secret src (pong now src from d);
          mret (q, out)
      | PktFindNode _ _ =>
          out ← send secret src (PktNeighbours (served_nodes None known_peers) expires);
          mret (q, out)
      | PktNeighbours nodes _ =>
          mret (mkQuery (foldl set_insert (found_bft q) (endpoints_to_peers nodes))
                  (foldl set_insert (found_discovery q) (endpoints_to_discovery_peers nodes))
                  (observed q), [])
      | PktPong to _ _ =>
          mret (mkQuery (found_bft q) (found_discovery q)
                  match observed q with Some a => Some a | None => endpoint_to_discovery_peer to end, [])
      end
  end.

Fixpoint query_all (secret : ec_sk) (known_peers : list SocketAddr) (expires : N)
    (q : Query) (inputs : list (N * datagram)) : res DiscoveryError (Query * list datagram) :=
  match inputs with
  | [] => mret (q, [])
  | (now, (src, data)) :: inputs =>
      '(q, out) ← query_step secret known_peers expires q now src data;
      '(q, out') ← query_all secret known_peers expires q inputs;
      mret (q, out ++ out')
  end.

(** What is sent to one seed. *)
Definition ask (secret : ec_sk) (local : Endpoint) (target : H256) (now : N) (seed : SocketAddr)
    : res DiscoveryError (list datagram) :=
  ping ← send secret seed
           (PktPing DISCOVERY_VERSION local (mkEndpoint (sa_ip seed) (sa_port seed) 0) (expiration_in now 60));
  find ← send secret seed (PktFindNode target (expiration_in now 60));
  mret (ping ++ find).

Fixpoint ask_all (secret : ec_sk) (local : Endpoint) (target : H256) (now : N) (seeds : list SocketAddr)
    : res DiscoveryError (list datagram) :=
  match seeds with
  | [] => mret []
  | seed :: seeds =>
      out ← ask secret local target now seed;
      out' ← ask_all secret local target now seeds;
      mret (out ++ out')
  end.

(** [discover_once_full] on a socket bound at [bound], whose text hashes to [target]:
    the seeds are asked at the time [now], then what arrives before the deadline is handled. *)
Definition discover_once_full (bound : SocketAddr) (target : H256) (secret : ec_sk)
    (seeds : list SocketAddr) (bft_listen : SocketAddr) (advertise : DiscoveryAdvertisement)
    (known_peers : list SocketAddr) (now : N) (inputs : list (N * datagram))
    : res DiscoveryError (DiscoveryUpdate * list datagram) :=
  if bool_decide (seeds = []) then mret (mkUpdate [] [] None, [])
  else
    let local := advertised_endpoint bound bft_listen advertise in
    asked ← ask_all secret local target now seeds;
    '(q, out) ← query_all secret known_peers (expiration_in now 60) no_query inputs;
    mret (mkUpdate (found_bft q) (found_discovery q) (observed q), asked ++ out).

(** ** What Rust's types and the view's invariant give *)
Definition SocketAddr_wf (a : SocketAddr) : Prop := sa_port a < 65536.

Definition peers_inv (l : list SocketAddr) : Prop :=
  StronglySorted (fun a b => sa_le a b = true /\ a <> b) l /\
  Forall (fun p => SocketAddr_wf p /\ peer_is_advertisable p = true) l.

Definition responder_inv (r : Responder) : Prop :=
  peers_inv (r_peers r) /\ (forall e, r_local r = Some e -> Endpoint_wf e).
End node.
