(* ===== verification/DiscoveryProps.v ===== *)
(** * DiscoveryProps: who gets answered, and what is learnt

    The responder's view stays a sorted set of dialable addresses whatever arrives; a
    view that fits is served and learnt; and anyone can fill the view so that no
    [FindNode] is answered until a refresh replaces it. *)
From stdpp Require Import base tactics numbers strings sorting sets list.
From Stdlib Require Import NArith Lia.
From Stdlib.Init Require Import Byte.
From S2P Require Import Prelude Bytes Crypto Codec ToyRlp Secp RlpUint Discovery DiscoveryNode.

(** ** Sorted sets of addresses *)
Lemma to_N_list_inj (l k : bytes) : Byte.to_N <$> l = Byte.to_N <$> k -> l = k.
Proof.
  revert k. induction l as [|x l IH]; intros [|y k]; cbn; try done. intros [= Hx Hl].
  f_equal; [|by apply IH]. by rewrite <-(byte_of_N_to_N x), <-(byte_of_N_to_N y), Hx.
Qed.

Lemma sa_key_inj a b : sa_key a = sa_key b -> a = b.
Proof.
  destruct a as [[o|o] p], b as [[o'|o'] p']; unfold sa_key; cbn [sa_ip sa_port app];
    intros Hk; try discriminate Hk; injection Hk as Hk;
    apply app_inj_tail in Hk as [Ho%to_N_list_inj ->]; apply arr_ext in Ho; by subst.
Qed.

Lemma sa_le_total a b : sa_le a b = true \/ sa_le b a = true.
Proof. apply lex_le_total. Qed.
Lemma sa_le_trans a b c : sa_le a b = true -> sa_le b c = true -> sa_le a c = true.
Proof. apply lex_le_trans. Qed.
Lemma sa_le_antisym a b : sa_le a b = true -> sa_le b a = true -> a = b.
Proof. intros H1 H2. apply sa_key_inj. by apply lex_le_antisym. Qed.

Abbreviation sa_lt := (fun a b => sa_le a b = true /\ a <> b).

Lemma set_insert_nil x : set_insert [] x = [x].
Proof. done. Qed.

Lemma set_insert_cons y l x :
  set_insert (y :: l) x =
    if sa_le x y then if bool_decide (x = y) then y :: l else x :: y :: l else y :: set_insert l x.
Proof.
  unfold set_insert, binary_search. cbn [lower_bound]. destruct (sa_le x y).
  - cbn [lookup list_lookup]. destruct (decide (x = y)) as [->|Hne].
    + by rewrite !bool_decide_eq_true_2.
    + rewrite !bool_decide_eq_false_2 by congruence. done.
  - cbn [lookup list_lookup]. by destruct (bool_decide (l !! lower_bound x l = Some x)).
Qed.

Lemma elem_of_set_insert l x y : y ∈ set_insert l x <-> y = x \/ y ∈ l.
Proof.
  induction l as [|z l IH]; [rewrite set_insert_nil; set_solver|]. rewrite set_insert_cons.
  destruct (sa_le x z); [case_bool_decide; set_solver|]. rewrite !elem_of_cons, IH. tauto.
Qed.

Lemma elem_of_set_inserts l k y : y ∈ foldl set_insert l k <-> y ∈ l \/ y ∈ k.
Proof.
  revert l. induction k as [|x k IH]; intros l; cbn [foldl]; [set_solver|].
  rewrite IH, elem_of_set_insert, elem_of_cons. tauto.
Qed.

Lemma elem_of_set_of l y : y ∈ set_of l <-> y ∈ l.
Proof. unfold set_of. rewrite elem_of_set_inserts. set_solver. Qed.

Lemma set_insert_sorted l x : StronglySorted sa_lt l -> StronglySorted sa_lt (set_insert l x).
Proof.
  induction 1 as [|y l Hs IH Hy]; [rewrite set_insert_nil; repeat constructor|].
  rewrite set_insert_cons. destruct (sa_le x y) eqn:Hle.
  - case_bool_decide as Hxy; [by constructor|]. constructor; [by constructor|].
    constructor; [done|]. rewrite Forall_forall in Hy |- *. intros z Hz. destruct (Hy z Hz) as [Hyz Hne].
    split; [by eapply sa_le_trans|]. intros <-. by destruct (sa_le_antisym _ _ Hle Hyz).
  - constructor; [done|]. rewrite Forall_forall in Hy |- *. intros z [->|Hz]%elem_of_set_insert; [|auto].
    destruct (sa_le_total x y) as [|Hyx]; [congruence|]. split; [done|]. intros ->. congruence.
Qed.

Lemma set_insert_all (P : SocketAddr -> Prop) l x : P x -> Forall P l -> Forall P (set_insert l x).
Proof.
  intros Hx Hl. rewrite Forall_forall in Hl |- *. intros y [->|Hy]%elem_of_set_insert; auto.
Qed.

Lemma sorted_NoDup l : StronglySorted sa_lt l -> NoDup l.
Proof.
  induction 1 as [|y l _ IH Hy]; constructor; [|done]. intros Hin.
  rewrite Forall_forall in Hy. by destruct (Hy y Hin).
Qed.

Lemma insert_shared_peer_spec l p :
  fst (insert_shared_peer l p) = if peer_is_advertisable p then set_insert l p else l.
Proof.
  unfold insert_shared_peer, set_insert. destruct (peer_is_advertisable p); [|done]. cbn [negb].
  by destruct (binary_search l p).
Qed.

Lemma insert_shared_peer_keeps l p q : q ∈ l -> q ∈ fst (insert_shared_peer l p).
Proof.
  intros Hq. rewrite insert_shared_peer_spec. destruct (peer_is_advertisable p); [|done].
  apply elem_of_set_insert. by right.
Qed.

Lemma insert_shared_peer_inv l p : SocketAddr_wf p -> peers_inv l -> peers_inv (fst (insert_shared_peer l p)).
Proof.
  intros Hp [Hs Ha]. rewrite insert_shared_peer_spec. destruct (peer_is_advertisable p) eqn:E; [|done].
  split; [by apply set_insert_sorted|by apply set_insert_all].
Qed.

Lemma set_of_inv l :
  Forall (fun p => SocketAddr_wf p /\ peer_is_advertisable p = true) l -> peers_inv (set_of l).
Proof.
  intros Hl. unfold set_of. assert (peers_inv []) as H0 by (split; constructor). revert H0.
  generalize ([] : list SocketAddr) as acc. induction Hl as [|p l Hp _ IH]; intros acc Hacc; [done|].
  cbn [foldl]. apply IH. destruct Hacc. split; [by apply set_insert_sorted|by apply set_insert_all].
Qed.

Lemma normalize_inv l : Forall SocketAddr_wf l -> peers_inv (normalize_peers l).
Proof.
  intros Hl. apply set_of_inv. rewrite Forall_forall in Hl. apply Forall_forall.
  intros p [Ha Hp]%list_elem_of_filter. split; [by apply Hl|done].
Qed.

Lemma elem_of_merge cached current p : p ∈ merge cached current <-> p ∈ cached \/ p ∈ current.
Proof.
  unfold merge. assert (Hgen : forall l out, p ∈ foldl merge_push out l <-> p ∈ out \/ p ∈ l).
  { induction l as [|x l IH]; intros out; cbn [foldl]; [set_solver|]. rewrite IH.
    unfold merge_push. case_bool_decide; set_solver. }
  rewrite Hgen. set_solver.
Qed.

Lemma advertisable_Some p q : advertisable p = Some q <-> q = p /\ peer_is_advertisable p = true.
Proof. unfold advertisable. destruct (peer_is_advertisable p); naive_solver. Qed.

(** ** One datagram *)
Section node.
Context `{Primitives} `{R : Rlp} `{U : RlpUint} `{K : K256}
  `{!RlpLaws R} `{!RlpSafe R} `{!RlpUintLaws R U} `{!K256Laws K}.

Lemma decode_from_wf buf e rest : decode_from buf = Ok (e, rest) -> Endpoint_wf e.
Proof.
  unfold decode_from. intros Hd. apply bind_Ok in Hd as ([[l n] b] & _ & Hd). inv_ok.
  repeat match goal with H : (let '(_, _) := ?x in _) = Ok _ |- _ => destruct x; inv_ok end.
  simplify_eq. split; cbn [udp_port tcp_port]; by eapply rlp_u16_bound.
Qed.

Lemma recv_ping_wf data d v from to x :
  recv data = Ok d -> packet d = PktPing v from to x -> Endpoint_wf from.
Proof.
  intros (ty & a & s & _ & _ & _ & _ & _ & Hd)%decode_packet_authentic Hp. rewrite Hp in Hd.
  unfold decode_data in Hd. revert Hd. destruct (list_header _ _ _) as [[n b]| |]; cbn [mbind res_bind]; [|done..].
  repeat case_bool_decide; try done; intros Hd;
    repeat match goal with
    | H : _ ≫= _ = Ok _ |- _ =>
        apply bind_Ok in H as ([? ?] & ?%map_err_Ok & H) || apply bind_Ok in H as ([? ?] & ? & H)
    end; try done.
  injection Hd as -> -> -> ->. by eapply decode_from_wf.
Qed.

Lemma send_total sk dst p : exists out, send sk dst p = Ok out.
Proof.
  unfold send. destruct (encode_packet_spec sk p) as (s & _ & _ & ->). cbv zeta.
  destruct (_ <=? _); eauto.
Qed.

(** What stays true of a responder: its identity, and every peer it knows. *)
Definition grows (r r' : Responder) : Prop :=
  r_secret r' = r_secret r /\ r_local r' = r_local r /\ (forall p, p ∈ r_peers r -> p ∈ r_peers r').

#[global] Instance grows_preorder : PreOrder grows.
Proof.
  split; [done|]. intros r1 r2 r3 (Hs & Hl & Hp) (Hs' & Hl' & Hp').
  split_and!; [congruence..|]. intros p Hin. by apply Hp', Hp.
Qed.

Lemma respond_total r now src data : responder_inv r ->
  exists r' out, respond r now src data = Ok (r', out) /\ responder_inv r' /\ grows r r'.
Proof.
  intros Hinv. unfold respond. destruct (recv data) as [d| |] eqn:Hd.
  2:{ exists r, []. done. } 2:{ by apply decode_packet_safe in Hd. }
  destruct (packet d) as [v f t x|t h x|h x|nodes x] eqn:Hp; [| |destruct (send_total (r_secret r) src
    (PktNeighbours (served_nodes (r_local r) (r_peers r)) (expiration_in now 60))) as [out ->]|].
  2-4: eexists _, _; by split.
  set (r' := match endpoint_to_peer f with Some p => _ | None => _ end).
  destruct (send_total (r_secret r') src (pong now src f d)) as [out ->].
  exists r', out. split; [done|]. subst r'. destruct Hinv as [Hi Hl].
  destruct (endpoint_to_peer f) as [p|] eqn:Hf; [|done]. apply advertisable_Some in Hf as [-> Ha].
  pose proof (recv_ping_wf _ _ _ _ _ _ Hd Hp) as [_ Hport].
  split; [split|split_and!]; cbn [with_peers r_secret r_local r_peers]; try done.
  - by apply insert_shared_peer_inv.
  - intros q. apply insert_shared_peer_keeps.
Qed.

(** A refresh that finds no peer to dial leaves the view and the peers to dial. *)
Definition idle (ev : view_event) : Prop :=
  match ev with Arrived _ _ _ => True | Refreshed d => bft_peers d = [] end.

(** What stays true of the shared state: it is served, it loses no address of the view, and
    the peers to dial are the same. *)
Definition view_grows (s s' : Refresh) : Prop :=
  (forall p, p ∈ peer_view s -> p ∈ peer_view s') /\ known_bft_peers s' = known_bft_peers s.

#[global] Instance view_grows_preorder : PreOrder view_grows.
Proof. split; [done|]. intros s1 s2 s3 [H1 E1] [H2 E2]. split; [auto|congruence]. Qed.

Definition served (r : Responder) (s : Refresh) : Prop := responder_inv (with_peers r (peer_view s)).

Lemma serve_step_idle r listen adv s ev : served r s -> idle ev ->
  exists s' out, serve_step r listen adv s ev = Ok (s', out) /\ served r s' /\ view_grows s s'.
Proof.
  intros Hs Hev. destruct ev as [now src data|d]; cbn [serve_step idle] in *.
  - destruct (respond_total _ now src data Hs) as (r1 & out & -> & Hr1 & _ & Hl & Hg). cbn [mbind res_bind].
    eexists _, _. split; [reflexivity|]. split; [|by split].
    destruct Hr1 as [Hp He]. split; [exact Hp|]. cbn [with_peers r_local] in *. by rewrite <-Hl.
  - eexists _, _. split; [reflexivity|]. unfold refresh_step. by rewrite bool_decide_eq_true_2.
Qed.

Lemma serve_idle r listen adv evs : forall s, served r s -> Forall idle evs ->
  exists s' out, serve r listen adv s evs = Ok (s', out) /\ served r s' /\ view_grows s s'.
Proof.
  induction evs as [|ev evs IH]; intros s Hs Hevs; cbn [serve]; [by exists s, []|].
  apply Forall_cons in Hevs as [Hev Hevs].
  destruct (serve_step_idle r listen adv s ev Hs Hev) as (s1 & o1 & -> & Hs1 & Hg1). cbn [mbind res_bind].
  destruct (IH s1 Hs1 Hevs) as (s2 & o2 & -> & Hs2 & Hg2). cbn [mbind res_bind].
  eexists _, _. split_and!; [done..|]. by etrans.
Qed.

(** Ports are 16-bit words, whatever a refresh has found. *)
Definition event_wf (ev : view_event) : Prop :=
  match ev with Arrived _ _ _ => True | Refreshed d => Forall SocketAddr_wf (bft_peers d) end.

(** Whatever arrives and whatever is found, the responder goes on, and the view stays a
    sorted set of dialable addresses. *)
Theorem serve_keeps r listen adv evs : forall s,
  served r s -> Forall SocketAddr_wf (known_bft_peers s) -> Forall event_wf evs ->
  exists s' out, serve r listen adv s evs = Ok (s', out) /\ served r s' /\ Forall SocketAddr_wf (known_bft_peers s').
Proof.
  induction evs as [|ev evs IH]; intros s Hs Hk Hevs; cbn [serve]; [by exists s, []|].
  apply Forall_cons in Hevs as [Hev Hevs].
  assert (exists s1 o1, serve_step r listen adv s ev = Ok (s1, o1) /\ served r s1 /\
    Forall SocketAddr_wf (known_bft_peers s1)) as (s1 & o1 & -> & Hs1 & Hk1).
  { destruct ev as [now src data|d]; cbn [event_wf] in Hev.
    - destruct (serve_step_idle r listen adv s (Arrived now src data) Hs I) as (s1 & o1 & Hstep & Hs1 & [_ E]).
      exists s1, o1. by rewrite E.
    - eexists _, _. split; [reflexivity|]. unfold refresh_step. case_bool_decide; [done|].
      assert (Forall SocketAddr_wf (merge (known_bft_peers s) (bft_peers d))) as Hm.
      { rewrite Forall_forall in Hk, Hev. apply Forall_forall. intros p [?|?]%elem_of_merge; auto. }
      split; [|done]. destruct Hs as [_ Hl]. split; [by apply normalize_inv|exact Hl]. }
  cbn [mbind res_bind]. destruct (IH s1 Hs1 Hk1 Hevs) as (s2 & o2 & -> & Hs2). cbn [mbind res_bind]. by eexists _, _.
Qed.

(** ** Sending and receiving *)
Lemma encode_packet_len sk p w : encode_packet sk p = Ok w -> len w <= MAX_DISCOVERY_PACKET.
Proof.
  destruct (encode_packet_spec sk p) as (s & _ & _ & ->). cbv zeta.
  match goal with |- (if len ?o <=? _ then _ else _) = _ -> _ => generalize o; intros o' end.
  destruct (N.leb_spec (len o') MAX_DISCOVERY_PACKET); by intros [= <-].
Qed.

Lemma recv_encode sk p w : Packet_wf p -> encode_packet sk p = Ok w ->
  exists h, recv w = Ok (mkDecodedPacket p (ec_verifying_key sk) (secp.address (ec_verifying_key sk)) h).
Proof.
  intros Hwf Hw. unfold recv. pose proof (encode_packet_len _ _ _ Hw).
  rewrite take_ge by (unfold len in *; lia). eexists. by apply decode_encode_packet.
Qed.

Lemma ping_fits sk v f t x : Packet_wf (PktPing v f t x) -> exists w, encode_packet sk (PktPing v f t x) = Ok w.
Proof.
  intros (Hv & Hf & Ht & Hx). destruct (encode_packet_spec sk (PktPing v f t x)) as (s & _ & Hl & ->).
  cbv zeta in Hl |- *. rewrite Hl. cbn [encode_data]. rewrite !len_app, rlp_header_len, !len_encode_to.
  pose proof (endpoint_length_bounds f Hf). pose proof (endpoint_length_bounds t Ht).
  pose proof (rlp_u32_len v Hv). pose proof (rlp_u64_len x Hx).
  match goal with |- context [rlp_length_of_length ?n + _] => pose proof (rlp_length_of_length_le n) end.
  rewrite (proj2 (N.leb_le _ _)) by (unfold MAX_DISCOVERY_PACKET; lia). eauto.
Qed.

Lemma find_node_fits sk h x : x < u64_mod -> exists w, encode_packet sk (PktFindNode h x) = Ok w.
Proof.
  intros Hx. destruct (encode_packet_spec sk (PktFindNode h x)) as (s & _ & Hl & ->).
  cbv zeta in Hl |- *. rewrite Hl. cbn [encode_data]. rewrite !len_app, rlp_header_len.
  pose proof (rlp_u64_len x Hx). pose proof (length_encode_array h ltac:(done)).
  match goal with |- context [rlp_length_of_length ?n + _] => pose proof (rlp_length_of_length_le n) end.
  rewrite (proj2 (N.leb_le _ _)) by (unfold MAX_DISCOVERY_PACKET; lia). eauto.
Qed.

Lemma expiration_in_wf now secs : expiration_in now secs < u64_mod.
Proof. unfold expiration_in, wrapping_add. by apply N.mod_lt. Qed.

(** ** What a [FindNode] gets *)
Lemma served_nodes_spec local peers :
  Forall (fun p => SocketAddr_wf p /\ peer_is_advertisable p = true) peers ->
  (forall e, local = Some e -> Endpoint_wf e) ->
  served_nodes local peers = option_list local ++ (peer_to_endpoint <$> peers) /\
  Forall Endpoint_wf (served_nodes local peers) /\
  len peers <= len (served_nodes local peers) <= 1 + len peers.
Proof.
  intros Hp Hl. assert (served_nodes local peers = option_list local ++ (peer_to_endpoint <$> peers)) as E.
  { unfold served_nodes. rewrite filter_all; [done|]. eapply Forall_impl; [exact Hp|]. by intros p []. }
  rewrite E. split_and!; [done| |rewrite len_app; unfold len; rewrite length_fmap; lia|].
  - apply Forall_app. split.
    + destruct local as [e|]; cbn; [|constructor]. constructor; [by apply Hl|constructor].
    + apply Forall_fmap. eapply Forall_impl; [exact Hp|]. intros p [Hwf _]. by split.
  - rewrite len_app. unfold len. rewrite length_fmap. destruct local; cbn; lia.
Qed.

Lemma find_node_answered r now src data d h x :
  responder_inv r -> len (r_peers r) <= 47 -> recv data = Ok d -> packet d = PktFindNode h x ->
  exists w hash, respond r now src data = Ok (r, [(src, w)]) /\
  recv w = Ok (mkDecodedPacket
    (PktNeighbours (option_list (r_local r) ++ (peer_to_endpoint <$> r_peers r)) (expiration_in now 60))
    (ec_verifying_key (r_secret r)) (secp.address (ec_verifying_key (r_secret r))) hash).
Proof.
  intros [[_ Hp] Hl] Hlen Hd Hpk. destruct (served_nodes_spec _ _ Hp Hl) as (E & Hwf & Hle).
  destruct (neighbours_fit (r_secret r) _ (expiration_in now 60) Hwf (expiration_in_wf _ _) ltac:(lia)) as [w Hw].
  destruct (recv_encode (r_secret r) (PktNeighbours (served_nodes (r_local r) (r_peers r)) (expiration_in now 60)) w
    (conj Hwf (expiration_in_wf now 60)) Hw) as [hash Hr].
  exists w, hash. split; [|by rewrite <-E].
  unfold respond, send. rewrite Hd, Hpk, Hw. done.
Qed.

Lemma find_node_ignored r now src data d h x :
  responder_inv r -> 148 <= len (r_peers r) -> recv data = Ok d -> packet d = PktFindNode h x ->
  respond r now src data = Ok (r, []).
Proof.
  intros [[_ Hp] Hl] Hlen Hd Hpk. destruct (served_nodes_spec _ _ Hp Hl) as (E & Hwf & Hle).
  destruct (neighbours_overflow (r_secret r) _ (expiration_in now 60) Hwf (expiration_in_wf _ _) ltac:(lia)) as [n Hw].
  unfold respond, send. by rewrite Hd, Hpk, Hw.
Qed.

(** A [Ping] puts the address it claims into the view. *)
Lemma ping_inserted r now src data d v f t x p :
  responder_inv r -> recv data = Ok d -> packet d = PktPing v f t x -> endpoint_to_peer f = Some p ->
  exists r' out, respond r now src data = Ok (r', out) /\ p ∈ r_peers r' /\ responder_inv r' /\ grows r r'.
Proof.
  intros Hr Hd Hpk Hf. destruct (respond_total r now src data Hr) as (r' & out & Hres & Hr' & Hg).
  exists r', out. split_and!; try done. unfold respond in Hres. rewrite Hd, Hpk, Hf in Hres.
  destruct (send_total (r_secret (with_peers r (fst (insert_shared_peer (r_peers r) p)))) src (pong now src f d))
    as [o Ho]. rewrite Ho in Hres. injection Hres as <- <-. cbn [with_peers r_peers].
  rewrite insert_shared_peer_spec. apply advertisable_Some in Hf as [-> ->].
  apply elem_of_set_insert. by left.
Qed.

(** ** Filling the view *)

(** The address that the [i]-th ping of the attack claims. *)
Definition claimed (i : nat) : Endpoint := mkEndpoint (IpV4 (be_array 4 (1 + N.of_nat i))) 1 1.
Definition claimed_peer (i : nat) : SocketAddr := mkSocketAddr (IpV4 (be_array 4 (1 + N.of_nat i))) 1.
Definition attack_ping (i : nat) : Packet := PktPing DISCOVERY_VERSION (claimed i) (claimed i) 0.

Lemma claimed_peer_spec i : (i < 148)%nat -> endpoint_to_peer (claimed i) = Some (claimed_peer i).
Proof.
  intros Hi. apply advertisable_Some. split; [done|]. unfold peer_is_advertisable, claimed.
  cbn [sa_ip sa_port ip tcp_port]. apply andb_true_iff. split; [|done].
  apply negb_true_iff, bool_decide_eq_false. intros Hz%(f_equal arr_bytes).
  cbn [arr_bytes be_array zero_array] in Hz. apply be_bytes_inj in Hz; lia.
Qed.

Lemma claimed_peer_inj i j : (i < 148)%nat -> (j < 148)%nat -> claimed_peer i = claimed_peer j -> i = j.
Proof.
  intros Hi Hj Hb%(f_equal (fun p => be_value (encode_ip_bytes (sa_ip p)))). revert Hb.
  unfold claimed_peer. cbn [sa_ip encode_ip_bytes arr_bytes be_array].
  rewrite !be_value_small by (cbn; lia). lia.
Qed.

Lemma attack_ping_wf i : Packet_wf (attack_ping i).
Proof. by repeat split. Qed.

(** A ping of the attack that arrives puts its address into the view, for as long as the
    refreshes find nothing. *)
Lemma attack_ping_stays sk r listen adv i w now src evs : forall s,
  (i < 148)%nat -> encode_packet sk (attack_ping i) = Ok w -> served r s -> Forall idle evs ->
  Arrived now src w ∈ evs ->
  exists s' out, serve r listen adv s evs = Ok (s', out) /\ claimed_peer i ∈ peer_view s'.
Proof.
  intros s Hi Hw Hs Hevs (evs1 & evs2 & ->)%list_elem_of_split. revert s Hs Hevs.
  destruct (recv_encode _ _ _ (attack_ping_wf i) Hw) as [h Hd].
  induction evs1 as [|ev evs1 IH]; intros s Hs Hevs; cbn [app serve] in *; apply Forall_cons in Hevs as [Hev Hevs].
  - cbn [serve_step]. destruct (ping_inserted _ now src w _ _ _ _ _ _ Hs Hd eq_refl (claimed_peer_spec i Hi))
      as (r1 & o1 & -> & Hin & Hinv & _ & Hl & _). cbn [mbind res_bind mret res_ret].
    destruct (serve_idle r listen adv evs2 (with_view s (r_peers r1))) as (s2 & o2 & -> & _ & [Hg _]); [|done|].
    { destruct Hinv as [Hp He]. split; [exact Hp|]. cbn [with_peers r_local] in *. by rewrite <-Hl. }
    eexists _, _. split; [reflexivity|]. by apply Hg.
  - destruct (serve_step_idle r listen adv s ev Hs Hev) as (s1 & o1 & -> & Hs1 & _). cbn [mbind res_bind].
    destruct (IH s1 Hs1 Hevs) as (s2 & o2 & -> & Hin). by eexists _, _.
Qed.

Lemma filled_view l : (forall i, (i < 148)%nat -> claimed_peer i ∈ l) -> 148 <= len l.
Proof.
  intros Hall. assert (Hnd : NoDup (claimed_peer <$> seq 0 148)).
  { apply NoDup_fmap_2_strong; [|apply NoDup_seq]. intros i j Hi%elem_of_seq Hj%elem_of_seq.
    apply claimed_peer_inj; lia. }
  assert (Hsub : claimed_peer <$> seq 0 148 ⊆ l).
  { intros p (i & -> & Hi%elem_of_seq)%list_elem_of_fmap. apply Hall. lia. }
  pose proof (submseteq_length _ _ (NoDup_submseteq _ _ Hnd Hsub)) as Hle.
  rewrite length_fmap, length_seq in Hle. unfold len. lia.
Qed.

Lemma attack_exists sk k n :
  exists ws, length ws = n /\ Forall2 (fun i w => encode_packet sk (attack_ping i) = Ok w) (seq k n) ws.
Proof.
  revert k. induction n as [|n IH]; intros k; [by exists []|]. destruct (IH (S k)) as (ws & Hl & Hws).
  destruct (ping_fits sk DISCOVERY_VERSION (claimed k) (claimed k) 0 (attack_ping_wf k)) as [w Hw].
  exists (w :: ws). cbn. split; [congruence|]. by constructor.
Qed.

(** ** What a query learns *)
Lemma endpoint_to_peer_of p : endpoint_to_peer (peer_to_endpoint p) = advertisable p.
Proof. by destruct p. Qed.

Lemma served_are_learnt local peers p :
  Forall (fun p => SocketAddr_wf p /\ peer_is_advertisable p = true) peers -> p ∈ peers ->
  p ∈ endpoints_to_peers (option_list local ++ (peer_to_endpoint <$> peers)).
Proof.
  intros Hall Hp. apply elem_of_set_of, list_elem_of_omap. exists (peer_to_endpoint p). split.
  - apply elem_of_app. right. by apply list_elem_of_fmap_2.
  - rewrite endpoint_to_peer_of. rewrite Forall_forall in Hall. apply advertisable_Some.
    split; [done|]. by apply Hall.
Qed.

Lemma merge_NoDup cached current : NoDup (merge cached current).
Proof.
  unfold merge. assert (Hgen : forall l out, NoDup out -> NoDup (foldl merge_push out l)).
  { induction l as [|x l IH]; intros out Hout; cbn [foldl]; [done|]. apply IH.
    unfold merge_push. case_bool_decide; [done|]. apply NoDup_app. split_and!; [done| |apply NoDup_singleton].
    set_solver. }
  apply Hgen. constructor.
Qed.

(** After a refresh the node dials what it dialled before and what the query found. *)
Lemma refresh_step_bft listen adv s d p :
  p ∈ known_bft_peers (refresh_step listen adv s d) <-> p ∈ known_bft_peers s \/ p ∈ bft_peers d.
Proof.
  unfold refresh_step. case_bool_decide as Hd; cbn [known_bft_peers]; [rewrite Hd; set_solver|].
  apply elem_of_merge.
Qed.

Lemma ask_sends_find_node sk local target now seed :
  Endpoint_wf local -> SocketAddr_wf seed ->
  exists ping w h, ask sk local target now seed = Ok [(seed, ping); (seed, w)] /\
  recv w = Ok (mkDecodedPacket (PktFindNode target (expiration_in now 60)) (ec_verifying_key sk)
                (secp.address (ec_verifying_key sk)) h).
Proof.
  intros Hl Hs. pose proof (expiration_in_wf now 60) as Hx.
  destruct (ping_fits sk DISCOVERY_VERSION local (mkEndpoint (sa_ip seed) (sa_port seed) 0)
    (expiration_in now 60)) as [ping Hping]; [by repeat split; destruct Hl|].
  destruct (find_node_fits sk target (expiration_in now 60) Hx) as [w Hw].
  destruct (recv_encode sk (PktFindNode target (expiration_in now 60)) w Hx Hw) as [h Hr].
  exists ping, w, h. split; [|done]. unfold ask, send. by rewrite Hping, Hw.
Qed.

End node.

Section properties.
Context `{Primitives} `{R : Rlp} `{U : RlpUint} `{K : K256}
  `{!RlpLaws R} `{!RlpSafe R} `{!RlpUintLaws R U} `{!K256Laws K}.

(** A signed discovery packet that was sent (at most 1280 bytes) is accepted by every
    receiver, with the same body and the sender's public key and address. *)
Theorem discovery_packet_roundtrip sk p w :
  Packet_wf p -> encode_packet sk p = Ok w ->
  len w <= MAX_DISCOVERY_PACKET /\
  exists h, recv w = Ok (mkDecodedPacket p (ec_verifying_key sk) (secp.address (ec_verifying_key sk)) h).
Proof. intros Hwf Hw. split; [by eapply encode_packet_len|by apply recv_encode]. Qed.

(** C30. With any key, 148 pings that claim made-up addresses silence a responder until a
    refresh finds a peer to dial.  The view it starts with is a sorted set of dialable
    addresses, as it always is ([serve_keeps]).  Once all of them have arrived, in any order, from
    wherever and whenever, among any other datagrams and any refreshes that find no such
    peer, no [FindNode] is answered, because the answer no longer fits a packet.  The
    view is shared with the refresh loop (every 60 seconds by default): the first refresh
    that finds peers to dial replaces the view with those and the ones known before the
    attack, which no ping adds to, and drops every other made-up address. *)
Theorem flooded_responder_silent sk :
  exists attack : list bytes,
  len attack = 148 /\ Forall (fun w => exists i, encode_packet sk (attack_ping i) = Ok w) attack /\
  forall r listen adv s evs, served r s -> Forall idle evs ->
  (forall w, w ∈ attack -> exists now src, Arrived now src w ∈ evs) ->
  exists s' out, serve r listen adv s evs = Ok (s', out) /\
  (forall now src data d target expiration,
    recv data = Ok d -> packet d = PktFindNode target expiration ->
    serve_step r listen adv s' (Arrived now src data) = Ok (s', [])) /\
  (forall d, bft_peers d <> [] ->
    peer_view (refresh_step listen adv s' d) = normalize_peers (merge (known_bft_peers s) (bft_peers d))).
Proof.
  destruct (attack_exists sk 0 148) as (ws & Hlen & Hws). exists ws. split; [unfold len; by rewrite Hlen|]. split.
  { rewrite Forall_forall. intros w (k & Hk)%list_elem_of_lookup.
    destruct (Forall2_lookup_r _ _ _ _ _ Hws Hk) as (i & _ & Hi). by exists i. }
  intros r listen adv s evs Hs Hevs Hall.
  destruct (serve_idle r listen adv evs s Hs Hevs) as (s' & out & Hserve & Hs' & [_ Hk]).
  exists s', out. split; [done|]. split.
  - intros now src data d target expiration Hd Hpk. cbn [serve_step].
    rewrite (find_node_ignored _ now src data d target expiration Hs'); [by destruct s'| |done|done].
    apply filled_view. intros i Hi. destruct (lookup_lt_is_Some_2 ws i ltac:(lia)) as [w Hw].
    destruct (Forall2_lookup_r _ _ _ _ _ Hws Hw) as (j & Hj & Henc). apply lookup_seq in Hj as [-> _].
    destruct (Hall w) as (t & from & Hin); [by eapply list_elem_of_lookup_2|].
    destruct (attack_ping_stays sk r listen adv i w t from evs s Hi Henc Hs Hevs Hin) as (s2 & o2 & Hserve2 & Hc).
    rewrite Hserve in Hserve2. by injection Hserve2 as <- _.
  - intros d Hd. unfold refresh_step. rewrite bool_decide_eq_false_2 by done. cbn [peer_view]. by rewrite Hk.
Qed.

(** A query of one seed learns what the seed knows: the seed answers the query's
    [FindNode] with one packet, and when that packet comes back every peer of the seed is
    among the peers found, and among those the node dials after the refresh. *)
Theorem query_learns_peers r sk bound target seed listen adv known now t t' state adv_bft :
  responder_inv r -> len (r_peers r) <= 47 ->
  SocketAddr_wf seed -> Endpoint_wf (advertised_endpoint bound listen adv) ->
  exists ping find answer u,
    ask sk (advertised_endpoint bound listen adv) target now seed = Ok [(seed, ping); (seed, find)] /\
    respond r t bound find = Ok (r, [(bound, answer)]) /\
    discover_once_full bound target sk [seed] listen adv known now [(t', (seed, answer))] =
      Ok (u, [(seed, ping); (seed, find)]) /\
    forall p, p ∈ r_peers r ->
      p ∈ bft_peers u /\ p ∈ known_bft_peers (refresh_step listen adv_bft state u).
Proof.
  intros Hr Hlen Hs Hl.
  destruct (ask_sends_find_node sk (advertised_endpoint bound listen adv) target now seed Hl Hs)
    as (ping & w & h & Hask & Hw).
  destruct (find_node_answered r t bound w _ target _ Hr Hlen Hw eq_refl) as (answer & hash & Hans & Hrecv).
  exists ping, w, answer. eexists. split; [done|]. split; [done|]. split.
  - unfold discover_once_full. rewrite bool_decide_eq_false_2 by done. cbv zeta. cbn [ask_all].
    rewrite Hask. cbn [mbind res_bind mret res_ret app query_all]. unfold query_step. rewrite Hrecv.
    cbn [packet mbind res_bind mret res_ret app]. reflexivity.
  - intros p Hp. rewrite refresh_step_bft. cbn [bft_peers no_query found_bft].
    assert (p ∈ foldl set_insert [] (endpoints_to_peers
      (option_list (r_local r) ++ (peer_to_endpoint <$> r_peers r)))) as Hin.
    { apply elem_of_set_inserts. right. apply served_are_learnt; [|done]. apply Hr. }
    split; [done|by right].
Qed.
End properties.

(** ** Instances: a seed that knows two peers *)
Module DiscoveryDemo.
Import Toy ToyRlp ToySecp ToyUint.

Definition key (i : N) : ec_sk := be_array 32 i.
Definition addr (a b c d port : N) : SocketAddr :=
  mkSocketAddr (IpV4 (be_array 4 (((a * 256 + b) * 256 + c) * 256 + d))) port.

Definition seed : SocketAddr := addr 8 211 135 234 30310.
Definition bound : SocketAddr := addr 127 0 0 1 30310.
Definition listen : SocketAddr := addr 0 0 0 0 30311.
Definition adv : DiscoveryAdvertisement := mkAdvertisement None None.
Definition target : H256 := zero_array 32.
Definition peers : list SocketAddr := set_of [addr 106 14 223 128 30311; addr 8 211 135 234 30311].

Definition responder : Responder := spawn_responder seed (key 7) (addr 8 211 135 234 30311) adv peers.

Definition ping : Packet :=
  PktPing DISCOVERY_VERSION (advertised_endpoint bound listen adv)
    (mkEndpoint (sa_ip seed) (sa_port seed) 0) 1700000060.

Definition ping_wire : bytes := res_or [] (encode_packet (key 9) ping).

(** The sort puts the lower address first. *)
Example peers_sorted : peers = [addr 8 211 135 234 30311; addr 106 14 223 128 30311].
Proof. vm_compute. reflexivity. Qed.

Lemma responder_ok : responder_inv responder.
Proof.
  assert (Hp : r_peers responder = [addr 8 211 135 234 30311; addr 106 14 223 128 30311])
    by (vm_compute; reflexivity).
  split; [rewrite Hp; split|].
  - repeat constructor. intros Heq%(f_equal sa_key). vm_compute in Heq. discriminate.
  - repeat constructor; vm_compute; reflexivity.
  - intros e He. assert (Hb : udp_port e <? 65536 = true /\ tcp_port e <? 65536 = true).
    { destruct (r_local responder) as [e'|] eqn:E; [|done]. injection He as ->.
      assert (E' : (fun e => (udp_port e <? 65536) && (tcp_port e <? 65536)) <$> r_local responder = Some true)
        by (vm_compute; reflexivity).
      rewrite E in E'. injection E' as E'. by apply andb_true_iff in E'. }
    destruct Hb as [Hu%N.ltb_lt Ht%N.ltb_lt]. by split.
Qed.
End DiscoveryDemo.

Import DiscoveryDemo Toy ToyRlp ToySecp ToyUint.

Lemma discovery_packet_roundtrip_witness :
  len ping_wire <= MAX_DISCOVERY_PACKET /\
  exists h, recv ping_wire =
    Ok (mkDecodedPacket ping (ec_verifying_key (key 9)) (secp.address (ec_verifying_key (key 9))) h).
Proof.
  apply (discovery_packet_roundtrip (key 9) ping ping_wire).
  - repeat split; vm_compute; reflexivity.
  - unfold ping_wire. apply is_ok_res_or. vm_compute. reflexivity.
Defined.

(** The attack with a refresh that finds nothing in its middle. *)
Definition flooded_state : Refresh := mkRefresh [seed] [] adv (r_peers responder).
Definition flood (attack : list bytes) : list view_event :=
  Refreshed (mkUpdate [] [seed] None) :: ((fun w => Arrived 1700000000 bound w) <$> attack).

Lemma flooded_responder_silent_witness :
  exists attack : list bytes, len attack = 148 /\
  exists s' out, serve responder listen true flooded_state (flood attack) = Ok (s', out) /\
  (forall now src data d target expiration,
    recv data = Ok d -> packet d = PktFindNode target expiration ->
    serve_step responder listen true s' (Arrived now src data) = Ok (s', [])) /\
  peer_view (refresh_step listen true s' (mkUpdate [bound] [] None)) = normalize_peers [bound].
Proof.
  destruct (flooded_responder_silent (key 9)) as (attack & Hlen & _ & Hall).
  exists attack. split; [exact Hlen|].
  destruct (Hall responder listen true flooded_state (flood attack)) as (s' & out & Hserve & Hsilent & Hrefresh).
  - exact responder_ok.
  - apply Forall_cons. split; [reflexivity|]. apply Forall_fmap, Forall_true. intros w. exact I.
  - intros w Hw. exists 1700000000, bound. apply elem_of_cons. right. apply list_elem_of_fmap. exists w. split; [reflexivity|exact Hw].
  - exists s', out. split; [exact Hserve|]. split; [exact Hsilent|].
    exact (Hrefresh (mkUpdate [bound] [] None) ltac:(discriminate)).
Defined.

Lemma query_learns_peers_witness :
  exists ping find answer u,
    ask (key 9) (advertised_endpoint bound listen adv) target 1700000000 seed =
      Ok [(seed, ping); (seed, find)] /\
    respond responder 1700000001 bound find = Ok (responder, [(bound, answer)]) /\
    discover_once_full bound target (key 9) [seed] listen adv [] 1700000000
      [(1700000002, (seed, answer))] = Ok (u, [(seed, ping); (seed, find)]) /\
    forall p, p ∈ r_peers responder ->
      p ∈ bft_peers u /\
      p ∈ known_bft_peers (refresh_step listen true (mkRefresh [seed] [] adv []) u).
Proof.
  apply (query_learns_peers responder (key 9) bound target seed listen adv [] 1700000000 1700000001
    1700000002 (mkRefresh [seed] [] adv []) true responder_ok).
  - vm_compute. discriminate.
  - vm_compute. reflexivity.
  - split; vm_compute; reflexivity.
Defined.
