(* ===== verification/Transport.v ===== *)
(** * Transport: the relaying transport of the consensus payloads

    Models [GossipDedup], [TcpBftTransport] and the readers and writers of
    [src/crates/aii-node/src/bft_p2p.rs]: a ring of the hashes seen, the inbox, and what is
    fanned out to the connected peers.  A network is a set of transports and the frames in
    flight between them, delivered in any order: [deliver] is its step.  The channel to the
    writers holds 1024 payloads in the source, and a writer that lags behind loses some;
    here it is unbounded, and links do not fail. *)
From stdpp Require Import base tactics gmap numbers strings sets list.
From Stdlib Require Import NArith Lia.
From Stdlib.Init Require Import Byte.
From S2P Require Import Prelude Bytes Crypto Codec RlpUint P2p.

Definition GOSSIP_DEDUP_CAPACITY : N := 4096.

(** ** The ring of hashes *)
Record GossipDedup := mkDedup { seen : gset H256; queue : list H256 }.

#[export] Instance GossipDedup_eq_dec : EqDecision GossipDedup.
Proof. solve_decision. Defined.

Definition GossipDedup_new : GossipDedup := mkDedup ∅ [].

Definition observe (d : GossipDedup) (h : H256) : GossipDedup * bool :=
  if bool_decide (h ∈ seen d) then (d, false)
  else
    let set := {[ h ]} ∪ seen d in
    if GOSSIP_DEDUP_CAPACITY <=? len (queue d) then
      match queue d with
      | old :: rest => (mkDedup (set ∖ {[ old ]}) (rest ++ [h]), true)
      | [] => (mkDedup set [h], true)
      end
    else (mkDedup set (queue d ++ [h]), true).

Fixpoint observe_all (d : GossipDedup) (l : list H256) : GossipDedup :=
  match l with [] => d | h :: l => observe_all (fst (observe d h)) l end.

(** The set is the ring, which has no duplicates and a bound. *)
Definition dedup_inv (d : GossipDedup) : Prop :=
  NoDup (queue d) /\ (forall h, h ∈ seen d <-> h ∈ queue d) /\ len (queue d) <= GOSSIP_DEDUP_CAPACITY.

Lemma dedup_new_inv : dedup_inv GossipDedup_new.
Proof. split_and!; [constructor|set_solver|done]. Qed.

(** What [observe] does to the ring: at most the oldest hash goes. *)
Lemma observe_queue d h : dedup_inv d -> h ∉ seen d ->
  snd (observe d h) = true /\
  exists gone, queue d = gone ++ drop (length gone) (queue d) /\
    queue (fst (observe d h)) = drop (length gone) (queue d) ++ [h] /\
    (gone = [] \/ len gone = 1 /\ len (queue d) = GOSSIP_DEDUP_CAPACITY).
Proof.
  intros (_ & _ & Hcap) Hh. unfold observe. rewrite bool_decide_eq_false_2 by done.
  destruct (N.leb_spec GOSSIP_DEDUP_CAPACITY (len (queue d))).
  - destruct (queue d) as [|old rest] eqn:Hq; [done|]. split; [done|]. exists [old]. cbn. rewrite drop_0.
    split_and!; try done. right. split; [done|]. lia.
  - split; [done|]. exists []. cbn. rewrite drop_0. by auto.
Qed.

Lemma observe_inv d h : dedup_inv d -> dedup_inv (fst (observe d h)).
Proof.
  intros (Hnd & Hset & Hcap). unfold observe. case_bool_decide as Hh; [done|].
  assert (Hq : h ∉ queue d) by (by rewrite <-Hset).
  destruct (N.leb_spec GOSSIP_DEDUP_CAPACITY (len (queue d))).
  - destruct (queue d) as [|old rest] eqn:E; [done|]. apply NoDup_cons in Hnd as [Hold Hnd].
    split_and!; cbn [fst seen queue].
    + apply NoDup_app. split_and!; [done|set_solver|apply NoDup_singleton].
    + intros x. specialize (Hset x). set_solver.
    + rewrite len_app. unfold len in *. cbn in *. lia.
  - split_and!; cbn [fst seen queue].
    + apply NoDup_app. split_and!; [done|set_solver|apply NoDup_singleton].
    + intros x. specialize (Hset x). set_solver.
    + rewrite len_app. unfold len in *. cbn in *. unfold GOSSIP_DEDUP_CAPACITY in *. lia.
Qed.

Lemma observe_known d h : dedup_inv d -> h ∈ seen (fst (observe d h)).
Proof.
  intros Hinv. pose proof (observe_inv d h Hinv) as (_ & Hset & _).
  destruct (decide (h ∈ seen d)) as [Hh|Hh].
  - unfold observe. by rewrite bool_decide_eq_true_2.
  - apply Hset. destruct (observe_queue d h Hinv Hh) as (_ & gone & _ & -> & _). set_solver.
Qed.

(** ** One transport *)
Record Transport := mkTransport { dedup : GossipDedup; inbox : list bytes }.

#[export] Instance Transport_eq_dec : EqDecision Transport.
Proof. solve_decision. Defined.

Definition Transport_new : Transport := mkTransport GossipDedup_new [].

Section transport.
Context `{Primitives} `{Rlp} `{RlpUint}.

Definition hash_payload (payload : bytes) : H256 := keccak256 payload.

(** [broadcast]: the payload is fanned out whether or not it is new. *)
Definition broadcast (t : Transport) (payload : bytes) : Transport * list bytes :=
  (mkTransport (fst (observe (dedup t) (hash_payload payload))) (inbox t), [payload]).

Definition try_recv (t : Transport) : Transport * option bytes :=
  match inbox t with
  | [] => (t, None)
  | payload :: rest => (mkTransport (dedup t) rest, Some payload)
  end.

(** What a reader does with one message: a new payload goes to the inbox and to every
    peer, the one it came from included. *)
Definition receive (t : Transport) (m : Message) : Transport * list bytes :=
  match m with
  | MBft payload =>
      let '(d, novel) := observe (dedup t) (hash_payload payload) in
      if novel then (mkTransport d (inbox t ++ [payload]), [payload])
      else (mkTransport d (inbox t), [])
  | _ => (t, [])
  end.

(** ** A network *)
Record Net := mkNet {
  nodes : gmap N Transport;
  flight : list (N * bytes)   (** a frame and the node it is on the way to *)
}.

Context (peers : N -> list N).

(** Each peer's writer frames the payload. *)
Definition fan_out (n : N) (payloads : list bytes) : list (N * bytes) :=
  payloads ≫= fun payload => (fun m => (m, write_message (MBft payload))) <$> peers n.

(** The frame at the position [i] arrives; a frame that does not read is dropped with its
    connection. *)
Definition deliver (net : Net) (i : nat) : option Net :=
  '(n, frame) ← flight net !! i;
  t ← nodes net !! n;
  let rest := delete i (flight net) in
  match Peer_recv frame with
  | Ok (m, _) =>
      let '(t, out) := receive t m in
      Some (mkNet (<[ n := t ]> (nodes net)) (rest ++ fan_out n out))
  | _ => Some (mkNet (nodes net) rest)
  end.

Definition broadcast_from (net : Net) (n : N) (payload : bytes) : option Net :=
  t ← nodes net !! n;
  let '(t, out) := broadcast t payload in
  Some (mkNet (<[ n := t ]> (nodes net)) (flight net ++ fan_out n out)).

(** A run of deliveries, by the positions chosen. *)
Fixpoint deliver_all (net : Net) (picks : list nat) : option Net :=
  match picks with
  | [] => Some net
  | i :: picks => net ← deliver net i; deliver_all net picks
  end.

Inductive reachable (s : N) : N -> Prop :=
| reach_self : reachable s s
| reach_step n m : reachable s n -> m ∈ peers n -> reachable s m.
End transport.

Lemma fan_out_one `{Rlp} `{RlpUint} peers n p :
  fan_out peers n [p] = (fun m => (m, write_message (MBft p))) <$> peers n.
Proof. unfold fan_out. cbn. by rewrite app_nil_r. Qed.

(** A weighted sum over a filter that loses one element. *)
Lemma filter_iff_in (l : list N) (P Q : N -> Prop) `{!forall x, Decision (P x), !forall x, Decision (Q x)} :
  (forall x, x ∈ l -> P x <-> Q x) -> filter P l = filter Q l.
Proof.
  induction l as [|x l IH]; intros Heq; [done|]. rewrite !filter_cons, IH by set_solver.
  pose proof (Heq x ltac:(set_solver)). destruct (decide (P x)), (decide (Q x)); tauto.
Qed.

Lemma sum_filter_remove (degree : N -> nat) (l : list N) n (P Q : N -> Prop) `{!forall x, Decision (P x), !forall x, Decision (Q x)} :
  NoDup l -> n ∈ l -> P n -> ~ Q n -> (forall m, m <> n -> P m <-> Q m) ->
  (sum_list_with degree (filter P l) = degree n + sum_list_with degree (filter Q l))%nat.
Proof.
  intros Hnd Hin HP HQ Heq. induction Hnd as [|m l Hm Hnd IH]; [set_solver|].
  apply elem_of_cons in Hin as [->|Hin].
  - rewrite filter_cons_True, filter_cons_False by done. cbn. f_equal. f_equal.
    apply filter_iff_in. intros x Hx. apply Heq. set_solver.
  - assert (Hmn : m <> n) by set_solver. rewrite !filter_cons. destruct (decide (P m)), (decide (Q m)).
    + cbn. rewrite IH by done. lia.
    + by apply Heq in p.
    + by apply Heq in q.
    + by apply IH.
Qed.

(** ** Relaying one payload *)
Section relay.
Context `{Primitives} `{R : Rlp} `{U : RlpUint} `{!RlpLaws R} `{!RlpUintLaws R U}.
Context (peers : N -> list N) (net0 : Net) (s : N) (payload : bytes).
Context (Hquiet : flight net0 = [])
  (Hclosed : forall n m, is_Some (nodes net0 !! n) -> m ∈ peers n -> is_Some (nodes net0 !! m))
  (Hs : is_Some (nodes net0 !! s))
  (Hinv : forall n t, nodes net0 !! n = Some t -> dedup_inv (dedup t) /\ hash_payload payload ∉ seen (dedup t))
  (Hfits : len payload <= MAX_FRAME_BYTES - 19).

Local Abbreviation h := (hash_payload payload).
Local Abbreviation frame := (write_message (MBft payload)).

(** What a node is after it learnt the payload: the hash is in its ring; all but the sender
    have the payload once more in the inbox. *)
Definition informed (n : N) (t0 t : Transport) : Prop :=
  t = mkTransport (fst (observe (dedup t0) h)) (inbox t0 ++ if bool_decide (n = s) then [] else [payload]).

Record relay_inv (net : Net) : Prop := {
  inv_nodes : forall n, match nodes net0 !! n with
    | Some t0 => exists t, nodes net !! n = Some t /\
        (t = t0 /\ n <> s \/ informed n t0 t /\ reachable peers s n)
    | None => nodes net !! n = None
    end;
  inv_flight : forall n f, (n, f) ∈ flight net -> f = frame /\ reachable peers s n;
  inv_closed : forall n t0 t m, nodes net0 !! n = Some t0 -> nodes net !! n = Some t -> informed n t0 t ->
    m ∈ peers n -> (m, frame) ∈ flight net \/
    exists t0' t', nodes net0 !! m = Some t0' /\ nodes net !! m = Some t' /\ informed m t0' t'
}.

Lemma informed_seen n t0 t : dedup_inv (dedup t0) -> informed n t0 t -> h ∈ seen (dedup t).
Proof. intros Hd ->. by apply observe_known. Qed.

Lemma frame_reads : Peer_recv frame = Ok (MBft payload, []).
Proof.
  rewrite <-(app_nil_r frame). apply Peer_recv_frame; [|by apply payload_fits].
  cbn [Message_wf]. unfold MAX_FRAME_BYTES in *. lia.
Qed.

Lemma reachable_nodes n : reachable peers s n -> is_Some (nodes net0 !! n).
Proof. induction 1 as [|n m _ IH Hm]; [done|]. by eapply Hclosed. Qed.

Lemma relay_start : exists net, broadcast_from peers net0 s payload = Some net /\ relay_inv net.
Proof.
  destruct Hs as [t0 Ht0]. unfold broadcast_from. rewrite Ht0. cbn [mbind option_bind broadcast].
  eexists. split; [done|]. rewrite Hquiet, fan_out_one. cbn [app].
  assert (Hinf : informed s t0 (mkTransport (fst (observe (dedup t0) h)) (inbox t0))).
  { unfold informed. by rewrite bool_decide_eq_true_2, app_nil_r. }
  split; cbn [nodes flight].
  - intros n. destruct (decide (n = s)) as [->|Hne].
    + rewrite Ht0. eexists. rewrite lookup_insert_eq. split; [done|]. right. split; [done|constructor].
    + rewrite lookup_insert_ne by done. destruct (nodes net0 !! n) as [t|]; [|done].
      exists t. split; [done|]. by left.
  - intros n f (m & [= -> ->] & Hm)%list_elem_of_fmap. split; [done|].
    eapply reach_step; [constructor|done].
  - intros n t t' m Hn Hn' Hi Hm. left. destruct (decide (n = s)) as [->|Hne].
    + apply (list_elem_of_fmap_2 (fun m => (m, frame))). done.
    + exfalso. rewrite lookup_insert_ne in Hn' by done. rewrite Hn in Hn'. injection Hn' as <-.
      destruct (Hinv n t Hn) as [Hd Hnot]. apply Hnot. by eapply informed_seen.
Qed.

Lemma delete_elem (l : list (N * bytes)) i x y : l !! i = Some x -> y ∈ l -> y = x \/ y ∈ delete i l.
Proof.
  intros Hi Hy. apply list_elem_of_lookup in Hy as [j Hj]. destruct (decide (i = j)) as [->|Hne].
  - left. congruence.
  - right. rewrite (delete_take_drop l i), elem_of_app. destruct (decide (j < i)%nat) as [Hlt|Hge].
    + left. apply list_elem_of_lookup. exists j. by rewrite lookup_take_lt.
    + right. apply list_elem_of_lookup. exists (j - S i)%nat. rewrite lookup_drop. rewrite <-Hj. f_equal. lia.
Qed.

Lemma elem_of_delete (l : list (N * bytes)) i y : y ∈ delete i l -> y ∈ l.
Proof. intros Hy. eapply elem_of_sublist; [exact Hy|apply sublist_delete]. Qed.

(** A delivery: to a node that has the payload it changes nothing; the first one informs the
    node, which sends the payload on. *)
Lemma deliver_spec net i n f : relay_inv net -> flight net !! i = Some (n, f) ->
  exists t0 t, nodes net0 !! n = Some t0 /\ nodes net !! n = Some t /\
  ((informed n t0 t /\ deliver peers net i = Some (mkNet (nodes net) (delete i (flight net)))) \/
   (t = t0 /\ n <> s /\ exists t', informed n t0 t' /\
    deliver peers net i = Some (mkNet (<[n := t']> (nodes net))
      (delete i (flight net) ++ ((fun m => (m, frame)) <$> peers n))))).
Proof.
  intros [Hn Hf _] Hi. destruct (Hf n f) as [-> Hr]; [by eapply list_elem_of_lookup_2|].
  destruct (reachable_nodes n Hr) as [t0 Ht0]. specialize (Hn n). rewrite Ht0 in Hn.
  destruct Hn as (t & Ht & Hcase). exists t0, t. split; [done|]. split; [done|].
  unfold deliver. rewrite Hi. cbn [mbind option_bind]. rewrite Ht. cbn [mbind option_bind].
  rewrite frame_reads. cbn [receive]. destruct (Hinv n t0 Ht0) as [Hd Hnot].
  destruct Hcase as [[-> Hne]|[Hinf _]].
  - right. split; [done|]. split; [done|].
    destruct (observe_queue (dedup t0) h Hd Hnot) as [Hnov _].
    rewrite (surjective_pairing (observe (dedup t0) h)), Hnov.
    exists (mkTransport (fst (observe (dedup t0) h)) (inbox t0 ++ [payload])). split.
    + unfold informed. by rewrite bool_decide_eq_false_2.
    + cbn [fst snd]. by rewrite fan_out_one.
  - left. split; [done|]. pose proof (informed_seen n t0 t Hd Hinf) as Hseen.
    unfold observe. rewrite bool_decide_eq_true_2 by done. cbn [fan_out]. f_equal. f_equal.
    + apply insert_id. rewrite Ht. by destruct t.
    + by rewrite app_nil_r.
Qed.

Lemma informed_unique n t0 t t' : informed n t0 t -> informed n t0 t' -> t = t'.
Proof. unfold informed. congruence. Qed.

Lemma not_informed n t0 : nodes net0 !! n = Some t0 -> ~ informed n t0 t0.
Proof. intros Ht0 Hi. destruct (Hinv n t0 Ht0) as [Hd Hnot]. apply Hnot. by eapply informed_seen. Qed.

Lemma deliver_inv net i net' : relay_inv net -> deliver peers net i = Some net' -> relay_inv net'.
Proof.
  intros Hri Hdel. assert (exists nf, flight net !! i = Some nf) as [[n f] Hi].
  { unfold deliver in Hdel. destruct (flight net !! i); [eauto|done]. }
  destruct (deliver_spec net i n f Hri Hi) as (t0 & t & Ht0 & Ht & Hcase).
  destruct Hri as [Hn Hf Hc]. destruct (Hf n f) as [-> Hr]; [by eapply list_elem_of_lookup_2|].
  destruct Hcase as [[Hinf Hdel']|(-> & Hne & t' & Hinf & Hdel')]; rewrite Hdel' in Hdel; injection Hdel as <-.
  - split; cbn [nodes flight]; [done| |].
    + intros m g Hm%elem_of_delete. by apply Hf.
    + intros m t1 t2 m' Hm Hm' Hi2 Hp. destruct (Hc m t1 t2 m' Hm Hm' Hi2 Hp) as [Hin|]; [|by right].
      destruct (delete_elem _ _ _ _ Hi Hin) as [[= ->]|]; [|by left].
      right. by exists t0, t.
  - split; cbn [nodes flight].
    + intros m. destruct (decide (m = n)) as [->|Hmn].
      * rewrite Ht0, lookup_insert_eq. exists t'. split; [done|]. by right.
      * rewrite lookup_insert_ne by done. apply Hn.
    + intros m g [Hm%elem_of_delete|(m' & [= -> ->] & Hm)%list_elem_of_fmap]%elem_of_app; [by apply Hf|].
      split; [done|]. by eapply reach_step.
    + intros m t1 t2 m' Hm Hm' Hi2 Hp. destruct (decide (m = n)) as [->|Hmn].
      * left. apply elem_of_app. right. by apply (list_elem_of_fmap_2 (fun m => (m, frame))).
      * rewrite lookup_insert_ne in Hm' by done.
        destruct (decide (m' = n)) as [->|Hm'n].
        { right. exists t0, t'. by rewrite lookup_insert_eq. }
        destruct (Hc m t1 t2 m' Hm Hm' Hi2 Hp) as [Hin|(t3 & t4 & H3 & H4 & H5)].
        -- left. apply elem_of_app. left. destruct (delete_elem _ _ _ _ Hi Hin) as [[= ->]|]; done.
        -- right. exists t3, t4. by rewrite lookup_insert_ne.
Qed.

Lemma deliver_all_inv picks : forall net net',
  relay_inv net -> deliver_all peers net picks = Some net' -> relay_inv net'.
Proof.
  induction picks as [|i picks IH]; intros net net' Hri; cbn [deliver_all]; [by intros [= <-]|].
  destruct (deliver peers net i) as [net1|] eqn:Hd; cbn [mbind option_bind]; [|done].
  apply IH. by eapply deliver_inv.
Qed.

(** When nothing is in flight any more, every reachable node has the payload once. *)
Lemma relay_done net : relay_inv net -> flight net = [] -> forall n t0, nodes net0 !! n = Some t0 ->
  (reachable peers s n -> exists t, nodes net !! n = Some t /\ informed n t0 t) /\
  (~ reachable peers s n -> nodes net !! n = Some t0).
Proof.
  intros [Hn Hf Hc] Hempty. assert (Hreach : forall n, reachable peers s n ->
    exists t0 t, nodes net0 !! n = Some t0 /\ nodes net !! n = Some t /\ informed n t0 t).
  { induction 1 as [|n m Hr IH Hm].
    - destruct Hs as [t0 Ht0]. specialize (Hn s). rewrite Ht0 in Hn.
      destruct Hn as (t & Ht & [[_ Hne]|[Hinf _]]); [done|]. by exists t0, t.
    - destruct IH as (t0 & t & Ht0 & Ht & Hinf).
      destruct (Hc n t0 t m Ht0 Ht Hinf Hm) as [Hin|]; [|done]. rewrite Hempty in Hin. set_solver. }
  intros n t0 Ht0. split.
  - intros Hr. destruct (Hreach n Hr) as (t0' & t & Ht0' & Ht & Hinf). rewrite Ht0 in Ht0'.
    injection Ht0' as <-. by exists t.
  - intros Hr. specialize (Hn n). rewrite Ht0 in Hn. destruct Hn as (t & Ht & [[-> _]|[_ Hr']]); done.
Qed.

(** ** Relaying ends

    A delivery takes a frame out of flight; it adds the node's peers once, when it is first
    informed. *)
Definition degree (n : N) : nat := length (peers n).
Definition uninformed (net : Net) : list N :=
  filter (fun n => nodes net !! n = nodes net0 !! n) (elements (dom (nodes net0))).
Definition measure (net : Net) : nat :=
  (length (flight net) + sum_list_with degree (uninformed net))%nat.

Lemma deliver_measure net i net' :
  relay_inv net -> deliver peers net i = Some net' -> (measure net' < measure net)%nat.
Proof.
  intros Hri Hdel. assert (exists nf, flight net !! i = Some nf) as [[n f] Hi].
  { unfold deliver in Hdel. destruct (flight net !! i); [eauto|done]. }
  pose proof (lookup_lt_Some _ _ _ Hi) as Hlt.
  destruct (deliver_spec net i n f Hri Hi) as (t0 & t & Ht0 & Ht & Hcase).
  destruct Hcase as [[Hinf Hdel']|(-> & Hne & t' & Hinf & Hdel')]; rewrite Hdel' in Hdel; injection Hdel as <-;
    unfold measure; cbn [flight].
  - rewrite length_delete by eauto. unfold uninformed. cbn [nodes]. lia.
  - rewrite length_app, length_delete, length_fmap by eauto. unfold uninformed at 2.
    rewrite (sum_filter_remove degree _ n _ (fun m => <[n := t']> (nodes net) !! m = nodes net0 !! m)).
    + unfold uninformed, degree. cbn [nodes]. lia.
    + apply NoDup_elements.
    + apply elem_of_elements, elem_of_dom. eauto.
    + congruence.
    + rewrite lookup_insert_eq, Ht0. intros [= ->]. by eapply not_informed.
    + intros m Hm. by rewrite lookup_insert_ne.
Qed.

Lemma deliver_progress net : relay_inv net -> flight net <> [] -> exists net', deliver peers net 0 = Some net'.
Proof.
  intros Hri Hne. destruct (flight net) as [|[n f] rest] eqn:E; [done|].
  destruct (deliver_spec net 0 n f Hri) as (t0 & t & _ & _ & [[_ ->]|(_ & _ & t' & _ & ->)]); [by rewrite E|eauto..].
Qed.
Lemma deliver_all_measure picks : forall net net',
  relay_inv net -> deliver_all peers net picks = Some net' ->
  (length picks + measure net' <= measure net)%nat.
Proof.
  induction picks as [|i picks IH]; intros net net' Hri; cbn [deliver_all length].
  - intros [= <-]. lia.
  - destruct (deliver peers net i) as [net1|] eqn:Hd; cbn [mbind option_bind]; [|done]. intros Hall.
    pose proof (deliver_measure net i net1 Hri Hd).
    pose proof (IH net1 net' (deliver_inv net i net1 Hri Hd) Hall). lia.
Qed.

(** The first frames and the nodes still to inform make up every link. *)
Lemma measure_start net : broadcast_from peers net0 s payload = Some net ->
  measure net = sum_list_with degree (elements (dom (nodes net0))).
Proof.
  unfold broadcast_from. destruct (nodes net0 !! s) as [t0|] eqn:Ht0; [|done].
  cbn [mbind option_bind broadcast]. intros [= <-]. unfold measure, uninformed. cbn [flight nodes].
  rewrite Hquiet, app_nil_r. cbn [app]. rewrite length_fmap.
  rewrite <-(filter_all (fun _ => True) (elements (dom (nodes net0)))) at 2 by (by apply Forall_forall).
  rewrite (sum_filter_remove degree _ s (fun _ => True)
    (fun m => <[s := mkTransport (fst (observe (dedup t0) h)) (inbox t0)]> (nodes net0) !! m = nodes net0 !! m)).
  - done.
  - apply NoDup_elements.
  - apply elem_of_elements, elem_of_dom. eauto.
  - done.
  - rewrite lookup_insert_eq, Ht0. intros [= Ht]. apply (not_informed s t0 Ht0).
    unfold informed. by rewrite bool_decide_eq_true_2, app_nil_r.
  - intros m Hm. by rewrite lookup_insert_ne.
Qed.
End relay.
