(* ===== verification/TransportProps.v ===== *)
(** * TransportProps: what the relaying transport delivers

    A payload broadcast into a quiet network reaches every node that a path of links leads
    to, once, and the relaying stops; the ring recognises a hash for as long as its capacity
    says; the frames of a connection are the messages written to it. *)
From stdpp Require Import base tactics gmap numbers strings sets list.
From Stdlib Require Import NArith Lia.
From Stdlib.Init Require Import Byte.
From S2P Require Import Prelude Bytes Crypto Codec ToyRlp RlpUint P2p Transport.

(** ** The ring's window *)
Lemma observe_window d h post pre x :
  dedup_inv d -> queue d = pre ++ h :: post -> len post + 1 < GOSSIP_DEDUP_CAPACITY ->
  exists pre' post', queue (fst (observe d x)) = pre' ++ h :: post' /\ len post' <= len post + 1.
Proof.
  intros Hinv Hq Hlen. destruct (decide (x ∈ seen d)) as [Hx|Hx].
  { unfold observe. rewrite bool_decide_eq_true_2 by done. exists pre, post. cbn. split; [done|lia]. }
  destruct (observe_queue d x Hinv Hx) as (_ & gone & Hgone & -> & Hcase).
  destruct Hcase as [->|[Hone Hfull]].
  - exists pre, (post ++ [x]). cbn. rewrite drop_0, Hq, <-app_assoc. cbn. split; [done|].
    rewrite len_app. unfold len. cbn. lia.
  - destruct pre as [|y pre].
    + exfalso. rewrite Hq in Hfull. unfold len in *. cbn in Hfull. lia.
    + exists pre, (post ++ [x]). unfold len in Hone. destruct gone as [|g [|? ?]]; cbn in Hone; try lia.
      rewrite Hq. cbn. rewrite drop_0, <-app_assoc. cbn. split; [done|].
      rewrite len_app. unfold len. cbn. lia.
Qed.

Lemma observe_all_window l : forall d h pre post,
  dedup_inv d -> queue d = pre ++ h :: post -> len post + len l < GOSSIP_DEDUP_CAPACITY ->
  h ∈ seen (observe_all d l).
Proof.
  induction l as [|x l IH]; intros d h pre post Hinv Hq Hlen; cbn [observe_all].
  - destruct Hinv as (_ & Hset & _). apply Hset. rewrite Hq. set_solver.
  - unfold len in Hlen. cbn [length] in Hlen.
    destruct (observe_window d h post pre x Hinv Hq) as (pre' & post' & Hq' & Hle); [unfold len; lia|].
    eapply IH; [by apply observe_inv|exact Hq'|]. unfold len in *. lia.
Qed.

Lemma observe_last d h : dedup_inv d -> h ∉ seen d -> exists pre, queue (fst (observe d h)) = pre ++ [h].
Proof. intros Hi Hh. destruct (observe_queue d h Hi Hh) as (_ & gone & _ & -> & _). eauto. Qed.

Lemma observe_all_inv l : forall d, dedup_inv d -> dedup_inv (observe_all d l).
Proof. induction l as [|x l IH]; intros d Hd; cbn [observe_all]; [done|]. by apply IH, observe_inv. Qed.

(** The dedup ring never exceeds its capacity and its set is its queue, whatever is
    observed; a hash observed as new is recognised until 4095 further observations have
    been made, and within that window its payload is neither queued nor relayed again. *)
Theorem dedup_ring_window d h l :
  dedup_inv d -> h ∉ seen d -> len l < GOSSIP_DEDUP_CAPACITY ->
  let d' := observe_all (fst (observe d h)) l in
  dedup_inv d' /\ observe d' h = (d', false).
Proof.
  intros Hd Hh Hlen d'. assert (Hd' : dedup_inv d') by (by apply observe_all_inv, observe_inv).
  split; [done|]. destruct (observe_last d h Hd Hh) as [pre Hpre].
  assert (h ∈ seen d') as Hin.
  { eapply observe_all_window; [by apply observe_inv|exact Hpre|done]. }
  unfold observe. by rewrite bool_decide_eq_true_2.
Qed.

(** ** The relay *)
Section relay.
Context `{Primitives} `{R : Rlp} `{U : RlpUint} `{!RlpLaws R} `{!RlpUintLaws R U}.

(** Every link, once per direction. *)
Definition links (peers : N -> list N) (net : Net) : nat :=
  sum_list_with (degree peers) (elements (dom (nodes net))).

(** C26. In a quiet network of transports that do not know it, a payload that fits a frame,
    broadcast by one node, is relayed in finitely many deliveries (no more than there are
    links), in whatever order; a frame in flight can always be delivered; and when none is
    left, every node that a path of links leads to has the payload at the end of its inbox
    exactly once (the sender has not), and every other node is as it was. *)
Theorem relay_reaches_all peers net0 s payload :
  flight net0 = [] ->
  (forall n m, is_Some (nodes net0 !! n) -> m ∈ peers n -> is_Some (nodes net0 !! m)) ->
  is_Some (nodes net0 !! s) ->
  (forall n t, nodes net0 !! n = Some t ->
    dedup_inv (dedup t) /\ hash_payload payload ∉ seen (dedup t)) ->
  len payload <= MAX_FRAME_BYTES - 19 ->
  exists net1, broadcast_from peers net0 s payload = Some net1 /\
  forall picks net, deliver_all peers net1 picks = Some net ->
    (length picks <= links peers net0)%nat /\
    (flight net <> [] -> exists net', deliver peers net 0 = Some net') /\
    (flight net = [] -> forall n t0, nodes net0 !! n = Some t0 ->
      (reachable peers s n -> exists t, nodes net !! n = Some t /\
        inbox t = inbox t0 ++ if bool_decide (n = s) then [] else [payload]) /\
      (~ reachable peers s n -> nodes net !! n = Some t0)).
Proof.
  intros Hq Hc Hs Hi Hf.
  destruct (relay_start peers net0 s payload Hq Hs Hi) as (net1 & Hb & Hri).
  exists net1. split; [done|]. intros picks net Hall.
  pose proof (deliver_all_inv peers net0 s payload Hc Hs Hi Hf picks net1 net Hri Hall) as Hri'.
  pose proof (deliver_all_measure peers net0 s payload Hc Hs Hi Hf picks net1 net Hri Hall) as Hm.
  split; [|split].
  - rewrite (measure_start peers net0 s payload Hq Hs Hi net1 Hb) in Hm. unfold links. lia.
  - by eapply deliver_progress.
  - intros Hempty n t0 Ht0.
    destruct (relay_done peers net0 s payload Hq Hc Hs Hi Hf net Hri' Hempty n t0 Ht0) as [Hr Hn].
    split; [|done]. intros Hreach. destruct (Hr Hreach) as (t & Ht & ->). by eexists.
Qed.
End relay.

(** ** The frames of a connection *)
Section frames.
Context `{R : Rlp} `{U : RlpUint} `{!RlpLaws R} `{!RlpSafe R} `{!RlpUintLaws R U}.

(** The reader of a connection returns exactly the messages written, in order, and
    then the end of the stream; whatever bytes a peer sends, it ends with an error after
    finitely many messages and never panics; a payload within a byte of the frame limit is
    written all the same and ends the connection of its reader. *)
Theorem connection_reads_back ms :
  Forall (fun m => Message_wf m /\ len (Message_encode m) <= MAX_FRAME_BYTES) ms ->
  read_connection (concat (write_message <$> ms)) = (ms, Err P2pUnexpectedEof) /\
  (forall stream, exists e, snd (read_connection stream) = Err e) /\
  (forall p rest, MAX_FRAME_BYTES - 1 <= len p -> len (Message_encode (MBft p)) < u32_mod ->
    fst (read_connection (write_message (MBft p) ++ rest)) = []).
Proof.
  intros Hms. split_and!.
  - by apply read_connection_frames.
  - apply read_connection_ends.
  - intros p rest Hp Hlt. rewrite oversized_frame_ends_connection; [done|].
    split; [by apply payload_too_long|done].
Qed.
End frames.

(** ** Instances: three nodes in a line and one apart *)
Module TransportDemo.
Import Toy ToyRlp ToyUint.

Definition line (n : N) : list N :=
  if n =? 1 then [2] else if n =? 2 then [1; 3] else if n =? 3 then [2] else [].

Definition net0 : Net :=
  mkNet (list_to_map ((fun n => (n, Transport_new)) <$> [1; 2; 3; 4])) [].

Definition payload : bytes := [x01; x02; x03].

(** Four deliveries carry the payload to the end of the line and its echoes back. *)
Example line_runs :
  (fun net => (flight net, inbox <$> nodes net !! 1, inbox <$> nodes net !! 2, inbox <$> nodes net !! 3,
     inbox <$> nodes net !! 4)) <$>
    (broadcast_from line net0 1 payload ≫= fun net => deliver_all line net [0; 1; 0; 0]%nat) =
  Some ([], Some [], Some [payload], Some [payload], Some []).
Proof. vm_compute. reflexivity. Qed.

Lemma net0_nodes n t : nodes net0 !! n = Some t -> t = Transport_new /\ n ∈ [1; 2; 3; 4].
Proof.
  intros Ht%elem_of_list_to_map_2. apply list_elem_of_fmap in Ht as (m & [= -> ->] & Hm). done.
Qed.

Lemma net0_some n : n ∈ [1; 2; 3; 4] -> is_Some (nodes net0 !! n).
Proof.
  intros Hn. repeat (apply elem_of_cons in Hn as [->|Hn]; [vm_compute; eauto|]). set_solver.
Qed.

Lemma dedup_ring_window_witness :
  let d' := observe_all (fst (observe GossipDedup_new (zero_array 32))) [be_array 32 1] in
  dedup_inv d' /\ observe d' (zero_array 32) = (d', false).
Proof.
  apply (dedup_ring_window GossipDedup_new (zero_array 32) [be_array 32 1] dedup_new_inv).
  - cbn. set_solver.
  - vm_compute. reflexivity.
Defined.

Lemma relay_reaches_all_witness :
  exists net1, broadcast_from line net0 1 payload = Some net1 /\
  forall picks net, deliver_all line net1 picks = Some net ->
    (length picks <= 4)%nat /\
    (flight net <> [] -> exists net', deliver line net 0 = Some net') /\
    (flight net = [] -> exists t, nodes net !! 3 = Some t /\ inbox t = [payload]).
Proof.
  destruct (relay_reaches_all (RlpLaws0 := rlp_laws) (RlpUintLaws0 := laws) line net0 1 payload)
    as (net1 & Hb & Hall).
  - reflexivity.
  - intros n m [t Ht] Hm. apply net0_nodes in Ht as [_ Hn]. apply net0_some.
    unfold line in Hm. repeat case_match; set_solver.
  - apply net0_some. set_solver.
  - intros n t Ht. apply net0_nodes in Ht as [-> _]. split; [apply dedup_new_inv|cbn; set_solver].
  - vm_compute. discriminate.
  - exists net1. split; [exact Hb|]. intros picks net Hp. destruct (Hall picks net Hp) as (Hl & Hpr & Hd).
    split; [exact Hl|]. split; [exact Hpr|]. intros Hempty.
    destruct (Hd Hempty 3 Transport_new eq_refl) as [Hr _]. apply Hr.
    apply (reach_step line 1 2); [|set_solver]. apply (reach_step line 1 1); [constructor|set_solver].
Defined.

Lemma connection_reads_back_witness :
  read_connection (concat (write_message <$> [Hello 1 [x61]; Ping 7; MBft payload])) =
    ([Hello 1 [x61]; Ping 7; MBft payload], Err P2pUnexpectedEof) /\
  forall stream, exists e, snd (read_connection stream) = Err e.
Proof.
  destruct (connection_reads_back [Hello 1 [x61]; Ping 7; MBft payload]) as (Hr & He & _).
  - repeat constructor; vm_compute; done.
  - split; [exact Hr|exact He].
Defined.
End TransportDemo.
