(* ===== verification/Release.v ===== *)
(** * Release: signed release manifests

    Models [src/crates/aii-crypto/src/release.rs] and [ed25519.rs].  The crates
    [ed25519-dalek] and [sha2] are third-party: they are the class [ReleaseCrypto], the
    crate [hex] is [HexCrate]. *)
From stdpp Require Import base tactics numbers strings list.
From Stdlib Require Import NArith Lia.
From Stdlib.Init Require Import Byte.
From S2P Require Import Prelude Bytes Crypto.

Class ReleaseCrypto := {
  ed_sk : Type;
  ed_pk : Type;
  ed_sig : Type;
  ed_sk_from_bytes : array 32 -> ed_sk;
  ed_public : ed_sk -> ed_pk;
  ed_sign : ed_sk -> bytes -> ed_sig;
  ed_pk_from_bytes : array 32 -> option ed_pk;
  ed_verify : ed_pk -> bytes -> ed_sig -> bool;
  ed_sig_from_bytes : array 64 -> ed_sig;
  ed_sig_to_bytes : ed_sig -> array 64;
  sha256 : bytes -> array 32
}.

(** What is assumed of the crates: signatures verify and survive their bytes. *)
Class ReleaseCryptoLaws (C : ReleaseCrypto) : Prop := {
  ed_sign_verify : forall sk msg, ed_verify (ed_public sk) msg (ed_sign sk msg) = true;
  ed_sig_roundtrip : forall s, ed_sig_from_bytes (ed_sig_to_bytes s) = s
}.

Inductive KeyError :=
| HexError
| KeyBadLength (expected got : N)
| Ed25519Error.

(** ** Manifests *)
Record ReleaseManifest := mkManifest {
  version : bytes;
  sha256_hex : bytes;
  timestamp_unix : N;
  ed25519_sig_hex : bytes
}.

#[export] Instance ReleaseManifest_eq_dec : EqDecision ReleaseManifest.
Proof. solve_decision. Defined.

Inductive ReleaseError :=
| RHex (msg : string)
| RCrypto (e : KeyError)
| HashMismatch (manifest computed : bytes).

(** [b"aii-release-v1\0"] *)
Definition DOMAIN_TAG : bytes :=
  [x61; x69; x69; x2d; x72; x65; x6c; x65; x61; x73; x65; x2d; x76; x31; x00].

Definition canonical_payload (version : bytes) (sha : array 32) (timestamp : N) : bytes :=
  DOMAIN_TAG ++ version ++ [x00] ++ arr_bytes sha ++ be_bytes 8 timestamp.

Section release.
Context `{ReleaseCrypto} `{HexCrate}.

(** [from_hex] of keys and signatures: the bytes of the right length. *)
Definition array_from_hex (n : nat) (s : bytes) : res KeyError (array n) :=
  raw ← ok_or (hex_decode (trim_0x s)) HexError;
  ok_or (arr_of raw) (KeyBadLength (N.of_nat n) (len raw)).

Definition SecretKey_from_hex (s : bytes) : res KeyError ed_sk :=
  a ← array_from_hex 32 s; mret (ed_sk_from_bytes a).

Definition PublicKey_from_hex (s : bytes) : res KeyError ed_pk :=
  a ← array_from_hex 32 s; ok_or (ed_pk_from_bytes a) Ed25519Error.

Definition Signature_from_hex (s : bytes) : res KeyError ed_sig :=
  a ← array_from_hex 64 s; mret (ed_sig_from_bytes a).

Definition Signature_to_hex (s : ed_sig) : bytes := hex_encode (arr_bytes (ed_sig_to_bytes s)).

Definition verify (pk : ed_pk) (msg : bytes) (s : ed_sig) : res KeyError unit :=
  if ed_verify pk msg s then Ok tt else Err Ed25519Error.

(** [sign_release], on the bytes of the binary. *)
Definition sign_release (secret : ed_sk) (binary version : bytes) (timestamp : N) : ReleaseManifest :=
  let digest := sha256 binary in
  let s := ed_sign secret (canonical_payload version digest timestamp) in
  mkManifest version (hex_encode (arr_bytes digest)) timestamp (Signature_to_hex s).

(** The digest of a manifest. *)
Definition manifest_digest (m : ReleaseManifest) : res ReleaseError (array 32) :=
  raw ← ok_or (hex_decode (to_lowercase (trim_0x (sha256_hex m)))) (RHex "hex");
  ok_or (arr_of raw) (RHex "sha256 must decode to 32 bytes").

Definition verify_manifest_signature (pk : ed_pk) (m : ReleaseManifest) : res ReleaseError unit :=
  digest ← manifest_digest m;
  s ← map_err RCrypto (Signature_from_hex (ed25519_sig_hex m));
  map_err RCrypto (verify pk (canonical_payload (version m) digest (timestamp_unix m)) s).

(** The loop over the keys: the first that verifies, or the last error. *)
Fixpoint verify_any (pks : list ed_pk) (payload : bytes) (s : ed_sig) (last_err : option ReleaseError)
    : res ReleaseError unit :=
  match pks with
  | [] => e ← expect last_err; Err e
  | pk :: pks =>
      match verify pk payload s with
      | Ok u => Ok u
      | Err e => verify_any pks payload s (Some (RCrypto e))
      | Panic => Panic
      end
  end.

Definition verify_manifest_signature_any (pks : list ed_pk) (m : ReleaseManifest) : res ReleaseError unit :=
  _ ← guard_err (bool_decide (length pks = 0%nat)) (RHex "no pubkeys supplied");
  digest ← manifest_digest m;
  s ← map_err RCrypto (Signature_from_hex (ed25519_sig_hex m));
  verify_any pks (canonical_payload (version m) digest (timestamp_unix m)) s None.

(** [verify_release], on the bytes of the binary, which it returns. *)
Definition verify_release (pk : ed_pk) (m : ReleaseManifest) (binary : bytes) : res ReleaseError bytes :=
  let computed := sha256 binary in
  let computed_hex := hex_encode (arr_bytes computed) in
  let manifest_hex := to_lowercase (trim_0x (sha256_hex m)) in
  _ ← guard_err (negb (bool_decide (manifest_hex = computed_hex))) (HashMismatch manifest_hex computed_hex);
  s ← map_err RCrypto (Signature_from_hex (ed25519_sig_hex m));
  _ ← map_err RCrypto (verify pk (canonical_payload (version m) computed (timestamp_unix m)) s);
  mret binary.

(** [is_strictly_newer] of the poller and the test in [record_release_announcement]: the
    timestamp, then the version as text. *)
Definition is_strictly_newer (remote : ReleaseManifest) (local : option ReleaseManifest) : bool :=
  match local with
  | None => true
  | Some l =>
      (timestamp_unix l <? timestamp_unix remote)
      || (timestamp_unix remote =? timestamp_unix l)
         && negb (lex_le (Byte.to_N <$> version remote) (Byte.to_N <$> version l))
  end.

(** The binary is the one the manifest was signed for, by one of the keys. *)
Definition signed_binary (pks : list ed_pk) (m : ReleaseManifest) (binary : bytes) : Prop :=
  exists pk s, pk ∈ pks /\ ed_verify pk (canonical_payload (version m) (sha256 binary) (timestamp_unix m)) s = true.
End release.

(** ** Facts *)

(** The signed payload determines what is signed; a NUL in the version does not matter,
    since what follows it has a fixed width. *)
Lemma canonical_payload_inj v v' d d' t t' :
  t < u64_mod -> t' < u64_mod ->
  canonical_payload v d t = canonical_payload v' d' t' -> v = v' /\ d = d' /\ t = t'.
Proof.
  intros Ht Ht' Heq. unfold canonical_payload in Heq. apply app_inv_head in Heq.
  assert (Hlen : length (arr_bytes d ++ be_bytes 8 t) = length (arr_bytes d' ++ be_bytes 8 t'))
    by (by rewrite !length_app, !arr_length, !length_be_bytes).
  apply app_inj_2 in Heq as [-> Heq]; [|cbn [length]; by rewrite !length_app, !arr_length, !length_be_bytes].
  apply app_inv_head in Heq. apply app_inj_2 in Heq as [Hd Hb]; [|by rewrite !length_be_bytes].
  apply arr_ext in Hd. split_and!; [done..|]. apply (be_bytes_inj 8); done.
Qed.

Section facts.
Context `{C : ReleaseCrypto} `{!ReleaseCryptoLaws C} `{X : HexCrate} `{!HexLaws X}.

Lemma manifest_digest_sign sk binary v t :
  manifest_digest (sign_release sk binary v t) = Ok (sha256 binary).
Proof.
  unfold manifest_digest, sign_release. cbn [sha256_hex]. rewrite trim_hex, lower_hex, hex_roundtrip.
  cbn [ok_or mbind res_bind]. by rewrite arr_of_arr_bytes.
Qed.

Lemma Signature_hex_roundtrip s : Signature_from_hex (Signature_to_hex s) = Ok s.
Proof.
  unfold Signature_from_hex, Signature_to_hex, array_from_hex. rewrite trim_hex, hex_roundtrip.
  cbn [ok_or mbind res_bind]. rewrite arr_of_arr_bytes. cbn. by rewrite ed_sig_roundtrip.
Qed.

(** The keys' loop succeeds when one of them verifies. *)
Lemma verify_any_spec pks payload s last :
  (pks <> [] \/ is_Some last) ->
  (verify_any pks payload s last = Ok tt <-> exists pk, pk ∈ pks /\ ed_verify pk payload s = true) /\
  verify_any pks payload s last <> Panic.
Proof.
  revert last. induction pks as [|pk pks IH]; intros last Hne; cbn [verify_any].
  - destruct Hne as [|[e ->]]; [done|]. cbn. split; [|done]. split; [done|]. intros (pk & Hpk & _). by apply not_elem_of_nil in Hpk.
  - unfold verify. destruct (ed_verify pk payload s) eqn:E.
    + split; [|done]. split; [|done]. intros _. exists pk. split; [apply elem_of_cons; by left|done].
    + destruct (IH (Some (RCrypto Ed25519Error))) as [IH1 IH2]; [right; eauto|]. split; [|done].
      rewrite IH1. split; intros (pk' & Hpk' & Hv); exists pk'; (split; [|done]).
      * apply elem_of_cons. by right.
      * apply elem_of_cons in Hpk' as [->|]; [congruence|done].
Qed.

Lemma verify_manifest_signature_any_Ok pks m :
  verify_manifest_signature_any pks m = Ok tt <->
  exists digest s pk, manifest_digest m = Ok digest /\ Signature_from_hex (ed25519_sig_hex m) = Ok s /\
    pk ∈ pks /\ ed_verify pk (canonical_payload (version m) digest (timestamp_unix m)) s = true.
Proof.
  unfold verify_manifest_signature_any. destruct pks as [|pk0 pks].
  { cbn. split; [done|]. intros (d & s & pk & _ & _ & Hpk & _). by apply not_elem_of_nil in Hpk. }
  rewrite bool_decide_eq_false_2 by done. cbn [guard_err mbind res_bind].
  destruct (manifest_digest m) as [d| |]; cbn [mbind res_bind]; [|split; [done|naive_solver]..].
  destruct (Signature_from_hex (ed25519_sig_hex m)) as [s| |]; cbn [map_err mbind res_bind]; [|split; [done|naive_solver]..].
  pose proof (verify_any_spec (pk0 :: pks) (canonical_payload (version m) d (timestamp_unix m)) s None
    ltac:(by left)) as [-> _].
  split; [intros (pk & Hpk & Hv); by exists d, s, pk|]. intros (d' & s' & pk & [= <-] & [= <-] & Hpk & Hv). eauto.
Qed.

(** Strictly newer manifests are well ordered: none is newer than itself, and newer than
    newer is newer. *)
Lemma is_strictly_newer_irrefl m : is_strictly_newer m (Some m) = false.
Proof. unfold is_strictly_newer. by rewrite N.ltb_irrefl, N.eqb_refl, lex_le_refl. Qed.

Lemma is_strictly_newer_trans a b c :
  is_strictly_newer a (Some b) = true -> is_strictly_newer b (Some c) = true ->
  is_strictly_newer a (Some c) = true.
Proof.
  unfold is_strictly_newer. rewrite !orb_true_iff, !andb_true_iff, !negb_true_iff, !N.ltb_lt, !N.eqb_eq.
  intros [Ha|[Ha Hva]] [Hb|[Hb Hvb]]; [left; lia..|right]. split; [congruence|].
  destruct (lex_le (Byte.to_N <$> version a) (Byte.to_N <$> version c)) eqn:E; [|done].
  destruct (lex_le_total (Byte.to_N <$> version c) (Byte.to_N <$> version b)) as [Hcb|]; [|congruence].
  pose proof (lex_le_trans _ _ _ E Hcb). congruence.
Qed.
End facts.
