(* ===== verification/ReleaseStore.v ===== *)
(** * ReleaseStore: the release files of a node

    Models [src/crates/aii-node/src/release_store.rs] and [release_install.rs]: the cache of
    verified binaries, the replacement of the running binary and its rollback, and the two
    records kept beside them.  A file system is a map from paths to files and a schedule of
    faults: any operation may fail, a write or a copy after a part of the bytes.  A crash is
    a schedule in which everything after it fails.  A path is its components, the last one
    first; directories and links are not modelled.  JSON is the class [ReleaseJson]. *)
From stdpp Require Import base tactics gmap numbers strings list.
From Stdlib Require Import NArith Lia.
From Stdlib.Init Require Import Byte.
From S2P Require Import Prelude Bytes Crypto Release.

(** ** Files *)
Abbreviation path := (list bytes).

Record File := mkFile { contents : bytes; mode : N }.

#[export] Instance File_eq_dec : EqDecision File.
Proof. solve_decision. Defined.

(** An operation that fails leaves nothing behind, or the first bytes of what it writes. *)
Inductive fault := FailsClean | FailsAt (k : nat).

Record FS := mkFS { files : gmap path File; faults : list (option fault) }.

Inductive IoError := NotFound | IoFault | InvalidData.

Definition io (E A : Type) : Type := FS -> res E A * FS.

#[export] Instance io_ret {E} : MRet (io E) := fun A a fs => (Ok a, fs).
#[export] Instance io_bind {E} : MBind (io E) := fun A B f m fs =>
  match m fs with
  | (Ok a, fs) => f a fs
  | (Err e, fs) => (Err e, fs)
  | (Panic, fs) => (Panic, fs)
  end.

Definition io_fail {E A} (e : E) : io E A := fun fs => (Err e, fs).

(** The next entry of the schedule; past its end nothing fails. *)
Definition next_fault {E : Type} : io E (option fault) := fun fs =>
  match faults fs with
  | [] => (Ok None, fs)
  | f :: rest => (Ok f, mkFS (files fs) rest)
  end.

Definition set_files {E : Type} (m : gmap path File) : io E unit := fun fs => (Ok tt, mkFS m (faults fs)).
Definition get_files {E : Type} : io E (gmap path File) := fun fs => (Ok (files fs), fs).

(** An operation without a partial effect. *)
Definition atomic {A} (op : io IoError A) : io IoError A :=
  f ← next_fault;
  match f with None => op | Some _ => io_fail IoFault end.

Definition fs_exists {E : Type} (p : path) : io E bool := fun fs => (Ok (bool_decide (is_Some (files fs !! p))), fs).

Definition look (p : path) : io IoError File :=
  m ← get_files;
  match m !! p with Some f => mret f | None => io_fail NotFound end.

Definition fs_read (p : path) : io IoError bytes := atomic (f ← look p; mret (contents f)).
Definition fs_stat (p : path) : io IoError N := atomic (f ← look p; mret (mode f)).
Definition fs_create_dir_all : io IoError unit := atomic (mret tt).

Definition fs_remove (p : path) : io IoError unit :=
  atomic (_ ← look p; m ← get_files; set_files (delete p m)).

Definition fs_rename (p q : path) : io IoError unit :=
  atomic (f ← look p; m ← get_files; set_files (<[q := f]> (delete p m))).

Definition fs_set_mode (p : path) (x : N) : io IoError unit :=
  atomic (f ← look p; m ← get_files; set_files (<[p := mkFile (contents f) x]> m)).

(** [0o666] under the usual umask. *)
Definition CREATED_MODE : N := 420.

(** What a write of [b] leaves at [p]: its bytes, or the first [k]. *)
Definition put (p : path) (b : bytes) (x : N) : io IoError unit :=
  f ← next_fault;
  m ← get_files;
  match f with
  | None => set_files (<[p := mkFile b x]> m)
  | Some FailsClean => io_fail IoFault
  | Some (FailsAt k) => _ ← set_files (<[p := mkFile (take k b) x]> m); io_fail IoFault
  end.

(** [fs::write]: the mode of a file that is there is kept. *)
Definition fs_write (p : path) (b : bytes) : io IoError unit :=
  m ← get_files;
  put p b (match m !! p with Some f => mode f | None => CREATED_MODE end).

(** [fs::copy]: the mode is copied with the contents. *)
Definition fs_copy (src dst : path) : io IoError unit :=
  f ← look src; put dst (contents f) (mode f).

(** ** Paths *)
Definition with_suffix (p : path) (suffix : bytes) : path :=
  match p with
  | leaf :: dir => (leaf ++ suffix) :: dir
  | [] => [suffix]
  end.

Definition dot : bytes := [x2e].
Definition dotdot : bytes := [x2e; x2e].

(** Split at [/]. *)
Fixpoint components_from (acc s : bytes) : list bytes :=
  match s with
  | [] => [acc]
  | c :: s => if bool_decide (c = x2f) then acc :: components_from [] s else components_from (acc ++ [c]) s
  end.

Definition components (s : bytes) : list bytes :=
  filter (fun c => c <> [] /\ c <> dot) (components_from [] s).

(** One component further: [..] is the parent. *)
Definition walk (p : path) (c : bytes) : path :=
  if bool_decide (c = dotdot) then tail p else c :: p.

(** [base.join(s)] as the system resolves it: an absolute [s] replaces the base. *)
Definition join (base : path) (s : bytes) : path :=
  foldl walk (if bool_decide (head s = Some x2f) then [] else base) (components s).

(** ["releases"], [".new"], [".previous"], [".roll"], ["tmp"], [".boot-pending"], [".restart-log"] *)
Definition RELEASES_SUBDIR : bytes := [x72; x65; x6c; x65; x61; x73; x65; x73].
Definition NEW_SUFFIX : bytes := [x2e; x6e; x65; x77].
Definition PREVIOUS_NAME : bytes := [x2e; x70; x72; x65; x76; x69; x6f; x75; x73].
Definition ROLL_SUFFIX : bytes := [x2e; x72; x6f; x6c; x6c].
Definition TMP : bytes := [x74; x6d; x70].
Definition BOOT_PENDING_NAME : bytes :=
  [x2e; x62; x6f; x6f; x74; x2d; x70; x65; x6e; x64; x69; x6e; x67].
Definition RESTART_LOG_NAME : bytes := [x2e; x72; x65; x73; x74; x61; x72; x74; x2d; x6c; x6f; x67].

Definition releases_dir (data_dir : path) : path := RELEASES_SUBDIR :: data_dir.
Definition binary_path (data_dir : path) (version : bytes) : path := join (releases_dir data_dir) version.

(** [Path::with_extension] on a file name: what follows the last dot that is not the first
    character is replaced. *)
Fixpoint last_dot (i : nat) (s : bytes) (found : option nat) : option nat :=
  match s with
  | [] => found
  | c :: s => last_dot (S i) s (if bool_decide (c = x2e) then Some i else found)
  end.

Definition file_stem (name : bytes) : bytes :=
  match last_dot 0 name None with
  | None | Some O => name
  | Some i => take i name
  end.

(** A path that ends in [..] has no file name, and is returned as it is. *)
Definition with_extension (version : bytes) (target : path) (ext : bytes) : path :=
  if bool_decide (last (components version) = Some dotdot) then target
  else match target with
       | leaf :: dir => (file_stem leaf ++ dot ++ ext) :: dir
       | [] => []
       end.

(** ** The cache of verified binaries *)
Inductive ReleaseStoreError :=
| StoreIo (e : IoError)
| StoreHex (msg : string)
| StoreHashMismatch (expected computed : bytes).

Definition lift {E A} (f : IoError -> E) (op : io IoError A) : io E A := fun fs =>
  let '(r, fs) := op fs in (map_err f r, fs).

Section store.
Context `{ReleaseCrypto} `{HexCrate}.

Definition store_verified_binary (data_dir : path) (version expected_sha256_hex data : bytes)
    : io ReleaseStoreError path :=
  let expected_lower := to_lowercase (trim_0x expected_sha256_hex) in
  match hex_decode expected_lower with
  | None => io_fail (StoreHex "hex")
  | Some expected_bytes =>
      if negb (len expected_bytes =? 32) then io_fail (StoreHex "sha256 must decode to 32 bytes")
      else
        let computed_hex := hex_encode (arr_bytes (sha256 data)) in
        if negb (bool_decide (computed_hex = expected_lower))
        then io_fail (StoreHashMismatch expected_lower computed_hex)
        else
          let target := binary_path data_dir version in
          let tmp := with_extension version target TMP in
          _ ← lift StoreIo fs_create_dir_all;
          _ ← lift StoreIo (fs_write tmp data);
          _ ← lift StoreIo (fs_rename tmp target);
          mret target
  end.
End store.

Definition load_binary (data_dir : path) (version : bytes) : io IoError (option bytes) := fun fs =>
  match fs_read (binary_path data_dir version) fs with
  | (Ok b, fs) => (Ok (Some b), fs)
  | (Err NotFound, fs) => (Ok None, fs)
  | (Err e, fs) => (Err e, fs)
  | (Panic, fs) => (Panic, fs)
  end.

(** ** Installing and rolling back *)
Definition INSTALLED_MODE : N := 493.  (* 0o755 *)

Definition previous_path (releases : path) : path := PREVIOUS_NAME :: releases.

(** [if path.exists() { fs::remove_file(&path)?; }] *)
Definition remove_stale (p : path) : io IoError unit :=
  there ← fs_exists p;
  if (there : bool) then fs_remove p else mret tt.

(** [path] becomes executable. *)
Definition make_executable (p : path) : io IoError unit :=
  _ ← fs_stat p; fs_set_mode p INSTALLED_MODE.

Definition save_previous (current_exe releases : path) : io IoError path :=
  let target := previous_path releases in
  let staging := with_suffix target NEW_SUFFIX in
  _ ← fs_create_dir_all;
  _ ← remove_stale staging;
  _ ← fs_copy current_exe staging;
  _ ← make_executable staging;
  _ ← fs_rename staging target;
  mret target.

Definition install_binary (staged target : path) : io IoError path :=
  let new_path := with_suffix target NEW_SUFFIX in
  _ ← remove_stale new_path;
  _ ← fs_copy staged new_path;
  _ ← make_executable new_path;
  _ ← fs_rename new_path target;
  mret target.

(** [let _ = op;] *)
Definition ignore {E A} (op : io E A) : io E unit := fun fs =>
  match op fs with
  | (Panic, fs) => (Panic, fs)
  | (_, fs) => (Ok tt, fs)
  end.

(** The outcome of the operation, for what follows it whatever it is. *)
Definition try_io {E A} (op : io E A) : io E (res E A) := fun fs =>
  match op fs with
  | (Panic, fs) => (Panic, fs)
  | (r, fs) => (Ok r, fs)
  end.

Definition io_res {E A} (r : res E A) : io E A := fun fs => (r, fs).

Definition rollback_to_previous (releases target : path) : io IoError path :=
  let previous := previous_path releases in
  there ← fs_exists previous;
  if negb there then io_fail NotFound
  else
    let holding := with_suffix previous ROLL_SUFFIX in
    _ ← remove_stale holding;
    _ ← fs_rename previous holding;
    _ ← save_previous target releases;
    installed ← try_io (install_binary holding target);
    _ ← ignore (fs_remove holding);
    io_res installed.

(** ** The boot record and the restart log *)
Record BootPending := mkBootPending { bp_version : bytes; pre_install_head : N; install_ts : N }.

Record RestartLog := mkRestartLog { events : list N }.

Class ReleaseJson := {
  boot_to_json : BootPending -> bytes;
  boot_of_json : bytes -> option BootPending;
  log_to_json : RestartLog -> bytes;
  log_of_json : bytes -> option RestartLog
}.

Class ReleaseJsonLaws (J : ReleaseJson) : Prop := {
  boot_json_roundtrip : forall b, boot_of_json (boot_to_json b) = Some b;
  log_json_roundtrip : forall l, log_of_json (log_to_json l) = Some l
}.

Section records.
Context `{ReleaseJson}.

(** Write beside the target, then rename over it. *)
Definition replace_file (target : path) (data : bytes) : io IoError path :=
  let staging := with_suffix target NEW_SUFFIX in
  _ ← remove_stale staging;
  _ ← fs_write staging data;
  _ ← fs_rename staging target;
  mret target.

Definition boot_pending_path (releases : path) : path := BOOT_PENDING_NAME :: releases.

Definition write_boot_pending (releases : path) (record : BootPending) : io IoError path :=
  _ ← fs_create_dir_all;
  replace_file (boot_pending_path releases) (boot_to_json record).

Definition read_boot_pending (releases : path) : io IoError (option BootPending) := fun fs =>
  match fs_read (boot_pending_path releases) fs with
  | (Ok b, fs) => match boot_of_json b with Some r => (Ok (Some r), fs) | None => (Err InvalidData, fs) end
  | (Err NotFound, fs) => (Ok None, fs)
  | (Err e, fs) => (Err e, fs)
  | (Panic, fs) => (Panic, fs)
  end.

Definition clear_boot_pending (releases : path) : io IoError unit := fun fs =>
  match fs_remove (boot_pending_path releases) fs with
  | (Err NotFound, fs) => (Ok tt, fs)
  | r => r
  end.

Definition restart_log_path (releases : path) : path := RESTART_LOG_NAME :: releases.

Definition read_restart_log (releases : path) : io IoError RestartLog := fun fs =>
  match fs_read (restart_log_path releases) fs with
  | (Ok b, fs) => (Ok (default (mkRestartLog []) (log_of_json b)), fs)
  | (Err _, fs) => (Ok (mkRestartLog []), fs)
  | (Panic, fs) => (Panic, fs)
  end.

Definition append_restart_event (releases : path) (ts window_secs : N) : io IoError unit :=
  _ ← fs_create_dir_all;
  log ← read_restart_log releases;
  let cutoff := saturating_sub ts window_secs in
  let kept := sort_by N.leb (filter (fun t => cutoff <= t) (events log ++ [ts])) in
  _ ← replace_file (restart_log_path releases) (log_to_json (mkRestartLog kept));
  mret tt.
End records.

Definition restart_allowed (log : RestartLog) (now window_secs max_in_window : N) : bool :=
  if max_in_window =? 0 then true
  else
    let cutoff := saturating_sub now window_secs in
    len (filter (fun t => cutoff <= t) (events log)) mod u32_mod <? max_in_window.

Section watchdog.
Context `{ReleaseJson}.

(** [try_register_restart] of [head_watchdog.rs], at the time [now]; a failed append is
    only logged. *)
Definition try_register_restart (releases : path) (now window_secs max_per_window : N)
    : io IoError bool :=
  log ← read_restart_log releases;
  if negb (restart_allowed log now window_secs max_per_window) then mret false
  else
    _ ← ignore (append_restart_event releases now window_secs);
    mret true.
End watchdog.

(** ** The head watchdog *)
Inductive StallStatus :=
| Healthy (head : N)
| StalledBelowThreshold (head stalled_for_secs : N)
| StallTriggered (head stalled_for_secs : N).

Record StallDetector := mkStall {
  last_head : N;
  stalled_for_secs : N;
  stall_recover_secs : N;
  poll_secs : N;
  seeded : bool
}.

Definition StallDetector_new (stall_recover_secs poll_secs : N) : StallDetector :=
  mkStall 0 0 stall_recover_secs poll_secs false.

Definition stall_observe (d : StallDetector) (head : N) : StallDetector * StallStatus :=
  let fresh := mkStall head 0 (stall_recover_secs d) (poll_secs d) true in
  if stall_recover_secs d =? 0 then (fresh, Healthy head)
  else if negb (seeded d) then (fresh, Healthy head)
  else if negb (head =? last_head d) then (fresh, Healthy head)
  else
    let s := saturating_add u64_mod (stalled_for_secs d) (poll_secs d) in
    (mkStall (last_head d) s (stall_recover_secs d) (poll_secs d) true,
     if stall_recover_secs d <=? s then StallTriggered head s else StalledBelowThreshold head s).

(** One turn of [start_head_watchdog]: whether the process is replaced.  A replaced or
    failed process, and a refused restart, start with a new detector. *)
Definition watchdog_turn `{ReleaseJson} (releases : path) (window_secs max_per_window : N)
    (d : StallDetector) (now head : N) : io IoError (StallDetector * bool) :=
  let '(d, status) := stall_observe d head in
  match status with
  | StallTriggered _ _ =>
      allowed ← try_register_restart releases now window_secs max_per_window;
      mret (StallDetector_new (stall_recover_secs d) (poll_secs d), allowed)
  | _ => mret (d, false)
  end.

Fixpoint watchdog_run `{ReleaseJson} (releases : path) (window_secs max_per_window : N)
    (d : StallDetector) (polls : list (N * N)) : io IoError (list N) :=
  match polls with
  | [] => mret []
  | (now, head) :: polls =>
      '(d, restarted) ← watchdog_turn releases window_secs max_per_window d now head;
      rest ← watchdog_run releases window_secs max_per_window d polls;
      mret (if (restarted : bool) then now :: rest else rest)
  end.
