(* ===== verification/ReleaseStoreProps.v ===== *)
(** * ReleaseStoreProps: replacing the running binary, and how often

    Whatever fails and wherever it fails, the binary is the old one or all of the new one;
    an undisturbed rollback swaps the two and a disturbed one can lose the snapshot; and
    the watchdog restarts the node at most as often as its window allows. *)
From stdpp Require Import base tactics gmap numbers strings sorting sets list.
From Stdlib Require Import NArith Lia.
From Stdlib.Init Require Import Byte.
From S2P Require Import Prelude Bytes Crypto Release ReleaseStore.

(** The definitions of the primitives. *)
Ltac run :=
  unfold look, put, next_fault, get_files, set_files, io_fail, mbind, io_bind, mret, io_ret; cbn.

(** ** Which files an operation leaves alone *)
Definition keeps {E A} (p : path) (op : io E A) : Prop :=
  forall fs, files (snd (op fs)) !! p = files fs !! p.

Lemma keeps_ret {E A} p (a : A) : keeps p (mret a : io E A).
Proof. done. Qed.

Lemma keeps_fail {E A} p (e : E) : keeps p (io_fail e : io E A).
Proof. done. Qed.

Lemma keeps_bind {E A B} p (op : io E A) (k : A -> io E B) :
  keeps p op -> (forall a, keeps p (k a)) -> keeps p (op ≫= k).
Proof.
  intros Hop Hk fs. specialize (Hop fs). unfold mbind, io_bind. destruct (op fs) as [[a|e|] fs'];
    cbn in *; [|done..]. by rewrite Hk.
Qed.

Lemma keeps_tick {E} p : keeps p (@next_fault E).
Proof. intros fs. unfold next_fault. by destruct (faults fs). Qed.

Lemma keeps_get {E} p : keeps p (@get_files E).
Proof. done. Qed.

Lemma keeps_look p q : keeps p (look q).
Proof.
  apply keeps_bind; [apply keeps_get|]. intros m. destruct (m !! q); [apply keeps_ret|apply keeps_fail].
Qed.

Lemma keeps_atomic {A} p (op : io IoError A) : keeps p op -> keeps p (atomic op).
Proof. intros Hop. apply keeps_bind; [apply keeps_tick|]. intros [f|]; [apply keeps_fail|done]. Qed.

(** The files after reading the map and replacing it. *)
Lemma keeps_update (p : path) (op : io IoError File) (g : File -> gmap path File -> gmap path File) :
  keeps p op -> (forall f m, g f m !! p = m !! p) ->
  keeps p (f ← op; m ← get_files; set_files (g f m)).
Proof.
  intros Hop Hg. apply keeps_bind; [done|]. intros f fs. cbn. apply Hg.
Qed.

Lemma keeps_remove p q : p <> q -> keeps p (fs_remove q).
Proof.
  intros Hpq. apply keeps_atomic, keeps_update; [apply keeps_look|]. intros _ m. by rewrite lookup_delete_ne.
Qed.

Lemma keeps_rename p q q' : p <> q -> p <> q' -> keeps p (fs_rename q q').
Proof.
  intros H1 H2. apply keeps_atomic, keeps_update; [apply keeps_look|]. intros f m.
  by rewrite lookup_insert_ne, lookup_delete_ne.
Qed.

Lemma keeps_set_mode p q x : p <> q -> keeps p (fs_set_mode q x).
Proof.
  intros Hpq. apply keeps_atomic, (keeps_update p (look q)); [apply keeps_look|]. intros f m.
  by rewrite lookup_insert_ne.
Qed.

Lemma keeps_put p q b x : p <> q -> keeps p (put q b x).
Proof.
  intros Hpq fs. unfold put, next_fault, io_fail, mbind, io_bind. destruct (faults fs) as [|[[|k]|] rest]; cbn; try done;
    by rewrite lookup_insert_ne.
Qed.

Lemma keeps_copy p src dst : p <> dst -> keeps p (fs_copy src dst).
Proof. intros Hp. apply keeps_bind; [apply keeps_look|]. intros f. by apply keeps_put. Qed.

Lemma keeps_write p q b : p <> q -> keeps p (fs_write q b).
Proof. intros Hp. apply keeps_bind; [apply keeps_get|]. intros m. by apply keeps_put. Qed.

Lemma keeps_dir p : keeps p fs_create_dir_all.
Proof. apply keeps_atomic, keeps_ret. Qed.

Lemma keeps_stale p q : p <> q -> keeps p (remove_stale q).
Proof.
  intros Hp. unfold remove_stale. intros fs. unfold fs_exists, mbind, io_bind.
  destruct (bool_decide _); [by apply keeps_remove|done].
Qed.

Lemma keeps_exec p q : p <> q -> keeps p (make_executable q).
Proof.
  intros Hp. apply keeps_bind; [|intros; by apply keeps_set_mode].
  apply keeps_atomic, keeps_bind; [apply keeps_look|intros; apply keeps_ret].
Qed.

Lemma with_suffix_ne p s : s <> [] -> with_suffix p s <> p.
Proof.
  intros Hs. destruct p as [|leaf dir]; cbn; [done|]. intros [= Heq].
  rewrite <-(app_nil_r leaf) in Heq at 2. by apply app_inv_head in Heq.
Qed.

(** ** The steps of an installation *)
Lemma bind_eq {E A B} (op : io E A) (k : A -> io E B) fs :
  (op ≫= k) fs = match op fs with
                 | (Ok a, fs) => k a fs | (Err e, fs) => (Err e, fs) | (Panic, fs) => (Panic, fs)
                 end.
Proof. reflexivity. Qed.

(** A copy that succeeds has copied everything. *)
Lemma fs_copy_Ok src dst fs fs' :
  fs_copy src dst fs = (Ok tt, fs') ->
  exists f, files fs !! src = Some f /\ files fs' = <[dst := f]> (files fs).
Proof.
  unfold fs_copy, look, io_fail. run. destruct (files fs !! src) as [f|]; cbn; [|done].
  unfold put, next_fault, io_fail. run. destruct (faults fs) as [|[[|k]|] rest]; cbn; try done; intros [= <-];
    exists f; (split; [done|]); by destruct f.
Qed.

Lemma atomic_spec {A} (op : io IoError A) fs :
  atomic op fs = match faults fs with
                 | [] => op fs
                 | None :: rest => op (mkFS (files fs) rest)
                 | Some _ :: rest => (Err IoFault, mkFS (files fs) rest)
                 end.
Proof. unfold atomic. run. unfold next_fault. by destruct (faults fs) as [|[f|] rest]. Qed.

Lemma look_spec p fs :
  look p fs = (match files fs !! p with Some f => Ok f | None => Err NotFound end, fs).
Proof. run. by destruct (files fs !! p). Qed.

Lemma fs_stat_Ok p fs x fs' : fs_stat p fs = (Ok x, fs') -> files fs' = files fs.
Proof.
  unfold fs_stat. rewrite atomic_spec. destruct (faults fs) as [|[f|] rest]; [|done|];
    rewrite bind_eq, look_spec; cbn [files]; destruct (files fs !! p); by intros [= _ <-].
Qed.

(** An update of the entry at a path, after a look at it. *)
Lemma atomic_update_Ok (p : path) (g : File -> gmap path File -> gmap path File) fs fs' :
  atomic (f ← look p; m ← get_files; set_files (g f m)) fs = (Ok tt, fs') ->
  exists f, files fs !! p = Some f /\ files fs' = g f (files fs).
Proof.
  rewrite atomic_spec. destruct (faults fs) as [|[f|] rest]; [|done|];
    rewrite bind_eq, look_spec; cbn [files]; destruct (files fs !! p) as [f|]; try done;
    intros [= <-]; by exists f.
Qed.

Lemma make_executable_Ok p fs fs' :
  make_executable p fs = (Ok tt, fs') ->
  exists f, files fs !! p = Some f /\ files fs' = <[p := mkFile (contents f) INSTALLED_MODE]> (files fs).
Proof.
  unfold make_executable. rewrite bind_eq. destruct (fs_stat p fs) as [[x|e|] fs1] eqn:E; [|done..].
  rewrite <-(fs_stat_Ok _ _ _ _ E). intros Hs.
  by apply (atomic_update_Ok p (fun f m => <[p := mkFile (contents f) INSTALLED_MODE]> m)) in Hs.
Qed.

Lemma fs_rename_Ok p q fs fs' :
  fs_rename p q fs = (Ok tt, fs') ->
  exists f, files fs !! p = Some f /\ files fs' = <[q := f]> (delete p (files fs)).
Proof. apply (atomic_update_Ok p (fun f m => <[q := f]> (delete p m))). Qed.

Lemma fs_rename_Err p q fs e fs' : fs_rename p q fs = (Err e, fs') -> files fs' = files fs.
Proof.
  unfold fs_rename. rewrite atomic_spec. destruct (faults fs) as [|[f|] rest]; [|by intros [= _ <-]|];
    rewrite bind_eq, look_spec; cbn [files]; destruct (files fs !! p); try done; by intros [= _ <-].
Qed.

(** No operation panics. *)
Definition no_panic {E A} (op : io E A) : Prop := forall fs, fst (op fs) <> Panic.

Lemma no_panic_bind {E A B} (op : io E A) (k : A -> io E B) :
  no_panic op -> (forall a, no_panic (k a)) -> no_panic (op ≫= k).
Proof.
  intros Hop Hk fs. rewrite bind_eq. specialize (Hop fs). destruct (op fs) as [[a|e|] fs']; [apply Hk|done..].
Qed.

Lemma no_panic_copy src dst : no_panic (fs_copy src dst).
Proof.
  intros fs. unfold fs_copy, look, put, next_fault, io_fail. run. destruct (files fs !! src); cbn; [|done].
  by destruct (faults fs) as [|[[|k]|] rest].
Qed.

Lemma no_panic_atomic {A} (op : io IoError A) : no_panic op -> no_panic (atomic op).
Proof. intros Hop fs. rewrite atomic_spec. destruct (faults fs) as [|[f|] rest]; [apply Hop|done|apply Hop]. Qed.

Lemma no_panic_look {A} p (k : File -> io IoError A) : (forall f, no_panic (k f)) -> no_panic (f ← look p; k f).
Proof. intros Hk fs. rewrite bind_eq, look_spec. destruct (files fs !! p); [apply Hk|done]. Qed.

Lemma no_panic_rename p q : no_panic (fs_rename p q).
Proof. by apply no_panic_atomic, no_panic_look. Qed.

Lemma no_panic_remove p : no_panic (fs_remove p).
Proof. by apply no_panic_atomic, no_panic_look. Qed.

Lemma no_panic_stale p : no_panic (remove_stale p).
Proof. intros fs. unfold remove_stale. unfold mbind, io_bind, fs_exists; destruct (bool_decide (is_Some (files fs !! p))); [apply no_panic_remove|done]. Qed.

Lemma no_panic_exec p : no_panic (make_executable p).
Proof.
  apply no_panic_bind; [by apply no_panic_atomic, no_panic_look|]. intros _. by apply no_panic_atomic, no_panic_look.
Qed.

Lemma no_panic_dir : no_panic fs_create_dir_all.
Proof. intros fs. unfold fs_create_dir_all, atomic, next_fault, io_fail. run. by destruct (faults fs) as [|[f|] rest]. Qed.

(** The shape that both replacements have: copy beside the target, make it executable,
    rename it over the target. *)
Definition replace_with (src new target : path) : io IoError path :=
  _ ← remove_stale new; _ ← fs_copy src new; _ ← make_executable new; _ ← fs_rename new target;
  mret target.

Lemma replace_with_spec src new target fs :
  src <> new -> new <> target ->
  let '(r, fs') := replace_with src new target fs in
  match r with
  | Ok p => p = target /\ exists f, files fs !! src = Some f /\
      files fs' !! target = Some (mkFile (contents f) INSTALLED_MODE) /\
      (forall p, p <> target -> p <> new -> files fs' !! p = files fs !! p) /\ files fs' !! new = None
  | Err _ => forall p, p <> new -> files fs' !! p = files fs !! p
  | Panic => False
  end.
Proof.
  intros Hsrc Hnew. unfold replace_with. rewrite bind_eq.
  pose proof (no_panic_stale new fs) as Hn1.
  assert (Hk1 : forall p, p <> new -> files (snd (remove_stale new fs)) !! p = files fs !! p)
    by (intros; by apply keeps_stale).
  destruct (remove_stale new fs) as [[[]|e|] fs1]; cbn in Hn1, Hk1; [|done|done].
  rewrite bind_eq. pose proof (no_panic_copy src new fs1) as Hn2.
  assert (Hk2 : forall p, p <> new -> files (snd (fs_copy src new fs1)) !! p = files fs1 !! p)
    by (intros; by apply keeps_copy).
  destruct (fs_copy src new fs1) as [[[]|e|] fs2] eqn:E2; cbn in Hn2, Hk2; [| |done].
  2:{ intros p Hp. by rewrite Hk2, Hk1. }
  destruct (fs_copy_Ok _ _ _ _ E2) as (f & Hf & Hf2).
  rewrite bind_eq. pose proof (no_panic_exec new fs2) as Hn3.
  assert (Hk3 : forall p, p <> new -> files (snd (make_executable new fs2)) !! p = files fs2 !! p)
    by (intros; by apply keeps_exec).
  destruct (make_executable new fs2) as [[[]|e|] fs3] eqn:E3; cbn in Hn3, Hk3; [| |done].
  2:{ intros p Hp. by rewrite Hk3, Hk2, Hk1. }
  destruct (make_executable_Ok _ _ _ E3) as (g & Hg & Hf3).
  rewrite bind_eq. pose proof (no_panic_rename new target fs3) as Hn4.
  destruct (fs_rename new target fs3) as [[[]|e|] fs4] eqn:E4; cbn in Hn4; [| |done].
  - destruct (fs_rename_Ok _ _ _ _ E4) as (h & Hh & Hf4).
    rewrite Hf2, lookup_insert_eq in Hg. injection Hg as <-.
    rewrite Hf3, lookup_insert_eq in Hh. injection Hh as <-.
    split; [done|]. exists f. split_and!.
    + by rewrite <-(Hk1 src Hsrc).
    + by rewrite Hf4, lookup_insert_eq.
    + intros p H1 H2. by rewrite Hf4, lookup_insert_ne, lookup_delete_ne, Hk3, Hk2, Hk1.
    + rewrite Hf4, lookup_insert_ne, lookup_delete_eq by done. done.
  - intros p Hp. destruct (decide (p = target)) as [->|Hpt].
    + assert (Hk4 : files fs4 = files fs3) by (by eapply fs_rename_Err).
      by rewrite Hk4, Hk3, Hk2, Hk1.
    + assert (Hk4 : files (snd (fs_rename new target fs3)) !! p = files fs3 !! p) by (by apply keeps_rename).
      rewrite E4 in Hk4. cbn in Hk4. by rewrite Hk4, Hk3, Hk2, Hk1.
Qed.

Lemma install_binary_replaces staged target : install_binary staged target = replace_with staged (with_suffix target NEW_SUFFIX) target.
Proof. reflexivity. Qed.

Lemma save_previous_replaces exe releases :
  save_previous exe releases =
    (_ ← fs_create_dir_all;
     replace_with exe (with_suffix (previous_path releases) NEW_SUFFIX) (previous_path releases)).
Proof. reflexivity. Qed.

(** ** Without faults *)
Lemma copy_quiet src dst fs f :
  faults fs = [] -> files fs !! src = Some f ->
  fs_copy src dst fs = (Ok tt, mkFS (<[dst := f]> (files fs)) []).
Proof.
  intros Hq Hf. unfold fs_copy. rewrite bind_eq, look_spec, Hf. destruct fs as [m fl]. cbn in Hq. subst fl.
  destruct f. reflexivity.
Qed.

Lemma rename_quiet p q fs f :
  faults fs = [] -> files fs !! p = Some f ->
  fs_rename p q fs = (Ok tt, mkFS (<[q := f]> (delete p (files fs))) []).
Proof.
  intros Hq Hf. unfold fs_rename. rewrite atomic_spec, Hq, bind_eq, look_spec, Hf.
  destruct fs as [m fl]. cbn in Hq. by subst fl.
Qed.

Lemma rename_now p q m rest f :
  m !! p = Some f -> fs_rename p q (mkFS m (None :: rest)) = (Ok tt, mkFS (<[q := f]> (delete p m)) rest).
Proof. intros Hf. unfold fs_rename. rewrite atomic_spec. cbn [faults]. rewrite bind_eq, look_spec. cbn [files]. by rewrite Hf. Qed.

Lemma remove_quiet p fs :
  faults fs = [] -> is_Some (files fs !! p) -> fs_remove p fs = (Ok tt, mkFS (delete p (files fs)) []).
Proof.
  intros Hq [f Hf]. unfold fs_remove. rewrite atomic_spec, Hq, bind_eq, look_spec, Hf.
  destruct fs as [m fl]. cbn in Hq. by subst fl.
Qed.

Lemma stale_quiet p fs : faults fs = [] -> remove_stale p fs = (Ok tt, mkFS (delete p (files fs)) []).
Proof.
  intros Hq. unfold remove_stale. rewrite bind_eq. cbn [fs_exists]. case_bool_decide as Hp.
  - by apply remove_quiet.
  - rewrite delete_id by (by apply eq_None_not_Some). destruct fs as [m fl]. cbn in Hq. by subst fl.
Qed.

Lemma exec_quiet p fs f :
  faults fs = [] -> files fs !! p = Some f ->
  make_executable p fs = (Ok tt, mkFS (<[p := mkFile (contents f) INSTALLED_MODE]> (files fs)) []).
Proof.
  intros Hq Hf. unfold make_executable, fs_stat, fs_set_mode.
  rewrite bind_eq, atomic_spec, Hq, bind_eq, look_spec, Hf. cbn [mret io_ret].
  rewrite atomic_spec, Hq, bind_eq, look_spec, Hf.
  destruct fs as [m fl]. cbn in Hq. by subst fl.
Qed.

Lemma replace_quiet src new target fs f :
  faults fs = [] -> src <> new -> files fs !! src = Some f ->
  replace_with src new target fs =
    (Ok target, mkFS (<[target := mkFile (contents f) INSTALLED_MODE]> (delete new (files fs))) []).
Proof.
  intros Hq Hsrc Hf. unfold replace_with. rewrite bind_eq, stale_quiet by done.
  rewrite bind_eq, (copy_quiet src new _ f); [|done|cbn [files]; by rewrite lookup_delete_ne].
  cbn [files]. rewrite bind_eq, (exec_quiet new _ f); [|done|cbn [files]; by rewrite lookup_insert_eq].
  cbn [files]. rewrite bind_eq, (rename_quiet new target _ (mkFile (contents f) INSTALLED_MODE));
    [|done|cbn [files]; by rewrite lookup_insert_eq].
  cbn [files]. unfold mret, io_ret. do 2 f_equal. f_equal.
  by rewrite insert_insert_eq, delete_insert_eq, delete_delete_eq.
Qed.

Lemma save_quiet exe releases fs f :
  faults fs = [] -> exe <> with_suffix (previous_path releases) NEW_SUFFIX -> files fs !! exe = Some f ->
  save_previous exe releases fs =
    (Ok (previous_path releases),
     mkFS (<[previous_path releases := mkFile (contents f) INSTALLED_MODE]>
             (delete (with_suffix (previous_path releases) NEW_SUFFIX) (files fs))) []).
Proof.
  intros Hq Hne Hf. rewrite save_previous_replaces, bind_eq. unfold fs_create_dir_all.
  rewrite atomic_spec, Hq. cbn [mret io_ret]. by rewrite (replace_quiet exe _ _ fs f).
Qed.

Lemma replace_file_quiet target data fs :
  faults fs = [] ->
  replace_file target data fs =
    (Ok target, mkFS (<[target := mkFile data CREATED_MODE]>
                        (delete (with_suffix target NEW_SUFFIX) (files fs))) []).
Proof.
  intros Hq. unfold replace_file. set (staging := with_suffix target NEW_SUFFIX).
  rewrite bind_eq, stale_quiet by done. rewrite bind_eq. unfold fs_write, put, next_fault. run.
  rewrite lookup_delete_eq. cbn [faults files].
  rewrite (rename_quiet staging target _ (mkFile data CREATED_MODE));
    [|done|cbn [files]; by rewrite lookup_insert_eq].
  cbn [files]. do 2 f_equal. f_equal. by rewrite delete_insert_eq, delete_delete_eq.
Qed.

(** ** Rollback *)

(** The paths a rollback uses. *)
Definition holding_path (releases : path) : path := with_suffix (previous_path releases) ROLL_SUFFIX.
Definition staging_path (releases : path) : path := with_suffix (previous_path releases) NEW_SUFFIX.

(** The binary is not among the files of the releases directory. *)
Definition apart (releases target : path) : Prop :=
  target <> previous_path releases /\ target <> holding_path releases /\ target <> staging_path releases /\
  with_suffix target NEW_SUFFIX <> previous_path releases /\ with_suffix target NEW_SUFFIX <> holding_path releases.

Lemma apart_dir releases leaf dir : dir <> releases -> apart releases (leaf :: dir).
Proof. intros Hd. unfold apart, holding_path, staging_path, previous_path. cbn. split_and!; congruence. Qed.

Lemma holding_distinct releases :
  holding_path releases <> previous_path releases /\ staging_path releases <> previous_path releases /\
  holding_path releases <> staging_path releases.
Proof.
  unfold holding_path, staging_path, previous_path. cbn. split_and!; intros Heq; injection Heq; discriminate.
Qed.

Lemma rollback_quiet releases target fs cur prev :
  faults fs = [] -> apart releases target ->
  files fs !! target = Some cur -> files fs !! previous_path releases = Some prev ->
  exists fs', rollback_to_previous releases target fs = (Ok target, fs') /\ faults fs' = [] /\
    files fs' !! target = Some (mkFile (contents prev) INSTALLED_MODE) /\
    files fs' !! previous_path releases = Some (mkFile (contents cur) INSTALLED_MODE) /\
    (forall p, p <> target -> p <> with_suffix target NEW_SUFFIX -> p <> previous_path releases ->
      p <> holding_path releases -> p <> staging_path releases -> files fs' !! p = files fs !! p).
Proof.
  intros Hq (H1 & H2 & H3 & H4 & H5) Hcur Hprev. destruct (holding_distinct releases) as (D1 & D2 & D3).
  unfold rollback_to_previous. rewrite bind_eq. cbn [fs_exists].
  rewrite bool_decide_eq_true_2 by eauto. cbn [negb].
  rewrite bind_eq, stale_quiet by done.
  rewrite bind_eq, (rename_quiet _ _ _ prev); [|done|cbn [files]; by rewrite lookup_delete_ne].
  cbn [files]. rewrite bind_eq, (save_quiet target releases _ cur);
    [|done|done|cbn [files]; by rewrite lookup_insert_ne, !lookup_delete_ne].
  cbn [files]. rewrite bind_eq. unfold try_io.
  rewrite install_binary_replaces, (replace_quiet _ _ target _ prev);
    [|done|by apply not_eq_sym|cbn [files]; by rewrite lookup_insert_ne, lookup_delete_ne, lookup_insert_eq].
  cbn [files]. rewrite bind_eq. unfold ignore. rewrite remove_quiet; [|done|].
  2:{ cbn [files]. rewrite lookup_insert_ne, lookup_delete_ne, lookup_insert_ne, lookup_delete_ne, lookup_insert_eq by done.
      eauto. }
  eexists. split; [reflexivity|]. cbn [files faults]. split_and!; [done|..].
  - by rewrite lookup_delete_ne, lookup_insert_eq.
  - by rewrite lookup_delete_ne, lookup_insert_ne, lookup_delete_ne, lookup_insert_eq.
  - intros p P1 P2 P3 P4 P5. rewrite lookup_delete_ne, lookup_insert_ne by done.
    by rewrite lookup_delete_ne, lookup_insert_ne, lookup_delete_ne, lookup_insert_ne, lookup_delete_ne, lookup_delete_ne.
Qed.

(** What a replacement with faults leaves: the target is the old file or all of the new one,
    and nothing else changes but the file beside it. *)
Definition replaced (src new target : path) (fs fs' : FS) : Prop :=
  (forall p, p <> target -> p <> new -> files fs' !! p = files fs !! p) /\
  (files fs' !! target = files fs !! target \/
   exists f, files fs !! src = Some f /\ files fs' !! target = Some (mkFile (contents f) INSTALLED_MODE)).

Lemma replace_with_replaced src new target fs :
  src <> new -> new <> target ->
  fst (replace_with src new target fs) <> Panic /\
  replaced src new target fs (snd (replace_with src new target fs)).
Proof.
  intros H1 H2. pose proof (replace_with_spec src new target fs H1 H2) as Hr.
  destruct (replace_with src new target fs) as [[p|e|] fs']; cbn [fst snd]; [| |done].
  - destruct Hr as (_ & f & Hf & Ht & Hk & _). split; [done|]. split; [by intros; apply Hk|]. right. eauto.
  - split; [done|]. split; [by intros; apply Hr|]. left. by apply Hr, not_eq_sym.
Qed.

Lemma save_previous_replaced exe releases fs :
  exe <> staging_path releases ->
  fst (save_previous exe releases fs) <> Panic /\
  replaced exe (staging_path releases) (previous_path releases) fs (snd (save_previous exe releases fs)).
Proof.
  intros Hexe. rewrite save_previous_replaces, bind_eq. fold (staging_path releases).
  pose proof (no_panic_dir fs) as Hnd.
  assert (Hkd : forall p, files (snd (fs_create_dir_all fs)) !! p = files fs !! p) by (intros; by apply keeps_dir).
  destruct (fs_create_dir_all fs) as [[[]|e|] fs1]; cbn in Hnd, Hkd; [| |done].
  - pose proof (replace_with_replaced exe (staging_path releases) (previous_path releases) fs1 Hexe
      ltac:(by apply holding_distinct)) as [Hnp [Hk Hr]].
    split; [done|]. split; [intros; by rewrite Hk, Hkd|]. rewrite <-!Hkd. done.
  - split; [done|]. split; [intros; apply Hkd|left; apply Hkd].
Qed.

(** With faults the binary is the old one or the snapshot; the snapshot is the old one, the
    binary, or gone. *)
Lemma rollback_safe releases target fs :
  apart releases target ->
  let '(r, fs') := rollback_to_previous releases target fs in
  r <> Panic /\
  (files fs' !! target = files fs !! target \/
   exists prev, files fs !! previous_path releases = Some prev /\
     files fs' !! target = Some (mkFile (contents prev) INSTALLED_MODE)) /\
  (files fs' !! previous_path releases = files fs !! previous_path releases \/
   files fs' !! previous_path releases = None \/
   exists cur, files fs !! target = Some cur /\
     files fs' !! previous_path releases = Some (mkFile (contents cur) INSTALLED_MODE)) /\
  (forall p, p <> target -> p <> with_suffix target NEW_SUFFIX -> p <> previous_path releases ->
    p <> holding_path releases -> p <> staging_path releases -> files fs' !! p = files fs !! p).
Proof.
  intros (H1 & H2 & H3 & H4 & H5). destruct (holding_distinct releases) as (D1 & D2 & D3).
  unfold rollback_to_previous. rewrite bind_eq. cbn [fs_exists].
  case_bool_decide as Hex; cbn [negb]; [|by split_and!; [|left|left|]].
  destruct Hex as [prev Hprev].
  rewrite bind_eq. fold (holding_path releases). set (hp := holding_path releases) in *.
  set (pp := previous_path releases) in *.
  pose proof (no_panic_stale hp fs) as Hn1.
  assert (Hk1 : forall p, p <> hp -> files (snd (remove_stale hp fs)) !! p = files fs !! p)
    by (intros; by apply keeps_stale).
  destruct (remove_stale hp fs) as [[[]|e|] fs1]; cbn in Hn1, Hk1; [| |done].
  2:{ split; [done|]. rewrite !Hk1 by (by apply not_eq_sym || done). split_and!; [by left|by left|].
      intros. by apply Hk1. }
  rewrite bind_eq. pose proof (no_panic_rename pp hp fs1) as Hn2.
  destruct (fs_rename pp hp fs1) as [[[]|e|] fs2] eqn:E2; cbn in Hn2; [| |done].
  2:{ apply fs_rename_Err in E2. rewrite E2. split; [done|].
      rewrite !Hk1 by (by apply not_eq_sym || done). split_and!; [by left|by left|]. intros. by apply Hk1. }
  destruct (fs_rename_Ok _ _ _ _ E2) as (f & Hf & Hf2). rewrite Hk1, Hprev in Hf by (by apply not_eq_sym).
  injection Hf as <-.
  assert (Hk2 : forall p, p <> hp -> p <> pp -> files fs2 !! p = files fs !! p).
  { intros p P1 P2. by rewrite Hf2, lookup_insert_ne, lookup_delete_ne, Hk1. }
  assert (Hpp : files fs2 !! pp = None) by (by rewrite Hf2, lookup_insert_ne, lookup_delete_eq).
  assert (Hhp : files fs2 !! hp = Some prev) by (by rewrite Hf2, lookup_insert_eq).
  clear E2 Hf2 Hn1 Hn2 Hk1.
  rewrite bind_eq. pose proof (save_previous_replaced target releases fs2 H3) as [Hn3 [Hk3 Ht3]]. fold pp in Hk3, Ht3.
  destruct (save_previous target releases fs2) as [[q|e|] fs3]; cbn [fst snd] in Hn3, Hk3, Ht3; [| |done].
  all: assert (Hpp3 : files fs3 !! pp = None \/ exists cur, files fs !! target = Some cur /\
    files fs3 !! pp = Some (mkFile (contents cur) INSTALLED_MODE))
    by (rewrite Hpp, Hk2 in Ht3 by done; naive_solver).
  2:{ split; [done|]. split; [left; by rewrite Hk3, Hk2|]. split; [by right|]. intros. by rewrite Hk3, Hk2. }
  rewrite bind_eq. unfold try_io. rewrite install_binary_replaces.
  pose proof (replace_with_replaced hp (with_suffix target NEW_SUFFIX) target fs3
    ltac:(by apply not_eq_sym) ltac:(by apply with_suffix_ne)) as [Hn4 [Hk4 Ht4]].
  destruct (replace_with hp _ target fs3) as [r4 fs4]. cbn [fst snd] in Hn4, Hk4, Ht4.
  assert (Hgoal : forall fs5, (forall p, p <> hp -> files fs5 !! p = files fs4 !! p) ->
    (files fs5 !! target = files fs !! target \/
     exists prev0, files fs !! pp = Some prev0 /\ files fs5 !! target = Some (mkFile (contents prev0) INSTALLED_MODE)) /\
    (files fs5 !! pp = files fs !! pp \/ files fs5 !! pp = None \/
     exists cur, files fs !! target = Some cur /\ files fs5 !! pp = Some (mkFile (contents cur) INSTALLED_MODE)) /\
    (forall p, p <> target -> p <> with_suffix target NEW_SUFFIX -> p <> pp -> p <> hp -> p <> staging_path releases ->
      files fs5 !! p = files fs !! p)).
  { intros fs5 Hk5. split_and!.
    - rewrite Hk5 by done. rewrite Hk3, Hk2 in Ht4 by done. rewrite Hk3, Hhp in Ht4 by done. naive_solver.
    - right. rewrite Hk5, Hk4 by (done || by apply not_eq_sym). done.
    - intros p P1 P2 P3 P4 P5. by rewrite Hk5, Hk4, Hk3, Hk2. }
  assert (Hk5 : forall p, p <> hp -> files (snd (fs_remove hp fs4)) !! p = files fs4 !! p)
    by (intros; by apply keeps_remove).
  pose proof (no_panic_remove hp fs4) as Hn5.
  destruct r4 as [q4|e4|]; [| |done]; rewrite bind_eq; unfold ignore, io_res;
    destruct (fs_remove hp fs4) as [[[]|e5|] fs5]; try done; (split; [done|]); by apply Hgoal.
Qed.

(** A copy that fails after the snapshot was moved away loses the snapshot: the rollback
    fails, and so does every later one. *)
Lemma rollback_loses_snapshot releases target m cur prev :
  apart releases target -> m !! target = Some cur -> m !! previous_path releases = Some prev ->
  m !! holding_path releases = None -> m !! staging_path releases = None ->
  exists fs', rollback_to_previous releases target (mkFS m [None; None; Some FailsClean]) = (Err IoFault, fs') /\
  rollback_to_previous releases target fs' = (Err NotFound, fs') /\ files fs' !! target = Some cur.
Proof.
  intros (H1 & H2 & H3 & H4 & H5) Hcur Hprev Hh Hs. destruct (holding_distinct releases) as (D1 & D2 & D3).
  set (m' := <[holding_path releases := prev]> (delete (previous_path releases) m)).
  assert (Hfirst : rollback_to_previous releases target (mkFS m [None; None; Some FailsClean]) =
    (Err IoFault, mkFS m' [])).
  { unfold rollback_to_previous. rewrite bind_eq. cbn [fs_exists files].
    rewrite bool_decide_eq_true_2 by eauto. cbn [negb]. rewrite bind_eq. unfold remove_stale at 1.
    rewrite bind_eq. cbn [fs_exists files]. fold (holding_path releases).
    rewrite bool_decide_eq_false_2 by (rewrite Hh; by intros [? ?]). cbn [mret io_ret].
    rewrite bind_eq, (rename_now _ _ _ _ prev Hprev). fold m'.
    rewrite bind_eq, save_previous_replaces, bind_eq. unfold fs_create_dir_all. rewrite atomic_spec. cbn [faults files mret io_ret].
    unfold replace_with. fold (staging_path releases). rewrite bind_eq. unfold remove_stale at 1.
    rewrite bind_eq. cbn [fs_exists files]. rewrite bool_decide_eq_false_2.
    2:{ subst m'. rewrite lookup_insert_ne, lookup_delete_ne, Hs by done. by intros [? ?]. }
    cbn [mret io_ret]. unfold fs_copy at 1. rewrite bind_eq, bind_eq, look_spec. cbn [files].
    assert (m' !! target = Some cur) as -> by (subst m'; by rewrite lookup_insert_ne, lookup_delete_ne).
    reflexivity. }
  rewrite Hfirst. exists (mkFS m' []). split; [done|]. split.
  - unfold rollback_to_previous. rewrite bind_eq. cbn [fs_exists files].
    rewrite bool_decide_eq_false_2; [done|]. subst m'. rewrite lookup_insert_ne, lookup_delete_eq by done.
    by intros [? ?].
  - cbn [files]. subst m'. by rewrite lookup_insert_ne, lookup_delete_ne.
Qed.

(** ** How often the watchdog restarts the node *)
Section watchdog.
Context `{J : ReleaseJson} `{!ReleaseJsonLaws J}.
Context (releases : path) (w max : N) (Hmax : 0 < max) (Hwidth : max < u32_mod).

(** The log on disk, read as [read_restart_log] reads it. *)
Definition disk_log (fs : FS) : list N :=
  match files fs !! restart_log_path releases with
  | Some f => events (default (mkRestartLog []) (log_of_json (contents f)))
  | None => []
  end.

(** The restarts of [past] that the window ending at [t] holds. *)
Definition in_window (t : N) (past : list N) : list N := filter (fun x => t - w <= x /\ x <= t) past.

Definition window_ok (past : list N) : Prop := forall t, len (in_window t past) <= max.

(** The log has at least the restarts of [past] since some moment before the window of [now]. *)
Definition log_inv (fs : FS) (past : list N) (now : N) : Prop :=
  faults fs = [] /\ len (disk_log fs) < u32_mod /\
  exists c, c <= now - w /\ filter (fun x => c <= x) past ⊆+ disk_log fs.

Lemma read_log_quiet fs : faults fs = [] -> read_restart_log releases fs = (Ok (mkRestartLog (disk_log fs)), fs).
Proof.
  intros Hq. unfold read_restart_log, fs_read, disk_log. rewrite atomic_spec, Hq, bind_eq, look_spec.
  destruct (files fs !! restart_log_path releases) as [f|]; cbn; [|done].
  by destruct (default _ _) as [l].
Qed.

Lemma append_quiet fs ts : faults fs = [] ->
  exists fs', append_restart_event releases ts w fs = (Ok tt, fs') /\ faults fs' = [] /\
    disk_log fs' = sort_by N.leb (filter (fun t => ts - w <= t) (disk_log fs ++ [ts])) /\
    (forall p, p <> restart_log_path releases -> p <> with_suffix (restart_log_path releases) NEW_SUFFIX ->
      files fs' !! p = files fs !! p).
Proof.
  intros Hq. unfold append_restart_event. rewrite bind_eq. unfold fs_create_dir_all. rewrite atomic_spec, Hq.
  cbn [mret io_ret]. rewrite bind_eq, (read_log_quiet fs Hq). cbn [events]. unfold saturating_sub.
  set (kept := sort_by _ _). rewrite bind_eq, replace_file_quiet by done.
  eexists. split; [reflexivity|]. cbn [files faults]. split; [done|]. split.
  - unfold disk_log. cbn [files]. rewrite lookup_insert_eq. cbn [contents]. by rewrite log_json_roundtrip.
  - intros p P1 P2. by rewrite lookup_insert_ne, lookup_delete_ne.
Qed.

(** While the log is shorter than the cap, a restart is allowed. *)
Lemma register_few fs now : faults fs = [] -> len (disk_log fs) < max ->
  exists fs', try_register_restart releases now w max fs = (Ok true, fs') /\ faults fs' = [] /\
    len (disk_log fs') <= len (disk_log fs) + 1 /\
    (forall p, p <> restart_log_path releases -> p <> with_suffix (restart_log_path releases) NEW_SUFFIX ->
      files fs' !! p = files fs !! p).
Proof.
  intros Hq Hlen. unfold try_register_restart. rewrite bind_eq, (read_log_quiet fs Hq).
  assert (restart_allowed (mkRestartLog (disk_log fs)) now w max = true) as ->.
  { unfold restart_allowed. rewrite (proj2 (N.eqb_neq max 0)) by lia. cbn [events]. apply N.ltb_lt.
    match goal with |- len (filter ?P ?l) mod _ < _ => assert (len (filter P l) <= len l) end.
    { unfold len. pose proof (length_filter (fun t => saturating_sub now w <= t) (disk_log fs)). lia. }
    rewrite N.mod_small by lia. lia. }
  destruct (append_quiet fs now Hq) as (fs' & Happ & Hq' & Hlog & Hk).
  cbn [negb]. rewrite bind_eq. unfold ignore. rewrite Happ. exists fs'. split_and!; try done.
  rewrite Hlog. unfold len. rewrite (Permutation_length (sort_by_perm N.leb _)).
  pose proof (length_filter (fun t => now - w <= t) (disk_log fs ++ [now])) as Hf.
  rewrite length_app in Hf. cbn in Hf. lia.
Qed.

Lemma filter_weaken (P Q : N -> Prop) `{!forall x, Decision (P x), !forall x, Decision (Q x)} (l : list N) :
  (forall x, P x -> Q x) -> filter P (filter Q l) = filter P l.
Proof. intros Himp. rewrite list_filter_filter. apply list_filter_iff. intros x. naive_solver. Qed.

Lemma len_filter_mono (P Q : N -> Prop) `{!forall x, Decision (P x), !forall x, Decision (Q x)} (l : list N) :
  (forall x, x ∈ l -> P x -> Q x) -> len (filter P l) <= len (filter Q l).
Proof.
  intros Himp. induction l as [|x l IH]; [done|]. rewrite !filter_cons.
  assert (len (filter P l) <= len (filter Q l)) as IH' by (apply IH; set_solver).
  unfold len in *. pose proof (Himp x ltac:(set_solver)).
  destruct (decide (P x)), (decide (Q x)); cbn; try lia; tauto.
Qed.

Lemma filter_submseteq (P : N -> Prop) `{!forall x, Decision (P x)} (l k : list N) :
  l ⊆+ k -> filter P l ⊆+ filter P k.
Proof.
  induction 1 as [|x l k _ IH|x y l|x l k _ IH|l1 l2 l3 _ IH1 _ IH2]; rewrite ?filter_cons.
  - done.
  - case_decide; [by constructor|done].
  - repeat case_decide; try done. constructor.
  - case_decide; [by constructor|done].
  - by etransitivity.
Qed.

(** What the gate lets through, the window has room for. *)
Lemma restart_allowed_room fs past now :
  log_inv fs past now -> Forall (fun x => x <= now) past ->
  restart_allowed (mkRestartLog (disk_log fs)) now w max = true ->
  len (filter (fun x => now - w <= x) (disk_log fs)) < max /\ len (in_window now past) < max.
Proof.
  intros (_ & Hlen & c & Hc & Hlog) Hpast. unfold restart_allowed.
  rewrite (proj2 (N.eqb_neq max 0)) by lia. cbn [events]. unfold saturating_sub.
  assert (len (filter (fun x => now - w <= x) (disk_log fs)) <= len (disk_log fs)) as Hle.
  { unfold len. pose proof (length_filter (fun x => now - w <= x) (disk_log fs)). lia. }
  rewrite N.mod_small by lia. intros Ha%N.ltb_lt. split; [done|]. eapply N.le_lt_trans; [|exact Ha].
  assert (in_window now past = filter (fun x => now - w <= x) (filter (fun x => c <= x) past)) as ->.
  { rewrite filter_weaken by (intros; lia). unfold in_window. clear -Hpast.
    induction Hpast as [|x l Hx _ IH]; [done|]. rewrite !filter_cons, IH. repeat case_decide; try done; lia. }
  apply (filter_submseteq (fun x => now - w <= x)), submseteq_length in Hlog. unfold len. lia.
Qed.

(** One more restart at [now], with room in its window. *)
Lemma window_ok_snoc past now :
  Forall (fun x => x <= now) past -> window_ok past -> len (in_window now past) < max -> window_ok (past ++ [now]).
Proof.
  intros Hpast Hok Hlt t. unfold in_window. rewrite filter_app, len_app. destruct (decide (now <= t)) as [Hnt|Hnt].
  - assert (len (filter (fun x => t - w <= x /\ x <= t) [now]) <= 1).
    { rewrite filter_cons. case_decide; unfold len; cbn; lia. }
    assert (len (filter (fun x => t - w <= x /\ x <= t) past) <= len (in_window now past)); [|lia].
    apply len_filter_mono. intros x Hx. rewrite Forall_forall in Hpast. specialize (Hpast x Hx). lia.
  - rewrite (filter_none _ [now]) by (repeat constructor; lia). rewrite N.add_0_r. apply Hok.
Qed.

Lemma register_spec fs past now :
  log_inv fs past now -> Forall (fun x => x <= now) past -> window_ok past ->
  exists fs' b, try_register_restart releases now w max fs = (Ok b, fs') /\
    let past' := if (b : bool) then past ++ [now] else past in
    log_inv fs' past' now /\ Forall (fun x => x <= now) past' /\ window_ok past'.
Proof.
  intros Hinv Hpast Hok. pose proof Hinv as (Hq & _ & c & Hc & Hlog). unfold try_register_restart.
  rewrite bind_eq, (read_log_quiet fs Hq). pose proof (restart_allowed_room fs past now Hinv Hpast) as Hroom.
  destruct (restart_allowed _ now w max); cbn [negb]; [|by exists fs, false].
  destruct (Hroom eq_refl) as [Hcount Hwin]. destruct (append_quiet fs now Hq) as (fs' & Happ & Hq' & Hlog' & _).
  rewrite bind_eq. unfold ignore. rewrite Happ. exists fs', true. split; [done|]. cbv zeta. split_and!.
  - split; [done|]. rewrite Hlog'. split.
    + unfold len. rewrite (Permutation_length (sort_by_perm N.leb _)), filter_app, length_app.
      pose proof (length_filter (fun x => now - w <= x) [now]) as H1. cbn [length] in H1. unfold len in Hcount. lia.
    + exists (now - w). split; [done|]. rewrite (sort_by_perm N.leb), !filter_app. apply submseteq_app; [|done].
      rewrite <-(filter_weaken (fun x => now - w <= x) (fun x => c <= x)) by (intros; lia). by apply filter_submseteq.
  - apply Forall_app. split; [done|]. by repeat constructor.
  - by apply window_ok_snoc.
Qed.

Lemma log_inv_later fs past now now' : now <= now' -> log_inv fs past now -> log_inv fs past now'.
Proof. intros Hle (Hq & Hl & c & Hc & Hlog). split; [done|]. split; [done|]. exists c. split; [lia|done]. Qed.

Lemma watchdog_run_spec polls : forall d fs past now,
  log_inv fs past now -> Forall (fun x => x <= now) past -> window_ok past ->
  StronglySorted N.le (now :: (fst <$> polls)) ->
  exists rs fs', watchdog_run releases w max d polls fs = (Ok rs, fs') /\ window_ok (past ++ rs).
Proof.
  induction polls as [|[t h] polls IH]; intros d fs past now Hinv Hpast Hok Hs; cbn [watchdog_run].
  - exists [], fs. by rewrite app_nil_r.
  - apply StronglySorted_inv in Hs as [Hs Hle]. cbn [fmap list_fmap fst] in Hs, Hle.
    apply Forall_cons in Hle as [Ht _].
    assert (Hinv' : log_inv fs past t) by (by eapply log_inv_later).
    assert (Hpast' : Forall (fun x => x <= t) past).
    { eapply Forall_impl; [exact Hpast|]. cbn. intros; lia. }
    assert (Hturn : exists d' b fs', watchdog_turn releases w max d t h fs = (Ok (d', b), fs') /\
      let past' := if (b : bool) then past ++ [t] else past in
      log_inv fs' past' t /\ Forall (fun x => x <= t) past' /\ window_ok past').
    { unfold watchdog_turn. destruct (stall_observe d h) as [d' status].
      destruct status; [by exists d', false, fs..|].
      destruct (register_spec fs past t Hinv' Hpast' Hok) as (fs' & b & Hr & Hp).
      rewrite bind_eq, Hr. by exists (StallDetector_new (stall_recover_secs d') (poll_secs d')), b, fs'. }
    destruct Hturn as (d' & b & fs' & Hturn & Hi & Hp & Ho). rewrite bind_eq, Hturn.
    destruct (IH d' fs' _ t Hi Hp Ho Hs) as (rs & fs'' & Hrun & Hw).
    rewrite bind_eq, Hrun. exists (if b then t :: rs else rs), fs''. split; [done|].
    destruct b; [by rewrite <-app_assoc in Hw|done].
Qed.
End watchdog.

(** A disk that fails twice, at the log's reading and at its writing: the restart goes on. *)
Lemma register_failing `{J : ReleaseJson} releases w max now m rest :
  try_register_restart releases now w max (mkFS m (Some FailsClean :: Some FailsClean :: rest)) =
    (Ok true, mkFS m rest).
Proof.
  unfold try_register_restart. rewrite bind_eq. unfold read_restart_log at 1, fs_read. rewrite atomic_spec. cbn [faults files].
  assert (restart_allowed (mkRestartLog []) now w max = true) as ->.
  { unfold restart_allowed. destruct (N.eqb_spec max 0); [done|]. apply N.ltb_lt. change (0 mod u32_mod < max). rewrite N.Div0.mod_0_l. lia. }
  cbn [negb]. rewrite bind_eq. unfold ignore, append_restart_event. rewrite bind_eq.
  unfold fs_create_dir_all. rewrite atomic_spec. done.
Qed.

(** On a disk where every operation fails the gate counts nothing: however small the cap,
    the watchdog restarts the node each time that the stall is seen. *)
Theorem unlogged_restarts_unlimited `{J : ReleaseJson} releases w max recover poll n t h m :
  recover <> 0 -> recover <= poll -> poll < u64_mod ->
  watchdog_run releases w max (StallDetector_new recover poll) (mjoin (replicate n [(t, h); (t, h)]))
    (mkFS m (mjoin (replicate n [Some FailsClean; Some FailsClean]))) = (Ok (replicate n t), mkFS m []).
Proof.
  intros Hr Hp Hpoll.
  assert (forall fs, watchdog_turn releases w max (StallDetector_new recover poll) t h fs =
    (Ok (mkStall h 0 recover poll true, false), fs)) as H1.
  { intros fs. unfold watchdog_turn, stall_observe. cbn [StallDetector_new stall_recover_secs seeded negb].
    by rewrite (proj2 (N.eqb_neq recover 0)). }
  assert (forall rest, watchdog_turn releases w max (mkStall h 0 recover poll true) t h
    (mkFS m (Some FailsClean :: Some FailsClean :: rest)) = (Ok (StallDetector_new recover poll, true), mkFS m rest)) as H2.
  { intros rest. unfold watchdog_turn, stall_observe. cbn [stall_recover_secs seeded negb last_head stalled_for_secs poll_secs].
    rewrite (proj2 (N.eqb_neq recover 0)), N.eqb_refl by done. cbn [negb]. unfold saturating_add. cbn [N.add].
    rewrite (N.min_l poll) by lia. rewrite (proj2 (N.leb_le recover poll)) by done. by rewrite bind_eq, register_failing. }
  induction n as [|n IH]; [done|]. cbn [replicate mjoin list_join app watchdog_run].
  rewrite bind_eq, H1, !bind_eq, H2, bind_eq.
  fold (@mjoin list _). unfold mjoin in *. by rewrite IH.
Qed.

(** ** The stall detector against its observations *)

(** How often the last head was seen again at the end of the observations. *)
Fixpoint repeats (n : N) (heads : list N) (last : N) : N :=
  match heads with
  | [] => n
  | h :: heads => repeats (if h =? last then n + 1 else 0) heads h
  end.

Fixpoint stall_run (d : StallDetector) (heads : list N) : StallDetector :=
  match heads with
  | [] => d
  | h :: heads => stall_run (fst (stall_observe d h)) heads
  end.

Lemma last_cons (h last : N) heads : List.last (h :: heads) last = List.last heads h.
Proof.
  revert h last. induction heads as [|x heads IH]; intros h last; [done|].
  change (List.last (x :: heads) last = List.last (x :: heads) h). by rewrite !IH.
Qed.

Lemma stall_run_spec heads : forall d n last,
  stall_recover_secs d <> 0 -> seeded d = true -> last_head d = last ->
  stalled_for_secs d = N.min (n * poll_secs d) (u64_mod - 1) ->
  let d' := stall_run d heads in
  stalled_for_secs d' = N.min (repeats n heads last * poll_secs d) (u64_mod - 1) /\
  seeded d' = true /\ last_head d' = List.last heads last /\
  stall_recover_secs d' = stall_recover_secs d /\ poll_secs d' = poll_secs d.
Proof.
  induction heads as [|h heads IH]; intros d n last Hr Hs Hl Hst; cbn [stall_run repeats].
  { by subst last. }
  unfold stall_observe. rewrite (proj2 (N.eqb_neq _ 0)) by done. rewrite Hs, Hl. cbn [negb].
  destruct (N.eqb_spec h last) as [->|Hne]; cbn [negb fst].
  - specialize (IH (mkStall last (saturating_add u64_mod (stalled_for_secs d) (poll_secs d))
      (stall_recover_secs d) (poll_secs d) true) (n + 1) last Hr eq_refl eq_refl).
    cbn [stalled_for_secs poll_secs stall_recover_secs] in IH. destruct IH as (H1 & H2 & H3 & H4 & H5).
    { rewrite Hst. unfold saturating_add. rewrite N.mul_add_distr_r, N.mul_1_l. lia. }
    split_and!; try done. by rewrite H3, last_cons.
  - specialize (IH (mkStall h 0 (stall_recover_secs d) (poll_secs d) true) 0 h Hr eq_refl eq_refl).
    cbn [stalled_for_secs poll_secs stall_recover_secs] in IH. destruct IH as (H1 & H2 & H3 & H4 & H5).
    { lia. }
    split_and!; try done. by rewrite H3, last_cons.
Qed.
