(* ===== verification/ReleaseNode.v ===== *)
(** * ReleaseNode: how a node accepts, caches, installs and rolls back releases

    Models the release methods of [NodeState] in [src/crates/aii-node/src/lib.rs], the RPC
    handlers in front of them ([src/crates/aii-rpc/src/lib.rs]), and the boot-health check
    of [head_watchdog.rs].  A method is a function from the node to the node and its
    outcome; a scheduled [execve] is an entry of [restarts]. *)
From stdpp Require Import base tactics gmap numbers strings list.
From Stdlib Require Import NArith Lia.
From Stdlib.Init Require Import Byte.
From S2P Require Import Prelude Bytes Crypto Release ReleaseStore.

Record ReleaseNode := mkReleaseNode {
  data_dir : option path;
  latest_release : option ReleaseManifest;
  auto_install_releases : bool;
  install_target_override : option path;
  current_exe : option path;        (** what [current_exe()] returns *)
  head_number : N;
  disk : FS;
  restarts : list path
}.

Definition with_disk (s : ReleaseNode) (fs : FS) : ReleaseNode :=
  mkReleaseNode (data_dir s) (latest_release s) (auto_install_releases s) (install_target_override s)
    (current_exe s) (head_number s) fs (restarts s).
Definition with_latest (s : ReleaseNode) (m : ReleaseManifest) : ReleaseNode :=
  mkReleaseNode (data_dir s) (Some m) (auto_install_releases s) (install_target_override s)
    (current_exe s) (head_number s) (disk s) (restarts s).
Definition with_restart (s : ReleaseNode) (exe : path) : ReleaseNode :=
  mkReleaseNode (data_dir s) (latest_release s) (auto_install_releases s) (install_target_override s)
    (current_exe s) (head_number s) (disk s) (restarts s ++ [exe]).

Inductive InstallReason :=
| InstallDone
| NoDataDir
| NoCachedBinary (version : bytes)
| NoCurrentExe
| InstallFailed (e : IoError)
| RollbackFailed (e : IoError).

Record InstallOutcome := mkInstallOutcome {
  scheduled : bool;
  reason : InstallReason;
  restart_in_secs : N
}.

Definition RESTART_DELAY_SECS : N := 2.
Definition refused (r : InstallReason) : InstallOutcome := mkInstallOutcome false r 0.
Definition accepted_install : InstallOutcome := mkInstallOutcome true InstallDone RESTART_DELAY_SECS.

(** The outcome of an operation whose failure is only logged. *)
Definition log_io {E A} (op : io E A) (s : ReleaseNode) : ReleaseNode :=
  with_disk s (snd (op (disk s))).

Section node.
Context `{ReleaseCrypto} `{HexCrate} `{ReleaseJson}.

(** The binary that is replaced. *)
Definition install_target (s : ReleaseNode) : option path :=
  match install_target_override s with Some p => Some p | None => current_exe s end.

(** The self-restart is scheduled unless the target is overridden. *)
Definition schedule_restart (s : ReleaseNode) (target : path) : ReleaseNode :=
  match install_target_override s with Some _ => s | None => with_restart s target end.

(** At the time [now]. *)
Definition install_release (now : N) (version : bytes) (s : ReleaseNode) : InstallOutcome * ReleaseNode :=
  match data_dir s with
  | None => (refused NoDataDir, s)
  | Some dir =>
      let staged := binary_path dir version in
      if negb (bool_decide (is_Some (files (disk s) !! staged))) then (refused (NoCachedBinary version), s)
      else
        match install_target s with
        | None => (refused NoCurrentExe, s)
        | Some target =>
            let releases := releases_dir dir in
            let s := log_io (save_previous target releases) s in
            let pending := mkBootPending version (head_number s) now in
            let s := log_io (write_boot_pending releases pending) s in
            match install_binary staged target (disk s) with
            | (Ok _, fs) => (accepted_install, schedule_restart (with_disk s fs) target)
            | (Err e, fs) => (refused (InstallFailed e), with_disk s fs)
            | (Panic, fs) => (refused InstallDone, with_disk s fs)
            end
        end
  end.

Definition rollback_release (s : ReleaseNode) : InstallOutcome * ReleaseNode :=
  match data_dir s with
  | None => (refused NoDataDir, s)
  | Some dir =>
      match install_target s with
      | None => (refused NoCurrentExe, s)
      | Some target =>
          match rollback_to_previous (releases_dir dir) target (disk s) with
          | (Ok _, fs) => (accepted_install, schedule_restart (with_disk s fs) target)
          | (Err e, fs) => (refused (RollbackFailed e), with_disk s fs)
          | (Panic, fs) => (refused InstallDone, with_disk s fs)
          end
      end
  end.

Definition maybe_auto_install_release (now : N) (v : bytes) (s : ReleaseNode) : ReleaseNode :=
  if negb (auto_install_releases s) then s
  else
    match data_dir s with
    | None => s
    | Some dir =>
        if negb (bool_decide (is_Some (files (disk s) !! binary_path dir v))) then s
        else
          match latest_release s with
          | None => s
          | Some m =>
              if negb (bool_decide (version m = v)) then s
              else snd (install_release now v s)
          end
    end.

(** Whether the announcement is stored: only a strictly newer one is. *)
Definition record_release_announcement (now : N) (m : ReleaseManifest) (s : ReleaseNode)
    : bool * ReleaseNode :=
  if negb (is_strictly_newer m (latest_release s)) then (false, s)
  else (true, maybe_auto_install_release now (version m) (with_latest s m)).

Inductive ImportReason :=
| ImportDone
| ImportNoDataDir
| NoVerifiedManifest
| VersionMismatch (latest : bytes)
| ImportStore (e : ReleaseStoreError).

Definition import_release_binary (now : N) (v data : bytes) (s : ReleaseNode)
    : (bool * ImportReason) * ReleaseNode :=
  match data_dir s with
  | None => ((false, ImportNoDataDir), s)
  | Some dir =>
      match latest_release s with
      | None => ((false, NoVerifiedManifest), s)
      | Some m =>
          if negb (bool_decide (version m = v)) then ((false, VersionMismatch (version m)), s)
          else
            match store_verified_binary dir v (sha256_hex m) data (disk s) with
            | (Ok _, fs) => ((true, ImportDone), maybe_auto_install_release now v (with_disk s fs))
            | (Err e, fs) => ((false, ImportStore e), with_disk s fs)
            | (Panic, fs) => ((false, ImportDone), with_disk s fs)
            end
      end
  end.

Definition release_binary_bytes (v : bytes) (s : ReleaseNode) : option bytes * ReleaseNode :=
  match data_dir s with
  | None => (None, s)
  | Some dir =>
      match load_binary dir v (disk s) with
      | (Ok r, fs) => (r, with_disk s fs)
      | (_, fs) => (None, with_disk s fs)
      end
  end.

(** ** The RPC handlers *)
Inductive AnnounceReason :=
| AnnounceDone
| NotHex32
| MalformedSignature (e : KeyError)
| NoPinnedKey (n : N)
| NotNewer.

(** [announce_release] with the keys pinned in the binary; the propagation to the peers is
    theirs to handle. *)
Definition announce_release (pinned : list ed_pk) (now : N) (m : ReleaseManifest) (s : ReleaseNode)
    : (bool * AnnounceReason) * ReleaseNode :=
  match hex_decode (trim_0x (sha256_hex m)) ≫= (fun b => arr_of (n := 32) b) with
  | None => ((false, NotHex32), s)
  | Some sha =>
      match Signature_from_hex (ed25519_sig_hex m) with
      | Ok sg =>
          let payload := canonical_payload (version m) sha (timestamp_unix m) in
          if negb (existsb (fun pk => ed_verify pk payload sg) pinned)
          then ((false, NoPinnedKey (len pinned)), s)
          else
            let '(stored, s) := record_release_announcement now m s in
            if stored then ((true, AnnounceDone), s) else ((false, NotNewer), s)
      | Err e => ((false, MalformedSignature e), s)
      | Panic => ((false, AnnounceDone), s)
      end
  end.

(** [get_release_binary]: the bytes, before they become hexadecimal text. *)
Definition rpc_get_release_binary (v : bytes) (s : ReleaseNode) : option bytes :=
  fst (release_binary_bytes v s).

Definition rpc_import_release_binary (now : N) (v hex_bytes : bytes) (s : ReleaseNode) : bool * ReleaseNode :=
  match hex_decode (trim_0x hex_bytes) with
  | None => (false, s)
  | Some data => let '((ok, _), s) := import_release_binary now v data s in (ok, s)
  end.

(** ** The boot-health check

    [start_boot_health_confirm] for a pending record: what it does at its start, when the
    record is stale, or else after [confirm_secs] with the head it then finds. *)
Inductive HealthAction :=
| HealthNoop
| HealthConfirmed
| HealthRefused
| HealthRollback (o : InstallOutcome).

Definition unhealthy (now window_secs max_per_window : N) (dir : path) (s : ReleaseNode)
    : HealthAction * ReleaseNode :=
  match try_register_restart (releases_dir dir) now window_secs max_per_window (disk s) with
  | (Ok true, fs) => let '(o, s) := rollback_release (with_disk s fs) in (HealthRollback o, s)
  | (_, fs) => (HealthRefused, with_disk s fs)
  end.

Definition boot_health_confirm (now later confirm_secs window_secs max_per_window later_head : N)
    (dir : path) (s : ReleaseNode) : HealthAction * ReleaseNode :=
  if confirm_secs =? 0 then (HealthNoop, s)
  else
    match read_boot_pending (releases_dir dir) (disk s) with
    | (Ok (Some pending), fs) =>
        let s := with_disk s fs in
        let stale_threshold := saturating_mul u64_mod confirm_secs 2 in
        if stale_threshold <=? saturating_sub now (install_ts pending)
        then unhealthy now window_secs max_per_window dir s
        else if pre_install_head pending <? later_head
        then (HealthConfirmed, log_io (clear_boot_pending (releases_dir dir)) s)
        else unhealthy later window_secs max_per_window dir s
    | (_, fs) => (HealthNoop, with_disk s fs)
    end.

(** ** Calls, one after the other *)
Inductive Call :=
| CallAnnounce (m : ReleaseManifest)
| CallImport (v data : bytes)
| CallInstall (v : bytes)
| CallRollback.

Definition call (pinned : list ed_pk) (now : N) (c : Call) (s : ReleaseNode) : ReleaseNode :=
  match c with
  | CallAnnounce m => snd (announce_release pinned now m s)
  | CallImport v data => snd (rpc_import_release_binary now v data s)
  | CallInstall v => snd (install_release now v s)
  | CallRollback => snd (rollback_release s)
  end.

Fixpoint calls (pinned : list ed_pk) (cs : list (N * Call)) (s : ReleaseNode) : ReleaseNode :=
  match cs with
  | [] => s
  | (now, c) :: cs => calls pinned cs (call pinned now c s)
  end.

(** ** The life of the process: its calls, the two checks that may restart it, and restarts,
    which keep the disk and forget the manifest. *)
Inductive process_event :=
| Called (now : N) (c : Call)
| HealthChecked (now later confirm_secs window_secs max_per_window later_head : N)
| Stalled (now window_secs max_per_window : N)
| Restarted (auto : bool) (head : N).

Definition restarted (auto : bool) (head : N) (s : ReleaseNode) : ReleaseNode :=
  mkReleaseNode (data_dir s) None auto (install_target_override s) (current_exe s) head (disk s) (restarts s).

Definition process_step (pinned : list ed_pk) (s : ReleaseNode) (ev : process_event) : ReleaseNode :=
  match ev with
  | Called now c => call pinned now c s
  | HealthChecked now later confirm w max head =>
      match data_dir s with
      | Some dir => snd (boot_health_confirm now later confirm w max head dir s)
      | None => s
      end
  | Stalled now w max =>
      match data_dir s with
      | Some dir => log_io (try_register_restart (releases_dir dir) now w max) s
      | None => s
      end
  | Restarted auto head => restarted auto head s
  end.

Definition process (pinned : list ed_pk) (events : list process_event) (s : ReleaseNode) : ReleaseNode :=
  foldl (process_step pinned) s events.
End node.
