(* ===== verification/ReleaseProps.v ===== *)
(** * ReleaseProps: which binaries a node can end up running

    Through announcements, imports, installations and rollbacks, whatever fails, a node
    runs a binary that was there at the start or one that a pinned key signed, as long as
    versions are plain file names; the RPC methods do not check that they are.  The boot-health check
    undoes its own rollback when its record is stale.  [ToyRelease] and [ReleaseDemo] hold
    concrete crates, a concrete node and the instances of the theorems on it. *)
From stdpp Require Import base tactics gmap numbers strings sorting sets countable list.
From Stdlib Require Import NArith Lia.
From Stdlib.Init Require Import Byte.
From S2P Require Import Prelude Bytes Crypto Release ReleaseStore ReleaseStoreProps ReleaseNode.

(** ** Versions and paths *)

(** A version that names a file of the releases directory and none of its special files. *)
Definition plain (v : bytes) : Prop :=
  v <> [] /\ x2f ∉ v /\ head v <> Some x2e /\ forall stem, v <> stem ++ dot ++ TMP.

Lemma components_from_plain acc s : x2f ∉ s -> components_from acc s = [acc ++ s].
Proof.
  revert acc. induction s as [|c s IH]; intros acc Hs; cbn [components_from]; [by rewrite app_nil_r|].
  rewrite bool_decide_eq_false_2 by set_solver. rewrite IH by set_solver. by rewrite <-app_assoc.
Qed.

Lemma plain_not_dots v : plain v -> v <> dot /\ v <> dotdot.
Proof. intros (_ & _ & Hh & _). split; intros ->; by apply Hh. Qed.

Lemma components_plain v : plain v -> components v = [v].
Proof.
  intros Hv. destruct (plain_not_dots v Hv) as [Hd _]. destruct Hv as (Hne & Hs & _ & _).
  unfold components. rewrite components_from_plain by done. cbn [app].
  rewrite filter_cons_True by done. done.
Qed.

Lemma binary_path_plain dir v : plain v -> binary_path dir v = v :: releases_dir dir.
Proof.
  intros Hv. unfold binary_path, join. rewrite components_plain by done.
  destruct (plain_not_dots v Hv) as [_ Hdd]. destruct Hv as (Hne & Hs & _ & _).
  rewrite bool_decide_eq_false_2.
  - cbn [foldl walk]. unfold walk. by rewrite bool_decide_eq_false_2.
  - destruct v as [|c v]; [done|]. cbn. intros [= ->]. set_solver.
Qed.

(** The temporary file of a plain version is neither plain nor special. *)
Lemma last_dot_head i s found : (0 < i)%nat ->
  (match found with Some j => (0 < j)%nat | None => True end) ->
  match last_dot i s found with Some j => (0 < j)%nat | None => True end.
Proof.
  revert i found. induction s as [|c s IH]; intros i found Hi Hf; cbn [last_dot]; [done|].
  apply IH; [lia|]. by case_bool_decide.
Qed.

Lemma head_file_stem v : v <> [] -> head v <> Some x2e -> head (file_stem v) = head v /\ file_stem v <> [].
Proof.
  intros Hne Hh. unfold file_stem. destruct v as [|c v]; [done|]. cbn [last_dot].
  rewrite bool_decide_eq_false_2 by (intros ->; by apply Hh).
  pose proof (last_dot_head 1 v None ltac:(lia) I) as Hl. destruct (last_dot 1 v None) as [[|j]|]; done.
Qed.

Lemma tmp_path dir v : plain v ->
  with_extension v (binary_path dir v) TMP = (file_stem v ++ dot ++ TMP) :: releases_dir dir.
Proof.
  intros Hv. rewrite binary_path_plain by done. unfold with_extension. rewrite components_plain by done.
  destruct (plain_not_dots v Hv) as [_ Hdd]. rewrite bool_decide_eq_false_2; [done|]. cbn. congruence.
Qed.

Lemma tmp_name v : plain v -> ~ plain (file_stem v ++ dot ++ TMP) /\ head (file_stem v ++ dot ++ TMP) = head v.
Proof.
  intros (Hne & _ & Hh & _). destruct (head_file_stem v Hne Hh) as [Heq Hs]. split.
  - intros (_ & _ & _ & Ht). by apply (Ht (file_stem v)).
  - rewrite <-Heq. by destruct (file_stem v).
Qed.

(** The special files start with a dot. *)
Definition special (leaf : bytes) : Prop := head leaf = Some x2e.

Lemma plain_not_special v : plain v -> ~ special v.
Proof. by intros (_ & _ & Hh & _). Qed.

(** ** What the methods do to the files *)
Section effects.
Context `{C : ReleaseCrypto} `{X : HexCrate} `{J : ReleaseJson}.

(** Everything under another directory, and every file of the releases directory that is
    not special, is as it was. *)
Definition same_outside (releases : path) (fs fs' : FS) : Prop :=
  forall p, (forall leaf, p = leaf :: releases -> ~ special leaf) -> files fs' !! p = files fs !! p.

Lemma outside_ne releases leaf (p : path) :
  special leaf -> (forall l, p = l :: releases -> ~ special l) -> p <> leaf :: releases.
Proof. intros Hl Hp ->. by eapply Hp. Qed.

Lemma write_boot_pending_same releases record :
  forall fs, same_outside releases fs (snd (write_boot_pending releases record fs)) /\
  files (snd (write_boot_pending releases record fs)) !! previous_path releases = files fs !! previous_path releases.
Proof.
  assert (Hk : forall p, p <> boot_pending_path releases -> p <> with_suffix (boot_pending_path releases) NEW_SUFFIX ->
    keeps p (write_boot_pending releases record)).
  { intros p H1 H2. apply keeps_bind; [apply keeps_dir|]. intros _. unfold replace_file.
    apply keeps_bind; [by apply keeps_stale|intros _]. apply keeps_bind; [by apply keeps_write|intros _].
    apply keeps_bind; [by apply keeps_rename|intros; apply keeps_ret]. }
  intros fs. split; [|by apply Hk].
  intros p Hp. apply Hk; by apply (outside_ne releases _ p).
Qed.

Lemma keeps_read p q : keeps p (fs_read q).
Proof. apply keeps_atomic, keeps_bind; [apply keeps_look|intros; apply keeps_ret]. Qed.

Lemma keeps_ignore {E A} p (op : io E A) : keeps p op -> keeps p (ignore op).
Proof. intros Hk fs. specialize (Hk fs). unfold ignore. by destruct (op fs) as [[| |] fs']. Qed.

Lemma keeps_read_log p releases : keeps p (read_restart_log releases).
Proof.
  intros fs. pose proof (keeps_read p (restart_log_path releases) fs) as Hk. unfold read_restart_log.
  by destruct (fs_read _ fs) as [[| |] fs'].
Qed.

Lemma keeps_read_pending p releases : keeps p (read_boot_pending releases).
Proof.
  intros fs. pose proof (keeps_read p (boot_pending_path releases) fs) as Hk. unfold read_boot_pending.
  destruct (fs_read _ fs) as [[b|[]|] fs']; try done. by destruct (boot_of_json b).
Qed.

Lemma keeps_clear p releases : p <> boot_pending_path releases -> keeps p (clear_boot_pending releases).
Proof.
  intros Hp fs. pose proof (keeps_remove p _ Hp fs) as Hk. unfold clear_boot_pending.
  by destruct (fs_remove _ fs) as [[|[]|] fs'].
Qed.

Lemma keeps_register p releases now w max :
  p <> restart_log_path releases -> p <> with_suffix (restart_log_path releases) NEW_SUFFIX ->
  keeps p (try_register_restart releases now w max).
Proof.
  intros H1 H2. unfold try_register_restart. apply keeps_bind; [apply keeps_read_log|]. intros log.
  destruct (negb _); [apply keeps_ret|]. apply keeps_bind; [|intros; apply keeps_ret]. apply keeps_ignore.
  unfold append_restart_event. apply keeps_bind; [apply keeps_dir|]. intros _.
  apply keeps_bind; [apply keeps_read_log|]. intros log'. apply keeps_bind; [|intros; apply keeps_ret].
  unfold replace_file. apply keeps_bind; [by apply keeps_stale|intros _].
  apply keeps_bind; [by apply keeps_write|intros _]. apply keeps_bind; [by apply keeps_rename|intros; apply keeps_ret].
Qed.

Lemma store_verified_spec dir v expected data fs :
  plain v ->
  let '(r, fs') := store_verified_binary dir v expected data fs in
  r <> Panic /\
  (forall p, p <> v :: releases_dir dir -> p <> (file_stem v ++ dot ++ TMP) :: releases_dir dir ->
    files fs' !! p = files fs !! p) /\
  (files fs' !! (v :: releases_dir dir) = files fs !! (v :: releases_dir dir) \/
   exists x, files fs' !! (v :: releases_dir dir) = Some (mkFile data x) /\
     to_lowercase (trim_0x expected) = hex_encode (arr_bytes (sha256 data))).
Proof.
  intros Hv. unfold store_verified_binary. destruct (hex_decode _); [|split_and!; auto; done].
  destruct (negb (len _ =? 32)); [split_and!; auto; done|].
  case_bool_decide as Hsha; cbn [negb]; [|split_and!; auto; done].
  rewrite (tmp_path dir v Hv), (binary_path_plain dir v Hv).
  destruct (tmp_name v Hv) as [Hnp _].
  set (tmp := (file_stem v ++ dot ++ TMP) :: releases_dir dir). set (target := v :: releases_dir dir).
  assert (Htt : tmp <> target) by (intros Heq; apply Hnp; apply (f_equal head) in Heq;
    change (Some (file_stem v ++ dot ++ TMP) = Some v) in Heq; by replace (file_stem v ++ dot ++ TMP) with v by congruence).
  rewrite bind_eq. unfold lift at 1.
  pose proof (no_panic_dir fs) as Hn1.
  assert (Hk1 : forall p, files (snd (fs_create_dir_all fs)) !! p = files fs !! p) by (intros; by apply keeps_dir).
  destruct (fs_create_dir_all fs) as [[[]|e|] fs1]; cbn [map_err fst snd] in *; [| |done].
  2:{ split_and!; [done|by intros; apply Hk1|left; apply Hk1]. }
  rewrite bind_eq. unfold lift at 1.
  assert (Hk2 : forall p, p <> tmp -> files (snd (fs_write tmp data fs1)) !! p = files fs1 !! p)
    by (intros; by apply keeps_write).
  assert (Hw : fst (fs_write tmp data fs1) <> Panic /\
    (fst (fs_write tmp data fs1) = Ok tt -> exists x, files (snd (fs_write tmp data fs1)) !! tmp = Some (mkFile data x))).
  { unfold fs_write. run. unfold put, next_fault. run. destruct (faults fs1) as [|[[|k]|] rest]; cbn; (split; [done|]);
      try done; intros _; eexists; by rewrite lookup_insert_eq. }
  destruct (fs_write tmp data fs1) as [[[]|e|] fs2]; cbn [map_err fst snd] in *; destruct Hw as [Hn2 Hd]; [| |done].
  2:{ split_and!; [done|intros; by rewrite Hk2, Hk1|left; by rewrite Hk2, Hk1 by (by apply not_eq_sym)]. }
  destruct (Hd eq_refl) as [x Hx]. rewrite bind_eq. unfold lift.
  pose proof (no_panic_rename tmp target fs2) as Hn3.
  assert (Hk3 : forall p, p <> tmp -> p <> target -> files (snd (fs_rename tmp target fs2)) !! p = files fs2 !! p)
    by (intros; by apply keeps_rename).
  destruct (fs_rename tmp target fs2) as [[[]|e|] fs3] eqn:E3; cbn [map_err fst snd] in *; [| |done].
  - destruct (fs_rename_Ok _ _ _ _ E3) as (f & Hf & Hf3). rewrite Hx in Hf. injection Hf as <-.
    split_and!; [done|intros; by rewrite Hk3, Hk2, Hk1|right]. exists x. by rewrite Hf3, lookup_insert_eq.
  - apply fs_rename_Err in E3. rewrite E3.
    split_and!; [done|intros; by rewrite Hk2, Hk1|left; by rewrite Hk2, Hk1 by (by apply not_eq_sym)].
Qed.
End effects.

(** ** Genuine binaries *)
Section invariant.
Context `{C : ReleaseCrypto} `{X : HexCrate} `{J : ReleaseJson} `{!ReleaseCryptoLaws C} `{!HexLaws X}.
Context (pinned : list ed_pk) (dir exe_dir : path) (exe_name : bytes) (origin : bytes -> Prop).
Context (Hdirs : exe_dir <> releases_dir dir).

Local Abbreviation releases := (releases_dir dir).
Local Abbreviation exe := (exe_name :: exe_dir).

(** A binary that was there at the start, or one signed by a pinned key. *)
Definition genuine (b : bytes) : Prop := origin b \/ exists m, signed_binary pinned m b.

(** The announcement check: the manifest's digest is signed by a pinned key. *)
Definition verified (m : ReleaseManifest) : Prop :=
  exists sha sg pk, hex_decode (trim_0x (sha256_hex m)) = Some (arr_bytes sha) /\ pk ∈ pinned /\
    ed_verify pk (canonical_payload (version m) sha (timestamp_unix m)) sg = true.

Record node_inv (s : ReleaseNode) : Prop := {
  inv_dir : data_dir s = Some dir;
  inv_target : install_target s = Some exe;
  inv_exe : forall f, files (disk s) !! exe = Some f -> genuine (contents f);
  inv_previous : forall f, files (disk s) !! previous_path releases = Some f -> genuine (contents f);
  inv_cache : forall v f, plain v -> files (disk s) !! (v :: releases) = Some f -> genuine (contents f);
  inv_latest : forall m, latest_release s = Some m -> verified m /\ plain (version m)
}.

Lemma exe_not_special leaf : exe = leaf :: releases -> ~ special leaf.
Proof. intros [= _ Hd]. congruence. Qed.

Lemma exe_apart : apart releases exe.
Proof. by apply apart_dir. Qed.

(** A disk that agrees on the binary, the snapshot and the cache. *)
Lemma node_inv_disk s fs :
  node_inv s ->
  (forall f, files fs !! exe = Some f -> genuine (contents f)) ->
  (forall f, files fs !! previous_path releases = Some f -> genuine (contents f)) ->
  (forall v f, plain v -> files fs !! (v :: releases) = Some f -> genuine (contents f)) ->
  node_inv (with_disk s fs).
Proof. intros [] ? ? ?. by split. Qed.

Lemma plain_path_ne v leaf : plain v -> special leaf -> v :: releases <> leaf :: releases.
Proof. intros Hv Hl [= ->]. by apply (plain_not_special leaf). Qed.

Lemma exe_path_ne leaf : exe <> leaf :: releases.
Proof. intros [= _ Hd]. congruence. Qed.

(** A disk that differs in special files only, the snapshot not among them. *)
Lemma node_inv_special s fs :
  node_inv s -> same_outside releases (disk s) fs ->
  files fs !! previous_path releases = files (disk s) !! previous_path releases -> node_inv (with_disk s fs).
Proof.
  intros Hinv Hk Hp. pose proof Hinv as [Hd Ht Hexe Hprev Hcache Hlat]. apply node_inv_disk; [done|..].
  - intros f. rewrite Hk by apply exe_not_special. apply Hexe.
  - intros f. rewrite Hp. apply Hprev.
  - intros u f Hu. rewrite Hk by (intros l [= <-]; by apply plain_not_special). by apply (Hcache u).
Qed.

(** The path beside the binary. *)
Lemma new_path_ne leaf : leaf :: releases <> with_suffix exe NEW_SUFFIX.
Proof. cbn. intros [= _ Hd]. congruence. Qed.

Lemma install_inv now v s : node_inv s -> plain v -> node_inv (snd (install_release now v s)).
Proof.
  intros Hinv Hv. pose proof Hinv as [Hd Ht Hexe Hprev Hcache Hlat]. unfold install_release.
  rewrite Hd, (binary_path_plain dir v Hv). case_bool_decide as Hst; cbn [negb]; [|done]. rewrite Ht.
  set (s1 := log_io (save_previous exe releases) s).
  assert (Hinv1 : node_inv s1).
  { apply node_inv_disk; [done|..];
      destruct (save_previous_replaced exe releases (disk s)) as [_ [Hk Hp]]; try apply exe_path_ne.
    - intros f. rewrite Hk by apply exe_path_ne. apply Hexe.
    - intros f Hf. destruct Hp as [Hp|(g & Hg & Hp)]; rewrite Hp in Hf; [by apply Hprev|].
      injection Hf as <-. cbn [contents]. by apply Hexe.
    - intros u f Hu. rewrite Hk by (by apply plain_path_ne). by apply (Hcache u). }
  clearbody s1. clear Hinv Hexe Hprev Hcache Hlat Hd Ht Hst s.
  set (s2 := log_io (write_boot_pending releases _) s1).
  assert (Hinv2 : node_inv s2).
  { destruct (write_boot_pending_same releases (mkBootPending v (head_number s1) now) (disk s1)) as [Hk Hp].
    by apply node_inv_special. }
  clearbody s2. clear Hinv1 s1. pose proof Hinv2 as [Hd Ht Hexe Hprev Hcache Hlat].
  rewrite install_binary_replaces.
  destruct (replace_with_replaced (v :: releases) (with_suffix exe NEW_SUFFIX) exe (disk s2))
    as [Hnp [Hk Hp]]; [apply new_path_ne|by apply with_suffix_ne|].
  assert (Hfin : node_inv (with_disk s2 (snd (replace_with (v :: releases) (with_suffix exe NEW_SUFFIX) exe (disk s2))))).
  { apply node_inv_disk; [done|..].
    - intros f Hf. destruct Hp as [Hp|(g & Hg & Hp)]; rewrite Hp in Hf; [by apply Hexe|].
      injection Hf as <-. cbn [contents]. by apply (Hcache v).
    - intros f. rewrite Hk; [apply Hprev|apply not_eq_sym, exe_path_ne|apply new_path_ne].
    - intros u f Hu. rewrite Hk; [by apply (Hcache u)|apply not_eq_sym, exe_path_ne|apply new_path_ne]. }
  destruct (replace_with _ _ exe (disk s2)) as [[p|e|] fs]; cbn [fst snd] in Hnp, Hfin |- *; [|done..].
  unfold schedule_restart. destruct (install_target_override _); [done|]. by destruct Hfin; split.
Qed.

Lemma rollback_inv s : node_inv s -> node_inv (snd (rollback_release s)).
Proof.
  intros Hinv. pose proof Hinv as [Hd Ht Hexe Hprev Hcache Hlat]. unfold rollback_release. rewrite Hd, Ht.
  pose proof (rollback_safe releases exe (disk s) exe_apart) as Hr.
  destruct (rollback_to_previous releases exe (disk s)) as [r fs].
  destruct Hr as (Hnp & Ht1 & Hp1 & Hk). assert (Hfin : node_inv (with_disk s fs)).
  { apply node_inv_disk; [done|..].
    - intros f Hf. destruct Ht1 as [E|(g & Hg & E)]; rewrite E in Hf; [by apply Hexe|].
      injection Hf as <-. cbn [contents]. by apply Hprev.
    - intros f Hf. destruct Hp1 as [E|[E|(g & Hg & E)]]; rewrite E in Hf; [by apply Hprev|done|].
      injection Hf as <-. cbn [contents]. by apply Hexe.
    - intros u f Hu. rewrite Hk; [by apply (Hcache u)|..].
      + apply not_eq_sym, exe_path_ne.
      + apply new_path_ne.
      + by apply plain_path_ne.
      + by apply plain_path_ne.
      + by apply plain_path_ne. }
  destruct r; cbn [snd]; [|done..].
  unfold schedule_restart. destruct (install_target_override _); [done|]. by destruct Hfin; split.
Qed.

Lemma auto_install_inv now v s : node_inv s -> plain v -> node_inv (maybe_auto_install_release now v s).
Proof.
  intros Hinv Hv. unfold maybe_auto_install_release. repeat case_match; try done. by apply install_inv.
Qed.

Lemma with_latest_inv s m : node_inv s -> verified m -> plain (version m) -> node_inv (with_latest s m).
Proof.
  intros [] Hm Hp. split; cbn [with_latest data_dir disk latest_release]; try done.
  intros m' [= <-]. by split.
Qed.

(** What an announcement that passes the checks has shown. *)
Lemma announce_inv now m s :
  node_inv s -> (verified m -> plain (version m)) -> node_inv (snd (announce_release pinned now m s)).
Proof.
  intros Hinv Hplain. unfold announce_release.
  destruct (hex_decode (trim_0x (sha256_hex m))) as [b|] eqn:Hb; cbn [mbind option_bind]; [|done].
  destruct (arr_of b) as [sha|] eqn:Hsha; [|done]. apply arr_of_Some in Hsha.
  destruct (Signature_from_hex (ed25519_sig_hex m)) as [sg| |]; [|done..].
  destruct (existsb _ pinned) eqn:Hex; cbn [negb]; [|done].
  apply existsb_exists in Hex as (pk & Hpk & Hver). apply list_elem_of_In in Hpk.
  assert (Hm : verified m).
  { exists sha, sg, pk. by rewrite Hb, Hsha. }
  unfold record_release_announcement. destruct (is_strictly_newer m (latest_release s)); cbn [negb]; [|done].
  cbn [snd]. apply auto_install_inv; [|by apply Hplain]. apply with_latest_inv; auto.
Qed.

(** The digest the store checks is the one that was signed. *)
Lemma verified_binary m data :
  verified m -> to_lowercase (trim_0x (sha256_hex m)) = hex_encode (arr_bytes (sha256 data)) ->
  signed_binary pinned m data.
Proof.
  intros (sha & sg & pk & Hsha & Hpk & Hver) Heq. apply (f_equal hex_decode) in Heq.
  rewrite hex_decode_lower, hex_roundtrip, Hsha in Heq. injection Heq as Heq%arr_ext. subst sha.
  by exists pk, sg.
Qed.

Lemma import_inv now v hex s : node_inv s -> node_inv (snd (rpc_import_release_binary now v hex s)).
Proof.
  intros Hinv. pose proof Hinv as [Hd Ht Hexe Hprev Hcache Hlat]. unfold rpc_import_release_binary.
  destruct (hex_decode _) as [data|]; [|done]. unfold import_release_binary. rewrite Hd.
  destruct (latest_release s) as [m|] eqn:Hm; [|done]. case_bool_decide as Hv; cbn [negb]; [|done].
  destruct (Hlat m eq_refl) as [Hver Hplain]. subst v.
  pose proof (store_verified_spec dir (version m) (sha256_hex m) data (disk s) Hplain) as Hst.
  destruct (store_verified_binary _ _ _ _ _) as [r fs]. destruct Hst as (Hnp & Hk & Htgt).
  destruct (tmp_name (version m) Hplain) as [Htmp Hhead].
  assert (Hnosp : ~ special (file_stem (version m) ++ dot ++ TMP)).
  { unfold special. rewrite Hhead. apply Hplain. }
  assert (Hfin : node_inv (with_disk s fs)).
  { apply node_inv_disk; [done|..].
    - intros f. rewrite Hk by apply exe_path_ne. apply Hexe.
    - intros f. rewrite Hk; [apply Hprev|..].
      + intros Heq. eapply (plain_path_ne (version m) PREVIOUS_NAME); [done..|]. by rewrite <-Heq.
      + intros Heq. apply Hnosp. apply (f_equal head) in Heq.
        change (Some PREVIOUS_NAME = Some (file_stem (version m) ++ dot ++ TMP)) in Heq.
        by replace (file_stem (version m) ++ dot ++ TMP) with PREVIOUS_NAME by congruence.
    - intros u f Hu Hf. destruct (decide (u = version m)) as [->|Hne].
      + destruct Htgt as [E|(x & E & Hsha)]; rewrite E in Hf; [by apply (Hcache (version m) f)|].
        injection Hf as <-. right. exists m. cbn [contents]. by apply verified_binary.
      + rewrite Hk in Hf; [by apply (Hcache u)|congruence|]. intros Heq. apply Htmp.
        apply (f_equal head) in Heq. change (Some u = Some (file_stem (version m) ++ dot ++ TMP)) in Heq.
        by replace (file_stem (version m) ++ dot ++ TMP) with u by congruence. }
  destruct r; cbn [snd]; [|done..]. by apply auto_install_inv.
Qed.

(** What is assumed of a call: versions are plain. *)
Definition plain_call (c : Call) : Prop :=
  match c with
  | CallAnnounce m => verified m -> plain (version m)
  | CallInstall v => plain v
  | CallImport _ _ | CallRollback => True
  end.

Lemma call_inv now c s : node_inv s -> plain_call c -> node_inv (call pinned now c s).
Proof.
  intros Hinv Hc. destruct c; cbn [call plain_call] in *.
  - by apply announce_inv.
  - by apply import_inv.
  - by apply install_inv.
  - by apply rollback_inv.
Qed.

(** The checks that may restart the node. *)
Lemma register_inv now w max s : node_inv s -> node_inv (log_io (try_register_restart releases now w max) s).
Proof.
  intros Hinv. apply node_inv_special; [done|..].
  - intros p Hp. by apply keeps_register; apply (outside_ne releases _ p).
  - by apply keeps_register.
Qed.

Lemma health_inv now later confirm w max head s :
  node_inv s -> node_inv (snd (boot_health_confirm now later confirm w max head dir s)).
Proof.
  intros Hinv. unfold boot_health_confirm. destruct (confirm =? 0); [done|].
  assert (forall p, files (snd (read_boot_pending releases (disk s))) !! p = files (disk s) !! p) as Hr
    by (intros; apply keeps_read_pending).
  assert (node_inv (with_disk s (snd (read_boot_pending releases (disk s))))) as Hinv1
    by (apply node_inv_special; [done|by intros p _|done]).
  destruct (read_boot_pending releases (disk s)) as [[[pending|]|e|] fs]; cbn [snd] in Hinv1 |- *; try exact Hinv1.
  assert (forall now, node_inv (snd (unhealthy now w max dir (with_disk s fs)))) as Hun.
  { intros t. unfold unhealthy. pose proof (register_inv t w max _ Hinv1) as Hreg. unfold log_io in Hreg.
    destruct (try_register_restart releases t w max (disk (with_disk s fs))) as [[[]|e|] fs']; try exact Hreg.
    pose proof (rollback_inv _ Hreg) as Hroll. by destruct (rollback_release _). }
  cbv zeta. destruct (_ <=? _); [apply Hun|]. destruct (_ <? head); [|apply Hun]. cbn [snd]. apply node_inv_special; [done|..].
  - intros p Hp. apply keeps_clear. by apply (outside_ne releases _ p).
  - by apply keeps_clear.
Qed.

Lemma restarted_inv auto head s : node_inv s -> node_inv (restarted auto head s).
Proof. intros []. by split. Qed.

Definition plain_event (ev : process_event) : Prop :=
  match ev with Called _ c => plain_call c | _ => True end.

Lemma process_inv evs : forall s, node_inv s -> Forall plain_event evs -> node_inv (process pinned evs s).
Proof.
  unfold process. induction evs as [|ev evs IH]; intros s Hinv Hev; cbn [foldl]; [done|].
  apply Forall_cons in Hev as [He Hev]. apply IH; [|done]. destruct ev; cbn [process_step plain_event] in *.
  - by apply call_inv.
  - rewrite (inv_dir _ Hinv). by apply health_inv.
  - rewrite (inv_dir _ Hinv). by apply register_inv.
  - by apply restarted_inv.
Qed.
End invariant.

(** ** Versions that are not file names *)

(** The absolute path as a version: [/a/b/c]. *)
Definition abs_version (p : path) : bytes := concat (cons x2f <$> rev p).

Definition ordinary (c : bytes) : Prop := c <> [] /\ x2f ∉ c /\ c <> dot /\ c <> dotdot.

Lemma components_from_app acc c s : x2f ∉ c -> components_from acc (c ++ s) = components_from (acc ++ c) s.
Proof.
  revert acc. induction c as [|b c IH]; intros acc Hc; cbn [app components_from]; [by rewrite app_nil_r|].
  rewrite bool_decide_eq_false_2 by set_solver. rewrite IH by set_solver. by rewrite <-app_assoc.
Qed.

Lemma components_from_abs cs : forall acc, Forall ordinary cs ->
  components_from acc (concat (cons x2f <$> cs)) = acc :: cs.
Proof.
  induction cs as [|c cs IH]; intros acc Hcs; [done|]. apply Forall_cons in Hcs as [(_ & Hc & _) Hcs].
  rewrite fmap_cons. cbn [concat app components_from]. rewrite bool_decide_eq_true_2 by done.
  rewrite components_from_app by done. cbn [app]. by rewrite IH.
Qed.

Lemma join_abs base p : p <> [] -> Forall ordinary p -> join base (abs_version p) = p.
Proof.
  intros Hne Hp. assert (Hr : Forall ordinary (rev p)) by (by apply Forall_rev).
  unfold join, components, abs_version. rewrite components_from_abs by done.
  rewrite filter_cons_False by naive_solver. rewrite filter_all.
  2:{ eapply Forall_impl; [exact Hr|]. intros c (H1 & _ & H2 & _). done. }
  rewrite bool_decide_eq_true_2.
  2:{ destruct (rev p) as [|c cs] eqn:E; [|done]. apply (f_equal (@rev bytes)) in E. by rewrite rev_involutive in E. }
  rewrite <-(rev_involutive p) at 2. rewrite <-(app_nil_r (rev (rev p))).
  generalize (@nil bytes). induction (rev p) as [|c cs IH]; intros acc; [done|].
  apply Forall_cons in Hr as [(_ & _ & _ & Hd) Hcs]. cbn [foldl rev].
  unfold walk at 2. rewrite bool_decide_eq_false_2 by done.
  rewrite <-app_assoc. cbn [app]. by apply IH.
Qed.

Lemma write_boot_quiet `{ReleaseJson} releases record fs : faults fs = [] ->
  write_boot_pending releases record fs =
    (Ok (boot_pending_path releases),
     mkFS (<[boot_pending_path releases := mkFile (boot_to_json record) CREATED_MODE]>
             (delete (with_suffix (boot_pending_path releases) NEW_SUFFIX) (files fs))) []).
Proof.
  intros Hq. unfold write_boot_pending. rewrite bind_eq. unfold fs_create_dir_all. rewrite atomic_spec, Hq.
  cbn [mret io_ret]. by apply replace_file_quiet.
Qed.

(** Two special files, or one and a file of another directory. *)
Ltac path_ne :=
  unfold previous_path, holding_path, staging_path, boot_pending_path, restart_log_path,
    PREVIOUS_NAME, ROLL_SUFFIX, NEW_SUFFIX, BOOT_PENDING_NAME, RESTART_LOG_NAME;
  cbn; congruence.

(** ** A stale boot record *)
Section stale.
Context `{J : ReleaseJson} `{!ReleaseJsonLaws J}.
Context (dir exe_dir : path) (exe_name : bytes) (Hdirs : exe_dir <> releases_dir dir).

Local Abbreviation releases := (releases_dir dir).
Local Abbreviation exe := (exe_name :: exe_dir).

(** The binary, the snapshot, the boot record, and the length of the restart log. *)
Record boot_state (s : ReleaseNode) (cur prev : File) (pending : BootPending) (n : N) : Prop := {
  bs_dir : data_dir s = Some dir;
  bs_target : install_target s = Some exe;
  bs_quiet : faults (disk s) = [];
  bs_cur : files (disk s) !! exe = Some cur;
  bs_prev : files (disk s) !! previous_path releases = Some prev;
  bs_pending : exists f, files (disk s) !! boot_pending_path releases = Some f /\
    boot_of_json (contents f) = Some pending;
  bs_log : len (disk_log releases (disk s)) <= n
}.

Lemma stale_rolls_back s cur prev pending n now later confirm w max head :
  boot_state s cur prev pending n -> n < max -> max < u32_mod -> confirm <> 0 ->
  saturating_mul u64_mod confirm 2 <= now - install_ts pending ->
  exists s', boot_health_confirm now later confirm w max head dir s = (HealthRollback accepted_install, s') /\
    boot_state s' (mkFile (contents prev) INSTALLED_MODE) (mkFile (contents cur) INSTALLED_MODE) pending (n + 1).
Proof.
  intros [Hd Ht Hq Hcur Hprev (jf & Hjf & Hjson) Hlog] Hn Hmax Hc Hstale. unfold boot_health_confirm.
  rewrite (proj2 (N.eqb_neq confirm 0)) by done. unfold read_boot_pending, fs_read.
  rewrite atomic_spec, Hq, bind_eq, look_spec, Hjf. cbn [mret io_ret]. rewrite Hjson.
  unfold saturating_sub. rewrite (proj2 (N.leb_le _ _)) by done. unfold unhealthy.
  change (disk (with_disk s (disk s))) with (disk s).
  destruct (register_few releases w max ltac:(lia) Hmax (disk s) now Hq ltac:(lia)) as (fs1 & Hreg & Hq1 & Hl1 & Hk1).
  rewrite Hreg. unfold rollback_release. cbn [data_dir with_disk]. rewrite Hd.
  assert (Ht' : install_target (with_disk (with_disk s (disk s)) fs1) = Some exe) by exact Ht.
  rewrite Ht'. cbn [disk with_disk].
  assert (Hcur1 : files fs1 !! exe = Some cur).
  { rewrite Hk1; [done|path_ne..]. }
  assert (Hprev1 : files fs1 !! previous_path releases = Some prev).
  { rewrite Hk1; [done|path_ne..]. }
  destruct (rollback_quiet releases exe fs1 cur prev Hq1 (exe_apart dir exe_dir exe_name Hdirs) Hcur1 Hprev1)
    as (fs2 & Hroll & Hq2 & Hc2 & Hp2 & Hk2).
  rewrite Hroll.
  assert (Hfin : forall s', data_dir s' = data_dir s -> install_target s' = install_target s -> disk s' = fs2 ->
    boot_state s' (mkFile (contents prev) INSTALLED_MODE) (mkFile (contents cur) INSTALLED_MODE) pending (n + 1)).
  { intros s' Es1 Es2 Es3. split; rewrite ?Es1, ?Es2, ?Es3; try done.
    - exists jf. split; [|done]. rewrite Hk2, Hk1; [done|path_ne..].
    - assert (disk_log releases fs2 = disk_log releases fs1) as ->; [|lia]. unfold disk_log.
      rewrite Hk2; [done|path_ne..]. }
  unfold schedule_restart. destruct (install_target_override _); eexists; (split; [reflexivity|]);
    by apply Hfin.
Qed.
End stale.

Section properties.
Context `{C : ReleaseCrypto} `{X : HexCrate} `{J : ReleaseJson}.

(** C29. The node's binary is replaced all or nothing: for every schedule of faults (and so
    for a crash at any point) it is afterwards the old file, or the whole of the staged one
    and executable; it is the new one exactly when the call succeeds, and a call that fails
    has changed nothing but the file beside the binary. *)
Theorem install_all_or_nothing staged target fs :
  staged <> with_suffix target NEW_SUFFIX ->
  let '(r, fs') := install_binary staged target fs in
  match r with
  | Ok p => p = target /\ exists f, files fs !! staged = Some f /\
      files fs' !! target = Some (mkFile (contents f) INSTALLED_MODE) /\
      (forall p, p <> target -> p <> with_suffix target NEW_SUFFIX -> files fs' !! p = files fs !! p)
  | Err _ => forall p, p <> with_suffix target NEW_SUFFIX -> files fs' !! p = files fs !! p
  | Panic => False
  end.
Proof.
  intros Hne. rewrite install_binary_replaces.
  pose proof (replace_with_spec staged (with_suffix target NEW_SUFFIX) target fs Hne
    ltac:(by apply with_suffix_ne)) as Hr.
  destruct (replace_with _ _ target fs) as [[p|e|] fs']; [|done..].
  destruct Hr as (-> & f & H1 & H2 & H3 & _). split; [done|]. by exists f.
Qed.

(** The binaries a node can have had before it accepted a release: its own, the snapshot of
    an earlier installation, and the cached ones under plain names. *)
Definition at_start (dir exe : path) (s : ReleaseNode) (b : bytes) : Prop :=
  exists p f, files (disk s) !! p = Some f /\ contents f = b /\
    (p = exe \/ p = previous_path (releases_dir dir) \/ exists v, plain v /\ p = v :: releases_dir dir).

(** C27. From a start of the node on, through any calls of the release methods
    (announcements, imports, installations, rollbacks, with or without automatic
    installation), any checks of its health and of the stalled head, any number of restarts,
    and any faults of the disk, the node runs a binary that a pinned key signed or one that
    was there at the start: the node's own, the snapshot in [.previous] of an installation
    before it, or one already in the cache.  So with an empty releases directory it runs the
    binary it started with or a signed one.  The conditions: the node has a data directory, its binary does not lie in
    the releases directory and the path of the binary stays the same; it starts, as every
    process does, without a manifest; and the versions that are installed by call or
    validly announced are plain file names ([release_version_unchecked] otherwise). *)
Theorem only_signed_binaries_run `{!ReleaseCryptoLaws C} `{!HexLaws X} pinned dir exe_dir exe_name s events :
  data_dir s = Some dir -> install_target s = Some (exe_name :: exe_dir) -> exe_dir <> releases_dir dir ->
  latest_release s = None -> Forall (plain_event pinned) events ->
  forall f, files (disk (process pinned events s)) !! (exe_name :: exe_dir) = Some f ->
  at_start dir (exe_name :: exe_dir) s (contents f) \/ exists m, signed_binary pinned m (contents f).
Proof.
  intros Hd Ht Hdirs Hlat Hev.
  assert (Hinv : node_inv pinned dir exe_dir exe_name (at_start dir (exe_name :: exe_dir) s) s).
  { split; try done; [..|congruence]; intros; left; do 2 eexists; (split; [eassumption|]); (split; [done|]); eauto. }
  apply (inv_exe _ _ _ _ _ _ (process_inv _ _ _ _ _ Hdirs events s Hinv Hev)).
Qed.

(** The version of an RPC call is not checked: a version that is an absolute path makes
    [get_release_binary] return any file that the node can read, and makes [install_release]
    put that file, executable, in the place of the node's binary. *)
Theorem release_version_unchecked dir exe_dir exe_name now p s f cur :
  data_dir s = Some dir -> install_target s = Some (exe_name :: exe_dir) -> exe_dir <> releases_dir dir ->
  faults (disk s) = [] -> files (disk s) !! (exe_name :: exe_dir) = Some cur ->
  p <> [] -> Forall ordinary p -> files (disk s) !! p = Some f ->
  tail p <> releases_dir dir -> p <> with_suffix (exe_name :: exe_dir) NEW_SUFFIX ->
  rpc_get_release_binary (abs_version p) s = Some (contents f) /\
  let '(o, s') := install_release now (abs_version p) s in
  scheduled o = true /\
  files (disk s') !! (exe_name :: exe_dir) = Some (mkFile (contents f) INSTALLED_MODE).
Proof.
  intros Hd Ht Hdirs Hq Hcur Hne Hp Hf Htail Hnew.
  assert (Hpath : binary_path dir (abs_version p) = p) by (by apply join_abs).
  assert (Hrel : forall leaf, p <> leaf :: releases_dir dir) by (intros leaf ->; by apply Htail).
  destruct (exe_apart dir exe_dir exe_name Hdirs) as (_ & _ & Hst & _). split.
  - unfold rpc_get_release_binary, release_binary_bytes, load_binary. rewrite Hd, Hpath.
    unfold fs_read. rewrite atomic_spec, Hq, bind_eq, look_spec, Hf. done.
  - unfold install_release. rewrite Hd, Hpath. rewrite bool_decide_eq_true_2 by eauto. cbn [negb]. rewrite Ht.
    unfold log_io. rewrite (save_quiet (exe_name :: exe_dir) (releases_dir dir) (disk s) cur) by done.
    cbn [snd with_disk disk]. rewrite write_boot_quiet by done. cbn [snd files]. cbv zeta.
    rewrite install_binary_replaces.
    rewrite (replace_quiet p (with_suffix (exe_name :: exe_dir) NEW_SUFFIX) (exe_name :: exe_dir) _ f); [|done|done|].
    2:{ cbn [files with_disk disk]. rewrite lookup_insert_ne, lookup_delete_ne, lookup_insert_ne, lookup_delete_ne
          by (apply not_eq_sym, Hrel). done. }
    split; [done|]. unfold schedule_restart. destruct (install_target_override _);
      cbn [with_disk with_restart disk files]; by rewrite lookup_insert_eq.
Qed.

(** C31. Whatever the heads it polls, over any run of the watchdog with a clock that does
    not go back, and through all the restarts it causes itself, every window of [w] seconds
    contains at most [max] restarts, whatever is in the restart log at the start (nothing,
    text that does not parse, or fewer than 2^32 events).  The cap is positive (a cap of 0
    disables the gate, as documented) and fits its 32 bits, and the disk does not fail
    during the run: a log that cannot be read counts as empty, and a restart whose entry
    cannot be written is made all the same ([unlogged_restarts_unlimited]). *)
Theorem restarts_rate_limited `{!ReleaseJsonLaws J} releases w max recover poll polls fs :
  0 < max -> max < u32_mod ->
  faults fs = [] -> len (disk_log releases fs) < u32_mod ->
  StronglySorted N.le (fst <$> polls) ->
  exists rs fs', watchdog_run releases w max (StallDetector_new recover poll) polls fs = (Ok rs, fs') /\
  forall t, len (filter (fun x => t - w <= x /\ x <= t) rs) <= max.
Proof.
  intros Hmax Hwidth Hq Hlog Hs.
  destruct (watchdog_run_spec releases w max Hmax Hwidth polls (StallDetector_new recover poll) fs [] 0)
    as (rs & fs' & Hrun & Hok).
  - split; [done|]. split; [done|]. exists 0. split; [lia|]. apply submseteq_nil_l.
  - constructor.
  - intros t. unfold in_window, len. cbn. lia.
  - constructor; [done|]. apply Forall_forall. intros; lia.
  - exists rs, fs'. split; [done|exact Hok].
Qed.

(** A stale boot record is not removed by the rollback it causes: the binary restored
    finds it still there, staler than before, and rolls back in turn, to the bad binary. *)
Theorem stale_rollback_undone `{!ReleaseJsonLaws J} dir exe_dir exe_name s good bad pending jf
    now later confirm w max later1 later2 head1 head2 :
  data_dir s = Some dir -> install_target s = Some (exe_name :: exe_dir) -> exe_dir <> releases_dir dir ->
  faults (disk s) = [] ->
  files (disk s) !! (exe_name :: exe_dir) = Some bad ->
  files (disk s) !! previous_path (releases_dir dir) = Some good ->
  files (disk s) !! boot_pending_path (releases_dir dir) = Some jf ->
  boot_of_json (contents jf) = Some pending ->
  files (disk s) !! restart_log_path (releases_dir dir) = None ->
  confirm <> 0 -> saturating_mul u64_mod confirm 2 + install_ts pending <= now -> now <= later ->
  2 <= max -> max < u32_mod ->
  let '(a1, s1) := boot_health_confirm now later1 confirm w max head1 dir s in
  let '(a2, s2) := boot_health_confirm later later2 confirm w max head2 dir s1 in
  a1 = HealthRollback accepted_install /\
  files (disk s1) !! (exe_name :: exe_dir) = Some (mkFile (contents good) INSTALLED_MODE) /\
  a2 = HealthRollback accepted_install /\
  files (disk s2) !! (exe_name :: exe_dir) = Some (mkFile (contents bad) INSTALLED_MODE).
Proof.
  intros Hd Ht Hdirs Hq Hbad Hgood Hjf Hjson Hlog Hc Hstale Hle Hm Hw.
  destruct (stale_rolls_back dir exe_dir exe_name Hdirs s bad good pending 0 now later1 confirm w max head1)
    as (s1 & -> & H1); [|lia|done|done|lia|].
  { split; try done; [by exists jf|]. unfold disk_log. by rewrite Hlog. }
  destruct (stale_rolls_back dir exe_dir exe_name Hdirs s1 _ _ pending 1 later later2 confirm w max head2 H1)
    as (s2 & -> & H2); [lia|done|done|lia|].
  split; [done|]. split; [apply H1|]. split; [done|]. apply H2.
Qed.
End properties.

(** ** Concrete crates: a toy hash and signature, and records as the numbers that enumerate them *)
Module ToyRelease.
(** ** A hash and signatures *)
Definition toy_sha (b : bytes) : array 32 := be_array 32 (be_value (b ++ be_bytes 2 (len b))).
Definition toy_sign (sk : array 32) (msg : bytes) : array 64 :=
  be_array 64 (be_value (arr_bytes sk ++ arr_bytes (toy_sha msg))).

#[export] Instance crypto : ReleaseCrypto := {|
  ed_sk := array 32; ed_pk := array 32; ed_sig := array 64;
  ed_sk_from_bytes a := a;
  ed_public sk := sk;
  ed_sign := toy_sign;
  ed_pk_from_bytes a := Some a;
  ed_verify pk msg s := bool_decide (s = toy_sign pk msg);
  ed_sig_from_bytes a := a;
  ed_sig_to_bytes a := a;
  sha256 := toy_sha
|}.

#[export] Instance crypto_laws : ReleaseCryptoLaws crypto.
Proof.
  split; cbn.
  - intros. by apply bool_decide_eq_true_2.
  - done.
Qed.

(** ** Records *)
Definition put_num {A} `{Countable A} (x : A) : bytes :=
  let n := Npos (encode x) in be_bytes (N.to_nat (N.size n)) n.

Definition get_num {A} `{Countable A} (b : bytes) : option A :=
  match be_value b with 0 => None | Npos p => decode p end.

Lemma get_put {A} `{Countable A} (x : A) : get_num (put_num x) = Some x.
Proof.
  unfold get_num, put_num. rewrite be_value_small; [apply decode_encode|].
  rewrite N2Nat.id. eapply N.lt_le_trans; [apply N.size_gt|].
  apply N.pow_le_mono_l. lia.
Qed.

#[export] Instance json : ReleaseJson := {|
  boot_to_json b := put_num (bp_version b, pre_install_head b, install_ts b);
  boot_of_json b := '(v, h, t) ← get_num b; Some (mkBootPending v h t);
  log_to_json l := put_num (events l);
  log_of_json b := l ← get_num b; Some (mkRestartLog l)
|}.

#[export] Instance json_laws : ReleaseJsonLaws json.
Proof. split; cbn; [intros [v h t]|intros [l]]; by rewrite get_put. Qed.
End ToyRelease.

Module ReleaseDemo.
Import ToyHex.
Import ToyRelease.

(** ["d"], ["aiid"], ["bin"], ["1.2"], ["discovery.key"] *)
Definition dir : path := [[x64]].
Definition exe_name : bytes := [x61; x69; x69; x64].
Definition exe_dir : path := [[x62; x69; x6e]].
Definition v12 : bytes := [x31; x2e; x32].
Definition key_path : path := [[x64; x69; x73; x63; x6f; x76; x65; x72; x79; x2e; x6b; x65; x79]; [x64]].

Definition old_file : File := mkFile [x01] 493.
Definition key_file : File := mkFile [x02; x03] 384.
Definition new_binary : bytes := [x0a; x0b].

Definition sk : array 32 := be_array 32 77.
Definition pinned : list ed_pk := [ed_public sk].
Definition manifest : ReleaseManifest := sign_release sk new_binary v12 1700000000.

Definition fs0 : FS := mkFS {[ exe_name :: exe_dir := old_file; key_path := key_file ]} [].

Definition node0 : ReleaseNode := mkReleaseNode (Some dir) None true None (Some (exe_name :: exe_dir)) 5 fs0 [].

(** An announcement, the import of its binary with a disk that works, an automatic
    installation, and a rollback. *)
Definition story : list (N * Call) :=
  [(1700000001, CallAnnounce manifest); (1700000002, CallImport v12 (to_hex new_binary)); (1700000003, CallRollback)].

Example story_installs :
  contents <$> files (disk (calls pinned (take 2 story) node0)) !! (exe_name :: exe_dir) = Some new_binary /\
  contents <$> files (disk (calls pinned story node0)) !! (exe_name :: exe_dir) = Some [x01] /\
  length (restarts (calls pinned story node0)) = 2%nat.
Proof. vm_compute. done. Qed.

Lemma v12_plain : plain v12.
Proof.
  split_and!; [done|set_solver|done|]. intros stem Heq%(f_equal length). rewrite length_app in Heq. cbn in Heq. lia.
Qed.

Definition bad_file : File := mkFile [x0b; x0a; x0d] 493.
Definition good_file : File := mkFile [x60; x0d] 493.
Definition pending0 : BootPending := mkBootPending v12 5 1000.

Definition fs1 : FS :=
  mkFS {[ exe_name :: exe_dir := bad_file; previous_path (releases_dir dir) := good_file;
          boot_pending_path (releases_dir dir) := mkFile (boot_to_json pending0) 420 ]} [].
Definition node1 : ReleaseNode := mkReleaseNode (Some dir) None true None (Some (exe_name :: exe_dir)) 5 fs1 [].
End ReleaseDemo.

Import ToyHex ToyRelease ReleaseDemo.

Lemma install_all_or_nothing_witness :
  let '(r, fs') := install_binary key_path (exe_name :: exe_dir) fs0 in
  match r with
  | Ok p => p = exe_name :: exe_dir /\ exists f, files fs0 !! key_path = Some f /\
      files fs' !! (exe_name :: exe_dir) = Some (mkFile (contents f) INSTALLED_MODE) /\
      (forall p, p <> exe_name :: exe_dir -> p <> with_suffix (exe_name :: exe_dir) NEW_SUFFIX ->
        files fs' !! p = files fs0 !! p)
  | Err _ => forall p, p <> with_suffix (exe_name :: exe_dir) NEW_SUFFIX -> files fs' !! p = files fs0 !! p
  | Panic => False
  end.
Proof. apply (install_all_or_nothing key_path (exe_name :: exe_dir) fs0). vm_compute. discriminate. Defined.

(** The same story with a restart after the installation, and a health check after it. *)
Definition long_story : list process_event :=
  [Called 1700000001 (CallAnnounce manifest); Called 1700000002 (CallImport v12 (to_hex new_binary));
   Restarted true 6; HealthChecked 1700000010 1700000070 60 3600 3 6; Restarted true 6].

Example long_story_runs :
  contents <$> files (disk (process pinned (take 3 long_story) node0)) !! (exe_name :: exe_dir) = Some new_binary /\
  contents <$> files (disk (process pinned long_story node0)) !! (exe_name :: exe_dir) = Some new_binary /\
  contents <$> files (disk (process pinned (long_story ++ [Called 1700000100 CallRollback]) node0)) !! (exe_name :: exe_dir) = Some [x01].
Proof. vm_compute. done. Qed.

Lemma only_signed_binaries_run_witness :
  exists f, files (disk (process pinned long_story node0)) !! (exe_name :: exe_dir) = Some f /\
  (at_start dir (exe_name :: exe_dir) node0 (contents f) \/ exists m, signed_binary pinned m (contents f)).
Proof.
  eexists. split; [vm_compute; reflexivity|].
  apply (only_signed_binaries_run pinned dir exe_dir exe_name node0 long_story).
  - reflexivity.
  - reflexivity.
  - vm_compute. discriminate.
  - reflexivity.
  - apply Forall_cons; split; [intros _; exact v12_plain|].
    repeat (apply Forall_cons; split; [exact I|]). by apply Forall_nil.
  - vm_compute. reflexivity.
Defined.

Lemma release_version_unchecked_witness :
  rpc_get_release_binary (abs_version key_path) node0 = Some [x02; x03] /\
  let '(o, s') := install_release 1700000000 (abs_version key_path) node0 in
  scheduled o = true /\
  files (disk s') !! (exe_name :: exe_dir) = Some (mkFile [x02; x03] INSTALLED_MODE).
Proof.
  apply (release_version_unchecked dir exe_dir exe_name 1700000000 key_path node0 key_file old_file).
  - reflexivity.
  - reflexivity.
  - vm_compute. discriminate.
  - reflexivity.
  - vm_compute. reflexivity.
  - discriminate.
  - repeat constructor; set_solver.
  - vm_compute. reflexivity.
  - vm_compute. discriminate.
  - vm_compute. discriminate.
Defined.

Lemma restarts_rate_limited_witness :
  exists rs fs', watchdog_run (releases_dir dir) 100 2 (StallDetector_new 10 10)
    ((fun i => (i * 10, 7)) <$> [1; 2; 3; 4; 5; 6; 7; 8]) fs0 = (Ok rs, fs') /\
  forall t, len (filter (fun x => t - 100 <= x /\ x <= t) rs) <= 2.
Proof.
  apply (restarts_rate_limited (releases_dir dir) 100 2 10 10).
  - lia.
  - lia.
  - reflexivity.
  - vm_compute. reflexivity.
  - cbn. repeat constructor; lia.
Defined.

Lemma stale_rollback_undone_witness :
  let '(a1, s1) := boot_health_confirm 2000 2060 60 3600 3 5 dir node1 in
  let '(a2, s2) := boot_health_confirm 2010 2070 60 3600 3 5 dir s1 in
  a1 = HealthRollback accepted_install /\
  files (disk s1) !! (exe_name :: exe_dir) = Some (mkFile [x60; x0d] INSTALLED_MODE) /\
  a2 = HealthRollback accepted_install /\
  files (disk s2) !! (exe_name :: exe_dir) = Some (mkFile [x0b; x0a; x0d] INSTALLED_MODE).
Proof.
  apply (stale_rollback_undone dir exe_dir exe_name node1 good_file bad_file pending0
    (mkFile (boot_to_json pending0) 420) 2000 2010 60 3600 3 2060 2070 5 5).
  - reflexivity.
  - reflexivity.
  - vm_compute. discriminate.
  - reflexivity.
  - vm_compute. reflexivity.
  - vm_compute. reflexivity.
  - vm_compute. reflexivity.
  - vm_compute. reflexivity.
  - vm_compute. reflexivity.
  - discriminate.
  - vm_compute. discriminate.
  - lia.
  - lia.
  - lia.
Defined.
