(* ===== verification/ReleaseNet.v ===== *)
(** * ReleaseNet: releases that travel between nodes

    Models [src/crates/aii-rpc/src/release_gossip.rs] ([propagate_release]) and
    [release_poller.rs] ([poll_once]) on a network of the nodes of [ReleaseNode], which answer
    through their RPC handlers.  A request may be lost, or its answer; a peer that is not on the
    network does not answer.  Accepting an announcement spawns a task that propagates it;
    tasks run one at a time, in any order.  The notes of the outcomes are only logged. *)
From stdpp Require Import base tactics gmap numbers strings sets list.
From Stdlib Require Import NArith Lia.
From Stdlib.Init Require Import Byte.
From S2P Require Import Prelude Bytes Crypto Release ReleaseStore ReleaseStoreProps ReleaseNode ReleaseProps.

(** What becomes of a request. *)
Inductive Delivery := Delivered | RequestLost | AnswerLost.

Record World := mkWorld {
  w_nodes : gmap text ReleaseNode;
  w_faults : list Delivery;            (** the requests to come; delivered when exhausted *)
  w_tasks : list (text * ReleaseManifest)
}.

Record PeerOutcome := mkPeerOutcome { po_peer : text; announce_accepted : bool; binary_imported : bool }.
Record PeerPollOutcome := mkPollOutcome { pp_peer : text; accepted_manifest : bool; imported_binary : bool }.

Section net.
Context `{ReleaseCrypto} `{HexCrate} `{ReleaseJson}.
(** The keys pinned in a node's binary, its update peers, and the clock. *)
Context (pinned : text -> list ed_pk) (update_peers : text -> list text) (now : N).

Definition set_node (n : text) (s : ReleaseNode) (w : World) : World :=
  mkWorld (<[n := s]> (w_nodes w)) (w_faults w) (w_tasks w).

Definition spawn (n : text) (m : ReleaseManifest) (w : World) : World :=
  mkWorld (w_nodes w) (w_faults w) (w_tasks w ++ [(n, m)]).

(** A JSON-RPC call: the answer, unless the request or the answer is lost. *)
Definition request {A} (peer : text) (serve : ReleaseNode -> World -> A * World) (w : World) : option A * World :=
  let fault := default Delivered (head (w_faults w)) in
  let w := mkWorld (w_nodes w) (tail (w_faults w)) (w_tasks w) in
  match fault, w_nodes w !! peer with
  | RequestLost, _ | _, None => (None, w)
  | AnswerLost, Some s => (None, (serve s w).2)
  | Delivered, Some s => let '(a, w) := serve s w in (Some a, w)
  end.

(** ** The peer's side *)

(** [announce_release] with the task it spawns. *)
Definition serve_announce (n : text) (m : ReleaseManifest) (s : ReleaseNode) (w : World) : bool * World :=
  let '((accepted, _), s) := announce_release (pinned n) now m s in
  let w := set_node n s w in
  (accepted, if accepted && negb (bool_decide (update_peers n = [])) then spawn n m w else w).

Definition serve_latest (s : ReleaseNode) (w : World) : option ReleaseManifest * World := (latest_release s, w).

Definition serve_binary (n : text) (v : bytes) (s : ReleaseNode) (w : World) : option text * World :=
  let '(b, s) := release_binary_bytes v s in (hex_bytes <$> b, set_node n s w).

Definition serve_import (n : text) (v : bytes) (data : text) (s : ReleaseNode) (w : World) : bool * World :=
  let '(ok, s) := rpc_import_release_binary now v data s in (ok, set_node n s w).

(** ** The node's side *)

(** [aii_getReleaseBinary] of a peer, handed to the node's own [import_release_binary]. *)
Definition pull (self peer : text) (v : bytes) (w : World) : bool * World :=
  let '(answer, w) := request peer (serve_binary peer v) w in
  match answer with
  | Some (Some hex) =>
      match hex_decode (trim_0x hex), w_nodes w !! self with
      | Some data, Some s => let '((ok, _), s) := import_release_binary now v data s in (ok, set_node self s w)
      | _, _ => (false, w)
      end
  | _ => (false, w)
  end.

(** The peer gets the binary if it has none. *)
Definition push (peer : text) (v data : bytes) (w : World) : bool * World :=
  let '(peer_has, w) := request peer (serve_binary peer v) w in
  match peer_has with
  | Some None =>
      let '(ok, w) := request peer (serve_import peer v (hex_bytes data)) w in (default false ok, w)
  | _ => (false, w)
  end.

Fixpoint propagate_loop (self : text) (m : ReleaseManifest) (local_binary : option bytes)
    (still_need_binary : bool) (peers : list text) (w : World) : list PeerOutcome * World :=
  match peers with
  | [] => ([], w)
  | peer :: peers =>
      let '(accepted, w) := request peer (serve_announce peer m) w in
      let '(imported, w) :=
        match local_binary with
        | Some data => push peer (version m) data w
        | None => if still_need_binary then pull self peer (version m) w else (false, w)
        end in
      let still_need_binary := still_need_binary && negb imported in
      let '(outcomes, w) := propagate_loop self m local_binary still_need_binary peers w in
      (mkPeerOutcome peer (default false accepted) imported :: outcomes, w)
  end.

Definition propagate_release (self : text) (m : ReleaseManifest) (peers : list text) (w : World)
    : list PeerOutcome * World :=
  match w_nodes w !! self with
  | None => ([], w)
  | Some s =>
      let '(local_binary, s) := release_binary_bytes (version m) s in
      propagate_loop self m local_binary (negb (bool_decide (is_Some local_binary))) peers (set_node self s w)
  end.

(** The comparison is with what the node knew when the poll began. *)
Definition poll_peer (self : text) (local_latest : option ReleaseManifest) (peer : text) (w : World)
    : PeerPollOutcome * World :=
  let '(view, w) := request peer serve_latest w in
  match view with
  | Some (Some remote) =>
      if negb (is_strictly_newer remote local_latest) then (mkPollOutcome peer false false, w)
      else
        match verify_manifest_signature_any (pinned self) remote, w_nodes w !! self with
        | Ok _, Some s =>
            let '(accepted, s) := record_release_announcement now remote s in
            let '(have_local, s) := release_binary_bytes (version remote) s in
            let w := set_node self s w in
            let '(imported, w) :=
              if bool_decide (is_Some have_local) then (false, w) else pull self peer (version remote) w in
            (mkPollOutcome peer accepted imported, w)
        | _, _ => (mkPollOutcome peer false false, w)
        end
  | _ => (mkPollOutcome peer false false, w)
  end.

Fixpoint poll_loop (self : text) (local_latest : option ReleaseManifest) (peers : list text) (w : World)
    : list PeerPollOutcome * World :=
  match peers with
  | [] => ([], w)
  | peer :: peers =>
      let '(po, w) := poll_peer self local_latest peer w in
      let '(outcomes, w) := poll_loop self local_latest peers w in
      (po :: outcomes, w)
  end.

Definition poll_once (self : text) (peers : list text) (w : World) : list PeerPollOutcome * World :=
  poll_loop self (w_nodes w !! self ≫= latest_release) peers w.

(** ** Tasks *)
Definition run_task (w : World) (i : nat) : option World :=
  '(n, m) ← w_tasks w !! i;
  Some (propagate_release n m (update_peers n) (mkWorld (w_nodes w) (w_faults w) (delete i (w_tasks w)))).2.

(** A run, by the positions of the tasks chosen. *)
Fixpoint run_tasks (w : World) (picks : list nat) : option World :=
  match picks with
  | [] => Some w
  | i :: picks => w ← run_task w i; run_tasks w picks
  end.
End net.

(** ** What the methods do to the latest manifest *)
Section latest.
Context `{ReleaseCrypto} `{HexCrate} `{ReleaseJson}.

Lemma schedule_latest s target : latest_release (schedule_restart s target) = latest_release s.
Proof. unfold schedule_restart. by destruct (install_target_override s). Qed.

Lemma install_latest now v s : latest_release (install_release now v s).2 = latest_release s.
Proof.
  unfold install_release. destruct (data_dir s); [|done]. destruct (negb _); [done|].
  destruct (install_target s); [|done]. destruct (install_binary _ _ _) as [[] ?]; [|done..].
  cbn [snd]. by rewrite schedule_latest.
Qed.

Lemma auto_install_latest now v s : latest_release (maybe_auto_install_release now v s) = latest_release s.
Proof. unfold maybe_auto_install_release. repeat case_match; try done; rewrite install_latest; congruence. Qed.

Lemma record_latest now m s :
  record_release_announcement now m s =
    if is_strictly_newer m (latest_release s) then (true, (record_release_announcement now m s).2) else (false, s).
Proof. unfold record_release_announcement. by destruct (is_strictly_newer m (latest_release s)). Qed.

Lemma record_stores now m s : is_strictly_newer m (latest_release s) = true ->
  latest_release (record_release_announcement now m s).2 = Some m.
Proof.
  unfold record_release_announcement. intros ->. cbn [negb snd]. by rewrite auto_install_latest.
Qed.

Lemma import_latest now v data s : latest_release (import_release_binary now v data s).2 = latest_release s.
Proof.
  unfold import_release_binary. destruct (data_dir s); [|done]. destruct (latest_release s) as [m|] eqn:Hm; [|done].
  destruct (negb _); [done|]. destruct (store_verified_binary _ _ _ _ _) as [[] fs]; cbn [snd]; [|done..].
  by rewrite auto_install_latest.
Qed.

Lemma rpc_import_latest now v hex s : latest_release (rpc_import_release_binary now v hex s).2 = latest_release s.
Proof.
  unfold rpc_import_release_binary. destruct (hex_decode _) as [data|]; [|done].
  pose proof (import_latest now v data s) as Hi. by destruct (import_release_binary now v data s) as [[ok r] s'].
Qed.

Lemma binary_latest v s : latest_release (release_binary_bytes v s).2 = latest_release s.
Proof.
  unfold release_binary_bytes. destruct (data_dir s); [|done]. by destruct (load_binary _ _ _) as [[] ?].
Qed.

(** An announcement of a manifest that a pinned key signed is stored exactly if it is newer. *)
Lemma announce_signed `{!ReleaseCryptoLaws _} `{!HexLaws _} pinned now sk binary v t s :
  ed_public sk ∈ pinned ->
  let m := sign_release sk binary v t in
  let '((accepted, _), s') := announce_release pinned now m s in
  if is_strictly_newer m (latest_release s) then accepted = true /\ latest_release s' = Some m
  else accepted = false /\ s' = s.
Proof.
  intros Hpk m. unfold announce_release.
  assert (hex_decode (trim_0x (sha256_hex m)) = Some (arr_bytes (sha256 binary))) as ->
    by (cbn [m sign_release sha256_hex]; by rewrite trim_hex, hex_roundtrip).
  cbn [mbind option_bind]. rewrite arr_of_arr_bytes.
  assert (Signature_from_hex (ed25519_sig_hex m) = Ok (ed_sign sk (canonical_payload v (sha256 binary) t))) as ->.
  { cbn [m sign_release ed25519_sig_hex]. apply Signature_hex_roundtrip. }
  assert (existsb (fun pk => ed_verify pk (canonical_payload (version m) (sha256 binary) (timestamp_unix m))
    (ed_sign sk (canonical_payload v (sha256 binary) t))) pinned = true) as ->.
  { apply existsb_exists. exists (ed_public sk). split; [by apply list_elem_of_In|]. apply ed_sign_verify. }
  cbn [negb]. rewrite record_latest. pose proof (record_stores now m s) as Hst.
  destruct (is_strictly_newer m (latest_release s)); [|done]. split; [done|]. by apply Hst.
Qed.
End latest.

(** ** One manifest spreads *)
Section spread.
Context `{C : ReleaseCrypto} `{X : HexCrate} `{J : ReleaseJson} `{!ReleaseCryptoLaws C} `{!HexLaws X}.
Context (pinned : text -> list ed_pk) (update_peers : text -> list text) (now : N).
Context (sk : ed_sk) (binary v : bytes) (t : N) (nodes0 : gmap text ReleaseNode).

Local Abbreviation m := (sign_release sk binary v t).

Context (Hpinned : forall n, is_Some (nodes0 !! n) -> ed_public sk ∈ pinned n)
  (Hclosed : forall n p, is_Some (nodes0 !! n) -> p ∈ update_peers n -> is_Some (nodes0 !! p))
  (Holder : forall n s, nodes0 !! n = Some s -> is_strictly_newer m (latest_release s) = true).

(** The nodes [I] know the manifest, the others are as they were; requests arrive. *)
Record spread (I : gset text) (w : World) : Prop := {
  sp_faults : w_faults w = [];
  sp_nodes : forall n, match nodes0 !! n with
    | None => w_nodes w !! n = None
    | Some s0 => exists s, w_nodes w !! n = Some s /\ if decide (n ∈ I) then latest_release s = Some m else s = s0
    end
}.

Lemma spread_node I w n : spread I w -> is_Some (nodes0 !! n) ->
  exists s0 s, nodes0 !! n = Some s0 /\ w_nodes w !! n = Some s /\
    if decide (n ∈ I) then latest_release s = Some m else s = s0.
Proof.
  intros [_ Hn] [s0 Hs0]. specialize (Hn n). rewrite Hs0 in Hn. destruct Hn as (s & Hs & Hcase). by exists s0, s.
Qed.

(** An answer from a node of [I] that leaves its latest manifest. *)
Lemma spread_set I w n s' : spread I w -> n ∈ I -> latest_release s' = Some m -> is_Some (nodes0 !! n) ->
  spread I (set_node n s' w) /\ w_tasks (set_node n s' w) = w_tasks w.
Proof.
  intros [Hf Hn] Hin Hl [s0 Hs0]. split; [|done]. split; [done|]. intros n'. cbn [set_node w_nodes].
  destruct (decide (n' = n)) as [->|Hne].
  - rewrite Hs0, lookup_insert_eq. exists s'. split; [done|]. by rewrite decide_True.
  - rewrite lookup_insert_ne by done. apply Hn.
Qed.

Lemma request_delivered {A} I w n (serve : ReleaseNode -> World -> A * World) s :
  spread I w -> w_nodes w !! n = Some s -> request n serve w = (Some (serve s w).1, (serve s w).2).
Proof.
  intros [Hf _] Hs. unfold request. destruct w as [ns fs ts]. cbn in *. subst fs. cbn. rewrite Hs.
  by destruct (serve s _).
Qed.

(** The nodes that spawn a task when they learn the manifest. *)
Definition spawned (ps : list text) : list (text * ReleaseManifest) :=
  (fun p => (p, m)) <$> filter (fun p => update_peers p <> []) ps.

Lemma announce_step I w n : spread I w -> is_Some (nodes0 !! n) ->
  exists accepted w', request n (serve_announce pinned update_peers now n m) w = (Some accepted, w') /\
    spread ({[n]} ∪ I) w' /\ w_tasks w' = w_tasks w ++ spawned (if decide (n ∈ I) then [] else [n]).
Proof.
  intros Hsp Hsome. destruct (spread_node I w n Hsp Hsome) as (s0 & s & Hs0 & Hs & Hcase).
  rewrite (request_delivered I w n _ s Hsp Hs). unfold serve_announce.
  pose proof (announce_signed (pinned n) now sk binary v t s (Hpinned n Hsome)) as Ha. cbv zeta in Ha.
  destruct (announce_release (pinned n) now m s) as [[accepted r] s'].
  eexists _, _. split; [reflexivity|]. cbn [fst snd]. destruct (decide (n ∈ I)) as [Hin|Hin].
  - rewrite Hcase, is_strictly_newer_irrefl in Ha. destruct Ha as [-> ->].
    cbn [andb]. assert ({[n]} ∪ I = I) as -> by set_solver.
    destruct (spread_set I w n s Hsp Hin Hcase Hsome) as [Hset ->]. split; [done|]. by rewrite app_nil_r.
  - subst s. rewrite (Holder n s0 Hs0) in Ha. destruct Ha as [-> Hl].
    cbn [andb]. assert (spread ({[n]} ∪ I) (set_node n s' w)) as Hset.
    { destruct Hsp as [Hf Hn]. split; [done|]. intros n'. cbn [set_node w_nodes]. destruct (decide (n' = n)) as [->|Hne].
      - rewrite Hs0, lookup_insert_eq. exists s'. split; [done|]. rewrite decide_True by set_solver. done.
      - rewrite lookup_insert_ne by done. specialize (Hn n'). destruct (nodes0 !! n') as [s0'|]; [|done].
        destruct Hn as (s1 & Hs1 & Hc). exists s1. split; [done|].
        destruct (decide (n' ∈ I)); [rewrite decide_True by set_solver|rewrite decide_False by set_solver]; done. }
    unfold spawned. cbn [filter list_filter]. destruct (decide (update_peers n = [])) as [He|He].
    + rewrite bool_decide_eq_true_2 by done. cbn [negb]. rewrite decide_False by (intros Hc; by apply Hc).
      split; [done|]. by rewrite app_nil_r.
    + rewrite bool_decide_eq_false_2 by done. cbn [negb]. rewrite decide_True by done. split; [|done].
      destruct Hset as [Hf Hn]. by split.
Qed.

(** Requests about the binary, between nodes that know the manifest. *)
Lemma binary_step I w n : spread I w -> n ∈ I -> is_Some (nodes0 !! n) ->
  exists a w', request n (serve_binary n v) w = (Some a, w') /\ spread I w' /\ w_tasks w' = w_tasks w.
Proof.
  intros Hsp Hin Hsome. destruct (spread_node I w n Hsp Hsome) as (s0 & s & _ & Hs & Hcase).
  rewrite decide_True in Hcase by done. rewrite (request_delivered I w n _ s Hsp Hs). unfold serve_binary.
  pose proof (binary_latest v s) as Hl. destruct (release_binary_bytes v s) as [b s']. cbn [fst snd] in *.
  eexists _, _. split; [reflexivity|]. apply (spread_set I w n s'); congruence || done.
Qed.

Lemma import_step I w n hex : spread I w -> n ∈ I -> is_Some (nodes0 !! n) ->
  exists a w', request n (serve_import now n v hex) w = (Some a, w') /\ spread I w' /\ w_tasks w' = w_tasks w.
Proof.
  intros Hsp Hin Hsome. destruct (spread_node I w n Hsp Hsome) as (s0 & s & _ & Hs & Hcase).
  rewrite decide_True in Hcase by done. rewrite (request_delivered I w n _ s Hsp Hs). unfold serve_import.
  pose proof (rpc_import_latest now v hex s) as Hl. destruct (rpc_import_release_binary now v hex s) as [b s']. cbn [fst snd] in *.
  eexists _, _. split; [reflexivity|]. apply (spread_set I w n s'); congruence || done.
Qed.

Lemma pull_step I w self peer : spread I w -> self ∈ I -> peer ∈ I ->
  is_Some (nodes0 !! self) -> is_Some (nodes0 !! peer) ->
  spread I (pull now self peer v w).2 /\ w_tasks (pull now self peer v w).2 = w_tasks w.
Proof.
  intros Hsp Hself Hpeer Hs Hp. unfold pull. destruct (binary_step I w peer Hsp Hpeer Hp) as (a & w1 & -> & Hsp1 & <-).
  destruct a as [hex|]; [|done]. destruct (hex_decode (trim_0x hex)) as [data|]; [|done].
  destruct (spread_node I w1 self Hsp1 Hs) as (s0 & s & _ & Hns & Hcase). rewrite decide_True in Hcase by done.
  rewrite Hns. pose proof (import_latest now v data s) as Hl.
  destruct (import_release_binary now v data s) as [[ok r] s']. cbn [fst snd] in *.
  apply (spread_set I w1 self s'); congruence || done.
Qed.

Lemma push_step I w peer data : spread I w -> peer ∈ I -> is_Some (nodes0 !! peer) ->
  spread I (push now peer v data w).2 /\ w_tasks (push now peer v data w).2 = w_tasks w.
Proof.
  intros Hsp Hpeer Hp. unfold push. destruct (binary_step I w peer Hsp Hpeer Hp) as (a & w1 & -> & Hsp1 & <-).
  destruct a as [hex|]; [done|]. by destruct (import_step I w1 peer (hex_bytes data) Hsp1 Hpeer Hp) as (a & w2 & -> & Hsp2 & <-).
Qed.

Lemma propagate_loop_step self local ps : forall I w need,
  spread I w -> self ∈ I -> is_Some (nodes0 !! self) -> (forall p, p ∈ ps -> is_Some (nodes0 !! p)) ->
  let w' := (propagate_loop pinned update_peers now self m local need ps w).2 in
  spread (list_to_set ps ∪ I) w' /\ exists new, w_tasks w' = w_tasks w ++ spawned new /\
    NoDup new /\ forall p, p ∈ new <-> p ∈ ps /\ p ∉ I.
Proof.
  induction ps as [|p ps IH]; intros I w need Hsp Hself Hs Hps; cbn zeta; cbn [propagate_loop].
  { cbn [snd list_to_set]. split; [by rewrite union_empty_l_L|]. exists []. rewrite app_nil_r.
    split_and!; [done|constructor|]. intros p. split; [by intros ?%not_elem_of_nil|by intros [?%not_elem_of_nil _]]. }
  assert (is_Some (nodes0 !! p)) as Hp by (apply Hps; left).
  destruct (announce_step I w p Hsp Hp) as (acc & w1 & -> & Hsp1 & Ht1).
  assert (exists imported w2, match local with
      | Some data => push now p (version m) data w1
      | None => if need then pull now self p (version m) w1 else (false, w1)
      end = (imported, w2) /\ spread ({[p]} ∪ I) w2 /\ w_tasks w2 = w_tasks w1) as (imp & w2 & -> & Hsp2 & Ht2).
  { change (version m) with v. destruct local as [data|]; [|destruct need].
    - destruct (push_step ({[p]} ∪ I) w1 p data Hsp1 ltac:(set_solver) Hp) as [H1 H2].
      destruct (push now p v data w1) as [b w2]. by exists b, w2.
    - destruct (pull_step ({[p]} ∪ I) w1 self p Hsp1 ltac:(set_solver) ltac:(set_solver) Hs Hp) as [H1 H2].
      destruct (pull now self p v w1) as [b w2]. by exists b, w2.
    - by exists false, w1. }
  destruct (IH ({[p]} ∪ I) w2 (need && negb imp) Hsp2 ltac:(set_solver) Hs ltac:(intros; apply Hps; by right))
    as (Hsp3 & new & Ht3 & Hnd & Hnew).
  destruct (propagate_loop pinned update_peers now self m local (need && negb imp) ps w2) as [outs w3]. cbn [snd] in *.
  replace (list_to_set (p :: ps) ∪ I) with (list_to_set ps ∪ ({[p]} ∪ I)) by set_solver. split; [done|].
  exists ((if decide (p ∈ I) then [] else [p]) ++ new). split_and!.
  - rewrite Ht3, Ht2, Ht1. unfold spawned. by rewrite filter_app, fmap_app, app_assoc.
  - destruct (decide (p ∈ I)); [done|]. apply NoDup_cons. split; [|done]. rewrite Hnew. set_solver.
  - intros q. rewrite elem_of_app, Hnew. destruct (decide (p ∈ I)).
    + destruct (decide (q = p)) as [->|]; set_solver.
    + destruct (decide (q = p)) as [->|]; set_solver.
Qed.

Lemma propagate_step self I w : spread I w -> self ∈ I -> is_Some (nodes0 !! self) ->
  let w' := (propagate_release pinned update_peers now self m (update_peers self) w).2 in
  spread (list_to_set (update_peers self) ∪ I) w' /\ exists new, w_tasks w' = w_tasks w ++ spawned new /\
    NoDup new /\ forall p, p ∈ new <-> p ∈ update_peers self /\ p ∉ I.
Proof.
  intros Hsp Hself Hs. unfold propagate_release. destruct (spread_node I w self Hsp Hs) as (s0 & s & _ & Hns & Hcase).
  rewrite decide_True in Hcase by done. rewrite Hns. pose proof (binary_latest (version m) s) as Hl.
  destruct (release_binary_bytes (version m) s) as [local s']. cbn [fst snd] in Hl.
  destruct (spread_set I w self s' Hsp Hself ltac:(congruence) Hs) as [Hsp' <-].
  apply propagate_loop_step; [done..|]. intros p Hp. by eapply Hclosed.
Qed.

(** After [k] tasks: the nodes [I] know the manifest, [ns] are about to tell their peers. *)
Definition run_inv (start : text) (k : nat) (w : World) : Prop :=
  exists I ns, spread I w /\ w_tasks w = (fun n => (n, m)) <$> ns /\ start ∈ I /\
    (forall n, n ∈ I -> is_Some (nodes0 !! n) /\ rtc (fun a b => b ∈ update_peers a) start n) /\
    (forall n, n ∈ ns -> n ∈ I) /\
    (forall n, n ∈ I -> n ∈ ns \/ forall p, p ∈ update_peers n -> p ∈ I) /\
    (k + length ns <= size I)%nat.

Lemma run_inv_bound start k w : run_inv start k w -> (k + length (w_tasks w) <= size (dom nodes0))%nat.
Proof.
  intros (I & ns & _ & -> & _ & HI & _ & _ & Hk). rewrite length_fmap. etransitivity; [exact Hk|].
  apply subseteq_size. intros n Hn. apply elem_of_dom, HI, Hn.
Qed.

Lemma run_task_step start k w i w' : run_inv start k w -> run_task pinned update_peers now w i = Some w' ->
  run_inv start (S k) w'.
Proof.
  intros (I & ns & Hsp & Ht & Hst & HI & Hns & Hcl & Hk) Hrun. unfold run_task in Hrun.
  rewrite Ht, list_lookup_fmap in Hrun. destruct (ns !! i) as [n|] eqn:Hi; cbn [fmap option_fmap option_map mbind option_bind] in Hrun; [|done].
  injection Hrun as <-. assert (n ∈ ns) as Hn by (by eapply list_elem_of_lookup_2).
  set (w1 := mkWorld _ _ _).
  assert (spread I w1) as Hsp1 by (destruct Hsp; by split).
  destruct (propagate_step n I w1 Hsp1 (Hns n Hn) (proj1 (HI n (Hns n Hn)))) as (Hsp' & new & Ht' & Hnd & Hnew).
  set (w' := (propagate_release _ _ _ _ _ _ _).2) in *.
  exists (list_to_set (update_peers n) ∪ I), (delete i ns ++ filter (fun p => update_peers p <> []) new).
  split_and!.
  - done.
  - rewrite Ht'. unfold w1, spawned. cbn [w_tasks]. by rewrite fmap_app, list_fmap_delete.
  - set_solver.
  - intros p Hp. apply elem_of_union in Hp as [Hp%elem_of_list_to_set|Hp]; [|by apply HI]. destruct (HI n (Hns n Hn)) as [Hsn Hrn].
    split; [by eapply Hclosed|]. by eapply rtc_r.
  - intros p [Hp|[_ Hp%Hnew]%list_elem_of_filter]%elem_of_app; [|set_solver].
    apply elem_of_union. right. by apply Hns, (list_elem_of_delete_inv p i).
  - intros p Hp. destruct (decide (p = n)) as [->|Hpn]; [right; intros q Hq; apply elem_of_union; left; by apply elem_of_list_to_set|].
    destruct (decide (p ∈ I)) as [HpI|HpI].
    + destruct (Hcl p HpI) as [Hpn'|Hall]; [left|right; intros q Hq; apply elem_of_union; right; by apply Hall].
      apply elem_of_app. left. rewrite (delete_Permutation ns i n Hi) in Hpn'. by apply elem_of_cons in Hpn' as [?|?].
    + destruct (decide (update_peers p = [])) as [He|He]; [right; intros q Hq; rewrite He in Hq; by apply not_elem_of_nil in Hq|].
      left. apply elem_of_app. right. apply list_elem_of_filter. split; [done|]. apply Hnew. set_solver.
  - rewrite length_app, length_delete by (by exists n).
    assert (size I + length new <= size (list_to_set (update_peers n) ∪ I : gset text))%nat as Hsz.
    { rewrite <-(size_list_to_set (C := gset text) new) by done. rewrite <-size_union by set_solver.
      apply subseteq_size. set_solver. }
    pose proof (length_filter (fun p => update_peers p <> []) new).
    apply lookup_lt_Some in Hi. lia.
Qed.

(** Where the manifest is after [k] tasks, and when there are none left. *)
Lemma run_inv_reach start k w : run_inv start k w -> w_tasks w = [] ->
  forall n s0, nodes0 !! n = Some s0 -> exists s, w_nodes w !! n = Some s /\
    (rtc (fun a b => b ∈ update_peers a) start n -> latest_release s = Some m) /\
    (~ rtc (fun a b => b ∈ update_peers a) start n -> s = s0).
Proof.
  intros (I & ns & Hsp & Ht & Hst & HI & _ & Hcl & _) He n s0 Hs0. rewrite He in Ht.
  assert (ns = []) as -> by (by destruct ns). destruct (spread_node I w n Hsp ltac:(by exists s0)) as (s0' & s & Hs0' & Hs & Hc).
  exists s. split; [done|].
  assert (forall a b, rtc (fun a b => b ∈ update_peers a) a b -> a ∈ I -> b ∈ I) as Hreach.
  { intros a b Hr. induction Hr as [|a b c Hab _ IH]; [done|]. intros Ha. apply IH.
    destruct (Hcl a Ha) as [Hn|Hall]; [by apply not_elem_of_nil in Hn|by apply Hall]. }
  split.
  - intros Hr. rewrite decide_True in Hc by (by apply (Hreach start)). done.
  - intros Hr. rewrite decide_False in Hc; [congruence|]. intros Hn. by apply Hr, HI.
Qed.

Lemma run_tasks_inv start picks : forall k w w',
  run_inv start k w -> run_tasks pinned update_peers now w picks = Some w' -> run_inv start (k + length picks) w'.
Proof.
  induction picks as [|i picks IH]; intros k w w' Hi Hrun; cbn [run_tasks length] in *.
  { injection Hrun as <-. by rewrite Nat.add_0_r. }
  apply bind_Some in Hrun as (w1 & H1 & Hrun). rewrite Nat.add_succ_r. apply (IH (S k) w1); [|done].
  by apply (run_task_step start k w i).
Qed.

Lemma announced_inv start : is_Some (nodes0 !! start) ->
  exists accepted w1, request start (serve_announce pinned update_peers now start m) (mkWorld nodes0 [] []) = (Some accepted, w1) /\
    run_inv start 0 w1.
Proof.
  intros Hst. assert (spread ∅ (mkWorld nodes0 [] [])) as Hsp.
  { split; [done|]. intros n. cbn [w_nodes]. destruct (nodes0 !! n) as [s0|]; [|done]. exists s0. split; [done|].
    by rewrite decide_False by set_solver. }
  destruct (announce_step ∅ _ start Hsp Hst) as (acc & w1 & Hreq & Hsp1 & Ht). exists acc, w1. split; [done|].
  rewrite decide_False in Ht by set_solver. cbn [w_tasks] in Ht. rewrite union_empty_r_L in Hsp1.
  exists {[start]}, (filter (fun p => update_peers p <> []) [start]). split_and!.
  - done.
  - done.
  - set_solver.
  - intros n ->%elem_of_singleton. split; [done|]. apply rtc_refl.
  - intros n [_ ->%list_elem_of_singleton]%list_elem_of_filter. set_solver.
  - intros n ->%elem_of_singleton. destruct (decide (update_peers start = [])) as [He|He].
    + right. intros p Hp. rewrite He in Hp. by apply not_elem_of_nil in Hp.
    + left. apply list_elem_of_filter. split; [done|left].
  - rewrite size_singleton. pose proof (length_filter (fun p => update_peers p <> []) [start]). done.
Qed.

(** C28. A release reaches every node: when no request is lost, every node pins the key that signed a
    manifest and knows none as new, then after it was announced to one node the propagation ends, in
    whatever order the tasks run, after at most one task for each node; a waiting task can always run;
    and when none waits, the manifest is the latest of every node that the update
    peers lead to, and every other node is as it was. *)
Theorem release_reaches_all start :
  is_Some (nodes0 !! start) ->
  exists accepted w1, request start (serve_announce pinned update_peers now start m) (mkWorld nodes0 [] []) = (Some accepted, w1) /\
  forall picks w, run_tasks pinned update_peers now w1 picks = Some w ->
    (length picks + length (w_tasks w) <= size (dom nodes0))%nat /\
    (w_tasks w <> [] -> exists w', run_task pinned update_peers now w 0 = Some w') /\
    (w_tasks w = [] -> forall n s0, nodes0 !! n = Some s0 -> exists s, w_nodes w !! n = Some s /\
      (rtc (fun a b => b ∈ update_peers a) start n -> latest_release s = Some m) /\
      (~ rtc (fun a b => b ∈ update_peers a) start n -> s = s0)).
Proof.
  intros Hst. destruct (announced_inv start Hst) as (acc & w1 & Hreq & Hi). exists acc, w1. split; [done|].
  intros picks w Hrun. pose proof (run_tasks_inv start picks 0 w1 w Hi Hrun) as Hi'. split_and!.
  - by apply (run_inv_bound start).
  - intros Hne. unfold run_task. destruct (w_tasks w) as [|[n m'] ts]; [done|]. by eexists.
  - by apply (run_inv_reach start (0 + length picks)).
Qed.
End spread.

(** ** What polling does not repair *)
Section poll.
Context `{C : ReleaseCrypto} `{X : HexCrate} `{J : ReleaseJson}.

(** The poller does not fetch a missing binary: it asks a peer for the binary only when
    the peer's manifest is newer than the one known, so a node that learnt a manifest without
    its binary stays without it through every poll of peers that know nothing newer, although
    they serve the binary; nothing changes on any node. *)
Theorem poll_leaves_binary_missing pinned now self s peers w :
  w_nodes w !! self = Some s -> w_faults w = [] ->
  (forall p sp r, p ∈ peers -> w_nodes w !! p = Some sp -> latest_release sp = Some r ->
    is_strictly_newer r (latest_release s) = false) ->
  poll_once pinned now self peers w = ((fun p => mkPollOutcome p false false) <$> peers, w).
Proof.
  intros Hs Hf Hold. unfold poll_once. rewrite Hs. cbn [mbind option_bind].
  induction peers as [|p peers IH]; [done|]. cbn [poll_loop fmap list_fmap].
  assert (poll_peer pinned now self (latest_release s) p w = (mkPollOutcome p false false, w)) as ->.
  { unfold poll_peer, request, serve_latest. destruct w as [ns fs ts]. cbn in *. subst fs. cbn.
    destruct (ns !! p) as [sp|] eqn:Hp; [|done]. destruct (latest_release sp) as [r|] eqn:Hr; [|done].
    rewrite (Hold p sp r) by (done || left). done. }
  rewrite IH; [done|]. intros q sp r Hq. apply Hold. by right.
Qed.
End poll.

(** ** Three nodes in a line *)
Module NetDemo.
Export ToyHex ToyRelease.

Definition left_node : text := str "http://a".
Definition middle_node : text := str "http://b".
Definition right_node : text := str "http://c".

Definition line (n : text) : list text :=
  if bool_decide (n = left_node) then [middle_node]
  else if bool_decide (n = middle_node) then [left_node; right_node]
  else if bool_decide (n = right_node) then [middle_node] else [].

Definition idle : ReleaseNode := mkReleaseNode (Some ReleaseDemo.dir) None false None None 5 ReleaseDemo.fs0 [].

Definition three : gmap text ReleaseNode := {[ left_node := idle; middle_node := idle; right_node := idle ]}.
Definition pins (n : text) : list ed_pk := ReleaseDemo.pinned.

Lemma three_nodes n s : three !! n = Some s ->
  (n = left_node \/ n = middle_node \/ n = right_node) /\ latest_release s = None.
Proof.
  unfold three. intros [[<- <-]|[_ [[<- <-]|[_ [<- <-]%lookup_singleton_Some]]%lookup_insert_Some]]%lookup_insert_Some; auto.
Qed.

Lemma line_closed n : Forall (fun p => is_Some (three !! p)) (line n).
Proof.
  assert (is_Some (three !! left_node)) as Hl by (apply (bool_decide_eq_true_1 _); vm_compute; reflexivity).
  assert (is_Some (three !! middle_node)) as Hm by (apply (bool_decide_eq_true_1 _); vm_compute; reflexivity).
  assert (is_Some (three !! right_node)) as Hr by (apply (bool_decide_eq_true_1 _); vm_compute; reflexivity).
  unfold line. case_bool_decide; [by apply Forall_singleton|]. case_bool_decide; [by apply Forall_cons_2; [|apply Forall_singleton]|].
  case_bool_decide; [by apply Forall_singleton|apply Forall_nil_2].
Qed.

(** The operator announces on the left node, whose tasks and those of the others run, and then
    imports the binary there, which needs the manifest. *)
Definition announced : World :=
  (request left_node (serve_announce pins line 9 left_node ReleaseDemo.manifest) (mkWorld three [] [])).2.
Definition settled : World := default announced (run_tasks pins line 9 announced [0; 0; 0]%nat).
Definition imported : World :=
  (request left_node (serve_import 10 left_node ReleaseDemo.v12 (hex_bytes ReleaseDemo.new_binary)) settled).2.

Definition knows (w : World) (n : text) : bool :=
  match w_nodes w !! n with
  | Some s => bool_decide (version <$> latest_release s = Some ReleaseDemo.v12)
  | None => false
  end.
Definition has_binary (w : World) (n : text) : bool :=
  match w_nodes w !! n with
  | Some s => bool_decide (is_Some (files (disk s) !! binary_path ReleaseDemo.dir ReleaseDemo.v12))
  | None => false
  end.
Definition middle_state : ReleaseNode := default idle (w_nodes imported !! middle_node).
End NetDemo.
Import NetDemo.

(** All three know the manifest; only the node it was imported on has the binary. *)
Example binary_not_spread :
  w_tasks settled = [] /\ forallb (knows imported) [left_node; middle_node; right_node] = true /\
  has_binary imported left_node = true /\ has_binary imported middle_node = false /\
  has_binary imported right_node = false.
Proof. vm_compute. done. Qed.

Lemma release_reaches_all_witness :
  exists accepted w1, request left_node (serve_announce pins line 9 left_node ReleaseDemo.manifest) (mkWorld three [] []) = (Some accepted, w1) /\
  forall picks w, run_tasks pins line 9 w1 picks = Some w ->
    (length picks <= 3)%nat /\
    (w_tasks w = [] -> exists s, w_nodes w !! right_node = Some s /\ latest_release s = Some ReleaseDemo.manifest).
Proof.
  destruct (release_reaches_all pins line 9 ReleaseDemo.sk ReleaseDemo.new_binary ReleaseDemo.v12 1700000000 three) with (start := left_node)
    as (acc & w1 & Hreq & Hall).
  - intros n _. left.
  - intros n p _ Hp. pose proof (line_closed n) as Hall. rewrite Forall_forall in Hall. by apply Hall.
  - intros n s [_ Hl]%three_nodes. by rewrite Hl.
  - apply (bool_decide_eq_true_1 _). vm_compute. reflexivity.
  - exists acc, w1. split; [exact Hreq|]. intros picks w Hrun. destruct (Hall picks w Hrun) as (Hl & _ & Hd).
    assert (size (dom three) = 3%nat) as Hsize by (vm_compute; reflexivity). rewrite Hsize in Hl. split; [lia|].
    intros He. destruct (Hd He right_node idle) as (s & Hs & Hr & _); [vm_compute; reflexivity|].
    exists s. split; [exact Hs|]. apply Hr.
    apply (rtc_l _ left_node middle_node right_node); [|apply (rtc_l _ middle_node right_node right_node); [|apply rtc_refl]];
      apply (bool_decide_eq_true_1 _); vm_compute; reflexivity.
Defined.

Lemma poll_leaves_binary_missing_witness :
  poll_once pins 11 middle_node [left_node; right_node] imported =
    ([mkPollOutcome left_node false false; mkPollOutcome right_node false false], imported) /\
  has_binary imported middle_node = false.
Proof.
  split; [|vm_compute; reflexivity].
  apply (poll_leaves_binary_missing pins 11 middle_node middle_state [left_node; right_node] imported).
  - vm_compute. reflexivity.
  - vm_compute. reflexivity.
  - intros p sp r Hp Hsp Hr.
    assert (forallb (fun p => match w_nodes imported !! p ≫= latest_release with
      | Some r => negb (is_strictly_newer r (latest_release middle_state)) | None => true end) [left_node; right_node] = true) as Hall
      by (vm_compute; reflexivity).
    rewrite forallb_forall in Hall. specialize (Hall p ltac:(by apply list_elem_of_In)). rewrite Hsp in Hall. cbn in Hall.
    rewrite Hr in Hall. by apply negb_true_iff in Hall.
Defined.
