(* ===== verification/StateDb.v ===== *)
(** * StateDb: accounts, code and contract storage over the key-value backend

    Models [src/crates/aii-state/src/account.rs], [db.rs] and [error.rs].  The state root
    is a function of the accounts alone: the order in which they were written and the
    other column families do not matter ([state_root_view]). *)
From stdpp Require Import base tactics gmap numbers sets strings list.
From Stdlib Require Import NArith Lia.
From S2P Require Import Prelude Bytes Crypto Codec Tx ToyRlp Trie Storage.

(** ** [account.rs] *)
Definition EMPTY_CODE_HASH : H256 :=
  be_array 32 0xc5d2460186f7233c927e7db2dcc703c0e500b653ca82273b7bfad8045d85a470.

Record Account := mkAccount {
  a_nonce : N;
  a_balance : N;
  a_storage_root : H256;
  a_code_hash : H256
}.

#[export] Instance Account_eq_dec : EqDecision Account.
Proof. solve_decision. Defined.

Definition EMPTY_ACCOUNT : Account := mkAccount 0 0 EMPTY_TRIE_HASH EMPTY_CODE_HASH.

Definition is_eoa (self : Account) : bool := bool_decide (a_code_hash self = EMPTY_CODE_HASH).

(** [error.rs] *)
Inductive StateError :=
| StateStorage (e : StorageError)
| StateRlp (e : RlpError)
| StateDecode (msg : string).

Section state_db.
Context `{Primitives} `{Rlp} {B : Type} `{KvBackend B}.

Definition account_payload (a : Account) : bytes :=
  rlp_u64 (a_nonce a) ++ encode_u256 (a_balance a) ++ encode_array (a_storage_root a) ++
  encode_array (a_code_hash a).

Definition encode_account (a : Account) : bytes := with_list_header (account_payload a).

Definition decode_account : decoder Account := fun buf =>
  '((is_list, _), buf) ← rlp_decode_header buf;
  _ ← guard_err (negb is_list) UnexpectedString;
  '(nonce, buf) ← rlp_decode_u64 buf;
  '(balance, buf) ← decode_u256 buf;
  '(storage_root, buf) ← decode_array 32 buf;
  '(code_hash, buf) ← decode_array 32 buf;
  mret (mkAccount nonce balance storage_root code_hash, buf).

Definition account_hash (a : Account) : H256 := keccak256 (encode_account a).

(** ** [db.rs] *)
Definition state_key (addr : Address) : bytes := arr_bytes (keccak256 (arr_bytes addr)).
Definition storage_key (addr : Address) (slot : H256) : bytes := arr_bytes addr ++ arr_bytes slot.

Definition db_get (cf : ColumnFamily) (key : bytes) (b : B) : res StateError (option bytes) :=
  map_err StateStorage (kv_get b cf key).
Definition db_put (cf : ColumnFamily) (key value : bytes) : action B StateError unit := fun b =>
  let '(b, r) := kv_put b cf key value in (b, map_err StateStorage r).
Definition db_delete (cf : ColumnFamily) (key : bytes) : action B StateError unit := fun b =>
  let '(b, r) := kv_delete b cf key in (b, map_err StateStorage r).

Definition account (addr : Address) (b : B) : res StateError (option Account) :=
  o ← db_get State (state_key addr) b;
  match o with
  | None => mret None
  | Some v => '(acc, _) ← map_err StateRlp (decode_account v); mret (Some acc)
  end.

Definition set_account (addr : Address) (acc : Account) : action B StateError unit :=
  db_put State (state_key addr) (encode_account acc).

Definition remove_account (addr : Address) : action B StateError unit :=
  db_delete State (state_key addr).

Definition code_get (code_hash : H256) (b : B) : res StateError (option bytes) :=
  db_get Code (arr_bytes code_hash) b.

Definition code_put (code_hash : H256) (code : bytes) : action B StateError unit :=
  db_put Code (arr_bytes code_hash) code.

Definition storage_get (addr : Address) (slot : H256) (b : B) : res StateError H256 :=
  o ← db_get AccountStorage (storage_key addr slot) b;
  match o with
  | None => mret (zero_array 32)
  | Some v => ok_or (arr_of v) (StateDecode "storage slot value has unexpected length")
  end.

Definition storage_put (addr : Address) (slot value : H256) : action B StateError unit :=
  if bool_decide (value = zero_array 32)
  then db_delete AccountStorage (storage_key addr slot)
  else db_put AccountStorage (storage_key addr slot) (arr_bytes value).

(** The loop of [state_root]: each stored account is decoded and encoded again. *)
Fixpoint root_pairs (items : list kv_item) : res StateError (list (bytes * bytes)) :=
  match items with
  | [] => Ok []
  | item :: items =>
      '(k, v) ← map_err StateStorage item;
      '(acc, _) ← map_err StateRlp (decode_account v);
      rest ← root_pairs items;
      mret ((k, encode_account acc) :: rest)
  end.

Definition state_root (b : B) : res StateError H256 :=
  pairs ← root_pairs (kv_iter b State);
  mret (mpt_root pairs).
End state_db.

(** ** Round trips and what each write changes *)
Section state_facts.
Context `{Primitives} `{R : Rlp} `{!RlpLaws R} {B : Type} `{HB : KvBackend B} {HL : KvLaws B}.
Implicit Types (b : B) (a : Account).

(** The numbers fit their Rust types. *)
Record account_wf (a : Account) : Prop := {
  aw_nonce : a_nonce a < u64_mod;
  aw_balance : a_balance a < u256_mod;
  aw_len : len (account_payload a) < u64_mod
}.

Lemma decode_encode_account a rest :
  account_wf a -> decode_account (encode_account a ++ rest) = Ok (a, rest).
Proof.
  intros [Hn Hb Hlen]. unfold decode_account, encode_account, with_list_header.
  rewrite <-app_assoc, rlp_header_roundtrip by (rewrite ?len_app; lia).
  cbn [mbind res_bind guard_err negb]. unfold account_payload. rewrite <-!app_assoc.
  rewrite rlp_u64_roundtrip by done. cbn [mbind res_bind].
  rewrite decode_encode_u256 by done. cbn [mbind res_bind].
  rewrite !decode_encode_array by done. cbn [mbind res_bind].
  rewrite decode_encode_array by done. by destruct a.
Qed.

(** The account that the store holds under a key, if it is readable. *)
Definition stored_account b (key : bytes) : option (res StateError Account) :=
  v ← kv_view b !! (State, key);
  Some ('(acc, _) ← map_err StateRlp (decode_account v); mret acc).

Lemma db_put_view cf k v b :
  kv_ok b -> exists b', db_put cf k v b = (b', Ok tt) /\ kv_ok b' /\ kv_view b' = <[(cf, k) := v]> (kv_view b).
Proof.
  intros Hok. destruct (kv_put_view b cf k v Hok) as (b' & Hp & Hb'). exists b'.
  unfold db_put. by rewrite Hp.
Qed.

Lemma db_delete_view cf k b :
  kv_ok b -> exists b', db_delete cf k b = (b', Ok tt) /\ kv_ok b' /\ kv_view b' = delete (cf, k) (kv_view b).
Proof.
  intros Hok. destruct (kv_delete_view b cf k Hok) as (b' & Hp & Hb'). exists b'.
  unfold db_delete. by rewrite Hp.
Qed.

Lemma account_view b addr :
  kv_ok b -> account addr b =
    match kv_view b !! (State, state_key addr) with
    | None => Ok None
    | Some v => '(acc, _) ← map_err StateRlp (decode_account v); mret (Some acc)
    end.
Proof. intros Hok. unfold account, db_get. by rewrite kv_get_view. Qed.

Lemma account_set b addr a :
  kv_ok b -> account_wf a -> exists b', set_account addr a b = (b', Ok tt) /\ kv_ok b' /\
    account addr b' = Ok (Some a) /\
    kv_view b' = <[(State, state_key addr) := encode_account a]> (kv_view b).
Proof.
  intros Hok Hwf. destruct (db_put_view State (state_key addr) (encode_account a) b Hok)
    as (b' & Hp & Hok' & Hv). exists b'. split_and!; try done. rewrite account_view, Hv by done.
  rewrite lookup_insert_eq. pose proof (decode_encode_account a [] Hwf) as Hd.
  rewrite app_nil_r in Hd. by rewrite Hd.
Qed.

Lemma storage_key_inj (x y : Address) (s t : H256) : storage_key x s = storage_key y t -> x = y /\ s = t.
Proof.
  unfold storage_key. intros [Hx Hs]%app_inj_1; [|by rewrite !arr_length].
  split; by apply arr_ext.
Qed.

(** Slots of a contract: a zero is stored as an absent row. *)
Lemma storage_put_get b addr slot value addr' slot' :
  kv_ok b -> exists b', storage_put addr slot value b = (b', Ok tt) /\ kv_ok b' /\
    storage_get addr' slot' b' =
      if bool_decide (addr' = addr /\ slot' = slot) then Ok value else storage_get addr' slot' b.
Proof.
  intros Hok. unfold storage_put, storage_get, db_get.
  destruct (decide (value = zero_array 32)) as [->|Hz].
  - rewrite bool_decide_eq_true_2 by done. destruct (db_delete_view AccountStorage (storage_key addr slot) b Hok)
      as (b' & Hp & Hok' & Hv). exists b'. split_and!; try done. rewrite !kv_get_view, Hv by done.
    case_bool_decide as Hk.
    + destruct Hk as [-> ->]. by rewrite lookup_delete_eq.
    + rewrite lookup_delete_ne; [done|]. intros [= ?%storage_key_inj]. naive_solver.
  - rewrite bool_decide_eq_false_2 by done. destruct (db_put_view AccountStorage (storage_key addr slot) (arr_bytes value) b Hok)
      as (b' & Hp & Hok' & Hv). exists b'. split_and!; try done. rewrite !kv_get_view, Hv by done.
    case_bool_decide as Hk.
    + destruct Hk as [-> ->]. rewrite lookup_insert_eq. cbn. by rewrite arr_of_arr_bytes.
    + rewrite lookup_insert_ne; [done|]. intros [= ?%storage_key_inj]. naive_solver.
Qed.

(** Two stores with the same accounts list the same items. *)
Lemma kv_iter_ext b1 b2 cf :
  kv_ok b1 -> kv_ok b2 -> (forall k, kv_view b1 !! (cf, k) = kv_view b2 !! (cf, k)) ->
  kv_iter b1 cf = kv_iter b2 cf.
Proof.
  intros Hok1 Hok2 Hv. destruct (kv_iter_view b1 cf Hok1) as (l1 & -> & Ha1 & Hm1).
  destruct (kv_iter_view b2 cf Hok2) as (l2 & -> & Ha2 & Hm2). f_equal.
  apply ascending_unique; [done..|]. intros [k v]. by rewrite Hm1, Hm2, Hv.
Qed.

Lemma state_root_view b1 b2 :
  kv_ok b1 -> kv_ok b2 -> (forall k, kv_view b1 !! (State, k) = kv_view b2 !! (State, k)) ->
  state_root b1 = state_root b2.
Proof. intros Hok1 Hok2 Hv. unfold state_root. by rewrite (kv_iter_ext b1 b2 State). Qed.
End state_facts.
