(* ===== verification/Wasm.v ===== *)
(** * Wasm: contracts of sub-chains and what the host gives them

    Models [src/crates/aii-wasm] (the runtime's wrapper and the six host imports) and
    [src/crates/aii-wasm-state] (the host over [StateDb], the commit of the effects).
    [wasmtime] is third-party: the class [Wasmtime].  A call into a contract is the tree of
    what it can do: it ends, it traps, or it calls an import with a memory and goes on with
    the memory that the import leaves.  The tree is inductive, since fuel bounds every run. *)
From stdpp Require Import base tactics gmap numbers sets strings list.
From Stdlib Require Import ZArith NArith Lia Sorted.
From Stdlib.Init Require Import Byte.
From S2P Require Import Prelude Bytes Crypto Codec Tx ToyRlp Trie Storage StateDb.

(** ** Lossy text: [String::from_utf8_lossy] *)

(** Is there a character at the start, and how many bytes it takes, or how many bytes one
    replacement character stands for. *)
Definition utf8_first (s : bytes) : bool * nat :=
  match s with
  | [] => (false, 1%nat)
  | a :: s =>
      if in_range 0 127 a then (true, 1%nat)
      else if in_range 194 223 a then
        match s with
        | b :: _ => if continuation b then (true, 2%nat) else (false, 1%nat)
        | [] => (false, 1%nat)
        end
      else if in_range 224 239 a then
        match s with
        | b :: s =>
            if (if in_range 224 224 a then in_range 160 191 b
                else if in_range 237 237 a then in_range 128 159 b
                else continuation b)
            then match s with
                 | c :: _ => if continuation c then (true, 3%nat) else (false, 2%nat)
                 | [] => (false, 2%nat)
                 end
            else (false, 1%nat)
        | [] => (false, 1%nat)
        end
      else if in_range 240 244 a then
        match s with
        | b :: s =>
            if (if in_range 240 240 a then in_range 144 191 b
                else if in_range 244 244 a then in_range 128 143 b
                else continuation b)
            then match s with
                 | c :: s =>
                     if continuation c then
                       match s with
                       | d :: _ => if continuation d then (true, 4%nat) else (false, 3%nat)
                       | [] => (false, 3%nat)
                       end
                     else (false, 2%nat)
                 | [] => (false, 2%nat)
                 end
            else (false, 1%nat)
        | [] => (false, 1%nat)
        end
      else (false, 1%nat)
  end.

(** Each turn takes at least a byte. *)
Fixpoint utf8_lossy_loop (fuel : nat) (s : bytes) : text :=
  match fuel, s with
  | S fuel, _ :: _ =>
      let '(valid, n) := utf8_first s in
      (if valid : bool then take n s else [xef; xbf; xbd]) ++ utf8_lossy_loop fuel (drop n s)
  | _, _ => []
  end.

Definition from_utf8_lossy (s : bytes) : text := utf8_lossy_loop (length s) s.

Lemma utf8_first_valid s : s <> [] -> utf8_valid s = true ->
  exists n, utf8_first s = (true, n) /\ (0 < n)%nat /\ utf8_valid (drop n s) = true.
Proof.
  destruct s as [|a s]; [done|]. intros _. cbn [utf8_valid utf8_first].
  destruct (in_range 0 127 a); [intros Hs; exists 1%nat; split_and!; [done|lia|done]|].
  destruct (in_range 194 223 a).
  { destruct s as [|b s]; [done|]. intros [Hb Hs]%andb_prop. rewrite Hb. exists 2%nat. split_and!; [done|lia|done]. }
  destruct (in_range 224 239 a).
  { destruct s as [|b [|c s]]; [done..|]. intros [[Hb Hc]%andb_prop Hs]%andb_prop. rewrite Hb, Hc. exists 3%nat. split_and!; [done|lia|done]. }
  destruct (in_range 240 244 a); [|done].
  destruct s as [|b [|c [|d s]]]; [done..|]. intros [[[Hb Hc]%andb_prop Hd]%andb_prop Hs]%andb_prop.
  rewrite Hb, Hc, Hd. exists 4%nat. split_and!; [done|lia|done].
Qed.

(** Well-formed text is kept. *)
Lemma from_utf8_lossy_valid s : utf8_valid s = true -> from_utf8_lossy s = s.
Proof.
  unfold from_utf8_lossy. enough (forall fuel s, (length s <= fuel)%nat -> utf8_valid s = true -> utf8_lossy_loop fuel s = s) as Hl
    by (intros Hs; by apply Hl).
  clear s. induction fuel as [|fuel IH]; intros s Hf Hs; [by destruct s; [|cbn in Hf; lia]|].
  destruct s as [|a s]; [done|]. destruct (utf8_first_valid (a :: s)) as (n & Hn & Hpos & Hv); [done..|].
  cbn [utf8_lossy_loop]. rewrite Hn. rewrite IH; [by rewrite take_drop| |done].
  rewrite length_drop. cbn [length] in *. lia.
Qed.

(** ** The engine behind the wrapper *)
Inductive Val := I32 (v : Z) | OtherVal (shown : text).

(** A call of one of the six imports. *)
Inductive import :=
| StorageRead (slot_ptr out_ptr : Z)
| StorageWrite (slot_ptr value_ptr : Z)
| CallerAddr (out_ptr : Z)
| SelfAddr (out_ptr : Z)
| LogData (data_ptr data_len : Z)
| Abort (msg_ptr msg_len : Z).

(** What an instance does: the memory is [None] if it exports none. *)
Inductive guest (E A : Type) :=
| GDone (a : A)
| GTrap (e : E)
| GImport (i : import) (memory : option bytes) (resume : option bytes -> guest E A).

Arguments GDone {E A} a.
Arguments GTrap {E A} e.
Arguments GImport {E A} i memory resume.

Record WasmFunc (E : Type) := mkFunc {
  f_params : N;
  f_results : N;
  (** the value and the fuel that is left *)
  f_call : list Z -> guest E (Val * N)
}.
Arguments mkFunc {E}.
Arguments f_params {E}.
Arguments f_results {E}.
Arguments f_call {E}.

Class Wasmtime := {
  wt_error : Type;
  wt_trap : Type;
  wt_module : Type;
  wt_instance : Type;
  (** an instance without imports, with its store *)
  wt_plain : Type;
  wt_engine : option wt_error;
  wt_compile : bytes -> wt_error + wt_module;
  wt_set_fuel : N -> option wt_error;
  wt_instantiate : wt_module -> N -> guest wt_error wt_instance;
  wt_get_func : wt_instance -> text -> option (WasmFunc wt_error);
  wt_new_plain : wt_module -> N -> wt_error + wt_plain;
  wt_plain_type : wt_plain -> text -> option (N * N);
  wt_plain_call : wt_plain -> text -> list Z -> wt_plain * (wt_error + Val);
  wt_plain_fuel : wt_plain -> wt_error + N;
  (** the error of a call whose import returned an error with this message *)
  wt_host_error : text -> wt_error;
  wt_downcast : wt_error -> option wt_trap;
  wt_out_of_fuel : wt_trap -> bool;
  wt_trap_text : wt_trap -> text;
  wt_error_text : wt_error -> text;
  (** [MemoryAccessError] as text *)
  wt_access_error : text
}.

Inductive WasmError :=
| EngineError (msg : text)
| BadModule (msg : text)
| InstantiateError (msg : text)
| MissingExport (name : text)
| SignatureMismatch (func detail : text)
| OutOfFuel
| Trap (msg : text)
| FuelControl (msg : text)
| Aborted (msg : text).

(** ** [host.rs] *)
Definition MAX_ABORT_MSG_LEN : N := 256.

Record CallContext := mkContext {
  ctx_caller : Address;
  ctx_callee : Address;
  ctx_block_number : N;
  ctx_block_timestamp : N
}.

Class HostState (S : Type) := host_storage_get : S -> Address -> H256 -> H256.

Record HostEffects := mkEffects {
  storage_writes : list (Address * H256 * H256);
  effect_logs : list bytes
}.

Record HostCallResult := mkCallResult {
  return_value : Z;
  effects : HostEffects;
  fuel_remaining : N
}.

Record StoreData (S : Type) := mkStoreData {
  sd_ctx : CallContext;
  overlay : gmap H256 H256;
  sd_logs : list bytes;
  aborted : option text;
  sd_host : S
}.
Arguments mkStoreData {S}.
Arguments sd_ctx {S}.
Arguments overlay {S}.
Arguments sd_logs {S}.
Arguments aborted {S}.
Arguments sd_host {S}.

(** [p as usize]: a negative pointer becomes a huge one. *)
Definition as_usize (p : Z) : N := Z.to_N (p mod 18446744073709551616).

(** [usize::try_from(x.max(0))] *)
Definition clamp (x : Z) : N := Z.to_N (Z.max x 0).

Definition memory_read (memory : bytes) (ptr : N) (n : nat) : option bytes :=
  if ptr + N.of_nat n <=? len memory then Some (take n (drop (N.to_nat ptr) memory)) else None.

Definition memory_write (memory : bytes) (ptr : N) (b : bytes) : option bytes :=
  if ptr + len b <=? len memory
  then Some (take (N.to_nat ptr) memory ++ b ++ drop (N.to_nat ptr + length b) memory)
  else None.

(** [msg.contains(pat)] *)
Fixpoint text_contains (pat s : text) : bool :=
  bool_decide (take (length pat) s = pat) ||
  match s with [] => false | _ :: s => text_contains pat s end.

Section runtime.
Context `{Wasmtime}.

Definition classify_trap (func : text) (err : wt_error) : WasmError :=
  match wt_downcast err with
  | Some trap => if wt_out_of_fuel trap then OutOfFuel else Trap (func ++ str ": " ++ wt_trap_text trap)
  | None =>
      let msg := wt_error_text err in
      if text_contains (str "argument type mismatch") msg || (text_contains (str "expected") msg && text_contains (str "type") msg)
      then SignatureMismatch func msg
      else Trap (func ++ str ": " ++ msg)
  end.

(** *** Calls without a host *)
Definition WasmRuntime_new : res WasmError unit :=
  match wt_engine with Some e => Err (EngineError (wt_error_text e)) | None => Ok tt end.

Definition instantiate (wasm : bytes) (fuel : N) : res WasmError wt_plain :=
  match wt_compile wasm with
  | inl e => Err (BadModule (wt_error_text e))
  | inr m =>
      match wt_set_fuel fuel with
      | Some e => Err (FuelControl (wt_error_text e))
      | None => match wt_new_plain m fuel with
                | inl e => Err (InstantiateError (wt_error_text e))
                | inr i => Ok i
                end
      end
  end.

Definition arity_error (name : text) (expected got : N) : WasmError :=
  SignatureMismatch name (str "expected " ++ to_radix 10 expected ++ str " args, got " ++ to_radix 10 got).
Definition results_error (name : text) (n : N) : WasmError :=
  SignatureMismatch name (str "expected 1 result, function has " ++ to_radix 10 n).
Definition value_of (name : text) (v : Val) : res WasmError Z :=
  match v with
  | I32 v => Ok v
  | OtherVal shown => Err (SignatureMismatch name (str "result was " ++ shown ++ str ", not i32"))
  end.

Definition call_i32 (self : wt_plain) (name : text) (args : list Z) : wt_plain * res WasmError Z :=
  match wt_plain_type self name with
  | None => (self, Err (MissingExport name))
  | Some (params, results) =>
      if negb (params =? len args) then (self, Err (arity_error name params (len args)))
      else if negb (results =? 1) then (self, Err (results_error name results))
      else match wt_plain_call self name args with
      | (self, inr v) => (self, value_of name v)
      | (self, inl e) => (self, Err (classify_trap name e))
      end
  end.

Definition plain_fuel_remaining (self : wt_plain) : res WasmError N :=
  match wt_plain_fuel self with inl e => Err (FuelControl (wt_error_text e)) | inr n => Ok n end.

Definition compile (wasm : bytes) : res WasmError wt_module :=
  match wt_compile wasm with inl e => Err (BadModule (wt_error_text e)) | inr m => Ok m end.

(** *** The imports *)
Context {S : Type} `{HostState S}.

(** A result of an import: an error message, or the memory it leaves. *)
Definition oob (what : string) : text := str what ++ str " OOB: " ++ wt_access_error.

Definition read_h256 (memory : bytes) (ptr : Z) (what : string) : text + H256 :=
  match b ← memory_read memory (as_usize ptr) 32; arr_of b with
  | Some a => inr a
  | None => inl (oob what)
  end.

Definition write_back (memory : bytes) (ptr : Z) (b : bytes) (what : string) : text + bytes :=
  match memory_write memory (as_usize ptr) b with Some m => inr m | None => inl (oob what) end.

Definition host_storage_read (d : StoreData S) (memory : bytes) (slot_ptr out_ptr : Z) : text + bytes :=
  match read_h256 memory slot_ptr "storage_read slot" with
  | inl e => inl e
  | inr slot =>
      let value := default (host_storage_get (sd_host d) (ctx_callee (sd_ctx d)) slot) (overlay d !! slot) in
      write_back memory out_ptr (arr_bytes value) "storage_read out"
  end.

Definition host_storage_write (d : StoreData S) (memory : bytes) (slot_ptr value_ptr : Z) : text + StoreData S :=
  match read_h256 memory slot_ptr "storage_write slot" with
  | inl e => inl e
  | inr slot =>
      match read_h256 memory value_ptr "storage_write value" with
      | inl e => inl e
      | inr value => inr (mkStoreData (sd_ctx d) (<[slot := value]> (overlay d)) (sd_logs d) (aborted d) (sd_host d))
      end
  end.

(** The bytes of a log or a message; nothing is read for length zero. *)
Definition read_clamped (memory : bytes) (ptr : Z) (n : N) (what : string) : text + bytes :=
  if n =? 0 then inr []
  else match memory_read memory (clamp ptr) (N.to_nat n) with Some b => inr b | None => inl (oob what) end.

Definition host_log (d : StoreData S) (memory : bytes) (data_ptr data_len : Z) : text + StoreData S :=
  match read_clamped memory data_ptr (clamp data_len) "log data" with
  | inl e => inl e
  | inr buf => inr (mkStoreData (sd_ctx d) (overlay d) (sd_logs d ++ [buf]) (aborted d) (sd_host d))
  end.

Definition host_abort (d : StoreData S) (memory : bytes) (msg_ptr msg_len : Z) : StoreData S * text :=
  match read_clamped memory msg_ptr (N.min (clamp msg_len) MAX_ABORT_MSG_LEN) "abort message" with
  | inl e => (d, e)
  | inr buf => (mkStoreData (sd_ctx d) (overlay d) (sd_logs d) (Some (from_utf8_lossy buf)) (sd_host d), str "contract aborted")
  end.

Definition caller_memory (memory : option bytes) : text + bytes :=
  match memory with None => inl (str "contract has no exported `memory`") | Some m => inr m end.

Definition host_caller_addr (d : StoreData S) (memory : bytes) (out_ptr : Z) : text + bytes :=
  write_back memory out_ptr (arr_bytes (ctx_caller (sd_ctx d))) "caller out".
Definition host_self_addr (d : StoreData S) (memory : bytes) (out_ptr : Z) : text + bytes :=
  write_back memory out_ptr (arr_bytes (ctx_callee (sd_ctx d))) "self_address out".

(** The six imports as they are registered, on the memory that the caller exports. *)
Definition host_import (d : StoreData S) (i : import) (memory : option bytes) : StoreData S * (text + option bytes) :=
  match caller_memory memory with
  | inl e => (d, inl e)
  | inr m =>
      let written (r : text + bytes) := match r with inl e => inl e | inr m => inr (Some m) end in
      let updated (r : text + StoreData S) := match r with inl e => (d, inl e) | inr d => (d, inr (Some m)) end in
      match i with
      | StorageRead slot_ptr out_ptr => (d, written (host_storage_read d m slot_ptr out_ptr))
      | StorageWrite slot_ptr value_ptr => updated (host_storage_write d m slot_ptr value_ptr)
      | CallerAddr out_ptr => (d, written (host_caller_addr d m out_ptr))
      | SelfAddr out_ptr => (d, written (host_self_addr d m out_ptr))
      | LogData data_ptr data_len => updated (host_log d m data_ptr data_len)
      | Abort msg_ptr msg_len => let '(d, e) := host_abort d m msg_ptr msg_len in (d, inl e)
      end
  end.

(** [wasmtime] runs the guest against the imports. *)
Fixpoint run_guest {A} (d : StoreData S) (g : guest wt_error A) : StoreData S * (wt_error + A) :=
  match g with
  | GDone a => (d, inr a)
  | GTrap e => (d, inl e)
  | GImport i memory resume =>
      match host_import d i memory with
      | (d, inl msg) => (d, inl (wt_host_error msg))
      | (d, inr memory) => run_guest d (resume memory)
      end
  end.

(** The iteration of a [BTreeMap]. *)
Definition overlay_items (m : gmap H256 H256) : list (H256 * H256) :=
  sort_by (fun x y => bytes_le (arr_bytes x.1) (arr_bytes y.1)) (map_to_list m).

Definition call_with_host (module : wt_module) (fuel : N) (name : text) (args : list Z) (ctx : CallContext) (host : S)
    : res WasmError HostCallResult :=
  let data := mkStoreData ctx ∅ [] None host in
  match wt_set_fuel fuel with
  | Some e => Err (FuelControl (wt_error_text e))
  | None =>
      match run_guest data (wt_instantiate module fuel) with
      | (_, inl e) => Err (InstantiateError (wt_error_text e))
      | (data, inr instance) =>
          match wt_get_func instance name with
          | None => Err (MissingExport name)
          | Some func =>
              if negb (f_params func =? len args) then Err (arity_error name (f_params func) (len args))
              else if negb (f_results func =? 1) then Err (results_error name (f_results func))
              else match run_guest data (f_call func args) with
              | (data, inr (v, fuel_remaining)) =>
                  return_value ← value_of name v;
                  mret (mkCallResult return_value
                          (mkEffects ((fun sv => (ctx_callee (sd_ctx data), sv.1, sv.2)) <$> overlay_items (overlay data))
                             (sd_logs data)) fuel_remaining)
              | (data, inl e) =>
                  match aborted data with
                  | Some msg => Err (Aborted msg)
                  | None => Err (classify_trap name e)
                  end
              end
          end
      end
  end.
End runtime.

(** ** [aii-wasm-state] *)
Section state.
Context {B : Type} `{KvBackend B}.

(** [StateDbHost]: what cannot be read is zero. *)
Definition StateDbHost_storage_get (b : B) (addr : Address) (slot : H256) : H256 :=
  res_or (zero_array 32) (storage_get addr slot b).

#[export] Instance StateDbHost : HostState B := StateDbHost_storage_get.

Fixpoint commit_writes (writes : list (Address * H256 * H256)) : action B StateError unit :=
  match writes with
  | [] => mret tt
  | (addr, slot, value) :: writes => _ ← storage_put addr slot value; commit_writes writes
  end.

Definition commit_effects (effects : HostEffects) : action B StateError unit := commit_writes (storage_writes effects).
End state.

(** ** The abstract machine: a contract on its own storage

    Reads and writes go to the storage at once; a run that fails leaves no trace. *)
Record Contract := mkContract { w_slots : H256 -> H256; w_logs : list bytes }.

Section direct.
Context `{Wasmtime} (ctx : CallContext).

Definition set_slot (slots : H256 -> H256) (slot value : H256) : H256 -> H256 :=
  fun s => if bool_decide (s = slot) then value else slots s.

Definition direct_import (w : Contract) (i : import) (memory : option bytes) : Contract * (text + option bytes) :=
  match memory with
  | None => (w, inl (str "contract has no exported `memory`"))
  | Some m =>
      let written (r : text + bytes) := match r with inl e => inl e | inr m => inr (Some m) end in
      match i with
      | StorageRead slot_ptr out_ptr =>
          (w, match read_h256 m slot_ptr "storage_read slot" with
              | inl e => inl e
              | inr slot => written (write_back m out_ptr (arr_bytes (w_slots w slot)) "storage_read out")
              end)
      | StorageWrite slot_ptr value_ptr =>
          match read_h256 m slot_ptr "storage_write slot", read_h256 m value_ptr "storage_write value" with
          | inr slot, inr value => (mkContract (set_slot (w_slots w) slot value) (w_logs w), inr (Some m))
          | inl e, _ | _, inl e => (w, inl e)
          end
      | CallerAddr out_ptr => (w, written (write_back m out_ptr (arr_bytes (ctx_caller ctx)) "caller out"))
      | SelfAddr out_ptr => (w, written (write_back m out_ptr (arr_bytes (ctx_callee ctx)) "self_address out"))
      | LogData data_ptr data_len =>
          match read_clamped m data_ptr (clamp data_len) "log data" with
          | inl e => (w, inl e)
          | inr buf => (mkContract (w_slots w) (w_logs w ++ [buf]), inr (Some m))
          end
      | Abort msg_ptr msg_len =>
          (w, inl match read_clamped m msg_ptr (N.min (clamp msg_len) MAX_ABORT_MSG_LEN) "abort message" with
                  | inl e => e
                  | inr _ => str "contract aborted"
                  end)
      end
  end.

Fixpoint run_direct {A} (w : Contract) (g : guest wt_error A) : Contract * (wt_error + A) :=
  match g with
  | GDone a => (w, inr a)
  | GTrap e => (w, inl e)
  | GImport i memory resume =>
      match direct_import w i memory with
      | (w, inl msg) => (w, inl (wt_host_error msg))
      | (w, inr memory) => run_direct w (resume memory)
      end
  end.

(** The value, the storage and logs, and the fuel left of a call that succeeds. *)
Definition call_direct (module : wt_module) (fuel : N) (name : text) (args : list Z) (slots : H256 -> H256)
    : option (Z * Contract * N) :=
  if wt_set_fuel fuel then None
  else match run_direct (mkContract slots []) (wt_instantiate module fuel) with
  | (_, inl _) => None
  | (w, inr instance) =>
      func ← wt_get_func instance name;
      if negb (f_params func =? len args) || negb (f_results func =? 1) then None
      else match run_direct w (f_call func args) with
      | (w, inr (I32 v, fuel_remaining)) => Some (v, w, fuel_remaining)
      | _ => None
      end
  end.
End direct.

Section refinement.
Context `{W : Wasmtime} {S : Type} `{HS : HostState S}.

(** The collected writes over the host are the storage of the abstract machine. *)
Definition mirrors (ctx : CallContext) (host : S) (d : StoreData S) (w : Contract) : Prop :=
  sd_ctx d = ctx /\ sd_host d = host /\ sd_logs d = w_logs w /\
  forall s, w_slots w s = default (host_storage_get host (ctx_callee ctx) s) (overlay d !! s).

Lemma host_import_mirrors ctx host d w i memory :
  mirrors ctx host d w ->
  (host_import d i memory).2 = (direct_import ctx w i memory).2 /\
  mirrors ctx host (host_import d i memory).1 (direct_import ctx w i memory).1.
Proof.
  intros (Hc & Hh & Hl & Hs). assert (mirrors ctx host d w) as Hm by done. destruct memory as [m|]; [|done].
  destruct i; cbn [host_import direct_import caller_memory].
  - unfold host_storage_read. rewrite Hc, Hh. destruct (read_h256 m slot_ptr _) as [e|slot]; [done|]. by rewrite Hs.
  - unfold host_storage_write. destruct (read_h256 m slot_ptr _) as [e|slot]; [done|].
    destruct (read_h256 m value_ptr _) as [e|value]; [done|]. split; [done|]. split_and!; [done..|].
    intros s. cbn. unfold set_slot. case_bool_decide as He; [subst s; by rewrite lookup_insert_eq|by rewrite lookup_insert_ne].
  - unfold host_caller_addr. by rewrite Hc.
  - unfold host_self_addr. by rewrite Hc.
  - unfold host_log. destruct (read_clamped m data_ptr _ _) as [e|buf]; [done|]. split; [done|]. split_and!; [done..| |done]. cbn. by rewrite Hl.
  - unfold host_abort. destruct (read_clamped m msg_ptr _ _) as [e|buf]; done.
Qed.

Lemma run_guest_mirrors ctx host {A} (g : guest wt_error A) : forall d w,
  mirrors ctx host d w ->
  (run_guest d g).2 = (run_direct ctx w g).2 /\ mirrors ctx host (run_guest d g).1 (run_direct ctx w g).1.
Proof.
  induction g as [a|e|i memory resume IH]; intros d w Hm; [done..|]. cbn [run_guest run_direct].
  destruct (host_import_mirrors ctx host d w i memory Hm) as [Hr Hm'].
  destruct (host_import d i memory) as [d' r], (direct_import ctx w i memory) as [w' r']. cbn [fst snd] in *. subst r'.
  destruct r as [msg|memory']; [done|]. by apply IH.
Qed.

(** A call through the host is the call of the abstract machine. *)
Lemma call_mirrors module fuel name args ctx host :
  match call_with_host module fuel name args ctx host with
  | Ok res => exists w m, call_direct ctx module fuel name args (host_storage_get host (ctx_callee ctx)) =
        Some (return_value res, w, fuel_remaining res) /\
      effects res = mkEffects ((fun sv => (ctx_callee ctx, sv.1, sv.2)) <$> overlay_items m) (w_logs w) /\
      forall s, w_slots w s = default (host_storage_get host (ctx_callee ctx) s) (m !! s)
  | Err _ => call_direct ctx module fuel name args (host_storage_get host (ctx_callee ctx)) = None
  | Panic => False
  end.
Proof.
  unfold call_with_host, call_direct. destruct (wt_set_fuel fuel) as [e|]; [done|].
  set (d0 := mkStoreData ctx ∅ [] None host). set (w0 := mkContract _ []).
  assert (mirrors ctx host d0 w0) as H0 by (split_and!; [done..|]; intros s; cbn; by rewrite lookup_empty).
  destruct (run_guest_mirrors ctx host (wt_instantiate module fuel) d0 w0 H0) as [Hr Hm].
  destruct (run_guest d0 _) as [d r], (run_direct ctx w0 _) as [w r']. cbn [fst snd] in *. subst r'.
  destruct r as [e|instance]; [done|]. destruct (wt_get_func instance name) as [func|]; cbn [mbind option_bind]; [|done].
  destruct (f_params func =? len args); cbn [negb orb]; [|done]. destruct (f_results func =? 1); cbn [negb orb]; [|done].
  destruct (run_guest_mirrors ctx host (f_call func args) d w Hm) as [Hr2 Hm2].
  destruct (run_guest d _) as [d2 r], (run_direct ctx w _) as [w2 r']. cbn [fst snd] in *. subst r'.
  destruct r as [e|[[v|shown] left]]; [by destruct (aborted d2)| |done]. cbn.
  destruct Hm2 as (Hc & Hh & Hl & Hs). exists w2, (overlay d2). split_and!; [done| |done]. by rewrite Hc, Hl.
Qed.
End refinement.

(** ** The collected writes and their commit *)
Lemma overlay_items_perm m : overlay_items m ≡ₚ map_to_list m.
Proof. apply sort_by_perm. Qed.

(** The effects list every slot once, in ascending order. *)
Lemma overlay_items_NoDup m : NoDup (overlay_items m).*1.
Proof. rewrite overlay_items_perm. apply NoDup_fst_map_to_list. Qed.

Lemma overlay_items_sorted m :
  StronglySorted (fun x y => bytes_le (arr_bytes x.1) (arr_bytes y.1) = true) (overlay_items m).
Proof.
  apply sort_by_sorted; intros *; [apply lex_le_total|apply lex_le_trans].
Qed.

Lemma elem_of_overlay_items m s v : (s, v) ∈ overlay_items m <-> m !! s = Some v.
Proof. rewrite overlay_items_perm. apply elem_of_map_to_list. Qed.

Section commit.
Context {B : Type} `{HB : KvBackend B} {HL : KvLaws B}.
Implicit Types b : B.

(** What a commit may touch: the slots of the callee. *)
Definition slot_row (callee : Address) (row : ColumnFamily * bytes) : Prop :=
  exists s, row = (AccountStorage, storage_key callee s).

Lemma storage_put_frame b addr slot value :
  kv_ok b -> exists b', storage_put addr slot value b = (b', Ok tt) /\ kv_ok b' /\
    forall row, ~ slot_row addr row -> kv_view b' !! row = kv_view b !! row.
Proof.
  intros Hok. unfold storage_put. case_bool_decide.
  - destruct (db_delete_view AccountStorage (storage_key addr slot) b Hok) as (b' & Hp & Hok' & Hv).
    exists b'. split_and!; [done..|]. intros row Hr. rewrite Hv, lookup_delete_ne; [done|]. intros <-. apply Hr. by exists slot.
  - destruct (db_put_view AccountStorage (storage_key addr slot) (arr_bytes value) b Hok) as (b' & Hp & Hok' & Hv).
    exists b'. split_and!; [done..|]. intros row Hr. rewrite Hv, lookup_insert_ne; [done|]. intros <-. apply Hr. by exists slot.
Qed.

(** A commit of distinct slots: each holds its value, the others are kept. *)
Lemma commit_writes_spec callee (l : list (H256 * H256)) b :
  kv_ok b -> NoDup l.*1 ->
  exists b', commit_writes ((fun sv => (callee, sv.1, sv.2)) <$> l) b = (b', Ok tt) /\ kv_ok b' /\
    (forall s v, (s, v) ∈ l -> storage_get callee s b' = Ok v) /\
    (forall s, s ∉ l.*1 -> storage_get callee s b' = storage_get callee s b) /\
    forall row, ~ slot_row callee row -> kv_view b' !! row = kv_view b !! row.
Proof.
  revert b. induction l as [|[s v] l IH]; intros b Hok Hnd.
  { exists b. split_and!; [done|done|set_solver|done..]. }
  apply NoDup_cons in Hnd as [Hs Hnd]. destruct (storage_put_frame b callee s v Hok) as (b1 & Hp & Hok1 & Hf1).
  assert (forall s', storage_get callee s' b1 = if bool_decide (s' = s) then Ok v else storage_get callee s' b) as Hg1.
  { intros s'. destruct (storage_put_get b callee s v callee s' Hok) as (b2 & Hp2 & _ & Hg). rewrite Hp in Hp2.
    injection Hp2 as <-. rewrite Hg. by rewrite (bool_decide_ext (callee = callee /\ s' = s) (s' = s)) by naive_solver. }
  destruct (IH b1 Hok1 Hnd) as (b' & Hc & Hok' & Hin & Hout & Hf). exists b'. split_and!.
  - cbn [fmap list_fmap commit_writes fst snd]. unfold mbind, action_bind. by rewrite Hp.
  - done.
  - intros s' v' [[= -> ->]|Hi]%elem_of_cons; [|by apply Hin]. rewrite Hout, Hg1 by done. by rewrite bool_decide_eq_true_2.
  - cbn. intros s' [Hne Hni]%not_elem_of_cons. rewrite Hout, Hg1 by done. by rewrite bool_decide_eq_false_2.
  - intros row Hr. rewrite Hf, Hf1 by done. done.
Qed.
End commit.

Section state_refinement.
Context `{W : Wasmtime} {B : Type} `{HB : KvBackend B} {HL : KvLaws B}.
Implicit Types b : B.

(** C39. The host's overlay, effects and commit implement a contract that writes its storage
    in place.  A call that succeeds gives the value, logs and fuel of that machine, and the
    commit of its effects leaves the callee's storage as the machine leaves it and every
    other row alone; a call that fails is one that the machine does not finish. *)
Theorem wasm_refines_direct module fuel name args ctx b :
  kv_ok b ->
  match call_with_host module fuel name args ctx b with
  | Ok res => exists w b',
      call_direct ctx module fuel name args (host_storage_get b (ctx_callee ctx)) = Some (return_value res, w, fuel_remaining res) /\
      effect_logs (effects res) = w_logs w /\
      commit_effects (effects res) b = (b', Ok tt) /\ kv_ok b' /\
      (forall s, host_storage_get b' (ctx_callee ctx) s = w_slots w s) /\
      forall row, ~ slot_row (ctx_callee ctx) row -> kv_view b' !! row = kv_view b !! row
  | Err _ => call_direct ctx module fuel name args (host_storage_get b (ctx_callee ctx)) = None
  | Panic => False
  end.
Proof.
  intros Hok. pose proof (call_mirrors module fuel name args ctx b) as Hm.
  destruct (call_with_host module fuel name args ctx b) as [res|e|]; [|done..].
  destruct Hm as (w & m & Hd & He & Hs).
  destruct (commit_writes_spec (ctx_callee ctx) (overlay_items m) b Hok (overlay_items_NoDup m))
    as (b' & Hc & Hok' & Hin & Hout & Hf).
  exists w, b'. rewrite He. split_and!; [done..| |done]. intros s. rewrite Hs. unfold host_storage_get, StateDbHost, StateDbHost_storage_get.
  destruct (m !! s) as [v|] eqn:E; cbn [default from_option].
  - rewrite (Hin s v); [done|]. by apply elem_of_overlay_items.
  - rewrite Hout; [done|]. intros ([s' v] & -> & Hi)%list_elem_of_fmap. apply elem_of_overlay_items in Hi. cbn in E. congruence.
Qed.
End state_refinement.

(** ** What the errors say *)
Section errors.
Context `{W : Wasmtime} {S : Type} `{HS : HostState S}.

(** A start function that calls [abort] is an instantiation error: the message the contract
    gave is lost, though the comment of [call_with_host] says that [abort] is [Aborted]. *)
Lemma abort_in_start_hidden module fuel name args ctx (host : S) msg_ptr msg_len memory resume :
  wt_set_fuel fuel = None ->
  wt_instantiate module fuel = GImport (Abort msg_ptr msg_len) memory resume ->
  exists e, call_with_host module fuel name args ctx host = Err (InstantiateError (wt_error_text e)).
Proof.
  intros Hf Hi. unfold call_with_host. rewrite Hf, Hi. cbn [run_guest].
  destruct memory as [m|]; cbn [host_import caller_memory]; [|eauto]. destruct (host_abort _ _ _ _) as [d e]. eauto.
Qed.

(** A log with a negative length is an empty log, whatever its pointer, and one with a negative pointer reads from zero. *)
Lemma host_log_clamped (d : StoreData S) m ptr n :
  (n <= 0)%Z -> host_log d m ptr n = inr (mkStoreData (sd_ctx d) (overlay d) (sd_logs d ++ [[]]) (aborted d) (sd_host d)).
Proof. intros Hn. unfold host_log, read_clamped, clamp. by replace (Z.max n 0) with 0%Z by lia. Qed.

Lemma host_log_negative_pointer (d : StoreData S) m ptr n : (ptr <= 0)%Z -> host_log d m ptr n = host_log d m 0 n.
Proof. intros Hp. unfold host_log, read_clamped, clamp. by replace (Z.max ptr 0) with 0%Z by lia. Qed.

(** A negative pointer to a slot is past the end of every memory. *)
Lemma host_storage_read_negative (d : StoreData S) m ptr out :
  (-2147483648 <= ptr < 0)%Z -> len m <= 4294967296 ->
  host_storage_read d m ptr out = inl (oob "storage_read slot").
Proof.
  intros Hp Hm. unfold host_storage_read, read_h256, memory_read, as_usize.
  rewrite (proj2 (N.leb_gt _ _)); [done|]. rewrite <-(Z.mod_unique ptr 18446744073709551616 (-1) (ptr + 18446744073709551616)) by lia. lia.
Qed.
End errors.

(** ** A contract that writes a slot, reads it back and logs it *)
Module WasmDemo.

(** [i32.store8] *)
Definition store8 (memory : option bytes) (at_ : nat) (b : byte) : option bytes := (fun m => <[at_ := b]> m) <$> memory.
Definition load8_u (memory : option bytes) (at_ : nat) : Z := Z.of_N (Byte.to_N (default x00 (m ← memory; m !! at_))).

Definition page : option bytes := Some (repeat x00 128).

Definition write_then_read (v : byte) : guest text (Val * N) :=
  GImport (StorageWrite 0 32) (store8 (store8 page 31 x01) 63 v) (fun memory =>
  GImport (StorageRead 0 64) memory (fun memory =>
  GImport (LogData 95 1) memory (fun memory => GDone (I32 (load8_u memory 95), 900)))).

(** It traps after its write. *)
Definition write_then_trap : guest text (Val * N) :=
  GImport (StorageWrite 0 32) (store8 (store8 page 31 x01) 63 x42) (fun _ => GTrap (str "unreachable")).

#[export] Instance wasmtime : Wasmtime := {
  wt_error := text;
  wt_trap := text;
  wt_module := unit;
  wt_instance := unit;
  wt_plain := unit;
  wt_engine := None;
  wt_compile b := if bool_decide (b = []) then inl (str "empty") else inr tt;
  wt_set_fuel _ := None;
  wt_instantiate _ _ := GDone tt;
  wt_get_func _ name :=
    if bool_decide (name = str "write_then_read") then Some (mkFunc 0 1 (fun _ => write_then_read x42))
    else if bool_decide (name = str "write_then_trap") then Some (mkFunc 0 1 (fun _ => write_then_trap))
    else None;
  wt_new_plain _ _ := inr tt;
  wt_plain_type _ _ := None;
  wt_plain_call i _ _ := (i, inl (str "no export"));
  wt_plain_fuel _ := inr 0;
  wt_host_error e := e;
  wt_downcast e := if bool_decide (e = str "unreachable") then Some e else None;
  wt_out_of_fuel _ := false;
  wt_trap_text e := e;
  wt_error_text e := e;
  wt_access_error := str "out of bounds memory access"
}.

Definition here : CallContext := mkContext (be_array 20 0xcc) (be_array 20 0xdd) 100 1700000000.
Definition empty_db : MemoryBackend := MemoryBackend_new.
Definition run (name : string) : res WasmError HostCallResult := call_with_host tt 1000 (str name) [] here empty_db.

Example write_reads_back : (return_value <$> run "write_then_read") = Ok 66%Z.
Proof. vm_compute. reflexivity. Qed.

Example the_trap : run "write_then_trap" = Err (Trap (str "write_then_trap: unreachable")).
Proof. vm_compute. reflexivity. Qed.

Example no_such_export : run "nothing" = Err (MissingExport (str "nothing")).
Proof. vm_compute. reflexivity. Qed.

Example wrong_arity :
  call_with_host tt 1000 (str "write_then_read") [1%Z] here empty_db =
  Err (SignatureMismatch (str "write_then_read") (str "expected 0 args, got 1")).
Proof. vm_compute. reflexivity. Qed.

(** A truncated character, a lone continuation byte. *)
Example lossy_text : from_utf8_lossy [x41; xe2; x82; x42; x80] = [x41; xef; xbf; xbd; x42; xef; xbf; xbd].
Proof. vm_compute. reflexivity. Qed.
End WasmDemo.

Lemma wasm_refines_direct_witness :
  kv_ok WasmDemo.empty_db /\
  exists res b', WasmDemo.run "write_then_read" = Ok res /\ return_value res = 66%Z /\
    commit_effects (effects res) WasmDemo.empty_db = (b', Ok tt) /\
    arr_bytes (host_storage_get b' (ctx_callee WasmDemo.here) (be_array 32 1)) = be_bytes 32 0x42 /\
    kv_view b' !! (State, []) = kv_view WasmDemo.empty_db !! (State, []).
Proof.
  split; [exact MemoryBackend_new_ok|].
  pose proof (wasm_refines_direct (W := WasmDemo.wasmtime) (HL := memory_laws) tt 1000 (str "write_then_read") [] WasmDemo.here
    WasmDemo.empty_db MemoryBackend_new_ok) as Hw.
  fold (WasmDemo.run "write_then_read") in Hw. pose proof WasmDemo.write_reads_back as Hr.
  destruct (WasmDemo.run "write_then_read") as [res|e|]; [|discriminate Hr..].
  destruct Hw as (w & b' & Hd & _ & Hc & _ & Hs & Hf). exists res, b'.
  split; [reflexivity|]. split; [by injection Hr|]. split; [exact Hc|]. split.
  - rewrite Hs. apply (f_equal (fun o => (fun r => arr_bytes (w_slots r.1.2 (be_array 32 1))) <$> o)) in Hd.
    cbn [fmap option_fmap option_map] in Hd. apply (inj Some). cbn [fst snd] in Hd. rewrite <-Hd. vm_compute. reflexivity.
  - apply Hf. intros [s [= ]].
Defined.
