(* ===== verification/Evm.v ===== *)
(** * Evm: transactions through the virtual machine

    Models [src/crates/aii-evm]: the adapter [RevmDb] that shows the state to [revm], the
    execution that writes revm's state diff back, the dry run, and the fast transfer.
    [revm] is third-party: the class [Revm] is its [transact], a function of what the
    adapter reads and of the transaction; [RevmLaws] says that it looks at the adapter
    only through its answers.  The fast transfer has its specification at the end. *)
From stdpp Require Import base tactics gmap numbers sets strings list.
From Stdlib Require Import NArith Lia.
From S2P Require Import Prelude Bytes Crypto Codec Tx ToyRlp Trie Receipt Storage StateDb.

(** ** The types of [revm] that the adapter uses *)
Record AccountInfo := mkInfo {
  ai_balance : N;
  ai_nonce : N;
  ai_code_hash : H256;
  ai_code : option bytes
}.

(** What [impl Database for RevmDb] answers; [None] is [Bytecode::new()]. *)
Record RevmReads := mkReads {
  rd_basic : Address -> option AccountInfo;
  rd_code_by_hash : H256 -> option bytes;
  rd_storage : Address -> N -> N;
  rd_block_hash : N -> H256
}.

Record TxEnv := mkTxEnv {
  te_caller : Address;
  te_transact_to : option Address;
  te_value : N;
  te_data : bytes;
  te_gas_limit : N;
  te_gas_price : N
}.

(** A touched account: a storage slot is its index, whether it changed, and its value. *)
Record RevmAccount := mkRevmAccount {
  ra_info : AccountInfo;
  ra_storage : list (N * (bool * N))
}.

Inductive Output := OutputCall (b : bytes) | OutputCreate (b : bytes) (addr : option Address).

Inductive ExecutionResult :=
| Success (gas_used : N) (logs : list Log) (output : Output)
| Revert (gas_used : N) (output : bytes)
| Halt (reason : string) (gas_used : N).

Definition result_gas_used (r : ExecutionResult) : N :=
  match r with Success g _ _ | Revert g _ | Halt _ g => g end.

Class Revm := {
  (** the result and the touched accounts, in the order the map yields them *)
  revm_transact : RevmReads -> TxEnv -> res string (ExecutionResult * list (Address * RevmAccount))
}.

Record same_reads (r s : RevmReads) : Prop := {
  sr_basic : forall a, rd_basic r a = rd_basic s a;
  sr_code : forall h, rd_code_by_hash r h = rd_code_by_hash s h;
  sr_storage : forall a i, rd_storage r a i = rd_storage s a i;
  sr_block_hash : forall n, rd_block_hash r n = rd_block_hash s n
}.

Class RevmLaws (V : Revm) : Prop := {
  revm_transact_reads : forall r s env, same_reads r s -> revm_transact r env = revm_transact s env
}.

(** ** [lib.rs], [revm_exec.rs] *)
Inductive ExecError :=
| ExecState (e : StateError)
| NonceMismatch (expected got : N)
| InsufficientBalance
| ContractCallsNotYetSupported
| RevmError (msg : string).

Record ExecutionSummary := mkSummary {
  success : bool;
  gas_used : N;
  output : bytes;
  deployed_contract : option Address;
  logs : list Log
}.

Record SimulationResult := mkSimulation {
  sim_success : bool;
  sim_gas_used : N;
  return_data : bytes;
  revert_reason : option string;
  sim_logs : list Log
}.

Section evm.
Context `{Primitives} `{Rlp} `{Revm} {B : Type} `{KvBackend B}.

(** [impl Database for RevmDb]: errors of the state collapse to the empty answers. *)
Definition revm_db (b : B) : RevmReads := {|
  rd_basic addr :=
    match account addr b with
    | Ok o => (fun a => mkInfo (a_balance a) (a_nonce a) (a_code_hash a) None) <$> o
    | _ => None
    end;
  rd_code_by_hash h := match code_get h b with Ok o => o | _ => None end;
  rd_storage addr index :=
    match storage_get addr (be_array 32 index) b with Ok v => be_value (arr_bytes v) | _ => 0 end;
  rd_block_hash n := be_array 32 (n mod u64_mod)
|}.

Definition exec_state {A} (m : action B StateError A) : action B ExecError A := fun b =>
  let '(b, r) := m b in (b, map_err ExecState r).

(** The changed slots of an account. *)
Fixpoint write_slots (addr : Address) (slots : list (N * (bool * N))) : action B ExecError unit :=
  match slots with
  | [] => mret tt
  | (index, (changed, value)) :: slots =>
      (if changed then exec_state (storage_put addr (be_array 32 index) (be_array 32 value)) else mret tt);;
      write_slots addr slots
  end.

(** One turn of [for (revm_addr, revm_acc) in state_changes]. *)
Definition write_account (addr : Address) (acc : RevmAccount) : action B ExecError unit :=
  let info := ra_info acc in
  o ← exec_state (reading (account addr));
  let out := default EMPTY_ACCOUNT o in
  exec_state (set_account addr (mkAccount (ai_nonce info) (ai_balance info) (a_storage_root out)
                                  (ai_code_hash info)));;
  match ai_code info with
  | Some (c :: cs) => exec_state (code_put (ai_code_hash info) (c :: cs))
  | _ => mret tt
  end;;
  write_slots addr (ra_storage acc).

Fixpoint write_accounts (changes : list (Address * RevmAccount)) : action B ExecError unit :=
  match changes with
  | [] => mret tt
  | (addr, acc) :: changes => write_account addr acc;; write_accounts changes
  end.

Definition summary_of (r : ExecutionResult) : ExecutionSummary :=
  match r with
  | Success g logs (OutputCall b) => mkSummary true g b None logs
  | Success g logs (OutputCreate b addr) => mkSummary true g b addr logs
  | Revert g _ | Halt _ g => mkSummary false g [] None []
  end.

Definition execute_with_revm (sender : Address) (to : option Address) (value : N) (data : bytes)
    (gas_limit gas_price : N) : action B ExecError ExecutionSummary :=
  '(result, changes) ← reading (fun b =>
     map_err RevmError (revm_transact (revm_db b) (mkTxEnv sender to value data gas_limit gas_price)));
  write_accounts changes;;
  mret (summary_of result).

Definition simulation_of (r : ExecutionResult) : SimulationResult :=
  match r with
  | Success g logs (OutputCall b) | Success g logs (OutputCreate b _) => mkSimulation true g b None logs
  | Revert g out => mkSimulation false g out (Some "revert"%string) []
  | Halt reason g => mkSimulation false g [] (Some (String.append "halt: " reason)) []
  end.

(** The diff is dropped. *)
Definition simulate_with_revm (sender : Address) (to : option Address) (value : N) (data : bytes)
    (gas_limit gas_price : N) (b : B) : res ExecError SimulationResult :=
  '(result, _) ← map_err RevmError
     (revm_transact (revm_db b) (mkTxEnv sender to value data gas_limit gas_price));
  mret (simulation_of result).

(** [unpack] *)
Definition unpack (t : Tx) : res ExecError (N * N * option Address * N * N) :=
  match t with
  | TLegacy t => Ok (tl_nonce t, tl_gas_limit t, tl_to t, tl_value t, tl_gas_price t)
  | TEip1559 t => Ok (td_nonce t, td_gas_limit t, td_to t, td_value t, td_max_fee_per_gas t)
  | TEip4844 _ => Err ContractCallsNotYetSupported
  end.

Definition execute_transfer (sender : Address) (t : Tx) : action B ExecError Receipt :=
  '(nonce, gas_limit, to, value, _) ← reading (fun _ => unpack t);
  to ← reading (fun _ => ok_or to ContractCallsNotYetSupported);
  o ← exec_state (reading (account sender));
  let sender_acc := default EMPTY_ACCOUNT o in
  if negb (a_nonce sender_acc =? nonce) then failing (NonceMismatch (a_nonce sender_acc) nonce)
  else if a_balance sender_acc <? value then failing InsufficientBalance
  else
    o ← exec_state (reading (account to));
    let to_acc := default EMPTY_ACCOUNT o in
    if negb (is_eoa to_acc) then failing ContractCallsNotYetSupported
    else
      exec_state (set_account sender
        (mkAccount (wrapping_add u64_mod (a_nonce sender_acc) 1) (a_balance sender_acc - value)
           (a_storage_root sender_acc) (a_code_hash sender_acc)));;
      exec_state (set_account to
        (mkAccount (a_nonce to_acc) (wrapping_add u256_mod (a_balance to_acc) value)
           (a_storage_root to_acc) (a_code_hash to_acc)));;
      mret (mkReceipt (tx_ty t) true (N.min 21000 gas_limit) bloom_zero []).
End evm.

(** ** A concrete instance: plain transfers between accounts

    The gas is 21000, the fee is burnt, the recipient runs no code, and a contract
    creation or a sender without the funds is an error. *)
Module ToyRevm.
Definition info_of (r : RevmReads) (a : Address) : AccountInfo :=
  default (mkInfo 0 0 EMPTY_CODE_HASH None) (rd_basic r a).

Definition with_balance (i : AccountInfo) (balance nonce : N) : RevmAccount :=
  mkRevmAccount (mkInfo balance nonce (ai_code_hash i) None) [].

Definition transact (r : RevmReads) (env : TxEnv) : res string (ExecutionResult * list (Address * RevmAccount)) :=
  to ← ok_or (te_transact_to env) "create is not supported"%string;
  let from := info_of r (te_caller env) in
  let cost := te_value env + 21000 * te_gas_price env in
  _ ← guard_err (ai_balance from <? cost) "lack of funds"%string;
  let paid := with_balance from (ai_balance from - cost) (ai_nonce from + 1) in
  let target := if bool_decide (to = te_caller env) then ra_info paid else info_of r to in
  mret (Success 21000 [] (OutputCall []),
        [(te_caller env, paid); (to, with_balance target (ai_balance target + te_value env) (ai_nonce target))]).

#[export] Instance revm : Revm := {| revm_transact := transact |}.

#[export] Instance revm_laws : RevmLaws revm.
Proof.
  split. intros r s env Hrs. cbn. unfold transact, info_of. rewrite (sr_basic _ _ Hrs (te_caller env)).
  destruct (te_transact_to env) as [to|]; cbn; [|done]. by rewrite (sr_basic _ _ Hrs to).
Qed.
End ToyRevm.

(** ** The fast transfer: what it does to the two accounts on every branch *)
Section transfer.
Context `{Primitives} `{R : Rlp} `{!RlpLaws R} {B : Type} `{HB : KvBackend B} {HL : KvLaws B}.
Implicit Types (b : B) (a : Account).

Definition or_empty (o : option Account) : Account := default EMPTY_ACCOUNT o.

(** The sender after it paid, and an account that received. *)
Definition paid a value : Account :=
  mkAccount (wrapping_add u64_mod (a_nonce a) 1) (a_balance a - value) (a_storage_root a) (a_code_hash a).
Definition received_wei a value : Account :=
  mkAccount (a_nonce a) (wrapping_add u256_mod (a_balance a) value) (a_storage_root a) (a_code_hash a).

Lemma exec_state_Ok {A} (m : action B StateError A) b b' x : m b = (b', Ok x) -> exec_state m b = (b', Ok x).
Proof. intros Hm. unfold exec_state. by rewrite Hm. Qed.

Lemma account_other b b' addr other a :
  kv_ok b -> kv_ok b' -> kv_view b' = <[(State, state_key addr) := encode_account a]> (kv_view b) ->
  state_key other <> state_key addr -> account other b' = account other b.
Proof.
  intros Hok Hok' Hv Hne. rewrite !account_view, Hv by done. by rewrite lookup_insert_ne by congruence.
Qed.

(** The two writes of a transfer. *)
Lemma transfer_writes b sender to s t :
  kv_ok b -> account_wf s -> account_wf t ->
  exists b', (exec_state (set_account sender s);; exec_state (set_account to t)) b = (b', Ok tt) /\ kv_ok b' /\
    account to b' = Ok (Some t) /\
    (state_key sender <> state_key to -> account sender b' = Ok (Some s)) /\
    forall x, state_key x <> state_key sender -> state_key x <> state_key to -> account x b' = account x b.
Proof.
  intros Hok Hs Ht. destruct (account_set b sender s Hok Hs) as (b1 & H1 & Hok1 & Ha1 & Hv1).
  destruct (account_set b1 to t Hok1 Ht) as (b2 & H2 & Hok2 & Ha2 & Hv2). exists b2.
  erewrite action_bind_Ok by (by apply exec_state_Ok). split_and!; [by apply exec_state_Ok|done..| |].
  - intros Hne. by rewrite (account_other b1 b2 to sender t).
  - intros x Hx1 Hx2. by rewrite (account_other b1 b2 to x t), (account_other b b1 sender x s).
Qed.

(** The fast transfer on every branch.  A wrong nonce, too little balance and a recipient
    with code are refused without a write.  Otherwise the sender pays the value and its
    nonce advances, the recipient receives it, and no other account changes, so nothing
    is minted - unless sender and recipient are the same account: then the second write
    starts from the balance read before the first, so the account ends with the value
    added to its balance, and its nonce has not advanced. *)
Theorem execute_transfer_spec sender t nonce gas_limit to value price b o o' :
  kv_ok b -> unpack t = Ok (nonce, gas_limit, Some to, value, price) ->
  account sender b = Ok o -> account to b = Ok o' ->
  account_wf (paid (or_empty o) value) -> account_wf (received_wei (or_empty o') value) ->
  let '(b', r) := execute_transfer sender t b in
  (a_nonce (or_empty o) <> nonce -> (b', r) = (b, Err (NonceMismatch (a_nonce (or_empty o)) nonce))) /\
  (a_nonce (or_empty o) = nonce -> a_balance (or_empty o) < value -> (b', r) = (b, Err InsufficientBalance)) /\
  (a_nonce (or_empty o) = nonce -> value <= a_balance (or_empty o) -> is_eoa (or_empty o') = false ->
   (b', r) = (b, Err ContractCallsNotYetSupported)) /\
  (a_nonce (or_empty o) = nonce -> value <= a_balance (or_empty o) -> is_eoa (or_empty o') = true ->
   is_ok r = true /\ kv_ok b' /\
   (forall x, state_key x <> state_key sender -> state_key x <> state_key to -> account x b' = account x b) /\
   (state_key sender <> state_key to ->
    account sender b' = Ok (Some (paid (or_empty o) value)) /\
    account to b' = Ok (Some (received_wei (or_empty o') value))) /\
   (sender = to -> account sender b' = Ok (Some (received_wei (or_empty o) value)))).
Proof.
  intros Hok Hun Ho Ho' Hwf Hwf'. unfold execute_transfer.
  erewrite action_bind_Ok by (unfold reading; by rewrite Hun).
  cbn beta iota.
  erewrite (action_bind_Ok (reading (fun _ : B => ok_or (Some to) _))) by done.
  erewrite action_bind_Ok by (unfold exec_state, reading; by rewrite Ho). fold (or_empty o).
  destruct (N.eqb_spec (a_nonce (or_empty o)) nonce) as [Hn|Hn]; cbn [negb]; [|naive_solver].
  destruct (N.ltb_spec (a_balance (or_empty o)) value) as [Hlt|Hge].
  { split_and!; [done|done|intros _ Hle; lia..]. }
  erewrite action_bind_Ok by (unfold exec_state, reading; by rewrite Ho'). fold (or_empty o').
  destruct (is_eoa (or_empty o')) eqn:He; cbn [negb]; [|split_and!; [done|intros; lia|done|done]].
  destruct (transfer_writes b sender to _ _ Hok Hwf Hwf') as (b2 & Hw & Hok2 & Hto & Hs & Hx).
  unfold paid, received_wei in Hw. unfold mbind at 1, action_bind at 1 in Hw.
  unfold mbind at 1, action_bind at 1.
  destruct (exec_state (set_account sender _) b) as [b1 [u|e|]]; [|done..].
  erewrite action_bind_Ok by exact Hw. split_and!; [done|intros; lia|done|]. intros _ _ _.
  split_and!; [done|exact Hok2|exact Hx|by auto|].
  intros <-. rewrite Ho in Ho'. injection Ho' as <-. exact Hto.
Qed.
End transfer.

Module EvmDemo.
Definition addr (i : N) : Address := be_array 20 i.
Definition rich : Account := mkAccount 3 1000 EMPTY_TRIE_HASH EMPTY_CODE_HASH.
Definition store : MemoryBackend :=
  (@set_account Toy.prims ToyRlp.rlp MemoryBackend _ (addr 7) rich MemoryBackend_new).1.
Definition transfer (to : Address) (value : N) : Tx :=
  TLegacy (mkTxLegacy 3 1 21000 (Some to) value [] 27 (zero_array 32) (zero_array 32) Secp256k1).

Lemma store_spec : kv_ok store /\ @account Toy.prims ToyRlp.rlp MemoryBackend _ (addr 7) store = Ok (Some rich).
Proof.
  destruct (account_set (H := Toy.prims) (RlpLaws0 := ToyRlp.rlp_laws) (HL := memory_laws) MemoryBackend_new (addr 7) rich
    MemoryBackend_new_ok) as (b' & Hs & Hok & Ha & _); [split; vm_compute; reflexivity|].
  unfold store. rewrite Hs. exact (conj Hok Ha).
Qed.

Lemma funds_ok : kv_ok store.
Proof. apply store_spec. Qed.

Lemma store_rich : @account Toy.prims ToyRlp.rlp MemoryBackend _ (addr 7) store = Ok (Some rich).
Proof. apply store_spec. Qed.
End EvmDemo.

(** 1000 Wei sent to oneself become 1600. *)
Lemma execute_transfer_spec_witness :
  let '(b', r) := @execute_transfer Toy.prims ToyRlp.rlp MemoryBackend _ (EvmDemo.addr 7)
    (EvmDemo.transfer (EvmDemo.addr 7) 600) EvmDemo.store in
  is_ok r = true /\ @account Toy.prims ToyRlp.rlp MemoryBackend _ (EvmDemo.addr 7) b' =
    Ok (Some (mkAccount 3 1600 EMPTY_TRIE_HASH EMPTY_CODE_HASH)).
Proof.
  pose proof (execute_transfer_spec (H := Toy.prims) (RlpLaws0 := ToyRlp.rlp_laws) (HL := memory_laws) (EvmDemo.addr 7)
    (EvmDemo.transfer (EvmDemo.addr 7) 600) 3 21000 (EvmDemo.addr 7) 600 1 EvmDemo.store
    (Some EvmDemo.rich) (Some EvmDemo.rich) EvmDemo.funds_ok eq_refl EvmDemo.store_rich EvmDemo.store_rich) as Hw.
  destruct (execute_transfer _ _ _) as [b' r].
  destruct Hw as (_ & _ & _ & Hw); [split; vm_compute; reflexivity..|].
  destruct Hw as (Hr & _ & _ & _ & Hs); [reflexivity|by vm_compute|vm_compute; reflexivity|].
  split; [exact Hr|]. rewrite (Hs eq_refl). reflexivity.
Defined.
