(* ===== verification/Tables.v ===== *)
(** * Tables: typed tables in the Meta column family

    The node keeps its tables as rows [prefix ++ key -> value] of one column family
    and enumerates them by a prefix scan.  This file views such a table as a finite
    map, for any encoding of keys and values: a lookup of the map is a read of the
    store, and the scan lists exactly the map. *)
From stdpp Require Import base tactics countable gmap numbers sets list.
From Stdlib Require Import NArith Lia.
From S2P Require Import Prelude Bytes Storage.

Section table.
Context {B : Type} `{HB : KvBackend B} {HL : KvLaws B}.
Context {K X : Type} `{Countable K}.
Context (p : bytes) (suffix : K -> bytes) (parse : bytes -> option K) (dec : bytes -> option X).
Context (parse_suffix : forall s k, parse s = Some k -> suffix k = s).

(** The row of an entry of the scan. *)
Definition entry_row (kv : bytes * bytes) : option (K * X) :=
  k ← parse (drop (length p) kv.1); x ← dec kv.2; Some (k, x).

(** The row of a key of the store, if it is one of this table. *)
Definition table_row (kv : ColumnFamily * bytes * bytes) : option (K * X) :=
  if bool_decide (kv.1.1 = Meta /\ p `prefix_of` kv.1.2) then entry_row (kv.1.2, kv.2) else None.

Definition table (b : B) : gmap K X := list_to_map (omap table_row (map_to_list (kv_view b))).

Lemma entry_row_Some k v row :
  p `prefix_of` k ->
  entry_row (k, v) = Some row <->
  k = p ++ suffix row.1 /\ parse (suffix row.1) = Some row.1 /\ dec v = Some row.2.
Proof using parse_suffix.
  intros [s ->]. unfold entry_row. cbn [fst snd]. rewrite drop_app_length. split.
  - intros (key & Hk & (x & Hx & [= <-])%bind_Some)%bind_Some. cbn. rewrite (parse_suffix _ _ Hk).
    by rewrite Hk.
  - destruct row as [key x]. cbn. intros (->%app_inv_head & Hk & Hx). rewrite Hk. cbn. by rewrite Hx.
Qed.

Lemma table_row_Some cf k v row :
  table_row ((cf, k), v) = Some row <->
  cf = Meta /\ k = p ++ suffix row.1 /\ parse (suffix row.1) = Some row.1 /\ dec v = Some row.2.
Proof using parse_suffix.
  unfold table_row. cbn [fst snd]. case_bool_decide as Hp.
  - destruct Hp as [-> Hp]. rewrite (entry_row_Some _ _ _ Hp). tauto.
  - split; [done|]. intros (-> & -> & _). exfalso. apply Hp. split; [done|]. by eexists.
Qed.

Lemma lookup_table (b : B) k :
  parse (suffix k) = Some k -> table b !! k = kv_view b !! (Meta, p ++ suffix k) ≫= dec.
Proof using parse_suffix.
  intros Hk. assert (NoDup (omap table_row (map_to_list (kv_view b))).*1) as Hn.
  { apply (NoDup_fmap_1 (fun k => (Meta, p ++ suffix k))). rewrite <-list_fmap_compose.
    apply (NoDup_omap_keys _ fst); [apply NoDup_fst_map_to_list|].
    intros [[cf k'] v] row _ Hr%table_row_Some. cbn. destruct Hr as (-> & -> & _). done. }
  apply option_eq. intros x. unfold table. rewrite <-elem_of_list_to_map by done.
  rewrite list_elem_of_omap. split.
  - intros ([[cf k'] v] & Hin%elem_of_map_to_list & (-> & -> & _ & Hd)%table_row_Some). cbn in *.
    by rewrite Hin.
  - intros (v & Hin & Hd)%bind_Some. exists ((Meta, p ++ suffix k), v).
    split; [by apply elem_of_map_to_list|]. by apply table_row_Some.
Qed.

(** Only valid keys have rows. *)
Lemma table_valid (b : B) k x : table b !! k = Some x -> parse (suffix k) = Some k.
Proof using parse_suffix.
  intros Hx%elem_of_list_to_map_2%list_elem_of_omap.
  destruct Hx as ([[cf k'] v] & _ & (_ & _ & Hk & _)%table_row_Some). done.
Qed.

(** The prefix scan lists the table. *)
Lemma scan_table (b : B) :
  kv_ok b -> exists items, kv_iter_prefix b Meta p = Ok <$> items /\
    omap entry_row items ≡ₚ map_to_list (table b).
Proof using parse_suffix.
  intros Hok. destruct (kv_iter_prefix_view b Meta p Hok) as (items & Hi & Hasc & Hin).
  exists items. split; [done|]. apply NoDup_Permutation; [|apply NoDup_map_to_list|].
  - apply (NoDup_fmap_1 (fun row => p ++ suffix row.1)).
    apply (NoDup_omap_keys _ fst (fun row => p ++ suffix row.1)); [by apply ascending_keys|].
    intros [k v] row [_ Hp]%Hin Hr. by apply entry_row_Some in Hr as [-> _].
  - intros [key x]. rewrite list_elem_of_omap, elem_of_map_to_list. split.
    + intros ([k v] & [Hv Hp]%Hin & Hr). apply entry_row_Some in Hr as (-> & Hk & Hd); [|done].
      cbn in *. by rewrite (lookup_table _ _ Hk), Hv.
    + intros Hx. pose proof (table_valid _ _ _ Hx) as Hk. rewrite (lookup_table _ _ Hk) in Hx.
      apply bind_Some in Hx as (v & Hv & Hd). exists (p ++ suffix key, v).
      assert (p `prefix_of` p ++ suffix key) as Hp by by eexists.
      split; [by apply Hin|]. by apply entry_row_Some.
Qed.

(** Tables depend on their own keys only. *)
Lemma table_frame (b b' : B) :
  (forall k, p `prefix_of` k -> kv_view b' !! (Meta, k) = kv_view b !! (Meta, k)) -> table b' = table b.
Proof using parse_suffix.
  intros Hf. apply map_eq. intros k. destruct (decide (parse (suffix k) = Some k)) as [Hk|Hk].
  - rewrite !lookup_table by done. rewrite Hf; [done|]. by eexists.
  - destruct (table b' !! k) eqn:E1; [by apply table_valid in E1|].
    destruct (table b !! k) eqn:E2; [by apply table_valid in E2|done].
Qed.

(** Writing a row. *)
Lemma table_put (b b' : B) k v x :
  parse (suffix k) = Some k -> dec v = Some x ->
  kv_view b' = <[(Meta, p ++ suffix k) := v]> (kv_view b) -> table b' = <[k := x]> (table b).
Proof using parse_suffix.
  intros Hk Hv Hb. apply map_eq. intros k'. destruct (decide (parse (suffix k') = Some k')) as [Hk'|Hk'].
  - rewrite lookup_table, Hb by done. destruct (decide (k = k')) as [->|Hne].
    + by rewrite !lookup_insert_eq.
    + rewrite !lookup_insert_ne by (done || (intros [= Hs%app_inv_head]; congruence)).
      by rewrite lookup_table.
  - destruct (table b' !! k') eqn:E1; [by apply table_valid in E1|].
    destruct (decide (k = k')) as [->|Hne]; [done|]. rewrite lookup_insert_ne by done.
    destruct (table b !! k') eqn:E2; [by apply table_valid in E2|done].
Qed.
End table.

(** Big-endian keys of a fixed width. *)
Definition parse_be (n : nat) (s : bytes) : option N :=
  if (length s =? n)%nat then Some (be_value s) else None.

Lemma parse_be_suffix n s x : parse_be n s = Some x -> be_bytes n x = s.
Proof.
  unfold parse_be. destruct (Nat.eqb_spec (length s) n) as [<-|]; [|done].
  intros [= <-]. apply be_bytes_value.
Qed.

Lemma parse_be_valid n x : x < 256 ^ N.of_nat n -> parse_be n (be_bytes n x) = Some x.
Proof.
  intros Hx. unfold parse_be. rewrite length_be_bytes, Nat.eqb_refl. by rewrite be_value_small.
Qed.

Lemma arr_of_suffix {n} (s : bytes) (a : array n) : arr_of s = Some a -> arr_bytes a = s.
Proof. apply arr_of_Some. Qed.
