(* ===== verification/Staking.v ===== *)
(** * Staking: bonds, unbonding, slashing

    Models [src/crates/aii-node/src/staking.rs]: the stake table in the [Meta]
    column family, over any backend.  Its state is the store itself; the methods
    are actions on it.  [stake_map] is what the table says as a finite map from
    addresses to amount and release height, and every method refines an operation
    on that map. *)
From stdpp Require Import base tactics gmap numbers sets strings list.
From Stdlib Require Import NArith Lia.
From Stdlib.Init Require Import Byte.
From S2P Require Import Prelude Bytes Crypto Storage.

(** [Box<dyn Error>]: the error of the backend, or the formatted message *)
Inductive NodeError :=
| StorageFailed (e : StorageError)
| NoStakeAt (operation : string) (addr : Address)
| NodeMessage (msg : string).

Definition STAKE_PREFIX : bytes := String.list_byte_of_string "stake:".
#[global] Arguments STAKE_PREFIX : simpl never.

Record StakeRecord := mkStake {
  staker : Address;
  amount_wei : N;
  unbond_at : N
}.

#[export] Instance StakeRecord_eq_dec : EqDecision StakeRecord.
Proof. solve_decision. Defined.

Definition is_bonded (self : StakeRecord) : bool := (unbond_at self =? 0) && negb (amount_wei self =? 0).

Definition stake_key (addr : Address) : bytes := STAKE_PREFIX ++ arr_bytes addr.

Definition encode_stake (amount unbond_at : N) : bytes := be_bytes 32 amount ++ be_bytes 8 unbond_at.

Definition decode_stake (b : bytes) : option (N * N) :=
  if negb (len b =? 40) then None else Some (be_value (take 32 b), be_value (drop 32 b)).

Section staking.
Context {B : Type} `{KvBackend B}.

Definition meta_get (key : bytes) (b : B) : res NodeError (option bytes) :=
  map_err StorageFailed (kv_get b Meta key).
Definition meta_put (key value : bytes) : action B NodeError unit := fun b =>
  let '(b, r) := kv_put b Meta key value in (b, map_err StorageFailed r).
Definition meta_delete (key : bytes) : action B NodeError unit := fun b =>
  let '(b, r) := kv_delete b Meta key in (b, map_err StorageFailed r).

Definition stake_get (addr : Address) (b : B) : res NodeError (option StakeRecord) :=
  o ← meta_get (stake_key addr) b;
  mret ('(amount, unbond) ← o ≫= decode_stake; Some (mkStake addr amount unbond)).

Definition bond (addr : Address) (delta : N) : action B NodeError unit :=
  prev ← reading (stake_get addr);
  let new_amount := saturating_add u256_mod (from_option amount_wei 0 prev) delta in
  meta_put (stake_key addr) (encode_stake new_amount 0).

Definition begin_unbond (addr : Address) (current_height unbonding_period : N)
    : action B NodeError unit :=
  prev ← reading (stake_get addr);
  match prev with
  | None => failing (NoStakeAt "begin_unbond" addr)
  | Some prev =>
      let unbond_at := saturating_add u64_mod current_height unbonding_period in
      meta_put (stake_key addr) (encode_stake (amount_wei prev) unbond_at)
  end.

Definition withdraw (addr : Address) (current_height : N) : action B NodeError (option N) :=
  rec ← reading (stake_get addr);
  match rec with
  | None => mret None
  | Some rec =>
      if (unbond_at rec =? 0) || (current_height <? unbond_at rec) then mret None
      else
        _ ← meta_delete (stake_key addr);
        mret (Some (amount_wei rec))
  end.

Definition slash (addr : Address) (delta : N) : action B NodeError unit :=
  prev ← reading (stake_get addr);
  match prev with
  | None => failing (NoStakeAt "slash" addr)
  | Some prev =>
      meta_put (stake_key addr) (encode_stake (saturating_sub (amount_wei prev) delta) (unbond_at prev))
  end.

(** The body of the loop of [list_all]: the record of an entry, if it is one. *)
Definition stake_entry (kv : bytes * bytes) : option StakeRecord :=
  let '(k, v) := kv in
  if negb (len k =? len STAKE_PREFIX + 20) then None
  else
    addr ← arr_of (drop (length STAKE_PREFIX) k);
    '(amount, unbond) ← decode_stake v;
    Some (mkStake addr amount unbond).

(** [for kv in iter { let kv = kv?; ... }] *)
Fixpoint collect_entries {A} (f : bytes * bytes -> option A) (items : list kv_item) : res NodeError (list A) :=
  match items with
  | [] => Ok []
  | item :: items =>
      kv ← map_err StorageFailed item;
      rest ← collect_entries f items;
      mret (option_list (f kv) ++ rest)
  end.

Definition list_all (b : B) : res NodeError (list StakeRecord) :=
  collect_entries stake_entry (kv_iter_prefix b Meta STAKE_PREFIX).

Definition total_bonded (b : B) : res NodeError N :=
  all ← list_all b;
  mret (foldl (fun total r => if is_bonded r then saturating_add u256_mod total (amount_wei r) else total)
          0 all).

(** ** The calls of the table, and the map they refine *)
Inductive stake_op :=
| SBond (addr : Address) (delta : N)
| SBeginUnbond (addr : Address) (current_height unbonding_period : N)
| SWithdraw (addr : Address) (current_height : N)
| SSlash (addr : Address) (delta : N).

(** The outcome of a call: what it pays out. *)
Definition stake_apply (op : stake_op) : action B NodeError (option N) :=
  match op with
  | SBond a d => bond a d;; mret None
  | SBeginUnbond a h p => begin_unbond a h p;; mret None
  | SWithdraw a h => withdraw a h
  | SSlash a d => slash a d;; mret None
  end.
End staking.

(** Amount and release height of each address. *)
Abbreviation stakes := (gmap Address (N * N)).

Definition op_addr (op : stake_op) : Address :=
  match op with SBond a _ | SBeginUnbond a _ _ | SWithdraw a _ | SSlash a _ => a end.

(** The abstract table.  It keeps the amount of a staker that unbonds, as [begin_unbond]
    and [withdraw] do; the comment on [StakeRecord], by which the amount drops to 0, is not
    what the code does. *)
Definition stake_spec (m : stakes) (op : stake_op) : stakes * res NodeError (option N) :=
  match op, m !! op_addr op with
  | SBond a d, rec =>
      (<[a := (saturating_add u256_mod (from_option fst 0 rec) d, 0)]> m, Ok None)
  | SBeginUnbond a h p, Some (x, _) => (<[a := (x, saturating_add u64_mod h p)]> m, Ok None)
  | SBeginUnbond a _ _, None => (m, Err (NoStakeAt "begin_unbond" a))
  | SWithdraw a h, Some (x, u) =>
      if (u =? 0) || (h <? u) then (m, Ok None) else (delete a m, Ok (Some x))
  | SWithdraw _ _, None => (m, Ok None)
  | SSlash a d, Some (x, u) => (<[a := (saturating_sub x d, u)]> m, Ok None)
  | SSlash a _, None => (m, Err (NoStakeAt "slash" a))
  end.

(** ** The table as a map *)
Section table.
Context {B : Type} `{KvLaws B}.
Implicit Types (b : B) (a : Address) (r : StakeRecord) (m : stakes).

(** The stake records among the entries of the store. *)
Definition stake_row (kv : ColumnFamily * bytes * bytes) : option (Address * (N * N)) :=
  let '((cf, k), v) := kv in
  if bool_decide (cf = Meta /\ STAKE_PREFIX `prefix_of` k)
  then r ← stake_entry (k, v); Some (staker r, (amount_wei r, unbond_at r)) else None.

Definition stake_map b : stakes := list_to_map (omap stake_row (map_to_list (kv_view b))).

Lemma length_stake_prefix : length STAKE_PREFIX = 6%nat.
Proof. done. Qed.

#[export] Instance stake_key_inj : Inj (=) (=) stake_key.
Proof. intros a1 a2 Hk. unfold stake_key in Hk. by apply (inj arr_bytes), (app_inv_head STAKE_PREFIX). Qed.

Lemma stake_entry_Some k v r :
  STAKE_PREFIX `prefix_of` k ->
  stake_entry (k, v) = Some r <->
  k = stake_key (staker r) /\ decode_stake v = Some (amount_wei r, unbond_at r).
Proof.
  intros [s ->]. unfold stake_entry, stake_key. rewrite drop_app_length, len_app.
  destruct (N.eqb_spec (len STAKE_PREFIX + len s) (len STAKE_PREFIX + 20)) as [Hl|Hl]; cbn [negb].
  - assert (length s = 20%nat) as Hs by (unfold len in Hl; lia).
    destruct (arr_of_is_Some (n := 20) s Hs) as [addr Ha]. rewrite Ha. cbn.
    apply arr_of_Some in Ha as <-. destruct (decode_stake v) as [[x u]|]; cbn.
    + split; [by intros [= <-]|]. intros [Hk%app_inv_head [= -> ->]].
      apply (inj arr_bytes) in Hk as ->. by destruct r.
    + split; [done|]. by intros [].
  - split; [done|]. intros [Hk%app_inv_head _]. exfalso. apply Hl. rewrite Hk. unfold len.
    by rewrite arr_length.
Qed.

Lemma stake_row_Some cf k v row :
  stake_row ((cf, k), v) = Some row <->
  cf = Meta /\ k = stake_key row.1 /\ decode_stake v = Some row.2.
Proof.
  unfold stake_row. case_bool_decide as Hp.
  - destruct Hp as [-> Hp]. destruct row as [a [x u]]. cbn [fst snd]. split.
    + intros Hr. destruct (stake_entry (k, v)) as [r|] eqn:E; [|done]. cbn in Hr. injection Hr as <- <- <-.
      apply (stake_entry_Some k v r Hp) in E as [Hk Hd]. by split_and!.
    + intros (_ & Hk & Hd). assert (stake_entry (k, v) = Some (mkStake a x u)) as ->; [|done].
      by apply stake_entry_Some.
  - split; [done|]. intros (-> & -> & _). exfalso. apply Hp. split; [done|]. by eexists.
Qed.

Lemma lookup_stake_map b a : stake_map b !! a = kv_view b !! (Meta, stake_key a) ≫= decode_stake.
Proof.
  assert (NoDup (omap stake_row (map_to_list (kv_view b))).*1) as Hn.
  { apply (NoDup_fmap_1 (fun a => (Meta, stake_key a))). rewrite <-list_fmap_compose.
    apply (NoDup_omap_keys _ fst); [apply NoDup_fst_map_to_list|].
    intros [[cf k] v] row _ Hr%stake_row_Some. cbn. destruct Hr as (-> & -> & _). done. }
  apply option_eq. intros [x u]. unfold stake_map. rewrite <-elem_of_list_to_map by done.
  rewrite list_elem_of_omap. split.
  - intros ([[cf k] v] & Hin%elem_of_map_to_list & (-> & -> & Hd)%stake_row_Some). cbn in *.
    by rewrite Hin.
  - intros (v & Hin & Hd)%bind_Some. exists ((Meta, stake_key a), v).
    split; [by apply elem_of_map_to_list|]. by apply stake_row_Some.
Qed.

Lemma stake_get_map b a :
  kv_ok b -> stake_get a b = Ok ((fun p => mkStake a p.1 p.2) <$> stake_map b !! a).
Proof.
  intros Hok. unfold stake_get, meta_get. rewrite kv_get_view by done. cbn.
  rewrite lookup_stake_map. by destruct (kv_view b !! (Meta, stake_key a) ≫= decode_stake) as [[]|].
Qed.

Lemma decode_encode_stake x u :
  x < u256_mod -> u < u64_mod -> decode_stake (encode_stake x u) = Some (x, u).
Proof.
  intros Hx Hu. unfold decode_stake, encode_stake, len. rewrite length_app, !length_be_bytes. cbn [negb].
  pose proof (length_be_bytes 32 x) as Hl.
  replace 32%nat with (length (be_bytes 32 x)) at 2 4 by done.
  rewrite take_app_length, drop_app_length. by rewrite !be_value_small.
Qed.

(** ** Writes *)
Lemma meta_put_view key value b :
  kv_ok b -> exists b', meta_put key value b = (b', Ok tt) /\ kv_ok b' /\
    kv_view b' = <[(Meta, key) := value]> (kv_view b).
Proof.
  intros Hok. unfold meta_put. destruct (kv_put_view b Meta key value Hok) as (b' & -> & Hb').
  by exists b'.
Qed.

Lemma meta_delete_view key b :
  kv_ok b -> exists b', meta_delete key b = (b', Ok tt) /\ kv_ok b' /\
    kv_view b' = delete (Meta, key) (kv_view b).
Proof.
  intros Hok. unfold meta_delete. destruct (kv_delete_view b Meta key Hok) as (b' & -> & Hb').
  by exists b'.
Qed.

(** Only entries of the table at [a] differ. *)
Definition only_stake a b b' : Prop :=
  forall cf k, (cf, k) <> (Meta, stake_key a) -> kv_view b' !! (cf, k) = kv_view b !! (cf, k).

Lemma put_stake a x u b :
  kv_ok b -> x < u256_mod -> u < u64_mod ->
  exists b', meta_put (stake_key a) (encode_stake x u) b = (b', Ok tt) /\ kv_ok b' /\
    stake_map b' = <[a := (x, u)]> (stake_map b) /\ only_stake a b b'.
Proof.
  intros Hok Hx Hu. destruct (meta_put_view (stake_key a) (encode_stake x u) b Hok) as (b' & Hp & Hok' & Hv).
  exists b'. split_and!; [done|done|..].
  - apply map_eq. intros a'. rewrite lookup_stake_map, Hv. destruct (decide (a = a')) as [->|Ha].
    + rewrite !lookup_insert_eq. cbn. by apply decode_encode_stake.
    + rewrite !lookup_insert_ne by (done || by intros [= ?%(inj arr_bytes)]). by rewrite lookup_stake_map.
  - intros cf k Hk. by rewrite Hv, lookup_insert_ne.
Qed.

Lemma delete_stake a b :
  kv_ok b -> exists b', meta_delete (stake_key a) b = (b', Ok tt) /\ kv_ok b' /\
    stake_map b' = delete a (stake_map b) /\ only_stake a b b'.
Proof.
  intros Hok. destruct (meta_delete_view (stake_key a) b Hok) as (b' & Hp & Hok' & Hv).
  exists b'. split_and!; [done|done|..].
  - apply map_eq. intros a'. rewrite lookup_stake_map, Hv. destruct (decide (a = a')) as [->|Ha].
    + by rewrite !lookup_delete_eq.
    + rewrite !lookup_delete_ne by (done || by intros [= ?%(inj arr_bytes)]). by rewrite lookup_stake_map.
  - intros cf k Hk. by rewrite Hv, lookup_delete_ne.
Qed.

Lemma stake_map_wf b a x u : stake_map b !! a = Some (x, u) -> x < u256_mod /\ u < u64_mod.
Proof.
  rewrite lookup_stake_map. intros (v & _ & Hd)%bind_Some. unfold decode_stake in Hd.
  destruct (N.eqb_spec (len v) 40) as [Hl|]; [|done]. injection Hd as <- <-.
  assert (length v = 40%nat) as Hlen by (unfold len in Hl; lia).
  pose proof (be_value_lt (take 32 v)) as H1. pose proof (be_value_lt (drop 32 v)) as H2.
  rewrite length_take, Hlen in H1. rewrite length_drop, Hlen in H2. done.
Qed.

Lemma stake_apply_spec op b :
  kv_ok b -> exists b', stake_apply op b = (b', (stake_spec (stake_map b) op).2) /\ kv_ok b' /\
    stake_map b' = (stake_spec (stake_map b) op).1 /\ only_stake (op_addr op) b b'.
Proof.
  intros Hok. pose proof (stake_get_map b (op_addr op) Hok) as Hg.
  pose proof (stake_map_wf b (op_addr op)) as Hwf.
  destruct op as [a d|a h p|a h|a d]; cbn [op_addr stake_apply stake_spec] in *;
    unfold bond, begin_unbond, withdraw, slash; unfold mbind, action_bind, mret, action_ret, reading, failing.
  - rewrite Hg. destruct (put_stake a
      (saturating_add u256_mod (from_option amount_wei 0 ((fun p => mkStake a p.1 p.2) <$> stake_map b !! a)) d)
      0 b Hok (saturating_u256 _ _) ltac:(done)) as (b' & -> & Hb').
    exists b'. split; [done|]. replace (from_option fst 0 (stake_map b !! a)) with
      (from_option amount_wei 0 ((fun p => mkStake a p.1 p.2) <$> stake_map b !! a)); [done|].
    by destruct (stake_map b !! a).
  - rewrite Hg. destruct (stake_map b !! a) as [[x u]|]; cbn [fmap option_fmap option_map fst snd amount_wei].
    + destruct (Hwf x u eq_refl) as [Hx _].
      destruct (put_stake a x (saturating_add u64_mod h p) b Hok Hx (saturating_u64 _ _))
        as (b' & -> & Hb'). by exists b'.
    + exists b. split_and!; [done|done|done|]. by intros cf k.
  - rewrite Hg. destruct (stake_map b !! a) as [[x u]|]; cbn [fmap option_fmap option_map fst snd amount_wei unbond_at].
    + destruct ((u =? 0) || (h <? u)).
      * exists b. split_and!; [done|done|done|]. by intros cf k.
      * destruct (delete_stake a b Hok) as (b' & -> & Hb'). by exists b'.
    + exists b. split_and!; [done|done|done|]. by intros cf k.
  - rewrite Hg. destruct (stake_map b !! a) as [[x u]|]; cbn [fmap option_fmap option_map fst snd amount_wei unbond_at].
    + destruct (Hwf x u eq_refl) as [Hx Hu].
      assert (saturating_sub x d < u256_mod) as Hs by (unfold saturating_sub; lia).
      destruct (put_stake a (saturating_sub x d) u b Hok Hs Hu) as (b' & -> & Hb'). by exists b'.
    + exists b. split_and!; [done|done|done|]. by intros cf k.
Qed.
End table.

(** ** Sequences of calls *)
Fixpoint stake_run {B} `{KvBackend B} (ops : list stake_op) (b : B) : B * list (res NodeError (option N)) :=
  match ops with
  | [] => (b, [])
  | op :: ops =>
      let '(b, r) := stake_apply op b in
      let '(b, rs) := stake_run ops b in
      (b, r :: rs)
  end.

Fixpoint spec_run (ops : list stake_op) (m : stakes) : stakes * list (res NodeError (option N)) :=
  match ops with
  | [] => (m, [])
  | op :: ops =>
      let '(m, r) := stake_spec m op in
      let '(m, rs) := spec_run ops m in
      (m, r :: rs)
  end.

(** What a sequence of calls brings in, pays out and burns. *)
Definition deposit (op : stake_op) : N := match op with SBond _ d => d | _ => 0 end.
Definition payout (r : res NodeError (option N)) : N := match r with Ok (Some x) => x | _ => 0 end.
Definition burn (m : stakes) (op : stake_op) : N :=
  match op, m !! op_addr op with SSlash _ d, Some (x, _) => N.min d x | _, _ => 0 end.

Fixpoint burned (ops : list stake_op) (m : stakes) : N :=
  match ops with [] => 0 | op :: ops => burn m op + burned ops (stake_spec m op).1 end.

(** All the Wei in the table, and the bonded ones. *)
Definition held (m : stakes) : N := weight (fun row => row.2.1) (map_to_list m).
Definition bonded (m : stakes) : N :=
  weight (fun row : Address * (N * N) => if row.2.2 =? 0 then row.2.1 else 0) (map_to_list m).

Section runs.
Context {B : Type} `{KvLaws B}.
Implicit Types (b : B) (a : Address) (m : stakes).

Lemma stake_run_spec ops b :
  kv_ok b -> let '(b', rs) := stake_run ops b in
  kv_ok b' /\ spec_run ops (stake_map b) = (stake_map b', rs) /\
  forall cf k, (forall a, (cf, k) <> (Meta, stake_key a)) -> kv_view b' !! (cf, k) = kv_view b !! (cf, k).
Proof.
  revert b. induction ops as [|op ops IH]; intros b Hok; cbn [stake_run spec_run]; [done|].
  destruct (stake_apply_spec op b Hok) as (b1 & -> & Hok1 & Hm & Ho).
  specialize (IH b1 Hok1). destruct (stake_run ops b1) as [b' rs]. destruct IH as (Hok' & Hr & Ho').
  rewrite Hm in Hr. destruct (stake_spec (stake_map b) op) as [m1 r1]. cbn [fst snd] in *.
  rewrite Hr. split_and!; [done|done|]. intros cf k Hk. by rewrite Ho', Ho.
Qed.

Lemma held_insert m a x u : held (<[a := (x, u)]> m) = x + held (delete a m).
Proof.
  unfold held. rewrite <-insert_delete_eq. rewrite (weight_perm _ _ _ (map_to_list_insert _ _ _ (lookup_delete_eq m a))).
  done.
Qed.

Lemma held_lookup m a x u : m !! a = Some (x, u) -> held m = x + held (delete a m).
Proof. intros Ha. unfold held. by rewrite <-(weight_perm _ _ _ (map_to_list_delete m a (x, u) Ha)). Qed.

Lemma held_absent m a : m !! a = None -> held (delete a m) = held m.
Proof. intros Ha. by rewrite delete_id. Qed.

Lemma stake_spec_held op m :
  held m + deposit op < u256_mod ->
  let '(m', r) := stake_spec m op in held m' + payout r + burn m op = held m + deposit op.
Proof.
  intros Hlt. unfold stake_spec, burn.
  destruct op as [a d|a h p|a h|a d]; cbn [op_addr deposit] in *;
    destruct (m !! a) as [[x u]|] eqn:Ha; cbn [from_option fst payout] in *;
    rewrite ?held_insert; rewrite ?(held_lookup _ _ _ _ Ha), ?(held_absent _ _ Ha) in *; try lia.
  - rewrite saturating_add_small; lia.
  - rewrite saturating_add_small; lia.
  - destruct ((u =? 0) || (h <? u)); cbn [payout]; rewrite ?(held_lookup _ _ _ _ Ha); lia.
  - unfold saturating_sub. lia.
Qed.

Lemma spec_run_held ops m :
  held m + weight deposit ops < u256_mod ->
  let '(m', rs) := spec_run ops m in
  held m' + weight payout rs + burned ops m = held m + weight deposit ops.
Proof.
  revert m. induction ops as [|op ops IH]; intros m Hlt; cbn [spec_run burned]; [cbn; lia|].
  rewrite weight_cons in Hlt |- *. pose proof (stake_spec_held op m ltac:(lia)) as Hop.
  destruct (stake_spec m op) as [m1 r]. cbn [fst].
  specialize (IH m1 ltac:(lia)). destruct (spec_run ops m1) as [m' rs]. rewrite weight_cons. lia.
Qed.

(** ** Enumeration and totals *)
Lemma collect_entries_Ok {A} (f : bytes * bytes -> option A) items :
  collect_entries f (Ok <$> items) = Ok (omap f items).
Proof.
  induction items as [|x items IH]; [done|]. cbn [fmap list_fmap collect_entries map_err mbind res_bind].
  cbn in IH |- *. rewrite IH. cbn. by destruct (f x).
Qed.

Lemma list_all_spec b :
  kv_ok b -> exists l, list_all b = Ok l /\
    l ≡ₚ (fun '(a, (x, u)) => mkStake a x u) <$> map_to_list (stake_map b).
Proof.
  intros Hok. destruct (kv_iter_prefix_view b Meta STAKE_PREFIX Hok) as (items & Hi & Hasc & Hin).
  exists (omap stake_entry items). unfold list_all. rewrite Hi, collect_entries_Ok. split; [done|].
  apply NoDup_Permutation.
  - apply (NoDup_fmap_1 (fun r => stake_key (staker r))).
    apply (NoDup_omap_keys _ fst (fun r => stake_key (staker r))); [by apply ascending_keys|].
    intros [k v] r [_ Hp]%Hin Hr. by apply stake_entry_Some in Hr as [-> _].
  - apply NoDup_fmap_2; [|apply NoDup_map_to_list]. intros [? []] [? []] [=]. congruence.
  - intros r. rewrite list_elem_of_omap, list_elem_of_fmap. split.
    + intros ([k v] & [Hv Hp]%Hin & Hr). apply stake_entry_Some in Hr as [-> Hd]; [|done].
      exists (staker r, (amount_wei r, unbond_at r)). split; [by destruct r|].
      apply elem_of_map_to_list. rewrite lookup_stake_map, Hv. done.
    + intros ([a [x u]] & -> & Ha%elem_of_map_to_list). rewrite lookup_stake_map in Ha.
      apply bind_Some in Ha as (v & Hv & Hd). exists (stake_key a, v).
      assert (STAKE_PREFIX `prefix_of` stake_key a) as Hp by by eexists.
      split; [by apply Hin|]. by apply stake_entry_Some.
Qed.

Lemma foldl_saturating (l : list StakeRecord) t :
  t < u256_mod ->
  foldl (fun total r => if is_bonded r then saturating_add u256_mod total (amount_wei r) else total) t l =
  N.min (t + weight (fun r => if unbond_at r =? 0 then amount_wei r else 0) l) (u256_mod - 1).
Proof.
  revert t. induction l as [|r l IH]; intros t Ht; cbn [foldl]; [cbn; lia|]. rewrite weight_cons.
  unfold is_bonded. destruct (N.eqb_spec (unbond_at r) 0); cbn [andb]; [|by apply IH].
  destruct (N.eqb_spec (amount_wei r) 0) as [->|]; cbn [negb]; [by apply IH|].
  rewrite IH by apply saturating_u256. unfold saturating_add. lia.
Qed.

Lemma total_bonded_spec b :
  kv_ok b -> total_bonded b = Ok (N.min (bonded (stake_map b)) (u256_mod - 1)).
Proof.
  intros Hok. destruct (list_all_spec b Hok) as (l & Hl & Hp). unfold total_bonded. rewrite Hl.
  cbn [mbind res_bind mret res_ret]. rewrite foldl_saturating by done. do 2 f_equal.
  rewrite N.add_0_l, (weight_perm _ _ _ Hp), weight_map. unfold bonded.
  apply weight_ext. by intros [a [x u]] _.
Qed.

(** ** The release height *)

(** Calls that cannot bring the release of [a] before [t]. *)
Definition respects (a : Address) (t : N) (op : stake_op) : Prop :=
  match op with
  | SBeginUnbond a' h p => a' = a -> t <= saturating_add u64_mod h p
  | SWithdraw a' h => a' = a -> h < t
  | _ => True
  end.

Definition locked_until (a : Address) (t : N) m : Prop :=
  exists x u, m !! a = Some (x, u) /\ (u = 0 \/ t <= u).

Lemma locked_until_step a t op m :
  respects a t op -> locked_until a t m ->
  locked_until a t (stake_spec m op).1 /\ (op_addr op = a -> payout (stake_spec m op).2 = 0).
Proof.
  intros Hr (x & u & Ha & Hu). destruct (decide (op_addr op = a)) as [He|Hne].
  - destruct op as [a' d|a' h p|a' h|a' d]; cbn [op_addr respects stake_spec] in *; subst a'; rewrite Ha.
    + split; [|done]. eexists _, _. cbn. rewrite lookup_insert_eq. split; [done|by left].
    + split; [|done]. eexists _, _. cbn. rewrite lookup_insert_eq. split; [done|right; by apply Hr].
    + specialize (Hr eq_refl). destruct (N.eqb_spec u 0), (N.ltb_spec h u); cbn; try lia;
        (split; [by exists x, u|done]).
    + split; [|done]. eexists _, _. cbn. rewrite lookup_insert_eq. split; [done|done].
  - split; [|done]. exists x, u. split; [|done].
    destruct op as [a' d|a' h p|a' h|a' d]; cbn [op_addr stake_spec] in *;
      destruct (m !! a') as [[y w]|]; cbn [fst]; try (destruct ((w =? 0) || (h <? w)); cbn [fst]);
      rewrite ?lookup_insert_ne, ?lookup_delete_ne by done; done.
Qed.

Lemma locked_until_run a t ops m :
  Forall (respects a t) ops -> locked_until a t m ->
  let '(m', rs) := spec_run ops m in
  locked_until a t m' /\ Forall2 (fun op r => op_addr op = a -> payout r = 0) ops rs.
Proof.
  intros Hops. revert m. induction Hops as [|op ops Hop _ IH]; intros m Hm; cbn [spec_run]; [by split|].
  destruct (locked_until_step a t op m Hop Hm) as [Hm1 Hr].
  destruct (stake_spec m op) as [m1 r]. specialize (IH m1 Hm1).
  destruct (spec_run ops m1) as [m' rs]. destruct IH. split; [done|]. by constructor.
Qed.
End runs.

(** ** Properties *)
Section properties.
Context {B : Type} `{HB : KvBackend B} {HL : KvLaws B}.

(** C14. The stake table refines its specification: over any fault-free backend, any
    sequence of bonds, unbondings, withdrawals and slashes returns the outcomes of
    the abstract table (a finite map from addresses to amount and release height)
    and leaves the store representing its final state, touching no key outside the
    table; enumerating the table then lists each staker exactly once with its
    record, and the bonded total is the sum over the stakers whose release height is
    0, capped at 2^256 - 1.  In the abstract table an unbonding sets the release
    height and keeps the amount, which a withdrawal pays out and a slash reduces: the
    comment on [StakeRecord], by which the amount drops to 0, is not what the code does. *)
Theorem stake_table_refines (ops : list stake_op) (b : B) :
  kv_ok b ->
  let '(b', rs) := stake_run ops b in
  spec_run ops (stake_map b) = (stake_map b', rs) /\
  (forall cf k, (forall a, (cf, k) <> (Meta, stake_key a)) -> kv_view b' !! (cf, k) = kv_view b !! (cf, k)) /\
  (exists l, list_all b' = Ok l /\
     l ≡ₚ (fun '(a, (x, u)) => mkStake a x u) <$> map_to_list (stake_map b')) /\
  total_bonded b' = Ok (N.min (bonded (stake_map b')) (u256_mod - 1)).
Proof.
  intros Hok. pose proof (stake_run_spec ops b Hok) as Hr. destruct (stake_run ops b) as [b' rs].
  destruct Hr as (Hok' & Hs & Hf). split_and!; [done|done|by apply list_all_spec|by apply total_bonded_spec].
Qed.

(** Wei are conserved: over any sequence of calls whose deposits fit in 256 bits
    together with what the table holds, what is held at the end plus what was paid
    out plus what was slashed is what was held at the start plus what was bonded. *)
Theorem stake_conserved (ops : list stake_op) (b : B) :
  kv_ok b -> held (stake_map b) + weight deposit ops < u256_mod ->
  let '(b', rs) := stake_run ops b in
  held (stake_map b') + weight payout rs + burned ops (stake_map b) =
  held (stake_map b) + weight deposit ops.
Proof.
  intros Hok Hlt. pose proof (stake_run_spec ops b Hok) as Hr. destruct (stake_run ops b) as [b' rs].
  destruct Hr as (_ & Hs & _). pose proof (spec_run_held ops (stake_map b) Hlt) as Hh. by rewrite Hs in Hh.
Qed.

(** The unbonding period holds: once [begin_unbond] has succeeded at height [h] with
    period [p] (and [h + p] fits in 64 bits and is not 0), no sequence of calls in
    which the staker's own later unbondings are not due earlier and its withdrawals
    come before [h + p] pays it anything, and its record stays in the table, where
    it can still be slashed. *)
Theorem unbonding_period_holds (a : Address) (h p : N) (ops : list stake_op) (b : B) :
  kv_ok b -> is_Some (stake_map b !! a) -> 0 < h + p < u64_mod ->
  Forall (respects a (h + p)) ops ->
  let '(b1, r) := begin_unbond a h p b in
  let '(b', rs) := stake_run ops b1 in
  r = Ok tt /\ is_Some (stake_map b' !! a) /\
  Forall2 (fun op r => op_addr op = a -> payout r = 0) ops rs.
Proof.
  intros Hok [[x u] Ha] Hp Hops.
  destruct (stake_apply_spec (SBeginUnbond a h p) b Hok) as (b1 & He & Hok1 & Hm & _).
  cbn [stake_spec op_addr] in He, Hm. rewrite Ha in He, Hm. cbn [fst snd] in He, Hm.
  cbn [stake_apply] in He. unfold mbind, action_bind in He.
  destruct (begin_unbond a h p b) as [b1' [[]|e|]]; [|discriminate He..].
  injection He as ->. pose proof (stake_run_spec ops b1 Hok1) as Hr.
  destruct (stake_run ops b1) as [b' rs]. destruct Hr as (_ & Hs & _).
  assert (locked_until a (h + p) (stake_map b1)) as Hl.
  { exists x, (saturating_add u64_mod h p). rewrite Hm, lookup_insert_eq. split; [done|right].
    rewrite saturating_add_small; lia. }
  pose proof (locked_until_run a (h + p) ops _ Hops Hl) as Hrun. rewrite Hs in Hrun.
  destruct Hrun as [(x' & u' & Ha' & _) Hf]. split_and!; [done|by eexists|done].
Qed.
End properties.

Module StakingDemo.
Definition alice : Address := be_array 20 1.
Definition bob : Address := be_array 20 2.
Definition store0 : MemoryBackend := MemoryBackend_new.
Lemma store0_ok : kv_ok store0.
Proof. exact MemoryBackend_new_ok. Qed.
(** Alice bonds and leaves, Bob is slashed meanwhile; Alice tries to leave early. *)
Definition calls : list stake_op :=
  [SBond alice 100; SBond bob 50; SBeginUnbond alice 10 5; SWithdraw alice 14; SSlash bob 20;
   SSlash alice 1; SWithdraw alice 15; SWithdraw bob 100; SSlash alice 1].
Definition store1 : MemoryBackend := (stake_run calls store0).1.
End StakingDemo.

Lemma stake_table_refines_witness :
  (stake_run StakingDemo.calls StakingDemo.store0).2 =
    [Ok None; Ok None; Ok None; Ok None; Ok None; Ok None; Ok (Some 99); Ok None;
     Err (NoStakeAt "slash" StakingDemo.alice)] /\
  total_bonded StakingDemo.store1 = Ok (N.min (bonded (stake_map StakingDemo.store1)) (u256_mod - 1)) /\
  total_bonded StakingDemo.store1 = Ok 30.
Proof.
  split; [vm_compute; reflexivity|]. split; [|vm_compute; reflexivity].
  pose proof (stake_table_refines StakingDemo.calls StakingDemo.store0 StakingDemo.store0_ok) as Hr.
  unfold StakingDemo.store1. destruct (stake_run StakingDemo.calls StakingDemo.store0) as [b' rs].
  exact (proj2 (proj2 (proj2 Hr))).
Defined.

Lemma stake_conserved_witness :
  let '(b', rs) := stake_run StakingDemo.calls StakingDemo.store0 in
  held (stake_map b') + weight payout rs + burned StakingDemo.calls (stake_map StakingDemo.store0) =
  held (stake_map StakingDemo.store0) + weight deposit StakingDemo.calls.
Proof. apply (stake_conserved _ _ StakingDemo.store0_ok). vm_compute. reflexivity. Defined.

Lemma unbonding_period_holds_witness :
  let b := (stake_run [SBond StakingDemo.alice 100] StakingDemo.store0).1 in
  let '(b1, r) := begin_unbond StakingDemo.alice 10 5 b in
  let '(b', rs) := stake_run [SWithdraw StakingDemo.alice 14; SSlash StakingDemo.alice 1;
    SBeginUnbond StakingDemo.alice 12 5; SWithdraw StakingDemo.alice 14] b1 in
  r = Ok tt /\ is_Some (stake_map b' !! StakingDemo.alice).
Proof.
  intros b.
  pose proof (unbonding_period_holds StakingDemo.alice 10 5
    [SWithdraw StakingDemo.alice 14; SSlash StakingDemo.alice 1;
     SBeginUnbond StakingDemo.alice 12 5; SWithdraw StakingDemo.alice 14] b) as Hu.
  destruct (begin_unbond StakingDemo.alice 10 5 b) as [b1 r].
  destruct (stake_run _ b1) as [b' rs]. destruct Hu as (Hr & Ha & _).
  - pose proof (stake_run_spec [SBond StakingDemo.alice 100] StakingDemo.store0 StakingDemo.store0_ok) as Hr.
    unfold b. destruct (stake_run [SBond StakingDemo.alice 100] StakingDemo.store0). exact (proj1 Hr).
  - exists (100, 0). vm_compute. reflexivity.
  - lia.
  - repeat constructor; cbn; intros _; vm_compute; done.
  - split; [exact Hr|exact Ha].
Defined.
