(* ===== verification/Governance.v ===== *)
(** * Governance: proposals, stake-weighted votes, tallies

    Models [src/crates/aii-node/src/governance.rs] over the store and the stake table
    of [Staking].  The node keeps proposals, votes and cached tallies in the [Meta]
    column family that also holds the stake table. *)
From stdpp Require Import base tactics gmap numbers sets strings list.
From Stdlib Require Import NArith Lia.
From Stdlib.Init Require Import Byte.
From Stdlib.Strings Require Byte.
From S2P Require Import Prelude Bytes Crypto Storage Tables Staking.

Definition PROP_PREFIX : bytes := String.list_byte_of_string "prop:".
Definition VOTE_PREFIX : bytes := String.list_byte_of_string "vote:".
Definition TALLY_PREFIX : bytes := String.list_byte_of_string "tally:".
#[global] Arguments PROP_PREFIX : simpl never.
#[global] Arguments VOTE_PREFIX : simpl never.
#[global] Arguments TALLY_PREFIX : simpl never.

Inductive ProposalStatus := Pending | Passed | Rejected | Executed.

#[export] Instance ProposalStatus_eq_dec : EqDecision ProposalStatus.
Proof. solve_decision. Defined.

(** [self as u8] and [from_byte]. *)
Definition status_byte (s : ProposalStatus) : byte :=
  match s with Pending => x00 | Passed => x01 | Rejected => x02 | Executed => x03 end.
Definition status_from_byte (b : byte) : ProposalStatus :=
  match b with x01 => Passed | x02 => Rejected | x03 => Executed | _ => Pending end.

Record Proposal := mkProposal {
  p_id : N;
  p_title : bytes;
  p_voting_ends_at : N;
  p_status : ProposalStatus;
  p_proposer : Address
}.

#[export] Instance Proposal_eq_dec : EqDecision Proposal.
Proof. solve_decision. Defined.

Record Vote := mkGovVote {
  gv_proposal_id : N;
  gv_voter : Address;
  gv_support : bool;
  gv_weight_wei : N
}.

(** [Box<dyn Error>] *)
Inductive GovError :=
| GovNode (e : NodeError)
| ProposalNotFound (id : N)
| VotingClosed (id voting_ends_at : N)
| NoBondedStake (voter : Address)
| VoterUnbonding.

Definition prop_key (id : N) : bytes := PROP_PREFIX ++ be_bytes 8 id.
Definition vote_prefix (id : N) : bytes := VOTE_PREFIX ++ be_bytes 8 id.
Definition vote_key (id : N) (voter : Address) : bytes := VOTE_PREFIX ++ be_bytes 8 id ++ arr_bytes voter.
Definition tally_key (id : N) : bytes := TALLY_PREFIX ++ be_bytes 8 id.

Definition encode_proposal (p : Proposal) : bytes :=
  be_bytes 8 (p_id p) ++ be_bytes 8 (p_voting_ends_at p) ++ [status_byte (p_status p)] ++
  arr_bytes (p_proposer p) ++ be_bytes 4 (N.min (len (p_title p)) (u32_mod - 1)) ++ p_title p.

Definition decode_gov_proposal (b : bytes) : option Proposal :=
  if len b <? 41 then None
  else
    let id := be_value (take 8 b) in
    let ends := be_value (take 8 (drop 8 b)) in
    status ← status_from_byte <$> (b !! 16%nat);
    proposer ← arr_of (take 20 (drop 17 b));
    let title_len := be_value (take 4 (drop 37 b)) in
    if len b <? 41 + title_len then None
    else
      let title := take (N.to_nat title_len) (drop 41 b) in
      if utf8_valid title then Some (mkProposal id title ends status proposer) else None.

Definition encode_gov_vote (v : Vote) : bytes :=
  [if gv_support v then x01 else x00] ++ be_bytes 32 (gv_weight_wei v).

Definition decode_gov_vote (proposal_id : N) (voter : Address) (b : bytes) : option Vote :=
  if negb (len b =? 1 + 32) then None
  else
    support ← (fun x => negb (bool_decide (x = x00))) <$> head b;
    Some (mkGovVote proposal_id voter support (be_value (drop 1 b))).

Section governance.
Context {B : Type} `{KvBackend B}.

(** The id of a key of the scan, [0] for a key of another length. *)
Definition prop_id (kv : bytes * bytes) : option N := parse_be 8 (drop (length PROP_PREFIX) kv.1).

Definition next_id (b : B) : res NodeError N :=
  ids ← collect_entries prop_id (kv_iter_prefix b Meta PROP_PREFIX);
  let max := foldl (fun max id => if max <? id then id else max) 0 ids in
  mret (wrapping_add u64_mod max 1).

(** The [?] of a storage or stake-table call. *)
Definition gov {A} (m : B -> res NodeError A) : action B GovError A :=
  reading (fun b => map_err GovNode (m b)).
Definition gov_put (key value : bytes) : action B GovError unit := fun b =>
  let '(b, r) := meta_put key value b in (b, map_err GovNode r).

Definition propose (proposer : Address) (title : bytes) (voting_ends_at : N) : action B GovError N :=
  id ← gov next_id;
  gov_put (prop_key id) (encode_proposal (mkProposal id title voting_ends_at Pending proposer));;
  mret id.

Definition gov_get (id : N) (b : B) : res NodeError (option Proposal) :=
  o ← meta_get (prop_key id) b;
  mret (o ≫= decode_gov_proposal).

(** [.get(id)?.ok_or_else(..)?] *)
Definition gov_require (id : N) (b : B) : res GovError Proposal :=
  o ← map_err GovNode (gov_get id b);
  ok_or o (ProposalNotFound id).

Definition cast_vote (id : N) (voter : Address) (support : bool) (block_height : N)
    : action B GovError Vote :=
  p ← reading (gov_require id);
  if p_voting_ends_at p <=? block_height then failing (VotingClosed id (p_voting_ends_at p))
  else
    o ← gov (stake_get voter);
    match o with
    | None => failing (NoBondedStake voter)
    | Some stake =>
        if negb (is_bonded stake) then failing VoterUnbonding
        else
          let vote := mkGovVote id voter support (amount_wei stake) in
          gov_put (vote_key id voter) (encode_gov_vote vote);;
          mret vote
    end.

(** The vote of an entry of the scan of [vote_prefix id]. *)
Definition vote_entry (id : N) (kv : bytes * bytes) : option Vote :=
  voter ← arr_of (drop (length (vote_prefix id)) kv.1);
  decode_gov_vote id voter kv.2.

(** One turn of the loop over the votes. *)
Definition add_vote (yn : N * N) (vote : Vote) : N * N :=
  let '(yes, no) := yn in
  if gv_support vote then (saturating_add u256_mod yes (gv_weight_wei vote), no)
  else (yes, saturating_add u256_mod no (gv_weight_wei vote)).

Definition count_votes (id : N) (b : B) : res NodeError (N * N) :=
  votes ← collect_entries (vote_entry id) (kv_iter_prefix b Meta (vote_prefix id));
  mret (foldl add_vote (0, 0) votes).

Definition passes (yes total : N) : bool :=
  (saturating_mul u256_mod total 2 <? saturating_mul u256_mod yes 3) && negb (total =? 0).

Definition with_status (p : Proposal) (s : ProposalStatus) : Proposal :=
  mkProposal (p_id p) (p_title p) (p_voting_ends_at p) s (p_proposer p).

Definition tally (id block_height : N) : action B GovError ProposalStatus :=
  p ← reading (gov_require id);
  match p_status p with
  | Pending =>
      if block_height <? p_voting_ends_at p then mret (p_status p)
      else
        '(yes, no) ← gov (count_votes id);
        total ← gov total_bonded;
        let p := with_status p (if passes yes total then Passed else Rejected) in
        gov_put (prop_key id) (encode_proposal p);;
        gov_put (tally_key id) (be_bytes 32 yes ++ be_bytes 32 no);;
        mret (p_status p)
  | status => mret status
  end.

Definition tally_of (id : N) (b : B) : res NodeError (option (N * N)) :=
  o ← meta_get (tally_key id) b;
  mret (v ← o; if negb (len v =? 64) then None else Some (be_value (take 32 v), be_value (drop 32 v))).

Definition gov_list_all (b : B) : res NodeError (list Proposal) :=
  collect_entries (fun kv => decode_gov_proposal kv.2) (kv_iter_prefix b Meta PROP_PREFIX).
End governance.

(** ** Codecs *)
Lemma status_byte_roundtrip s : status_from_byte (status_byte s) = s.
Proof. by destruct s. Qed.

(** What a [Proposal] of the program satisfies: machine integers, a UTF-8 title. *)
Record proposal_wf (p : Proposal) : Prop := {
  pw_id : p_id p < u64_mod;
  pw_ends : p_voting_ends_at p < u64_mod;
  pw_title : utf8_valid (p_title p) = true;
  pw_len : len (p_title p) < u32_mod
}.

(** The field that the bytes at an offset start with. *)
Lemma take_cursor (l mid rest : bytes) off n :
  drop off l = mid ++ rest -> length mid = n -> take n (drop off l) = mid.
Proof. intros -> <-. by rewrite take_app_length. Qed.

Lemma decode_encode_gov_proposal p : proposal_wf p -> decode_gov_proposal (encode_proposal p) = Some p.
Proof.
  intros [Hid Hends Ht Hl]. unfold decode_gov_proposal, encode_proposal. rewrite N.min_l by lia.
  set (l := be_bytes 8 (p_id p) ++ _).
  assert (len l = 41 + len (p_title p)) as Hlen.
  { unfold l, len. rewrite !length_app, !length_be_bytes, arr_length. cbn [length]. lia. }
  assert (drop 0 l = l) as D0 by done. unfold l at 2 in D0.
  pose proof (cursor_next _ _ _ _ _ D0 (length_be_bytes 8 _)) as D1.
  pose proof (cursor_next _ _ _ _ _ D1 (length_be_bytes 8 _)) as D2.
  pose proof (cursor_next _ _ _ _ _ D2 (eq_refl : length [_] = 1%nat)) as D3.
  pose proof (cursor_next _ _ _ _ _ D3 (arr_length _)) as D4.
  pose proof (cursor_next _ _ _ _ _ D4 (length_be_bytes 4 _)) as D5.
  cbn [Nat.add] in *. change (take 8 l) with (take 8 (drop 0 l)).
  rewrite (take_cursor _ _ _ _ _ D0) by apply length_be_bytes.
  rewrite (take_cursor _ _ _ _ _ D1) by apply length_be_bytes.
  rewrite (take_cursor _ _ _ _ _ D3) by apply arr_length.
  rewrite (take_cursor _ _ _ _ _ D4) by apply length_be_bytes.
  assert (l !! 16%nat = Some (status_byte (p_status p))) as ->
    by (rewrite <-(Nat.add_0_r 16), <-lookup_drop, D2; done).
  rewrite D5, Hlen, arr_of_arr_bytes, (proj2 (N.ltb_ge _ 41)) by lia.
  cbn [fmap option_fmap option_map mbind option_bind].
  rewrite !be_value_small, (proj2 (N.ltb_ge _ _)) by (done || lia).
  rewrite to_nat_len, firstn_all, Ht, status_byte_roundtrip. by destruct p.
Qed.

Lemma decode_encode_gov_vote v :
  gv_weight_wei v < u256_mod ->
  decode_gov_vote (gv_proposal_id v) (gv_voter v) (encode_gov_vote v) = Some v.
Proof.
  intros Hw. unfold decode_gov_vote, encode_gov_vote, len.
  cbn [length app head fmap option_fmap option_map skipn]. rewrite length_be_bytes. cbn [negb].
  change (negb (N.of_nat 33 =? 1 + 32)) with false. cbn [mbind option_bind].
  rewrite drop_0, be_value_small by done. by destruct v as [i a [] w].
Qed.

(** ** What the store says *)
Section view.
Context {B : Type} `{HB : KvBackend B} {HL : KvLaws B}.
Implicit Types (b : B) (p : Proposal) (id : N) (a : Address).

Definition proposal_at b id : option Proposal := kv_view b !! (Meta, prop_key id) ≫= decode_gov_proposal.

(** Every key of the proposal table, decodable or not. *)
Definition prop_rows b : gmap N bytes := table PROP_PREFIX (parse_be 8) Some b.

(** Support and weight of a vote record. *)
Definition vote_value (v : bytes) : option (bool * N) :=
  (fun x => (gv_support x, gv_weight_wei x)) <$> decode_gov_vote 0 (zero_array 20) v.

Definition votes b id : gmap Address (bool * N) := table (vote_prefix id) arr_of vote_value b.

Definition yes_weight (m : gmap Address (bool * N)) : N :=
  weight (fun row : Address * (bool * N) => if row.2.1 then row.2.2 else 0) (map_to_list m).
Definition no_weight (m : gmap Address (bool * N)) : N :=
  weight (fun row : Address * (bool * N) => if row.2.1 then 0 else row.2.2) (map_to_list m).

Lemma gov_get_view b id : kv_ok b -> gov_get id b = Ok (proposal_at b id).
Proof. intros Hok. unfold gov_get, meta_get. by rewrite kv_get_view. Qed.

Lemma gov_require_view b id :
  kv_ok b -> gov_require id b = ok_or (proposal_at b id) (ProposalNotFound id).
Proof. intros Hok. unfold gov_require. by rewrite gov_get_view. Qed.

Lemma vote_of_value id a v :
  decode_gov_vote id a v = (fun x : bool * N => mkGovVote id a x.1 x.2) <$> vote_value v.
Proof. unfold vote_value, decode_gov_vote. destruct (negb (len v =? 1 + 32)); [done|]. by destruct (head v). Qed.

Lemma lookup_votes b id a : votes b id !! a = kv_view b !! (Meta, vote_key id a) ≫= vote_value.
Proof.
  unfold votes. rewrite (lookup_table _ _ _ _ arr_of_suffix) by apply arr_of_arr_bytes.
  unfold vote_prefix, vote_key. by rewrite <-app_assoc.
Qed.

Lemma gov_put_view key value b :
  kv_ok b -> exists b', gov_put key value b = (b', Ok tt) /\ kv_ok b' /\
    kv_view b' = <[(Meta, key) := value]> (kv_view b).
Proof.
  intros Hok. destruct (meta_put_view key value b Hok) as (b' & Hp & Hb'). exists b'.
  unfold gov_put. by rewrite Hp.
Qed.

(** ** Counting *)
Lemma foldl_add_vote (l : list (Address * (bool * N))) id y n :
  y < u256_mod -> n < u256_mod ->
  foldl add_vote (y, n) ((fun row : Address * (bool * N) => mkGovVote id row.1 row.2.1 row.2.2) <$> l) =
  (N.min (y + weight (fun row : Address * (bool * N) => if row.2.1 then row.2.2 else 0) l) (u256_mod - 1),
   N.min (n + weight (fun row : Address * (bool * N) => if row.2.1 then 0 else row.2.2) l) (u256_mod - 1)).
Proof.
  revert y n. induction l as [|[a [s w]] l IH]; intros y n Hy Hn.
  { cbn. unfold weight. cbn. f_equal; lia. }
  cbn [fmap list_fmap foldl]. rewrite !weight_cons. unfold add_vote at 2. cbn [fst snd gv_support gv_weight_wei].
  destruct s; rewrite IH by (done || apply saturating_u256); unfold saturating_add; f_equal; lia.
Qed.

Lemma vote_entry_row id kv :
  vote_entry id kv =
  (fun row : Address * (bool * N) => mkGovVote id row.1 row.2.1 row.2.2) <$> entry_row (vote_prefix id) arr_of vote_value kv.
Proof.
  unfold vote_entry, entry_row. destruct (arr_of _) as [a|]; [|done]. cbn [mbind option_bind].
  rewrite vote_of_value. by destruct (vote_value kv.2) as [[]|].
Qed.

Lemma omap_fmap_ext {A C D} (f : A -> option C) (g : A -> option D) (h : C -> D) (l : list A) :
  (forall x, g x = h <$> f x) -> omap g l = h <$> omap f l.
Proof. intros Hg. induction l as [|x l IH]; [done|]. cbn. rewrite Hg. destruct (f x); cbn; [by f_equal|done]. Qed.

Lemma add_vote_comm (x y : Vote) yn : add_vote (add_vote yn x) y = add_vote (add_vote yn y) x.
Proof.
  destruct yn as [u n]. unfold add_vote. destruct (gv_support x), (gv_support y); unfold saturating_add; f_equal; lia.
Qed.

Lemma foldl_add_vote_perm (l k : list Vote) yn : l ≡ₚ k -> foldl add_vote yn l = foldl add_vote yn k.
Proof.
  intros Hp. revert yn. induction Hp as [|x l k _ IH|x y l|l k j _ IH1 _ IH2]; intros yn; cbn; auto.
  - by rewrite add_vote_comm.
  - by rewrite IH1.
Qed.

Lemma count_votes_spec b id :
  kv_ok b -> count_votes id b =
    Ok (N.min (yes_weight (votes b id)) (u256_mod - 1), N.min (no_weight (votes b id)) (u256_mod - 1)).
Proof.
  intros Hok. destruct (scan_table (vote_prefix id) (@arr_bytes 20) arr_of vote_value arr_of_suffix b Hok)
    as (items & Hi & Hp).
  unfold count_votes. rewrite Hi, collect_entries_Ok. cbn [mbind res_bind mret res_ret].
  rewrite (omap_fmap_ext _ _ _ _ (vote_entry_row id)). erewrite foldl_add_vote_perm by apply fmap_Permutation, Hp.
  by rewrite foldl_add_vote.
Qed.
End view.
