(* ===== verification/GovernanceProps.v ===== *)
(** * GovernanceProps: what proposing, voting and tallying do

    Proofs about [Governance]. *)
From stdpp Require Import base tactics gmap numbers sets strings list.
From Stdlib Require Import NArith Lia.
From Stdlib.Init Require Import Byte.
From S2P Require Import Prelude Bytes Crypto Storage Tables Staking Governance.

(** ** Keys of the tables never coincide *)
Lemma prop_key_inj i j : i < u64_mod -> j < u64_mod -> prop_key i = prop_key j -> i = j.
Proof. intros Hi Hj Hk%app_inv_head. by apply be_bytes_inj in Hk. Qed.

Lemma vote_prefix_key i j a :
  i < u64_mod -> j < u64_mod -> vote_prefix i `prefix_of` vote_key j a -> i = j.
Proof.
  intros Hi Hj [s Hs]. unfold vote_prefix, vote_key in Hs. rewrite <-app_assoc in Hs.
  apply app_inv_head, app_inj_1 in Hs as [Hb _]; [|by rewrite !length_be_bytes].
  symmetry. by apply be_bytes_inj in Hb.
Qed.

Section frames.
Context {B : Type} `{HB : KvBackend B} {HL : KvLaws B}.
Implicit Types (b : B) (p : Proposal) (id : N) (a : Address).

Definition writes (key value : bytes) b b' : Prop := kv_view b' = <[(Meta, key) := value]> (kv_view b).

Lemma writes_proposal_ne key value b b' id :
  writes key value b b' -> key <> prop_key id -> proposal_at b' id = proposal_at b id.
Proof. intros Hw Hk. unfold proposal_at. rewrite Hw, lookup_insert_ne; [done|congruence]. Qed.

Lemma writes_proposal id p b b' :
  writes (prop_key id) (encode_proposal p) b b' -> proposal_wf p -> proposal_at b' id = Some p.
Proof.
  intros Hw Hp. unfold proposal_at. rewrite Hw, lookup_insert_eq. by apply decode_encode_gov_proposal.
Qed.

Lemma writes_votes_ne key value b b' id :
  writes key value b b' -> ~ vote_prefix id `prefix_of` key -> votes b' id = votes b id.
Proof.
  intros Hw Hk. apply (table_frame _ _ _ _ arr_of_suffix). intros k Hp.
  rewrite Hw, lookup_insert_ne; [done|]. intros [= ->]. done.
Qed.

Lemma writes_vote id a s w b b' :
  writes (vote_key id a) (encode_gov_vote (mkGovVote id a s w)) b b' -> w < u256_mod ->
  votes b' id = <[a := (s, w)]> (votes b id).
Proof.
  intros Hw Hlt. apply (table_put _ _ _ _ arr_of_suffix b b' a (encode_gov_vote (mkGovVote id a s w))).
  - apply arr_of_arr_bytes.
  - pose proof (decode_encode_gov_vote (mkGovVote id a s w) Hlt) as Hd.
    rewrite vote_of_value in Hd. cbn [gv_proposal_id gv_voter] in Hd.
    destruct (vote_value _) as [[s' w']|]; [|done]. cbn in Hd. by injection Hd as -> ->.
  - unfold vote_prefix. rewrite <-app_assoc. exact Hw.
Qed.

Lemma writes_stakes key value b b' :
  writes key value b b' -> (forall a, key <> stake_key a) -> stake_map b' = stake_map b.
Proof.
  intros Hw Hk. apply map_eq. intros a. rewrite !lookup_stake_map, Hw, lookup_insert_ne; [done|].
  intros [= He]. by apply (Hk a).
Qed.

Lemma writes_rows_ne key value b b' :
  writes key value b b' -> ~ PROP_PREFIX `prefix_of` key -> prop_rows b' = prop_rows b.
Proof.
  intros Hw Hk. apply (table_frame _ _ _ _ (parse_be_suffix 8)). intros k Hp.
  rewrite Hw, lookup_insert_ne; [done|]. intros [= ->]. done.
Qed.

Lemma writes_rows id v b b' :
  writes (prop_key id) v b b' -> id < u64_mod -> prop_rows b' = <[id := v]> (prop_rows b).
Proof. intros Hw Hi. eapply (table_put _ _ _ _ (parse_be_suffix 8)); [by apply parse_be_valid|done|exact Hw]. Qed.

Lemma lookup_rows b id : id < u64_mod -> prop_rows b !! id = kv_view b !! (Meta, prop_key id).
Proof.
  intros Hi. unfold prop_rows. rewrite (lookup_table _ _ _ _ (parse_be_suffix 8)) by by apply parse_be_valid.
  unfold prop_key. by destruct (kv_view b !! _).
Qed.

Lemma rows_lt b id v : prop_rows b !! id = Some v -> id < u64_mod.
Proof.
  intros Hv. apply (table_valid _ _ _ _ (parse_be_suffix 8)) in Hv. unfold parse_be in Hv.
  rewrite length_be_bytes in Hv. injection Hv as <-.
  pose proof (be_value_lt (be_bytes 8 id)) as Hl. by rewrite length_be_bytes in Hl.
Qed.

(** A proposal that is stored under its own id, as [propose] stores it. *)
Definition stored b id p : Prop := proposal_at b id = Some p /\ p_id p = id /\ id < u64_mod.

Lemma proposal_row b id p : id < u64_mod -> proposal_at b id = Some p -> is_Some (prop_rows b !! id).
Proof.
  intros Hi Hp. unfold proposal_at in Hp. apply bind_Some in Hp as (v & Hv & _).
  rewrite lookup_rows by done. by eexists.
Qed.

Lemma decoded_wf v p : decode_gov_proposal v = Some p -> proposal_wf p.
Proof.
  unfold decode_gov_proposal. destruct (N.ltb_spec (len v) 41) as [|Hl]; [done|].
  intros (st & _ & Hp)%bind_Some. apply bind_Some in Hp as (a & _ & Hp).
  destruct (N.ltb_spec (len v) (41 + be_value (take 4 (drop 37 v)))) as [|Ht]; [done|].
  destruct (utf8_valid _) eqn:Hu; [|done]. injection Hp as <-.
  assert (forall n l, length (take n l) = n -> be_value (take n l) < 256 ^ N.of_nat n) as Hb
    by (intros n l Hn; pose proof (be_value_lt (take n l)) as Hb; by rewrite Hn in Hb).
  unfold len in Hl, Ht. split; cbn [p_id p_voting_ends_at p_title]; [apply (Hb 8%nat)|apply (Hb 8%nat)|done|].
  - rewrite length_take. lia.
  - rewrite length_take, length_drop. lia.
  - unfold len. rewrite length_take. eapply N.le_lt_trans; [|apply (Hb 4%nat (drop 37 v))].
    + lia.
    + rewrite length_take, length_drop. lia.
Qed.

Lemma proposal_at_wf b id p : proposal_at b id = Some p -> proposal_wf p.
Proof. intros (v & _ & Hv)%bind_Some. by apply decoded_wf in Hv. Qed.

(** ** The next id *)
Lemma foldl_max (l : list N) c :
  let m := foldl (fun max id => if max <? id then id else max) c l in
  c <= m /\ (forall x, x ∈ l -> x <= m) /\ (m = c \/ m ∈ l).
Proof.
  revert c. induction l as [|x l IH]; intros c; cbn [foldl]; [split_and!; [lia|set_solver|by left]|].
  destruct (IH (if c <? x then x else c)) as (Hc & Hl & Hm). cbv zeta in *.
  destruct (N.ltb_spec c x); (split_and!; [lia| |set_solver]);
    (intros y [->|Hy]%elem_of_cons; [lia|by apply Hl]).
Qed.

Lemma next_id_spec b :
  kv_ok b -> exists m, next_id b = Ok (wrapping_add u64_mod m 1) /\
    (forall id, is_Some (prop_rows b !! id) -> id <= m) /\ (m = 0 \/ is_Some (prop_rows b !! m)).
Proof.
  intros Hok. destruct (scan_table PROP_PREFIX (be_bytes 8) (parse_be 8) Some (parse_be_suffix 8) b Hok)
    as (items & Hi & Hp).
  assert (omap prop_id items = (omap (entry_row PROP_PREFIX (parse_be 8) Some) items).*1) as Hids.
  { apply omap_fmap_ext. intros kv. unfold prop_id, entry_row. by destruct (parse_be 8 _). }
  assert (forall id, id ∈ omap prop_id items <-> is_Some (prop_rows b !! id)) as Hmem.
  { intros id. rewrite Hids, Hp, list_elem_of_fmap. split.
    - intros ([i v] & -> & Hv%elem_of_map_to_list). by exists v.
    - intros [v Hv]. exists (id, v). split; [done|by apply elem_of_map_to_list]. }
  unfold next_id. rewrite Hi, collect_entries_Ok. cbn [mbind res_bind mret res_ret].
  destruct (foldl_max (omap prop_id items) 0) as (_ & Hle & Hm). cbv zeta in *. eexists. split; [done|].
  split; [intros id Hid; apply Hle; by apply Hmem|]. destruct Hm as [->|Hm]; [by left|right; by apply Hmem].
Qed.
End frames.

(** ** The operations *)
Section ops.
Context {B : Type} `{HB : KvBackend B} {HL : KvLaws B}.
Implicit Types (b : B) (p : Proposal) (id h : N) (a : Address).

Lemma propose_spec a title ends b :
  kv_ok b -> (forall id, is_Some (prop_rows b !! id) -> id + 1 < u64_mod) ->
  exists b' id, propose a title ends b = (b', Ok id) /\ kv_ok b' /\ prop_rows b !! id = None /\
    0 < id < u64_mod /\ (id = 1 \/ is_Some (prop_rows b !! (id - 1))) /\
    writes (prop_key id) (encode_proposal (mkProposal id title ends Pending a)) b b'.
Proof.
  intros Hok Hids. destruct (next_id_spec b Hok) as (m & Hn & Hmax & Hm).
  assert (m + 1 < u64_mod) as Hlt by (destruct Hm as [->|Hm]; [lia|by apply Hids]).
  rewrite wrapping_add_small in Hn by done.
  destruct (gov_put_view (prop_key (m + 1)) (encode_proposal (mkProposal (m + 1) title ends Pending a)) b Hok)
    as (b' & Hp & Hok' & Hw).
  exists b', (m + 1). split_and!; [|done| |lia|lia| |done].
  - unfold propose, gov. erewrite action_bind_Ok; [|apply reading_Ok; by rewrite Hn].
    erewrite action_bind_Ok; [|exact Hp]. done.
  - destruct (prop_rows b !! (m + 1)) eqn:E; [|done]. assert (m + 1 <= m) by (apply Hmax; by eexists). lia.
  - destruct Hm as [->|Hm]; [by left|right]. by rewrite N.add_sub.
Qed.

Lemma cast_vote_spec id a s h b :
  kv_ok b ->
  match proposal_at b id, stake_map b !! a with
  | None, _ => cast_vote id a s h b = (b, Err (ProposalNotFound id))
  | Some p, o =>
      if p_voting_ends_at p <=? h then cast_vote id a s h b = (b, Err (VotingClosed id (p_voting_ends_at p)))
      else match o with
           | None => cast_vote id a s h b = (b, Err (NoBondedStake a))
           | Some (x, u) =>
               if (u =? 0) && negb (x =? 0)
               then exists b', cast_vote id a s h b = (b', Ok (mkGovVote id a s x)) /\ kv_ok b' /\ x < u256_mod /\
                      writes (vote_key id a) (encode_gov_vote (mkGovVote id a s x)) b b'
               else cast_vote id a s h b = (b, Err VoterUnbonding)
           end
  end.
Proof.
  intros Hok. unfold cast_vote, mbind, action_bind, reading. rewrite gov_require_view by done.
  destruct (proposal_at b id) as [p|]; [|done]. cbn [ok_or].
  destruct (p_voting_ends_at p <=? h); [done|]. unfold gov, reading. rewrite stake_get_map by done.
  destruct (stake_map b !! a) as [[x u]|] eqn:Ha; cbn [fmap option_fmap option_map map_err]; [|done].
  unfold is_bonded. cbn [unbond_at amount_wei fst snd].
  destruct ((u =? 0) && negb (x =? 0)); cbn [negb]; [|done].
  destruct (gov_put_view (vote_key id a) (encode_gov_vote (mkGovVote id a s x)) b Hok) as (b' & Hp & Hok' & Hw).
  exists b'. rewrite Hp. split_and!; [done|done| |done]. by apply stake_map_wf in Ha as [? _].
Qed.

(** The decision of a tally. *)
Definition decision b id : ProposalStatus :=
  if passes (N.min (yes_weight (votes b id)) (u256_mod - 1)) (N.min (bonded (stake_map b)) (u256_mod - 1))
  then Passed else Rejected.

Lemma decision_passes b id :
  yes_weight (votes b id) * 3 < u256_mod -> bonded (stake_map b) * 2 < u256_mod ->
  decision b id = Passed <-> bonded (stake_map b) * 2 < yes_weight (votes b id) * 3 /\ bonded (stake_map b) <> 0.
Proof.
  intros Hy Hb. unfold decision, passes. rewrite !N.min_l by lia. rewrite !saturating_mul_small by lia.
  destruct (N.ltb_spec (bonded (stake_map b) * 2) (yes_weight (votes b id) * 3)),
    (N.eqb_spec (bonded (stake_map b)) 0); cbn; split; try done; try lia.
Qed.

Lemma tally_spec id h b :
  kv_ok b ->
  match proposal_at b id with
  | None => tally id h b = (b, Err (ProposalNotFound id))
  | Some p =>
      if negb (bool_decide (p_status p = Pending)) then tally id h b = (b, Ok (p_status p))
      else if h <? p_voting_ends_at p then tally id h b = (b, Ok Pending)
      else exists b1 b2, tally id h b = (b2, Ok (decision b id)) /\ kv_ok b2 /\
        writes (prop_key id) (encode_proposal (with_status p (decision b id))) b b1 /\
        writes (tally_key id) (be_bytes 32 (N.min (yes_weight (votes b id)) (u256_mod - 1)) ++
                               be_bytes 32 (N.min (no_weight (votes b id)) (u256_mod - 1))) b1 b2
  end.
Proof.
  intros Hok. unfold tally, mbind, action_bind, reading. rewrite gov_require_view by done.
  destruct (proposal_at b id) as [p|] eqn:Hp; [|done]. cbn [ok_or].
  case_bool_decide as Hst; cbn [negb]; [|by destruct (p_status p)]. rewrite Hst.
  destruct (h <? p_voting_ends_at p); [done|]. unfold gov, reading.
  rewrite count_votes_spec by done. cbn [map_err]. rewrite (total_bonded_spec b Hok). cbn [map_err].
  fold (decision b id).
  destruct (gov_put_view (prop_key id) (encode_proposal (with_status p (decision b id))) b Hok)
    as (b1 & -> & Hok1 & Hw1).
  destruct (gov_put_view (tally_key id) (be_bytes 32 (N.min (yes_weight (votes b id)) (u256_mod - 1)) ++
    be_bytes 32 (N.min (no_weight (votes b id)) (u256_mod - 1))) b1 Hok1) as (b2 & -> & Hok2 & Hw2).
  by exists b1, b2.
Qed.
End ops.

(** ** Sequences of calls, stake table included *)
Inductive gov_op :=
| GPropose (proposer : Address) (title : bytes) (voting_ends_at : N)
| GVote (id : N) (voter : Address) (support : bool) (block_height : N)
| GTally (id block_height : N)
| GStake (op : stake_op).

Definition gov_apply {B} `{KvBackend B} (op : gov_op) (b : B) : B :=
  match op with
  | GPropose a t e => (propose a t e b).1
  | GVote id a s h => (cast_vote id a s h b).1
  | GTally id h => (tally id h b).1
  | GStake op => (stake_apply op b).1
  end.

Definition gov_run {B} `{KvBackend B} (ops : list gov_op) (b : B) : B := foldl (fun b op => gov_apply op b) b ops.

(** Ids are 64-bit. *)
Definition gov_op_wf (op : gov_op) : Prop :=
  match op with GVote id _ _ _ | GTally id _ => id < u64_mod | _ => True end.

(** Every recorded id leaves room for [k] more. *)
Definition room {B} `{KvLaws B} (k : N) (b : B) : Prop :=
  k + 1 < u64_mod /\ forall id, is_Some (prop_rows b !! id) -> id + k < u64_mod.

Section runs.
Context {B : Type} `{HB : KvBackend B} {HL : KvLaws B}.
Implicit Types (b : B) (p : Proposal) (id h : N) (a : Address).

Lemma vote_not_prop id i a : ~ PROP_PREFIX `prefix_of` vote_key i a /\ vote_key i a <> prop_key id.
Proof. split; [by intros [s Hs]|done]. Qed.

Lemma tally_not_others id i : ~ PROP_PREFIX `prefix_of` tally_key i /\ tally_key i <> prop_key id /\
  ~ vote_prefix id `prefix_of` tally_key i /\ (forall a, tally_key i <> stake_key a).
Proof. split_and!; [by intros [s Hs]|done|by intros [s Hs]|done]. Qed.

Lemma prop_not_others id i : ~ vote_prefix id `prefix_of` prop_key i /\ (forall a, prop_key i <> stake_key a).
Proof. split; [by intros [s Hs]|done]. Qed.

Lemma stake_frame a b b' : only_stake a b b' ->
  (forall id, proposal_at b' id = proposal_at b id) /\ prop_rows b' = prop_rows b /\
  (forall id, votes b' id = votes b id).
Proof.
  intros Ho. split_and!.
  - intros id. unfold proposal_at. by rewrite Ho.
  - apply (table_frame _ _ _ _ (parse_be_suffix 8)). intros k [s ->]. by apply Ho.
  - intros id. apply (table_frame _ _ _ _ arr_of_suffix). intros k [s ->]. by apply Ho.
Qed.

(** A decided proposal stays as it is. *)
Lemma decided_step op id p k b :
  kv_ok b -> gov_op_wf op -> room (k + 1) b -> id < u64_mod -> proposal_at b id = Some p ->
  p_status p <> Pending ->
  kv_ok (gov_apply op b) /\ room k (gov_apply op b) /\ proposal_at (gov_apply op b) id = Some p.
Proof.
  intros Hok Hop [Hk Hroom] Hid Hp Hst. assert (room k b) as Hroom'.
  { split; [lia|]. intros i Hi%Hroom. lia. }
  destruct op as [a t e|i a s h|i h|op]; cbn [gov_apply gov_op_wf] in *.
  - destruct (propose_spec a t e b Hok) as (b' & i & -> & Hok' & Hnone & Hi & Hpred & Hw).
    { intros i Hi%Hroom. lia. }
    cbn [fst]. split_and!; [done| |].
    + split; [lia|]. intros j. rewrite (writes_rows _ _ _ _ Hw) by lia.
      intros [->|[_ Hj]]%lookup_insert_is_Some; [|apply Hroom in Hj; lia].
      destruct Hpred as [->|Hpred%Hroom]; lia.
    + erewrite writes_proposal_ne; [done|exact Hw|]. intros He%prop_key_inj; [|lia..]. subst i.
      apply (proposal_row _ _ _ Hid) in Hp. rewrite Hnone in Hp. by destruct Hp.
  - pose proof (cast_vote_spec i a s h b Hok) as Hc.
    destruct (proposal_at b i) as [q|]; [|by rewrite Hc].
    destruct (p_voting_ends_at q <=? h); [by rewrite Hc|].
    destruct (stake_map b !! a) as [[x u]|]; [|by rewrite Hc].
    destruct ((u =? 0) && negb (x =? 0)); [|by rewrite Hc].
    destruct Hc as (b' & -> & Hok' & _ & Hw). cbn [fst]. split_and!; [done| |].
    + unfold room. by rewrite (writes_rows_ne _ _ _ _ Hw) by apply (vote_not_prop 0).
    + by rewrite (writes_proposal_ne _ _ _ _ _ Hw) by apply vote_not_prop.
  - pose proof (tally_spec i h b Hok) as Ht.
    destruct (proposal_at b i) as [q|] eqn:Hq; [|by rewrite Ht].
    case_bool_decide as Hqs; cbn [negb] in Ht; [|by rewrite Ht].
    destruct (h <? p_voting_ends_at q); [by rewrite Ht|].
    destruct Ht as (b1 & b2 & -> & Hok2 & Hw1 & Hw2). cbn [fst].
    destruct (tally_not_others id i) as (Ht1 & Ht2 & _). split_and!; [done| |].
    + unfold room. rewrite (writes_rows_ne _ _ _ _ Hw2 Ht1), (writes_rows _ _ _ _ Hw1 Hop). split; [lia|].
      intros j [->|[_ Hj]]%lookup_insert_is_Some; [|apply Hroom in Hj; lia].
      apply (proposal_row _ _ _ Hop), Hroom in Hq. lia.
    + rewrite (writes_proposal_ne _ _ _ _ _ Hw2 Ht2), (writes_proposal_ne _ _ _ _ _ Hw1); [done|].
      intros He%prop_key_inj; [|done..]. subst i. congruence.
  - destruct (stake_apply_spec op b Hok) as (b' & -> & Hok' & _ & Ho).
    destruct (stake_frame _ _ _ Ho) as (Hp' & Hr & _). cbn [fst]. unfold room. by rewrite Hp', Hr.
Qed.

Lemma decided_run ops id p b :
  kv_ok b -> Forall gov_op_wf ops -> room (len ops) b -> id < u64_mod -> proposal_at b id = Some p ->
  p_status p <> Pending ->
  kv_ok (gov_run ops b) /\ proposal_at (gov_run ops b) id = Some p.
Proof.
  intros Hok Hops. revert b Hok. induction Hops as [|op ops Hop _ IH]; intros b Hok Hr Hid Hp Hst; [done|].
  assert (len (op :: ops) = len ops + 1) as Hl by (unfold len; cbn [length]; lia). rewrite Hl in Hr.
  destruct (decided_step op id p (len ops) b Hok Hop Hr Hid Hp Hst) as (Hok1 & Hr1 & Hp1).
  unfold gov_run. cbn [foldl]. by apply IH.
Qed.
End runs.

(** ** Bonded totals *)
Lemma bonded_split (m : stakes) a x u :
  m !! a = Some (x, u) -> bonded m = (if u =? 0 then x else 0) + bonded (delete a m).
Proof.
  intros Ha. unfold bonded. by rewrite <-(weight_perm _ _ _ (map_to_list_delete m a (x, u) Ha)).
Qed.

Lemma yes_weight_single a x : yes_weight {[a := (true, x)]} = x.
Proof.
  unfold yes_weight. rewrite map_to_list_singleton, weight_cons, weight_nil. cbn. lia.
Qed.

(** ** Properties *)
Section properties.
Context {B : Type} `{HB : KvBackend B} {HL : KvLaws B}.

(** C16. A tally decides once and for all: on a pending proposal whose window has closed
    it returns and records [Passed] exactly when three times the recorded yes weight
    exceeds twice the stake bonded at that moment (and some is bonded), else
    [Rejected]; it caches the yes and no sums, leaves every other proposal, all votes
    and the stake table alone, and whatever proposals, votes, tallies, bonds,
    unbondings, withdrawals and slashes follow, the decided proposal never changes
    and every later tally returns the same status.  This is the two-thirds rule of
    [ProposalStatus], not the simple majority that the header of the module names.
    It holds within these bounds: the store is fault free; the weights fit their words
    (three times the yes weight, the no weight and twice the bonded stake are below
    2^256, beyond which the sums saturate); the proposal's id and the ids that
    the later votes and tallies name are 64-bit words; and there is room for the
    proposals to come, that is, no recorded id plus the number of later calls reaches
    2^64, and there are fewer than 2^64 - 1 of them. *)
Theorem tally_decides (id h : N) (p : Proposal) (ops : list gov_op) (h' : N) (b : B) :
  kv_ok b -> id < u64_mod -> proposal_at b id = Some p -> p_status p = Pending ->
  p_voting_ends_at p <= h -> Forall gov_op_wf ops -> room (len ops) b ->
  yes_weight (votes b id) * 3 < u256_mod -> no_weight (votes b id) < u256_mod ->
  bonded (stake_map b) * 2 < u256_mod ->
  exists s b', tally id h b = (b', Ok s) /\ s <> Pending /\
    (s = Passed <-> bonded (stake_map b) * 2 < yes_weight (votes b id) * 3 /\ bonded (stake_map b) <> 0) /\
    gov_get id b' = Ok (Some (with_status p s)) /\
    tally_of id b' = Ok (Some (yes_weight (votes b id), no_weight (votes b id))) /\
    (forall i, i < u64_mod -> i <> id -> gov_get i b' = gov_get i b) /\
    (forall i, votes b' i = votes b i) /\ stake_map b' = stake_map b /\
    gov_get id (gov_run ops b') = Ok (Some (with_status p s)) /\
    tally id h' (gov_run ops b') = (gov_run ops b', Ok s).
Proof.
  intros Hok Hid Hp Hst Hh Hops Hroom Hy Hn Hb. pose proof (tally_spec id h b Hok) as Ht.
  rewrite Hp, Hst, bool_decide_eq_true_2, (proj2 (N.ltb_ge _ _)) in Ht by done. cbn [negb] in Ht.
  destruct Ht as (b1 & b2 & Ht & Hok2 & Hw1 & Hw2). exists (decision b id), b2.
  assert (decision b id <> Pending) as Hd by (unfold decision; by destruct (passes _ _)).
  destruct (tally_not_others id id) as (Hk1 & Hk2 & _ & Hk4). destruct (prop_not_others id id) as (_ & Hk6).
  assert (proposal_at b2 id = Some (with_status p (decision b id))) as Hp2.
  { rewrite (writes_proposal_ne _ _ _ _ _ Hw2 Hk2). apply (writes_proposal _ _ _ _ Hw1).
    apply proposal_at_wf in Hp as []. by split. }
  assert (room (len ops) b2) as Hroom2.
  { unfold room. rewrite (writes_rows_ne _ _ _ _ Hw2 Hk1), (writes_rows _ _ _ _ Hw1 Hid). split; [apply Hroom|].
    intros j [->|[_ Hj]]%lookup_insert_is_Some; [|by apply Hroom]. apply Hroom. by eapply proposal_row. }
  destruct (decided_run ops id _ b2 Hok2 Hops Hroom2 Hid Hp2 Hd) as (Hok3 & Hp3).
  split_and!; [done|done|by apply decision_passes|by rewrite gov_get_view, Hp2| | | | |by rewrite gov_get_view, Hp3|].
  - unfold tally_of, meta_get. rewrite kv_get_view by done. rewrite Hw2, lookup_insert_eq. cbn.
    rewrite !N.min_l by lia. rewrite len_app. change (negb (len (be_bytes 32 _) + len (be_bytes 32 _) =? 64)) with false.
    cbn iota. rewrite take_app_length', drop_app_length' by by rewrite length_be_bytes. by rewrite !be_value_small by lia.
  - intros i Hi Hne. rewrite !gov_get_view by done. f_equal.
    destruct (tally_not_others i id) as (_ & Hki & _).
    rewrite (writes_proposal_ne _ _ _ _ _ Hw2 Hki), (writes_proposal_ne _ _ _ _ _ Hw1); [done|].
    intros He%prop_key_inj; [by subst|done..].
  - intros i. destruct (tally_not_others i id) as (_ & _ & Hki & _). destruct (prop_not_others i id) as (Hkj & _).
    by rewrite (writes_votes_ne _ _ _ _ _ Hw2 Hki), (writes_votes_ne _ _ _ _ _ Hw1 Hkj).
  - by rewrite (writes_stakes _ _ _ _ Hw2 Hk4), (writes_stakes _ _ _ _ Hw1 Hk6).
  - pose proof (tally_spec id h' (gov_run ops b2) Hok3) as Ht3. rewrite Hp3 in Ht3. cbn [p_status with_status] in Ht3.
    by rewrite bool_decide_eq_false_2 in Ht3.
Qed.

(** A tally compares weights of two moments: a vote keeps the weight it had when cast,
    while the total is read at the tally.  A voter whose bond [x] exceeds two thirds
    of what all others have bonded - two fifths of the whole, no supermajority of it -
    passes a proposal alone by voting for it and unbonding before the tally. *)
Theorem stale_weight_passes (id h1 h2 hu period x : N) (a : Address) (p : Proposal) (b : B) :
  kv_ok b -> id < u64_mod -> proposal_at b id = Some p -> p_status p = Pending -> votes b id = ∅ ->
  h1 < p_voting_ends_at p <= h2 -> 0 < hu + period < u64_mod ->
  stake_map b !! a = Some (x, 0) -> 0 < x -> x * 3 < u256_mod ->
  let others := bonded (delete a (stake_map b)) in
  0 < others -> others * 2 < x * 3 ->
  let b1 := (cast_vote id a true h1 b).1 in
  let b2 := (begin_unbond a hu period b1).1 in
  bonded (stake_map b) = x + others /\ (tally id h2 b2).2 = Ok Passed.
Proof.
  intros Hok Hid Hp Hst Hv Hh Hu Ha Hx Hx3 others Ho Hlt b1 b2. split; [by rewrite (bonded_split _ _ _ _ Ha)|].
  pose proof (cast_vote_spec id a true h1 b Hok) as Hc. rewrite Hp, Ha, (proj2 (N.leb_gt _ _)) in Hc by lia.
  cbn [N.eqb andb] in Hc. rewrite (proj2 (N.eqb_neq x 0)) in Hc by lia. cbn [negb] in Hc.
  destruct Hc as (b1' & Hc & Hok1 & Hx1 & Hw). assert (b1 = b1') as Hb1 by (unfold b1; by rewrite Hc).
  assert (stake_map b1' = stake_map b) as Hm1 by by apply (writes_stakes _ _ _ _ Hw).
  destruct (stake_apply_spec (SBeginUnbond a hu period) b1' Hok1) as (b2' & Hb2 & Hok2 & Hm2 & Hf).
  cbn [stake_spec op_addr] in Hb2, Hm2, Hf. rewrite Hm1, Ha in Hm2. cbn [fst] in Hm2.
  assert (b2 = b2') as ->.
  { unfold b2. rewrite Hb1. cbn [stake_apply] in Hb2. unfold mbind, action_bind in Hb2.
    destruct (begin_unbond a hu period b1') as [c [[]|e|]]; cbn in *; by injection Hb2. }
  destruct (stake_frame _ _ _ Hf) as (Hp2 & _ & Hv2).
  assert (proposal_at b2' id = Some p) as Hpt by by rewrite Hp2, (writes_proposal_ne _ _ _ _ _ Hw).
  assert (votes b2' id = {[a := (true, x)]}) as Hvt by by rewrite Hv2, (writes_vote _ _ _ _ _ _ Hw Hx1), Hv.
  assert (bonded (stake_map b2') = others) as Hbt.
  { rewrite Hm2, (bonded_split _ a x (saturating_add u64_mod hu period)) by apply lookup_insert_eq.
    rewrite saturating_add_small, (proj2 (N.eqb_neq _ 0)), delete_insert_eq by lia. done. }
  pose proof (tally_spec id h2 b2' Hok2) as Ht.
  rewrite Hpt, Hst, bool_decide_eq_true_2, (proj2 (N.ltb_ge _ _)) in Ht by (done || lia). cbn [negb] in Ht.
  destruct Ht as (? & ? & -> & _). cbn [snd]. f_equal.
  apply decision_passes; rewrite ?Hvt, ?Hbt, ?yes_weight_single; lia.
Qed.

(** Proposals are never overwritten: proposing, while ids remain, stores the proposal
    as pending under a positive id that no record has, reading it back returns it, and
    every other proposal, all votes and the stake table stay. *)
Theorem propose_is_fresh (a : Address) (title : bytes) (ends : N) (b : B) :
  kv_ok b -> room 1 b -> utf8_valid title = true -> len title < u32_mod -> ends < u64_mod ->
  exists b' id, propose a title ends b = (b', Ok id) /\ 0 < id < u64_mod /\
    gov_get id b = Ok None /\ gov_get id b' = Ok (Some (mkProposal id title ends Pending a)) /\
    (forall i, i < u64_mod -> i <> id -> gov_get i b' = gov_get i b) /\
    (forall i, votes b' i = votes b i) /\ stake_map b' = stake_map b.
Proof.
  intros Hok [_ Hr] Ht Hl He. destruct (propose_spec a title ends b Hok Hr) as (b' & id & Hp & Hok' & Hn & Hi & _ & Hw).
  exists b', id. split_and!; [done|lia|lia|..].
  - rewrite gov_get_view by done. unfold proposal_at. rewrite <-lookup_rows by lia. by rewrite Hn.
  - rewrite gov_get_view by done. f_equal. apply (writes_proposal _ _ _ _ Hw). split; cbn; done || lia.
  - intros i Hlt Hne. rewrite !gov_get_view by done. f_equal. apply (writes_proposal_ne _ _ _ _ _ Hw).
    intros Heq%prop_key_inj; [by subst|lia|done].
  - intros i. apply (writes_votes_ne _ _ _ _ _ Hw). apply prop_not_others.
  - apply (writes_stakes _ _ _ _ Hw). by apply (prop_not_others 0).
Qed.
End properties.

Module GovernanceDemo.
Export StakingDemo.
Definition title : bytes := String.list_byte_of_string "block_reward = 1".
(** Alice holds 41 of 100, Bob the rest; one proposal, open until height 10. *)
Definition setup : list gov_op :=
  [GStake (SBond alice 41); GStake (SBond bob 59); GPropose bob title 10].
Definition gov0 : MemoryBackend := gov_run setup store0.
Definition prop1 : Proposal := mkProposal 1 title 10 Pending bob.
Definition gov1 : MemoryBackend := gov_run [GVote 1 alice true 3; GVote 1 bob false 4] gov0.

Lemma gov_apply_ok op b : kv_ok b -> gov_op_wf op -> room 1 b -> @kv_ok MemoryBackend _ _ (gov_apply op b).
Proof.
  intros Hok Hop [_ Hr]. destruct op as [a t e|i a s h|i h|op]; cbn [gov_apply].
  - by destruct (propose_spec a t e b Hok Hr) as (b' & i & -> & ? & _).
  - pose proof (cast_vote_spec i a s h b Hok) as Hc.
    destruct (proposal_at b i) as [q|]; [|by rewrite Hc]. destruct (p_voting_ends_at q <=? h); [by rewrite Hc|].
    destruct (stake_map b !! a) as [[x u]|]; [|by rewrite Hc].
    destruct ((u =? 0) && negb (x =? 0)); [|by rewrite Hc]. by destruct Hc as (b' & -> & ? & _).
  - pose proof (tally_spec i h b Hok) as Ht. destruct (proposal_at b i) as [q|]; [|by rewrite Ht].
    destruct (bool_decide _); cbn [negb] in Ht; [|by rewrite Ht].
    destruct (h <? p_voting_ends_at q); [by rewrite Ht|]. by destruct Ht as (b1 & b2 & -> & ? & _).
  - by destruct (stake_apply_spec op b Hok) as (b' & -> & ? & _).
Qed.

Definition roomb (k : N) (b : MemoryBackend) : bool :=
  (k + 1 <? u64_mod) && bool_decide (map_Forall (fun id _ => id + k < u64_mod) (prop_rows b)).

Lemma roomb_room k b : roomb k b = true -> room k b.
Proof.
  intros [Hk%N.ltb_lt Hm%bool_decide_eq_true]%andb_prop. split; [done|]. intros id [v Hv]. by apply (Hm id v).
Qed.

(** A run in which every state has room for one more id. *)
Fixpoint run_room (ops : list gov_op) (b : MemoryBackend) : bool :=
  match ops with [] => true | op :: ops => roomb 1 b && run_room ops (gov_apply op b) end.

Lemma gov_run_ok ops b : kv_ok b -> Forall gov_op_wf ops -> run_room ops b = true -> @kv_ok MemoryBackend _ _ (gov_run ops b).
Proof.
  intros Hok Hops. revert b Hok. induction Hops as [|op ops Hop _ IH]; intros b Hok; [done|].
  intros [Hr Hrun]%andb_prop. apply IH; [|done]. by apply gov_apply_ok; [| |apply roomb_room].
Qed.

Lemma gov0_ok : kv_ok gov0.
Proof. apply gov_run_ok; [apply store0_ok|by repeat constructor|vm_compute; reflexivity]. Qed.

Lemma gov1_ok : kv_ok gov1.
Proof. apply gov_run_ok; [apply gov0_ok|by repeat constructor|vm_compute; reflexivity]. Qed.

Lemma gov0_prop : proposal_at gov0 1 = Some prop1.
Proof. apply (bool_decide_eq_true (proposal_at gov0 1 = Some prop1)). vm_compute. reflexivity. Qed.

Lemma gov1_prop : proposal_at gov1 1 = Some prop1.
Proof. apply (bool_decide_eq_true (proposal_at gov1 1 = Some prop1)). vm_compute. reflexivity. Qed.

Lemma gov0_votes : votes gov0 1 = ∅.
Proof. apply (bool_decide_eq_true (votes gov0 1 = ∅)). vm_compute. reflexivity. Qed.

Definition later_ops : list gov_op := [GTally 1 11; GPropose alice title 20; GStake (SSlash alice 1)].
End GovernanceDemo.

Lemma tally_decides_witness :
  exists s b', tally 1 10 GovernanceDemo.gov1 = (b', Ok s) /\ s <> Pending /\
    tally 1 12 (gov_run GovernanceDemo.later_ops b') = (gov_run GovernanceDemo.later_ops b', Ok s).
Proof.
  assert (Hops : Forall gov_op_wf GovernanceDemo.later_ops) by (repeat constructor).
  assert (Hr : GovernanceDemo.roomb (len GovernanceDemo.later_ops) GovernanceDemo.gov1 = true) by (vm_compute; reflexivity).
  assert (Hy : (yes_weight (votes GovernanceDemo.gov1 1) * 3 <? u256_mod) = true) by (vm_compute; reflexivity).
  assert (Hn : (no_weight (votes GovernanceDemo.gov1 1) <? u256_mod) = true) by (vm_compute; reflexivity).
  assert (Hb : (bonded (stake_map GovernanceDemo.gov1) * 2 <? u256_mod) = true) by (vm_compute; reflexivity).
  destruct (tally_decides 1 10 GovernanceDemo.prop1 GovernanceDemo.later_ops 12 GovernanceDemo.gov1
    GovernanceDemo.gov1_ok eq_refl GovernanceDemo.gov1_prop eq_refl (N.le_refl 10) Hops
    (GovernanceDemo.roomb_room _ _ Hr) (proj1 (N.ltb_lt _ _) Hy) (proj1 (N.ltb_lt _ _) Hn)
    (proj1 (N.ltb_lt _ _) Hb))
    as (s & b' & Ht & Hs & _ & _ & _ & _ & _ & _ & _ & Hl).
  exists s, b'. exact (conj Ht (conj Hs Hl)).
Defined.

Lemma stale_weight_passes_witness :
  let b1 := (cast_vote 1 StakingDemo.alice true 3 GovernanceDemo.gov0).1 in
  let b2 := (begin_unbond StakingDemo.alice 4 100 b1).1 in
  bonded (stake_map GovernanceDemo.gov0) = 100 /\ (tally 1 10 b2).2 = Ok Passed.
Proof.
  assert (Ho : bonded (delete StakingDemo.alice (stake_map GovernanceDemo.gov0)) = 59) by (vm_compute; reflexivity).
  assert (Ha : stake_map GovernanceDemo.gov0 !! StakingDemo.alice = Some (41, 0)) by (vm_compute; reflexivity).
  pose proof (stale_weight_passes 1 3 10 4 100 41 StakingDemo.alice GovernanceDemo.prop1 GovernanceDemo.gov0
    GovernanceDemo.gov0_ok eq_refl GovernanceDemo.gov0_prop eq_refl GovernanceDemo.gov0_votes
    ltac:(split; [reflexivity|discriminate]) ltac:(split; reflexivity) Ha eq_refl eq_refl) as H.
  rewrite Ho in H. exact (H eq_refl eq_refl).
Defined.

Lemma propose_is_fresh_witness :
  exists b' id, propose StakingDemo.alice GovernanceDemo.title 30 GovernanceDemo.gov0 = (b', Ok id) /\
    gov_get id b' = Ok (Some (mkProposal id GovernanceDemo.title 30 Pending StakingDemo.alice)).
Proof.
  assert (Hr : GovernanceDemo.roomb 1 GovernanceDemo.gov0 = true) by (vm_compute; reflexivity).
  destruct (propose_is_fresh StakingDemo.alice GovernanceDemo.title 30 GovernanceDemo.gov0 GovernanceDemo.gov0_ok
    (GovernanceDemo.roomb_room _ _ Hr) eq_refl eq_refl eq_refl)
    as (b' & id & Hp & _ & _ & Hg & _).
  exists b', id. exact (conj Hp Hg).
Defined.
