(* ===== verification/Dpos.v ===== *)
(** * Dpos: validator keys, elections, and the sets they feed to the BFT engine

    Models [src/crates/aii-node/src/validator_registry.rs] (the runtime keys a staker
    registers), [src/crates/aii-node/src/dpos.rs] (the two elections, the persisted
    epoch records), and from [src/crates/aii-node/src/lib.rs] the epoch hook
    [maybe_elect_validator_set] and the conversion of a record into a BFT validator set.
    [Rotation] hands the set to the engine. *)
From stdpp Require Import base tactics gmap numbers sets strings list.
From Stdlib Require Import NArith Lia.
From Stdlib.Init Require Import Byte.
From S2P Require Import Prelude Bytes Crypto Bft Storage Staking ChainSpec.

(** ** The registry of runtime keys *)
Definition VALIDATOR_KEY_PREFIX : bytes := String.list_byte_of_string "validator_key:".
#[global] Arguments VALIDATOR_KEY_PREFIX : simpl never.

Record ValidatorKeys := mkKeys { k_bls : array 48; k_vrf : array 32 }.

Definition registry_key (addr : Address) : bytes := VALIDATOR_KEY_PREFIX ++ arr_bytes addr.

Definition encode_keys (keys : ValidatorKeys) : bytes := arr_bytes (k_bls keys) ++ arr_bytes (k_vrf keys).

Definition decode_keys (b : bytes) : option ValidatorKeys :=
  if negb (len b =? 80) then None
  else
    bls ← arr_of (take 48 b);
    vrf ← arr_of (drop 48 b);
    Some (mkKeys bls vrf).

(** ** Epoch records *)
Definition VALIDATOR_SET_PREFIX : bytes := String.list_byte_of_string "validator_set:".
#[global] Arguments VALIDATOR_SET_PREFIX : simpl never.

Record ValidatorEntry := mkEntry {
  e_address : Address;
  e_stake_wei : N;
  e_bls_pubkey : option (array 48);
  e_vrf_pubkey : option (array 32)
}.

#[export] Instance ValidatorEntry_eq_dec : EqDecision ValidatorEntry.
Proof. solve_decision. Defined.

Definition epoch_key (epoch : N) : bytes := VALIDATOR_SET_PREFIX ++ be_bytes 8 epoch.

(** Election order: stake descending, then address ascending. *)
Definition rank_le (a b : StakeRecord) : bool :=
  if amount_wei b <? amount_wei a then true
  else if amount_wei a =? amount_wei b then bytes_le (arr_bytes (staker a)) (arr_bytes (staker b))
  else false.

Definition eligible (min_stake : N) (r : StakeRecord) : bool :=
  is_bonded r && (min_stake <=? amount_wei r).

Definition candidates (min_stake : N) (all : list StakeRecord) : list StakeRecord :=
  sort_by rank_le (filter (fun r => eligible min_stake r = true) all).

Definition stake_only_entry (r : StakeRecord) : ValidatorEntry :=
  mkEntry (staker r) (amount_wei r) None None.

Definition keyed_entry (r : StakeRecord) (keys : ValidatorKeys) : ValidatorEntry :=
  mkEntry (staker r) (amount_wei r) (Some (k_bls keys)) (Some (k_vrf keys)).

Definition is_keyed (v : ValidatorEntry) : bool :=
  bool_decide (is_Some (e_bls_pubkey v)) && bool_decide (is_Some (e_vrf_pubkey v)).

Section dpos.
Context {B : Type} `{KvBackend B}.

Definition register (addr : Address) (keys : ValidatorKeys) : action B NodeError unit :=
  meta_put (registry_key addr) (encode_keys keys).

Definition registry_get (addr : Address) (b : B) : res NodeError (option ValidatorKeys) :=
  o ← meta_get (registry_key addr) b;
  mret (o ≫= decode_keys).

Definition elect_active_set (min_stake validators_per_epoch : N) (b : B)
    : res NodeError (list ValidatorEntry) :=
  all ← list_all b;
  mret (stake_only_entry <$> take (N.to_nat validators_per_epoch) (candidates min_stake all)).

(** The [for r in all] loop: [out] holds what was pushed so far. *)
Fixpoint keyed_loop (cap : N) (b : B) (all : list StakeRecord) (out : list ValidatorEntry)
    : res NodeError (list ValidatorEntry) :=
  match all with
  | [] => Ok out
  | r :: all =>
      if cap <=? len out then Ok out
      else
        keys ← registry_get (staker r) b;
        match keys with
        | None => keyed_loop cap b all out
        | Some keys => keyed_loop cap b all (out ++ [keyed_entry r keys])
        end
  end.

Definition elect_registered_active_set (min_stake validators_per_epoch : N) (b : B)
    : res NodeError (list ValidatorEntry) :=
  all ← list_all b;
  keyed_loop validators_per_epoch b (candidates min_stake all) [].

(** One entry of the record; the keys are unwrapped when the set [has_keys]. *)
Definition encode_entry (has_keys : bool) (v : ValidatorEntry) : res NodeError bytes :=
  let stake := arr_bytes (e_address v) ++ be_bytes 32 (e_stake_wei v) in
  if has_keys then
    bls ← expect (e_bls_pubkey v);
    vrf ← expect (e_vrf_pubkey v);
    mret (stake ++ arr_bytes bls ++ arr_bytes vrf)
  else mret stake.

Fixpoint encode_entries (has_keys : bool) (set : list ValidatorEntry) : res NodeError bytes :=
  match set with
  | [] => mret []
  | v :: set =>
      x ← encode_entry has_keys v;
      rest ← encode_entries has_keys set;
      mret (x ++ rest)
  end.

Definition persist_validator_set (epoch : N) (set : list ValidatorEntry) : action B NodeError unit :=
  let has_keys := forallb is_keyed set in
  let count_u32 := N.min (len set) (u32_mod - 1) in
  entries ← reading (fun _ => encode_entries has_keys set);
  meta_put (epoch_key epoch) (be_bytes 4 count_u32 ++ entries).

Definition entry_len (has_keys : bool) : N := if has_keys then 20 + 32 + 48 + 32 else 20 + 32.

(** The [for i in 0..count] loop; [off] is [i * entry_len]. *)
Fixpoint decode_entries (has_keys : bool) (body : bytes) (count off : nat)
    : res NodeError (list ValidatorEntry) :=
  match count with
  | O => Ok []
  | S count =>
      addr ← slice_array 20 body off;
      stake ← slice_be 32 body (off + 20);
      '(bls, vrf) ←
        (if has_keys then
           bls ← slice_array 48 body (off + 52);
           vrf ← slice_array 32 body (off + 100);
           mret (Some bls, Some vrf)
         else mret (None, None));
      rest ← decode_entries has_keys body count (off + N.to_nat (entry_len has_keys));
      mret (mkEntry addr stake bls vrf :: rest)
  end.

Definition decode_record (b : bytes) : res NodeError (option (list ValidatorEntry)) :=
  if len b <? 4 then mret None
  else
    let count := be_value (take 4 b) in
    let body := drop 4 b in
    let legacy_len := count * entry_len false in
    let keyed_len := count * entry_len true in
    if negb (len body =? legacy_len) && negb (len body =? keyed_len) then mret None
    else Some <$> decode_entries (len body =? keyed_len) body (N.to_nat count) 0.

Definition read_validator_set (epoch : N) (b : B) : res NodeError (option (list ValidatorEntry)) :=
  o ← meta_get (epoch_key epoch) b;
  match o with None => mret None | Some v => decode_record v end.

(** The epoch of a key that the prefix scan returns. *)
Definition key_epoch (kv : bytes * bytes) : option N :=
  let suffix := drop (length VALIDATOR_SET_PREFIX) kv.1 in
  if negb (len suffix =? 8) then None else Some (be_value suffix).

Definition later (latest : option N) (epoch : N) : option N :=
  match latest with
  | None => Some epoch
  | Some c => if c <? epoch then Some epoch else Some c
  end.

Definition latest_validator_set (b : B) : res NodeError (option (N * list ValidatorEntry)) :=
  epochs ← collect_entries key_epoch (kv_iter_prefix b Meta VALIDATOR_SET_PREFIX);
  match foldl later None epochs with
  | None => mret None
  | Some epoch =>
      set ← read_validator_set epoch b;
      mret (Some (epoch, default [] set))
  end.

(** The epoch hook of the node; errors are logged and dropped. *)
Definition maybe_elect_validator_set (spec : ChainSpec) (block_number : N) (b : B) : B :=
  let epoch_len := epoch_length_blocks spec in
  if (block_number =? 0) || (epoch_len =? 0) || negb (block_number mod epoch_len =? 0) then b
  else
    let epoch := block_number / epoch_len in
    let registered :=
      match elect_registered_active_set (min_validator_stake_wei spec) (validators_per_epoch spec) b with
      | Ok set => set
      | _ => []
      end in
    let elected :=
      match registered with
      | [] => elect_active_set (min_validator_stake_wei spec) (validators_per_epoch spec) b
      | _ => Ok registered
      end in
    match elected with
    | Ok set => (persist_validator_set epoch set b).1
    | _ => b
    end.
End dpos.

(** ** From an epoch record to a BFT validator set *)
Definition BFT_STAKE_WEIGHT_UNIT_WEI : N := 1000000000000000000.

Definition bft_stake_weight_from_wei (stake_wei : N) : res BftError N :=
  let weight := stake_wei / BFT_STAKE_WEIGHT_UNIT_WEI in
  let weight := if weight =? 0 then 1 else weight in
  if weight <? u64_mod then Ok weight else Err TotalStakeOverflow.

Section runtime.
Context `{Primitives}.

Fixpoint entry_validators (i : N) (entries : list ValidatorEntry) : res BftError (list Validator) :=
  match entries with
  | [] => Ok []
  | entry :: entries =>
      bls ← ok_or (e_bls_pubkey entry) (InvalidValidatorPubkey i "bls");
      vrf ← ok_or (e_vrf_pubkey entry) (InvalidValidatorPubkey i "vrf");
      bls_pubkey ← map_err (fun _ => InvalidValidatorPubkey i "bls") (bls.PublicKey_from_compressed bls);
      vrf_pubkey ← map_err (fun _ => InvalidValidatorPubkey i "vrf") (vrf.PublicKey_from_bytes vrf);
      stake ← bft_stake_weight_from_wei (e_stake_wei entry);
      rest ← entry_validators (i + 1) entries;
      mret (mkValidator bls_pubkey vrf_pubkey stake :: rest)
  end.

Definition bft_validator_set_from_entries (entries : list ValidatorEntry) : res BftError ValidatorSet :=
  validators ← entry_validators 0 entries;
  ValidatorSet_new validators.

(** The position of the local key; [u32::try_from(idx).ok()]. *)
Definition bft_my_index_from_entries (entries : list ValidatorEntry) (local_bls_pubkey : array 48)
    : option N :=
  '(idx, _) ← list_find (fun entry => e_bls_pubkey entry = Some local_bls_pubkey) entries;
  if N.of_nat idx <? u32_mod then Some (N.of_nat idx) else None.
End runtime.
