(* ===== verification/Simulate.v ===== *)
(** * Simulate: running on two stores that agree where it matters

    Two backends agree on a set of rows; an action that only reads rows of the set
    gives the same outcome on both and leaves them in agreement.  The lemmas follow the
    structure of the actions; the ones at the end are for the node's tables. *)
From stdpp Require Import base tactics gmap numbers sets strings list.
From Stdlib Require Import NArith Lia.
From S2P Require Import Prelude Bytes Crypto Codec Tx Trie Storage StateDb Staking Governance ChainSpec Bft Dpos.

Section agree.
Context {B : Type} `{HB : KvBackend B} {HL : KvLaws B}.
Context (rel : ColumnFamily -> bytes -> Prop).
Implicit Types (b : B).

Record agree (b1 b2 : B) : Prop := {
  ag_ok1 : kv_ok b1;
  ag_ok2 : kv_ok b2;
  ag_view : forall cf k, rel cf k -> kv_view b1 !! (cf, k) = kv_view b2 !! (cf, k)
}.

(** A computation that reads, and one that also writes. *)
Definition reads_same {A} (f : B -> A) : Prop := forall b1 b2, agree b1 b2 -> f b1 = f b2.
Definition sim {E A} (m : action B E A) : Prop := forall b1 b2, agree b1 b2 ->
  agree (m b1).1 (m b2).1 /\ (m b1).2 = (m b2).2.

Lemma agree_view_op b1 b2 b1' b2' op :
  agree b1 b2 -> kv_ok b1' -> kv_ok b2' ->
  kv_view b1' = apply_op (kv_view b1) op -> kv_view b2' = apply_op (kv_view b2) op -> agree b1' b2'.
Proof.
  intros [_ _ Hv] Hok1 Hok2 H1 H2. split; [done..|]. intros cf k Hk. rewrite H1, H2.
  destruct op as [cf' k' v|cf' k']; cbn [apply_op].
  - destruct (decide ((cf', k') = (cf, k))) as [[= -> ->]|Hne]; [by rewrite !lookup_insert_eq|].
    rewrite !lookup_insert_ne by done. by apply Hv.
  - destruct (decide ((cf', k') = (cf, k))) as [[= -> ->]|Hne]; [by rewrite !lookup_delete_eq|].
    rewrite !lookup_delete_ne by done. by apply Hv.
Qed.

(** ** The backend's operations *)
Lemma get_same cf k : rel cf k -> reads_same (fun b => kv_get b cf k).
Proof. intros Hk b1 b2 [Hok1 Hok2 Hv]. rewrite !kv_get_view by done. by rewrite Hv. Qed.

Lemma iter_same cf : (forall k, rel cf k) -> reads_same (fun b => kv_iter b cf).
Proof. intros Hcf b1 b2 [Hok1 Hok2 Hv]. apply kv_iter_ext; [done..|]. intros k. by apply Hv. Qed.

Lemma iter_prefix_same cf p : (forall s, rel cf (p ++ s)) -> reads_same (fun b => kv_iter_prefix b cf p).
Proof.
  intros Hp b1 b2 [Hok1 Hok2 Hv]. destruct (kv_iter_prefix_view b1 cf p Hok1) as (l1 & -> & Ha1 & Hm1).
  destruct (kv_iter_prefix_view b2 cf p Hok2) as (l2 & -> & Ha2 & Hm2). f_equal.
  apply ascending_unique; [done..|]. intros [k v]. rewrite Hm1, Hm2.
  split; intros [Hk [s ->]]; (split; [|by exists s]); [rewrite <-Hv|rewrite Hv]; done.
Qed.

Lemma put_sim cf k v : sim (fun b => kv_put b cf k v).
Proof.
  intros b1 b2 Hag. pose proof Hag as [Hok1 Hok2 _].
  destruct (kv_put_view b1 cf k v Hok1) as (b1' & -> & Hok1' & H1).
  destruct (kv_put_view b2 cf k v Hok2) as (b2' & -> & Hok2' & H2).
  split; [|done]. by apply (agree_view_op b1 b2 _ _ (Put cf k v)).
Qed.

Lemma delete_sim cf k : sim (fun b => kv_delete b cf k).
Proof.
  intros b1 b2 Hag. pose proof Hag as [Hok1 Hok2 _].
  destruct (kv_delete_view b1 cf k Hok1) as (b1' & -> & Hok1' & H1).
  destruct (kv_delete_view b2 cf k Hok2) as (b2' & -> & Hok2' & H2).
  split; [|done]. by apply (agree_view_op b1 b2 _ _ (Delete cf k)).
Qed.

(** ** Actions *)
Lemma sim_ret {E A} (a : A) : sim (E := E) (mret a).
Proof. by intros b1 b2 Hag. Qed.

Lemma sim_failing {E A} (e : E) : sim (A := A) (failing e).
Proof. by intros b1 b2 Hag. Qed.

Lemma sim_reading {E A} (f : B -> res E A) : reads_same f -> sim (reading f).
Proof. intros Hf b1 b2 Hag. split; [done|]. by apply Hf. Qed.

Lemma sim_bind {E A C} (m : action B E A) (f : A -> action B E C) :
  sim m -> (forall a, sim (f a)) -> sim (m ≫= f).
Proof.
  intros Hm Hf b1 b2 Hag. unfold mbind, action_bind. destruct (Hm b1 b2 Hag) as [Hag' Hr].
  destruct (m b1) as [b1' r1], (m b2) as [b2' r2]. cbn in *. subst r2.
  destruct r1; [by apply Hf|done..].
Qed.

(** An operation of the backend with its error wrapped. *)
Lemma sim_wrap {E E' A} (m : action B E A) (f : E -> E') :
  sim m -> sim (fun b => let '(b, r) := m b in (b, map_err f r)).
Proof.
  intros Hm b1 b2 Hag. destruct (Hm b1 b2 Hag) as [Hag' Hr].
  destruct (m b1) as [b1' r1], (m b2) as [b2' r2]. cbn in *. by subst r2.
Qed.

Lemma reads_const {A} (a : A) : reads_same (fun _ => a).
Proof. by intros b1 b2 _. Qed.

Lemma reads_map {A C} (f : B -> A) (g : A -> C) : reads_same f -> reads_same (fun b => g (f b)).
Proof. intros Hf b1 b2 Hag. by rewrite (Hf b1 b2 Hag). Qed.

Lemma reads_bind {E A C} (f : B -> res E A) (g : A -> B -> res E C) :
  reads_same f -> (forall a, reads_same (g a)) -> reads_same (fun b => f b ≫= fun a => g a b).
Proof.
  intros Hf Hg b1 b2 Hag. rewrite (Hf b1 b2 Hag). destruct (f b2); cbn; [by apply Hg|done..].
Qed.
End agree.

(** The rows that staking, the registry, governance and the elections use. *)
Record table_keys (rel : ColumnFamily -> bytes -> Prop) : Prop := {
  tk_stake : forall s, rel Meta (STAKE_PREFIX ++ s);
  tk_prop : forall s, rel Meta (PROP_PREFIX ++ s);
  tk_vote : forall s, rel Meta (VOTE_PREFIX ++ s);
  tk_tally : forall s, rel Meta (TALLY_PREFIX ++ s);
  tk_key : forall s, rel Meta (VALIDATOR_KEY_PREFIX ++ s);
  tk_set : forall s, rel Meta (VALIDATOR_SET_PREFIX ++ s)
}.

Section tables.
Context {B : Type} `{HB : KvBackend B} {HL : KvLaws B}.
Context (rel : ColumnFamily -> bytes -> Prop) (Hrel : table_keys rel).

Lemma meta_get_same k : rel Meta k -> reads_same rel (meta_get k).
Proof. intros Hk. apply (reads_map rel (fun b => kv_get b Meta k) (map_err StorageFailed)). by apply get_same. Qed.

Lemma meta_put_sim k v : sim rel (meta_put k v).
Proof. apply (sim_wrap rel (fun b => kv_put b Meta k v)), put_sim. Qed.

Lemma meta_delete_sim k : sim rel (meta_delete k).
Proof. apply (sim_wrap rel (fun b => kv_delete b Meta k)), delete_sim. Qed.

Lemma scan_same {A} (f : bytes * bytes -> option A) p :
  (forall s, rel Meta (p ++ s)) -> reads_same rel (fun b => collect_entries f (kv_iter_prefix b Meta p)).
Proof. intros Hp. apply (reads_map rel (fun b => kv_iter_prefix b Meta p)). by apply iter_prefix_same. Qed.

(** ** Staking *)
Lemma stake_get_same a : reads_same rel (stake_get a).
Proof using Hrel.
  apply (reads_bind rel); [apply meta_get_same, Hrel|]. intros o. apply reads_const.
Qed.

Lemma bond_sim a d : sim rel (bond a d).
Proof using Hrel.
  apply sim_bind; [apply sim_reading, stake_get_same|]. intros prev. apply meta_put_sim.
Qed.

Lemma begin_unbond_sim a h p : sim rel (begin_unbond a h p).
Proof using Hrel.
  apply sim_bind; [apply sim_reading, stake_get_same|]. intros [prev|]; [apply meta_put_sim|apply sim_failing].
Qed.

Lemma withdraw_sim a h : sim rel (withdraw a h).
Proof using Hrel.
  apply sim_bind; [apply sim_reading, stake_get_same|]. intros [prev|]; [|apply sim_ret].
  destruct (_ || _); [apply sim_ret|]. apply sim_bind; [apply meta_delete_sim|]. intros _. apply sim_ret.
Qed.

Lemma list_all_same : reads_same rel list_all.
Proof using Hrel. apply scan_same, Hrel. Qed.

Lemma total_bonded_same : reads_same rel total_bonded.
Proof using Hrel. apply (reads_bind rel); [apply list_all_same|]. intros l. apply reads_const. Qed.

(** ** The registry and the elections' records *)
Lemma register_sim a keys : sim rel (register a keys).
Proof. apply meta_put_sim. Qed.

Lemma read_validator_set_same e : reads_same rel (read_validator_set e).
Proof using Hrel.
  apply (reads_bind rel); [apply meta_get_same, Hrel|]. intros o. apply reads_const.
Qed.

Lemma latest_validator_set_same : reads_same rel latest_validator_set.
Proof using Hrel.
  apply (reads_bind rel); [apply scan_same, Hrel|]. intros epochs.
  destruct (foldl later None epochs) as [e|]; [|apply reads_const].
  apply (reads_bind rel); [apply read_validator_set_same|]. intros o. apply reads_const.
Qed.

(** ** Governance *)
Lemma gov_sim {A} (f : B -> res NodeError A) : reads_same rel f -> sim rel (gov f).
Proof. intros Hf. apply sim_reading, (reads_map rel f), Hf. Qed.

Lemma gov_put_sim k v : sim rel (gov_put k v).
Proof. apply (sim_wrap rel (meta_put k v)), meta_put_sim. Qed.

Lemma gov_get_same id : reads_same rel (gov_get id).
Proof using Hrel.
  apply (reads_bind rel); [apply meta_get_same, Hrel|]. intros o. apply reads_const.
Qed.

Lemma gov_require_same id : reads_same rel (gov_require id).
Proof using Hrel.
  apply (reads_bind rel (fun b => map_err GovNode (gov_get id b)));
    [apply (reads_map rel), gov_get_same|]. intros o. apply reads_const.
Qed.

Lemma propose_sim a title ends : sim rel (propose a title ends).
Proof using Hrel.
  apply sim_bind.
  - apply gov_sim, (reads_bind rel); [apply scan_same, Hrel|]. intros ids. apply reads_const.
  - intros id. apply sim_bind; [apply gov_put_sim|]. intros _. apply sim_ret.
Qed.

Lemma cast_vote_sim id a s h : sim rel (cast_vote id a s h).
Proof using Hrel.
  apply sim_bind; [apply sim_reading, gov_require_same|]. intros p.
  destruct (_ <=? _); [apply sim_failing|].
  apply sim_bind; [apply gov_sim, stake_get_same|]. intros [stake|]; [|apply sim_failing].
  destruct (negb _); [apply sim_failing|]. apply sim_bind; [apply gov_put_sim|]. intros _. apply sim_ret.
Qed.
End tables.
