(* ===== verification/Precompile.v ===== *)
(** * Precompile: staking and governance calls in transactions

    Models [src/crates/aii-node/src/precompile.rs]: the dispatch of a transaction to the
    magic address on the selector in its call data.  A backend error is carried as the
    error of the call that failed. *)
From stdpp Require Import base tactics gmap numbers sets strings list.
From Stdlib Require Import NArith Lia.
From Stdlib.Init Require Import Byte.
From S2P Require Import Prelude Bytes Crypto Bft Codec Tx Trie Storage StateDb Staking Governance.
From S2P Require Import ChainSpec Dpos Simulate.

Definition PRECOMPILE_ADDR : Address := be_array 20 0x99.

Definition OP_BOND : bytes := [x64; xc9; xec; x6f].
Definition OP_BEGIN_UNBOND : bytes := [x3f; x17; x2c; xef].
Definition OP_WITHDRAW : bytes := [x3c; xcf; xd6; x0b].
Definition OP_PROPOSE : bytes := [x37; x03; x8a; x1d].
Definition OP_VOTE : bytes := [xc7; xf2; x15; x60].
Definition OP_REGISTER_VALIDATOR : bytes := [x22; x6f; x26; x45].

Inductive PrecompileOutcome :=
| Bonded (staker : Address) (amount : N)
| UnbondStarted (staker : Address)
| Withdrawn (staker : Address) (amount : N)
| Proposed (id : N)
| Voted (id : N) (support : bool)
| ValidatorRegistered (staker : Address).

Inductive BackendFailure :=
| FromNode (e : NodeError)
| FromGov (e : GovError).

Inductive PrecompileError :=
| InvalidOpcode
| InvalidArgs (msg : string)
| BadKey (key : string) (e : CryptoError)
| Backend (e : BackendFailure).

Section precompile.
Context `{Primitives} {B : Type} `{KvBackend B}.

(** [.map_err(|e| PrecompileError::Backend(..))?] *)
Definition backend {E A} (f : E -> BackendFailure) (m : action B E A) : action B PrecompileError A :=
  fun b => let '(b, r) := m b in (b, map_err (fun e => Backend (f e)) r).

Definition dispatch_bond (sender : Address) (value : N) : action B PrecompileError PrecompileOutcome :=
  if value =? 0 then failing (InvalidArgs "bond value is zero")
  else backend FromNode (bond sender value);; mret (Bonded sender value).

Definition dispatch_withdraw (sender : Address) (block_height : N)
    : action B PrecompileError PrecompileOutcome :=
  swept ← backend FromNode (withdraw sender block_height);
  mret (Withdrawn sender (default 0 swept)).

Definition dispatch_propose (sender : Address) (args : bytes) : action B PrecompileError PrecompileOutcome :=
  if len args <? 8 + 4 then failing (InvalidArgs "propose args truncated")
  else
    let voting_ends_at := be_value (take 8 args) in
    let title_len := be_value (take 4 (drop 8 args)) in
    if len args <? 12 + title_len then failing (InvalidArgs "propose title length overflows args")
    else
      let title := take (N.to_nat title_len) (drop 12 args) in
      if negb (utf8_valid title) then failing (InvalidArgs "propose title")
      else
        id ← backend FromGov (propose sender title voting_ends_at);
        mret (Proposed id).

Definition dispatch_vote (sender : Address) (args : bytes) (block_height : N)
    : action B PrecompileError PrecompileOutcome :=
  if negb (len args =? 8 + 1) then failing (InvalidArgs "vote args must be 9 bytes")
  else
    let proposal_id := be_value (take 8 args) in
    let support := negb (bool_decide (nth 8 args x00 = x00)) in
    backend FromGov (cast_vote proposal_id sender support block_height);;
    mret (Voted proposal_id support).

Definition dispatch_register (sender : Address) (value : N) (args : bytes)
    : action B PrecompileError PrecompileOutcome :=
  if negb (value =? 0) then failing (InvalidArgs "registerValidator value must be zero")
  else if negb (len args =? 48 + 32) then failing (InvalidArgs "registerValidator args must be 80 bytes")
  else
    '(bls, vrf) ← reading (fun _ =>
      bls ← expect (arr_of (take 48 args));
      vrf ← expect (arr_of (drop 48 args));
      _ ← map_err (BadKey "bls_pubkey") (bls.PublicKey_from_compressed bls);
      _ ← map_err (BadKey "vrf_pubkey") (vrf.PublicKey_from_bytes vrf);
      mret (bls, vrf));
    backend FromNode (register sender (mkKeys bls vrf));;
    mret (ValidatorRegistered sender).

Definition dispatch (sender : Address) (value : N) (data : bytes)
    (block_height unbonding_period_blocks : N) : action B PrecompileError PrecompileOutcome :=
  if len data <? 4 then failing InvalidOpcode
  else
    let opcode := take 4 data in
    let args := drop 4 data in
    if bool_decide (opcode = OP_BOND) then dispatch_bond sender value
    else if bool_decide (opcode = OP_BEGIN_UNBOND) then
      backend FromNode (begin_unbond sender block_height unbonding_period_blocks);;
      mret (UnbondStarted sender)
    else if bool_decide (opcode = OP_WITHDRAW) then dispatch_withdraw sender block_height
    else if bool_decide (opcode = OP_PROPOSE) then dispatch_propose sender args
    else if bool_decide (opcode = OP_VOTE) then dispatch_vote sender args block_height
    else if bool_decide (opcode = OP_REGISTER_VALIDATOR) then dispatch_register sender value args
    else failing InvalidOpcode.
End precompile.

(** ** Calls depend on the node's tables only *)
Section sim.
Context `{Primitives} {B : Type} `{HB : KvBackend B} {HL : KvLaws B}.
Context (rel : ColumnFamily -> bytes -> Prop) (Hrel : table_keys rel).

Lemma backend_sim {E A} (f : E -> BackendFailure) (m : action B E A) : sim rel m -> sim rel (backend f m).
Proof. apply (sim_wrap rel m). Qed.

Lemma reading_const_sim {E A} (r : res E A) : sim (B := B) rel (reading (fun _ => r)).
Proof. apply sim_reading, reads_const. Qed.

Lemma dispatch_sim sender value data h p : sim rel (dispatch (B := B) sender value data h p).
Proof using Hrel.
  unfold dispatch, dispatch_bond, dispatch_withdraw, dispatch_propose, dispatch_vote, dispatch_register.
  destruct (_ <? _); [apply sim_failing|].
  destruct (bool_decide (take 4 data = OP_BOND)).
  { destruct (_ =? _); [apply sim_failing|].
    apply sim_bind; [apply backend_sim, bond_sim, Hrel|intros; apply sim_ret]. }
  destruct (bool_decide (take 4 data = OP_BEGIN_UNBOND)).
  { apply sim_bind; [apply backend_sim, begin_unbond_sim, Hrel|intros; apply sim_ret]. }
  destruct (bool_decide (take 4 data = OP_WITHDRAW)).
  { apply sim_bind; [apply backend_sim, withdraw_sim, Hrel|intros; apply sim_ret]. }
  destruct (bool_decide (take 4 data = OP_PROPOSE)).
  { destruct (_ <? _); [apply sim_failing|]. destruct (_ <? _); [apply sim_failing|].
    destruct (negb _); [apply sim_failing|].
    apply sim_bind; [apply backend_sim, propose_sim, Hrel|intros; apply sim_ret]. }
  destruct (bool_decide (take 4 data = OP_VOTE)).
  { destruct (negb (_ =? _)); [apply sim_failing|].
    apply sim_bind; [apply backend_sim, cast_vote_sim, Hrel|intros; apply sim_ret]. }
  destruct (bool_decide (take 4 data = OP_REGISTER_VALIDATOR)); [|apply sim_failing].
  destruct (negb _); [apply sim_failing|]. destruct (negb _); [apply sim_failing|].
  apply sim_bind; [apply reading_const_sim|]. intros [bls vrf].
  apply sim_bind; [apply backend_sim, register_sim|intros; apply sim_ret].
Qed.
End sim.
