(* ===== verification/Frames.v ===== *)
(** * Frames: which rows an action can change

    [frames t m]: the action [m] keeps the backend fault-free and changes rows of the set
    [t] only, whatever its outcome.  Staking and governance calls change rows of their
    tables in the [Meta] family, the virtual machine changes state rows; the precompile moves
    no Wei. *)
From stdpp Require Import base tactics gmap numbers sets strings list.
From Stdlib Require Import NArith Lia.
From Stdlib.Init Require Import Byte.
From S2P Require Import Prelude Bytes Crypto Bft Codec Tx ToyRlp Trie Storage StateDb Evm Staking Governance.
From S2P Require Import ChainSpec Dpos Simulate Precompile.

Abbreviation row_set := (ColumnFamily -> bytes -> Prop).

Section frames.
Context {B : Type} `{HB : KvBackend B} {HL : KvLaws B}.
Implicit Types (b : B) (t : row_set).

Definition same_but t b b' : Prop :=
  kv_ok b' /\ forall cf k, ~ t cf k -> kv_view b' !! (cf, k) = kv_view b !! (cf, k).

Lemma same_but_refl t b : kv_ok b -> same_but t b b.
Proof. by split. Qed.

Lemma same_but_trans t b1 b2 b3 : same_but t b1 b2 -> same_but t b2 b3 -> same_but t b1 b3.
Proof. intros [_ H1] [Hok H2]. split; [done|]. intros cf k Hk. by rewrite H2, H1. Qed.

Lemma same_but_weaken t u b b' : same_but t b b' -> (forall cf k, t cf k -> u cf k) -> same_but u b b'.
Proof. intros [Hok Hs] Htu. split; [done|]. intros cf k Hk. apply Hs. eauto. Qed.

Lemma put_same_but t b cf k v : kv_ok b -> t cf k -> same_but t b (kv_put b cf k v).1.
Proof.
  intros Hok Ht. destruct (kv_put_view b cf k v Hok) as (b' & -> & Hok' & Hv). split; [done|].
  cbn [fst]. intros cf' k' Hk. rewrite Hv, lookup_insert_ne; [done|]. intros [= -> ->]. done.
Qed.

Lemma delete_same_but t b cf k : kv_ok b -> t cf k -> same_but t b (kv_delete b cf k).1.
Proof.
  intros Hok Ht. destruct (kv_delete_view b cf k Hok) as (b' & -> & Hok' & Hv). split; [done|].
  cbn [fst]. intros cf' k' Hk. rewrite Hv, lookup_delete_ne; [done|]. intros [= -> ->]. done.
Qed.

Definition frames t {E A} (m : action B E A) : Prop := forall b, kv_ok b -> same_but t b (m b).1.

Lemma frames_ret t {E A} (a : A) : frames t (E := E) (mret a).
Proof. intros b Hok. by apply same_but_refl. Qed.

Lemma frames_failing t {E A} (e : E) : frames t (A := A) (failing e).
Proof. intros b Hok. by apply same_but_refl. Qed.

Lemma frames_reading t {E A} (f : B -> res E A) : frames t (reading f).
Proof. intros b Hok. by apply same_but_refl. Qed.

Lemma frames_bind t {E A C} (m : action B E A) (f : A -> action B E C) :
  frames t m -> (forall a, frames t (f a)) -> frames t (m ≫= f).
Proof.
  intros Hm Hf b Hok. unfold mbind, action_bind. specialize (Hm b Hok).
  destruct (m b) as [b1 [a|e|]]; cbn [fst] in *; [|done..].
  eapply same_but_trans; [exact Hm|]. apply Hf, Hm.
Qed.

Lemma frames_wrap t {E E' A} (m : action B E A) (f : E -> E') :
  frames t m -> frames t (fun b => let '(b, r) := m b in (b, map_err f r)).
Proof. intros Hm b Hok. specialize (Hm b Hok). by destruct (m b). Qed.

Lemma meta_put_frames t k v : t Meta k -> frames t (meta_put k v).
Proof. intros Ht. apply (frames_wrap t (fun b => kv_put b Meta k v)). intros b Hok. by apply put_same_but. Qed.

Lemma meta_delete_frames t k : t Meta k -> frames t (meta_delete k).
Proof. intros Ht. apply (frames_wrap t (fun b => kv_delete b Meta k)). intros b Hok. by apply delete_same_but. Qed.

Lemma db_put_frames t cf k v : t cf k -> frames t (db_put cf k v).
Proof. intros Ht. apply (frames_wrap t (fun b => kv_put b cf k v)). intros b Hok. by apply put_same_but. Qed.

Lemma db_delete_frames t cf k : t cf k -> frames t (db_delete cf k).
Proof. intros Ht. apply (frames_wrap t (fun b => kv_delete b cf k)). intros b Hok. by apply delete_same_but. Qed.

Lemma gov_put_frames t k v : t Meta k -> frames t (gov_put k v).
Proof. intros Ht. apply (frames_wrap t (meta_put k v)). by apply meta_put_frames. Qed.

(** ** Staking, registry and governance calls *)
Definition table_rows : row_set := fun cf k =>
  cf = Meta /\ (STAKE_PREFIX `prefix_of` k \/ PROP_PREFIX `prefix_of` k \/ VOTE_PREFIX `prefix_of` k \/
                VALIDATOR_KEY_PREFIX `prefix_of` k).

Lemma stake_row_in a : table_rows Meta (stake_key a).
Proof. split; [done|]. left. by eexists. Qed.

Lemma bond_frames a d : frames table_rows (bond a d).
Proof. apply frames_bind; [apply frames_reading|intros]. apply meta_put_frames, stake_row_in. Qed.

Lemma begin_unbond_frames a h p : frames table_rows (begin_unbond a h p).
Proof.
  apply frames_bind; [apply frames_reading|]. intros [r|]; [|apply frames_failing].
  apply meta_put_frames, stake_row_in.
Qed.

Lemma withdraw_frames a h : frames table_rows (withdraw a h).
Proof.
  apply frames_bind; [apply frames_reading|]. intros [r|]; [|apply frames_ret].
  destruct (_ || _); [apply frames_ret|].
  apply frames_bind; [apply meta_delete_frames, stake_row_in|intros; apply frames_ret].
Qed.

Lemma register_frames a keys : frames table_rows (register a keys).
Proof. apply meta_put_frames. split; [done|]. do 3 right. by eexists. Qed.

Lemma propose_frames a title ends : frames table_rows (propose a title ends).
Proof.
  apply frames_bind; [apply frames_reading|intros id].
  apply frames_bind; [|intros; apply frames_ret]. apply gov_put_frames. split; [done|]. right. left. by eexists.
Qed.

Lemma cast_vote_frames id a s h : frames table_rows (cast_vote id a s h).
Proof.
  apply frames_bind; [apply frames_reading|intros p]. destruct (_ <=? _); [apply frames_failing|].
  apply frames_bind; [apply frames_reading|intros [r|]]; [|apply frames_failing].
  destruct (negb _); [apply frames_failing|].
  apply frames_bind; [|intros; apply frames_ret]. apply gov_put_frames. split; [done|].
  do 2 right. left. by eexists.
Qed.

Lemma backend_frames {E A} (f : E -> BackendFailure) (m : action B E A) :
  frames table_rows m -> frames table_rows (backend f m).
Proof. apply (frames_wrap table_rows m). Qed.

Lemma dispatch_frames `{Primitives} sender value data h p :
  frames table_rows (dispatch (B := B) sender value data h p).
Proof.
  unfold dispatch, dispatch_bond, dispatch_withdraw, dispatch_propose, dispatch_vote, dispatch_register.
  destruct (_ <? _); [apply frames_failing|].
  destruct (bool_decide (take 4 data = OP_BOND)).
  { destruct (_ =? _); [apply frames_failing|].
    apply frames_bind; [apply backend_frames, bond_frames|intros; apply frames_ret]. }
  destruct (bool_decide (take 4 data = OP_BEGIN_UNBOND)).
  { apply frames_bind; [apply backend_frames, begin_unbond_frames|intros; apply frames_ret]. }
  destruct (bool_decide (take 4 data = OP_WITHDRAW)).
  { apply frames_bind; [apply backend_frames, withdraw_frames|intros; apply frames_ret]. }
  destruct (bool_decide (take 4 data = OP_PROPOSE)).
  { destruct (_ <? _); [apply frames_failing|]. destruct (_ <? _); [apply frames_failing|].
    destruct (negb _); [apply frames_failing|].
    apply frames_bind; [apply backend_frames, propose_frames|intros; apply frames_ret]. }
  destruct (bool_decide (take 4 data = OP_VOTE)).
  { destruct (negb (_ =? _)); [apply frames_failing|].
    apply frames_bind; [apply backend_frames, cast_vote_frames|intros; apply frames_ret]. }
  destruct (bool_decide (take 4 data = OP_REGISTER_VALIDATOR)); [|apply frames_failing].
  destruct (negb _); [apply frames_failing|]. destruct (negb _); [apply frames_failing|].
  apply frames_bind; [apply frames_reading|]. intros [bls vrf].
  apply frames_bind; [apply backend_frames, register_frames|intros; apply frames_ret].
Qed.
End frames.

(** ** The virtual machine *)
Definition state_rows : row_set := fun cf _ => cf = State \/ cf = Code \/ cf = AccountStorage.

Section evm.
Context `{Primitives} `{Rlp} `{Revm} {B : Type} `{HB : KvBackend B} {HL : KvLaws B}.

Lemma exec_state_frames {A} (m : action B StateError A) : frames state_rows m -> frames state_rows (exec_state m).
Proof. apply (frames_wrap state_rows m). Qed.

Lemma write_slots_frames a slots : frames (B := B) state_rows (write_slots a slots).
Proof.
  induction slots as [|[i [[] v]] slots IH]; cbn [write_slots]; [apply frames_ret| |].
  - apply frames_bind; [|done]. apply exec_state_frames. unfold storage_put.
    case_bool_decide; [apply db_delete_frames|apply db_put_frames]; by right; right.
  - apply frames_bind; [apply frames_ret|done].
Qed.

Lemma write_accounts_frames changes : frames (B := B) state_rows (write_accounts changes).
Proof.
  induction changes as [|[a acc] changes IH]; cbn [write_accounts]; [apply frames_ret|].
  apply frames_bind; [|done]. unfold write_account.
  apply frames_bind; [apply exec_state_frames, frames_reading|intros o].
  apply frames_bind; [apply exec_state_frames, db_put_frames; by left|intros _].
  apply frames_bind; [|intros _; apply write_slots_frames].
  destruct (ai_code _) as [[|c cs]|]; [apply frames_ret| |apply frames_ret].
  apply exec_state_frames, db_put_frames. by right; left.
Qed.

Lemma execute_with_revm_frames s to v d gl gp : frames (B := B) state_rows (execute_with_revm s to v d gl gp).
Proof.
  apply frames_bind; [apply frames_reading|]. intros [r changes].
  apply frames_bind; [apply write_accounts_frames|intros; apply frames_ret].
Qed.
End evm.

(** ** The precompile moves no Wei: what its calls do to balances (nothing) and to stakes. *)
Section props.
Context `{Primitives} `{R : Rlp} {B : Type} `{HB : KvBackend B} {HL : KvLaws B}.
Implicit Types (b : B).

Lemma bond_dispatch sender value data h p b :
  kv_ok b -> 0 < value -> take 4 data = OP_BOND ->
  exists b', dispatch sender value data h p b = (b', Ok (Bonded sender value)) /\
    stake_map b' = <[sender := (saturating_add u256_mod (from_option fst 0 (stake_map b !! sender)) value, 0)]> (stake_map b).
Proof.
  intros Hok Hv Hop. destruct (stake_apply_spec (SBond sender value) b Hok) as (b' & Hb & _ & Hm & _).
  exists b'. split; [|exact Hm]. unfold dispatch. rewrite Hop.
  assert (len data <? 4 = false) as ->.
  { apply N.ltb_ge. unfold len. pose proof (f_equal length Hop) as Hl. rewrite length_take in Hl. change (length OP_BOND) with 4%nat in Hl. lia. }
  rewrite bool_decide_eq_true_2 by done. unfold dispatch_bond. rewrite (proj2 (N.eqb_neq value 0)) by lia.
  cbn [stake_apply] in Hb. unfold mbind, action_bind, backend in *.
  destruct (bond sender value b) as [b1 [u|e|]]; cbn in *; [|done..]. injection Hb as <-. done.
Qed.

(** A withdrawal that reports an amount has deleted the record of that amount. *)
Lemma withdraw_dispatch sender value data h p b b' s x :
  kv_ok b -> dispatch sender value data h p b = (b', Ok (Withdrawn s x)) -> 0 < x ->
  s = sender /\ fst <$> stake_map b !! sender = Some x /\ stake_map b' !! sender = None.
Proof.
  intros Hok Hd Hx. unfold dispatch, dispatch_bond, dispatch_propose, dispatch_vote, dispatch_register in Hd.
  destruct (len data <? 4); [done|].
  repeat match type of Hd with
  | (if ?c then _ else _) _ = _ => destruct c
  | (let '(_, _) := ?p in _) _ = _ => destruct p
  | (_ ≫= _) _ = _ => apply bind_action_Ok in Hd as (? & ? & _ & Hd)
  end; try done.
  unfold dispatch_withdraw, mbind, action_bind, backend in Hd.
  destruct (stake_apply_spec (SWithdraw sender h) b Hok) as (b1 & Hb & _ & Hm & _). cbn [stake_apply] in Hb.
  rewrite Hb in Hd. cbn [stake_spec op_addr] in Hm, Hd.
  destruct (stake_map b !! sender) as [[y u]|]; cbn in Hm, Hd; [|injection Hd as <- <- <-; lia].
  destruct ((u =? 0) || (h <? u)); cbn in Hm, Hd; injection Hd as <- <- <-; [lia|].
  by rewrite Hm, lookup_delete_eq.
Qed.

(** Staking calls move no money: whatever the selector, the arguments, the value and the
    outcome of a call to the precompile, every account and the state root stay the same.
    So a bond with any positive value succeeds for a sender that owns nothing and credits
    the value to its stake, while a withdrawal that reports an amount swept back to the
    free balance has deleted the stake record without crediting anyone. *)
Theorem precompile_moves_no_value sender value data h p b :
  kv_ok b ->
  let '(b', r) := dispatch sender value data h p b in
  kv_ok b' /\ (forall a, account a b' = account a b) /\ StateDb.state_root b' = StateDb.state_root b /\
  (0 < value -> take 4 data = OP_BOND ->
   r = Ok (Bonded sender value) /\
   stake_map b' !! sender =
     Some (saturating_add u256_mod (from_option fst 0 (stake_map b !! sender)) value, 0)) /\
  (forall s x, r = Ok (Withdrawn s x) -> 0 < x ->
   fst <$> stake_map b !! sender = Some x /\ stake_map b' !! sender = None).
Proof.
  intros Hok. pose proof (dispatch_frames sender value data h p b Hok) as Hf.
  destruct (dispatch sender value data h p b) as [b' r] eqn:Hd. destruct Hf as [Hok' Hs]. cbn [fst] in *.
  assert (forall k, kv_view b' !! (State, k) = kv_view b !! (State, k)) as Hst
    by (intros k; apply Hs; by intros [? _]).
  split_and!; [done|..].
  - intros a. by rewrite !account_view, Hst.
  - by apply state_root_view.
  - intros Hv Hop. destruct (bond_dispatch sender value data h p b Hok Hv Hop) as (b1 & Hb & Hm).
    rewrite Hb in Hd. simplify_eq. split; [done|]. by rewrite Hm, lookup_insert_eq.
  - intros s x -> Hx. by destruct (withdraw_dispatch _ _ _ _ _ _ _ _ _ Hok Hd Hx).
Qed.
End props.

(** An address without an account bonds 100 AII. *)
Lemma precompile_moves_no_value_witness :
  let '(b', r) := @dispatch Toy.prims MemoryBackend _ (be_array 20 7) 100000000000000000000 OP_BOND 1 100800 MemoryBackend_new in
  r = Ok (Bonded (be_array 20 7) 100000000000000000000) /\
  (forall a, @account Toy.prims ToyRlp.rlp MemoryBackend _ a b' = @account Toy.prims ToyRlp.rlp MemoryBackend _ a MemoryBackend_new) /\
  fst <$> stake_map b' !! be_array 20 7 = Some 100000000000000000000.
Proof.
  pose proof (precompile_moves_no_value (H := Toy.prims) (R := ToyRlp.rlp) (HL := memory_laws) (be_array 20 7)
    100000000000000000000 OP_BOND 1 100800 MemoryBackend_new MemoryBackend_new_ok) as Hw.
  destruct (dispatch _ _ _ _ _ _) as [b' r]. destruct Hw as (_ & Ha & _ & Hb & _).
  destruct (Hb eq_refl eq_refl) as [Hr Hm]. split; [exact Hr|]. split; [exact Ha|]. rewrite Hm. reflexivity.
Defined.
