(* ===== verification/TxPool.v ===== *)
(** * TxPool: the mempool

    Models [src/crates/aii-net-txpool/src/lib.rs] and the admission of raw transactions,
    [submit_raw_tx] of [src/crates/aii-node/src/lib.rs] (after the hexadecimal decoding).
    A [BTreeMap] is a finite map whose keys are listed in the order of [key_le].  The
    state is passed through each operation, which holds the write lock for its run. *)
From stdpp Require Import base tactics gmap numbers sets sorting strings list.
From Stdlib Require Import NArith Lia.
From Stdlib.Init Require Import Byte.
From S2P Require Import Prelude Bytes Crypto Codec Secp Tx ToyRlp Storage.

Abbreviation pool_key := (Address * N)%type.

Record PoolEntry := mkPoolEntry {
  pe_sender : Address;
  pe_nonce : N;
  effective_price : N;
  pe_tx : Tx
}.

Record TxPool := mkPool {
  pool_entries : gmap pool_key PoolEntry;
  pool_capacity : nat
}.

Inductive AddOutcome := Inserted | RejectedUnderpriced | Replaced (old : PoolEntry).

Inductive PoolError := PoolFull.

Definition TxPool_new (capacity : nat) : TxPool := mkPool ∅ capacity.

Definition pool_len (self : TxPool) : nat := size (pool_entries self).

Definition with_entries (self : TxPool) (m : gmap pool_key PoolEntry) : TxPool := mkPool m (pool_capacity self).

Definition pool_add (self : TxPool) (entry : PoolEntry) : TxPool * res PoolError AddOutcome :=
  let m := pool_entries self in
  if (pool_capacity self <=? size m)%nat then (self, Err PoolFull)
  else
    let key := (pe_sender entry, pe_nonce entry) in
    match m !! key with
    | Some existing =>
        if effective_price entry <=? effective_price existing then (self, Ok RejectedUnderpriced)
        else (with_entries self (<[key := entry]> m), Ok (Replaced existing))
    | None => (with_entries self (<[key := entry]> m), Ok Inserted)
    end.

Definition pool_remove (self : TxPool) (sender : Address) (nonce : N) : TxPool * option PoolEntry :=
  (with_entries self (delete (sender, nonce) (pool_entries self)), pool_entries self !! (sender, nonce)).

(** The loop of [drain_ready]; the last nonce of all has no successor. *)
Fixpoint drain_run (fuel : nat) (m : gmap pool_key PoolEntry) (sender : Address) (next_nonce : N)
    : gmap pool_key PoolEntry * res PoolError (list Tx) :=
  match fuel with
  | O => (m, Ok [])
  | S fuel =>
      match m !! (sender, next_nonce) with
      | None => (m, Ok [])
      | Some entry =>
          let m := delete (sender, next_nonce) m in
          match checked_add u64_mod next_nonce 1 with
          | None => (m, Panic)
          | Some next =>
              let '(m, r) := drain_run fuel m sender next in
              (m, out ← r; mret (pe_tx entry :: out))
          end
      end
  end.

(** Each turn removes an entry, so one turn more than the entries is enough. *)
Definition drain_ready (self : TxPool) (sender : Address) (current_nonce : N) : TxPool * res PoolError (list Tx) :=
  let '(m, r) := drain_run (S (size (pool_entries self))) (pool_entries self) sender current_nonce in
  (with_entries self m, r).

(** The order of the keys: the sender's bytes, then the nonce. *)
Definition key_le (x y : pool_key) : bool :=
  if bool_decide (x.1 = y.1) then x.2 <=? y.2 else bytes_le (arr_bytes x.1) (arr_bytes y.1).

Definition pool_items (m : gmap pool_key PoolEntry) : list (pool_key * PoolEntry) :=
  sort_by (fun x y => key_le x.1 y.1) (map_to_list m).

Definition remove_keys (keys : list pool_key) (m : gmap pool_key PoolEntry) : gmap pool_key PoolEntry :=
  foldl (fun m k => delete k m) m keys.

Definition drain_up_to (self : TxPool) (n : nat) : TxPool * list Tx :=
  let m := pool_entries self in
  let keys := take n (pool_items m).*1 in
  (with_entries self (remove_keys keys m), omap (fun k => pe_tx <$> m !! k) keys).

(** Cheapest first; equal prices stay in key order. *)
Definition by_price (m : gmap pool_key PoolEntry) : list (pool_key * PoolEntry) :=
  sort_by (fun x y => effective_price x.2 <=? effective_price y.2) (pool_items m).

Definition evict_to (self : TxPool) (target : nat) : TxPool :=
  let m := pool_entries self in
  if (size m <=? target)%nat then self
  else with_entries self (remove_keys (take (size m - target) (by_price m)).*1 m).

Definition effective_gas_price (t : Tx) : N :=
  match t with
  | TLegacy t => tl_gas_price t
  | TEip1559 t => td_max_fee_per_gas t
  | TEip4844 t => tb_max_fee_per_gas t
  end.

Definition tx_nonce (t : Tx) : N :=
  match t with TLegacy t => tl_nonce t | TEip1559 t => td_nonce t | TEip4844 t => tb_nonce t end.

Inductive SubmitTxError :=
| SubmitDecode (msg : string)
| SubmitSigner (e : RecoveryError)
| SubmitPool (msg : string).

Section submit.
Context `{Primitives} `{Rlp} `{K256}.

(** The two envelopes: a first byte below [0xc0] is a type or a string. *)
Definition submitted_tx (bytes : bytes) : res SubmitTxError Tx :=
  match bytes with
  | [] => Err (SubmitDecode "empty body")
  | b :: _ =>
      if Byte.to_N b <? 0xc0 then
        '(t, _) ← map_err (fun e => SubmitDecode (String.append "EIP-2718: " (rlp_error_string e))) (tx_decode_2718 bytes);
        mret t
      else
        '(t, _) ← map_err (fun e => SubmitDecode (String.append "legacy RLP: " (rlp_error_string e))) (decode_legacy bytes);
        mret (TLegacy t)
  end.

(** The returned hash is printed in hexadecimal. *)
Definition submit_raw_tx (chain_id : N) (bytes : bytes) (pool : TxPool) : TxPool * res SubmitTxError H256 :=
  match (tx ← submitted_tx bytes;
         sender ← map_err SubmitSigner (recover_signer tx chain_id);
         mret (tx, sender)) with
  | Ok (tx, sender) =>
      let '(pool, r) := pool_add pool (mkPoolEntry sender (tx_nonce tx) (effective_gas_price tx) tx) in
      (pool, match r with
             | Ok (Inserted | Replaced _) => Ok (tx_hash tx)
             | Ok RejectedUnderpriced =>
                 Err (SubmitPool "rejected: same-nonce tx with equal/lower gas price already in pool")
             | Err PoolFull => Err (SubmitPool "pool full")
             | Panic => Panic
             end)
  | Err e => (pool, Err e)
  | Panic => (pool, Panic)
  end.
End submit.

(** ** The pool is bounded, keyed and drained in nonce order *)
Section pool.
Implicit Types (m : gmap pool_key PoolEntry) (p : TxPool) (k : pool_key).

Inductive pool_op :=
| PoolAdd (e : PoolEntry)
| PoolRemove (a : Address) (n : N)
| PoolDrainReady (a : Address) (n : N)
| PoolDrainUpTo (n : nat)
| PoolEvict (target : nat).

Definition pool_apply p (op : pool_op) : TxPool :=
  match op with
  | PoolAdd e => (pool_add p e).1
  | PoolRemove a n => (pool_remove p a n).1
  | PoolDrainReady a n => (drain_ready p a n).1
  | PoolDrainUpTo n => (drain_up_to p n).1
  | PoolEvict target => evict_to p target
  end.

(** Every entry is stored under its own sender and nonce, within the capacity. *)
Record pool_wf p : Prop := {
  pw_keys : forall k e, pool_entries p !! k = Some e -> k = (pe_sender e, pe_nonce e);
  pw_size : (pool_len p <= pool_capacity p)%nat
}.

Lemma pool_wf_sub p m : pool_wf p -> m ⊆ pool_entries p -> pool_wf (with_entries p m).
Proof.
  intros [Hk Hs] Hm. split; cbn.
  - intros k e Hl. apply Hk. by eapply lookup_weaken.
  - unfold pool_len. cbn. etransitivity; [by apply map_subseteq_size|exact Hs].
Qed.

Lemma remove_keys_cons k keys m : remove_keys (k :: keys) m = remove_keys keys (delete k m).
Proof. done. Qed.

Lemma remove_keys_sub keys m : remove_keys keys m ⊆ m.
Proof.
  revert m. induction keys as [|k keys IH]; intros m; cbn; [done|].
  etransitivity; [apply IH|apply delete_subseteq].
Qed.

Lemma lookup_remove_keys keys m k :
  remove_keys keys m !! k = if bool_decide (k ∈ keys) then None else m !! k.
Proof.
  revert m. induction keys as [|x keys IH]; intros m; [done|]. rewrite remove_keys_cons, IH. repeat case_bool_decide.
  - done.
  - set_solver.
  - assert (k = x) as -> by set_solver. apply lookup_delete_eq.
  - rewrite lookup_delete_ne; [done|]. set_solver.
Qed.

Lemma size_remove_keys keys m :
  NoDup keys -> (forall k, k ∈ keys -> is_Some (m !! k)) -> (size (remove_keys keys m) + length keys = size m)%nat.
Proof.
  revert m. induction keys as [|k keys IH]; intros m Hn Hk; [cbn; lia|]. rewrite remove_keys_cons. cbn [length]. apply NoDup_cons in Hn as [Hkn Hn].
  destruct (Hk k) as [e He]; [left|]. pose proof (map_size_delete_Some k m ltac:(eauto)) as Hd.
  assert (size m <> 0)%nat as Hne. { intros Hz%map_size_empty_inv. subst m. by rewrite lookup_empty in He. }
  assert (forall k', k' ∈ keys -> is_Some (delete k m !! k')) as Hk'.
  { intros k' Hin. rewrite lookup_delete_ne by (by intros ->). apply Hk. by right. }
  specialize (IH (delete k m) Hn Hk'). lia.
Qed.

Lemma drain_run_sub fuel m s n : (drain_run fuel m s n).1 ⊆ m.
Proof.
  revert m n. induction fuel as [|fuel IH]; intros m n; cbn; [done|].
  destruct (m !! (s, n)) as [e|]; [|done]. destruct (checked_add _ _ _) as [next|]; [|apply delete_subseteq].
  specialize (IH (delete (s, n) m) next). destruct (drain_run _ _ _ _) as [m' r].
  etransitivity; [exact IH|apply delete_subseteq].
Qed.

Lemma pool_apply_capacity p op : pool_capacity (pool_apply p op) = pool_capacity p.
Proof.
  destruct op as [e|a n|a n|n|t]; cbn [pool_apply]; unfold pool_add, drain_ready, evict_to.
  - destruct (_ <=? _)%nat; [done|]. destruct (_ !! _); [destruct (_ <=? _)|]; done.
  - done.
  - by destruct (drain_run _ _ _ _).
  - done.
  - by destruct (_ <=? _)%nat.
Qed.

Lemma pool_apply_wf p op : pool_wf p -> pool_wf (pool_apply p op).
Proof.
  intros Hp. destruct op as [e|a n|a n|n|t]; cbn [pool_apply].
  - unfold pool_add. destruct (Nat.leb_spec (pool_capacity p) (size (pool_entries p))) as [|Hlt]; [done|].
    assert (pool_wf (with_entries p (<[(pe_sender e, pe_nonce e) := e]> (pool_entries p)))) as Hw.
    { split; cbn.
      - intros k x. destruct (decide (k = (pe_sender e, pe_nonce e))) as [->|Hne].
        + rewrite lookup_insert_eq. by intros [= ->].
        + rewrite lookup_insert_ne by done. apply Hp.
      - unfold pool_len. cbn. etransitivity; [|exact Hlt]. destruct (pool_entries p !! (pe_sender e, pe_nonce e)) eqn:He.
        + rewrite map_size_insert_Some by eauto. lia.
        + by rewrite map_size_insert_None. }
    destruct (_ !! _); [destruct (_ <=? _)|]; done.
  - apply pool_wf_sub; [done|apply delete_subseteq].
  - unfold drain_ready. pose proof (drain_run_sub (S (size (pool_entries p))) (pool_entries p) a n) as Hs.
    destruct (drain_run _ _ _ _). by apply pool_wf_sub.
  - by apply pool_wf_sub, remove_keys_sub.
  - unfold evict_to. destruct (_ <=? _)%nat; [done|]. by apply pool_wf_sub, remove_keys_sub.
Qed.

(** ** Draining a sender *)
Definition run_keys (s : Address) (n : N) (len : nat) : list pool_key :=
  (fun i => (s, n + N.of_nat i)) <$> seq 0 len.

Lemma run_keys_S s n len : run_keys s n (S len) = (s, n) :: run_keys s (n + 1) len.
Proof.
  unfold run_keys. cbn [seq fmap list_fmap]. f_equal; [f_equal; lia|].
  rewrite <-seq_shift, <-list_fmap_compose. apply list_fmap_ext. intros i x _. cbn. f_equal. lia.
Qed.

Lemma elem_of_run_keys k s n len : k ∈ run_keys s n len <-> k.1 = s /\ n <= k.2 < n + N.of_nat len.
Proof.
  unfold run_keys. rewrite list_elem_of_fmap. setoid_rewrite elem_of_seq. destruct k as [a x]. cbn. split.
  - intros (i & [= -> ->] & Hi). split; [done|lia].
  - intros [-> Hx]. exists (N.to_nat (x - n)). split; [f_equal|]; lia.
Qed.

(** What the loop takes: the longest run of nonces from the first one on. *)
Lemma drain_run_spec fuel m s n :
  (size m < fuel)%nat -> n < u64_mod -> (forall k e, m !! k = Some e -> k.2 < u64_mod - 1) ->
  exists len, (forall k, k ∈ run_keys s n len -> is_Some (m !! k)) /\ m !! (s, n + N.of_nat len) = None /\
    drain_run fuel m s n =
      (remove_keys (run_keys s n len) m, Ok (omap (fun k => pe_tx <$> m !! k) (run_keys s n len))).
Proof.
  revert m n. induction fuel as [|fuel IH]; intros m n Hf Hn Hm; [lia|]. cbn [drain_run].
  destruct (m !! (s, n)) as [e|] eqn:He.
  2:{ exists O. split_and!; [by intros k ?%not_elem_of_nil| |done]. by rewrite N.add_0_r. }
  pose proof (Hm _ _ He) as Hlt. cbn in Hlt.
  unfold checked_add. rewrite (proj2 (N.ltb_lt _ _)) by lia.
  pose proof (map_size_delete_Some (s, n) m ltac:(eauto)) as Hd.
  assert (size m <> 0)%nat as Hne. { intros Hz%map_size_empty_inv. subst m. by rewrite lookup_empty in He. }
  destruct (IH (delete (s, n) m) (n + 1)) as (len & Hk & Hend & Hrun).
  - lia.
  - lia.
  - intros k x Hl. apply (Hm k x). by eapply lookup_weaken; [exact Hl|apply delete_subseteq].
  - exists (S len). rewrite run_keys_S. rewrite Hrun. split_and!.
    + intros k [->|Hin]%elem_of_cons; [by eexists|]. specialize (Hk k Hin).
      destruct Hk as [x Hx]. exists x. by eapply lookup_weaken; [exact Hx|apply delete_subseteq].
    + rewrite <-Hend. rewrite lookup_delete_ne; [f_equal; f_equal; lia|]. intros [=]. lia.
    + cbn [remove_keys foldl omap list_omap]. rewrite He. cbn [fmap option_fmap option_map mbind res_bind].
      f_equal. unfold mret, res_ret. f_equal. f_equal. apply list_omap_ext. apply Forall2_same_length_lookup_2; [done|].
      intros i x y Hx Hy. assert (x = y) as <- by congruence.
      apply list_elem_of_lookup_2 in Hx. apply elem_of_run_keys in Hx as [_ Hx].
      rewrite lookup_delete_ne; [done|]. intros <-. cbn in Hx. lia.
Qed.

(** ** Eviction *)
Lemma key_le_total x y : key_le x y = true \/ key_le y x = true.
Proof.
  destruct x as [a n], y as [c n']. unfold key_le. cbn. repeat case_bool_decide; try congruence.
  - rewrite !N.leb_le. lia.
  - apply lex_le_total.
Qed.

Lemma by_price_perm m : by_price m ≡ₚ map_to_list m.
Proof. unfold by_price, pool_items. by rewrite !sort_by_perm. Qed.

Lemma by_price_sorted m :
  StronglySorted (fun x y => effective_price x.2 <=? effective_price y.2 = true) (by_price m).
Proof.
  apply sort_by_sorted.
  - intros x y. rewrite !N.leb_le. lia.
  - intros x y z. rewrite !N.leb_le. lia.
Qed.

Lemma StronglySorted_split {A} (R : A -> A -> Prop) (l k : list A) x y :
  StronglySorted R (l ++ k) -> x ∈ l -> y ∈ k -> R x y.
Proof.
  induction l as [|z l IH]; cbn; [by intros _ ?%not_elem_of_nil|]. intros Hs. inversion Hs as [|? ? Hs' Hz]; subst.
  intros [->|Hx]%elem_of_cons Hy; [|by apply IH]. rewrite Forall_forall in Hz. apply Hz, elem_of_app. by right.
Qed.

Lemma evict_split p target :
  (target < pool_len p)%nat ->
  exists dropped kept, by_price (pool_entries p) = dropped ++ kept /\
    (length dropped = pool_len p - target)%nat /\ evict_to p target = with_entries p (remove_keys dropped.*1 (pool_entries p)).
Proof.
  intros Hlt. unfold pool_len in *. exists (take (size (pool_entries p) - target) (by_price (pool_entries p))),
    (drop (size (pool_entries p) - target) (by_price (pool_entries p))).
  rewrite take_drop. split; [done|]. split.
  - rewrite length_take, by_price_perm, length_map_to_list. lia.
  - unfold evict_to. by destruct (Nat.leb_spec (size (pool_entries p)) target); [lia|].
Qed.
End pool.

(** The mempool through any sequence of additions, removals, drains and evictions: it
    never holds more entries than its capacity and every entry is stored under its own
    sender and nonce, so no two transactions of a sender share a nonce. *)
Theorem pool_bounded (cap : nat) (ops : list pool_op) :
  let p := foldl pool_apply (TxPool_new cap) ops in
  (pool_len p <= cap)%nat /\
  (forall k e, pool_entries p !! k = Some e -> k = (pe_sender e, pe_nonce e)).
Proof.
  cbn zeta. assert (forall p, pool_wf p -> pool_wf (foldl pool_apply p ops) /\
    pool_capacity (foldl pool_apply p ops) = pool_capacity p) as Hrun.
  { induction ops as [|op ops IH]; intros p Hp; [done|]. cbn.
    destruct (IH _ (pool_apply_wf p op Hp)) as [Hw Hc]. by rewrite Hc, pool_apply_capacity. }
  destruct (Hrun (TxPool_new cap)) as [[Hk Hs] Hc].
  - split; cbn; [by intros k e; rewrite lookup_empty|unfold pool_len; cbn; rewrite map_size_empty; lia].
  - rewrite Hc in Hs. done.
Qed.

(** Draining a sender returns the longest gapless run of its transactions from the given
    nonce on, in nonce order: the entries at the nonces [n .. n + len - 1] are all
    present and the one after them is not; exactly these are taken out of the pool and
    all others stay.  The loop always ends within its fuel. *)
Theorem drain_ready_run (p : TxPool) (s : Address) (n : N) :
  n < u64_mod -> (forall k e, pool_entries p !! k = Some e -> k.2 < u64_mod - 1) ->
  exists len,
    (forall k, k ∈ run_keys s n len -> is_Some (pool_entries p !! k)) /\
    pool_entries p !! (s, n + N.of_nat len) = None /\
    (drain_ready p s n).2 = Ok (omap (fun k => pe_tx <$> pool_entries p !! k) (run_keys s n len)) /\
    forall k, pool_entries (drain_ready p s n).1 !! k =
      if bool_decide (k ∈ run_keys s n len) then None else pool_entries p !! k.
Proof.
  intros Hn Hm. destruct (drain_run_spec (S (size (pool_entries p))) (pool_entries p) s n) as (len & Hk & Hend & Hrun);
    [lia|done..|].
  exists len. unfold drain_ready. rewrite Hrun. split_and!; [done..|]. intros k. apply lookup_remove_keys.
Qed.

(** Eviction to a target leaves at most that many entries and no cheaper one than any it
    drops: the pool keeps its best-paying transactions. *)
Theorem evict_keeps_best (p : TxPool) (target : nat) :
  let p' := evict_to p target in
  pool_len p' = Nat.min (pool_len p) target /\ pool_entries p' ⊆ pool_entries p /\
  forall k e k' e', pool_entries p !! k = Some e -> pool_entries p' !! k = None ->
    pool_entries p' !! k' = Some e' -> effective_price e <= effective_price e'.
Proof.
  cbn zeta. destruct (Nat.le_gt_cases (pool_len p) target) as [Hle|Hlt].
  { unfold evict_to. unfold pool_len in *. rewrite (proj2 (Nat.leb_le _ _) Hle). split_and!; [lia|done|congruence]. }
  destruct (evict_split p target Hlt) as (dropped & kept & Hsplit & Hlen & ->). cbn.
  pose proof (by_price_perm (pool_entries p)) as Hperm. rewrite Hsplit in Hperm.
  pose proof (NoDup_fst_map_to_list (pool_entries p)) as Hnd. rewrite <-Hperm, fmap_app in Hnd.
  apply NoDup_app in Hnd as (Hnd & Hdis & _).
  assert (forall k e, (k, e) ∈ dropped ++ kept <-> pool_entries p !! k = Some e) as Hin
    by (intros k e; rewrite Hperm; apply elem_of_map_to_list).
  split_and!.
  - pose proof (size_remove_keys dropped.*1 (pool_entries p) Hnd) as Hsz. rewrite length_fmap in Hsz.
    unfold pool_len in *. cbn. enough (size (remove_keys dropped.*1 (pool_entries p)) + length dropped = size (pool_entries p))%nat by lia.
    apply Hsz. intros k ([k' e] & -> & Hk)%list_elem_of_fmap. exists e. apply Hin, elem_of_app. by left.
  - apply remove_keys_sub.
  - intros k e k' e' He Hk He'. rewrite lookup_remove_keys in Hk, He'.
    case_bool_decide as Hd'; [done|]. case_bool_decide as Hd; [|congruence].
    apply list_elem_of_fmap in Hd as ([? x] & -> & Hd). cbn in *.
    assert (x = e) as -> by (enough (Some x = Some e) by congruence; rewrite <-He; symmetry; apply Hin, elem_of_app; by left).
    apply Hin, elem_of_app in He' as [He'|He']; [exfalso; apply Hd', list_elem_of_fmap; by exists (k', e')|].
    apply N.leb_le. pose proof (by_price_sorted (pool_entries p)) as Hs. rewrite Hsplit in Hs.
    exact (StronglySorted_split _ _ _ _ _ Hs Hd He').
Qed.

(** The documentation says that the entry with the higher price wins under a sender and
    nonce.  A full pool refuses the better-paying replacement: the capacity is tested
    before the key. *)
Theorem full_pool_refuses_replacement (p : TxPool) (e : PoolEntry) :
  (pool_capacity p <= pool_len p)%nat -> pool_add p e = (p, Err PoolFull).
Proof. intros Hfull. unfold pool_add, pool_len in *. by rewrite (proj2 (Nat.leb_le _ _) Hfull). Qed.
