(* ===== verification/NodeExec.v ===== *)
(** * NodeExec: executing a block, for the proposal and for the chain

    Models the two executions of [src/crates/aii-node/src/lib.rs]: [execute_for_proposal]
    with [copy_execution_backend] and [execute_body_for_roots], which run a proposed body
    on a copy of the state, and [execute_block_txs] with the writers it calls, which
    applies a committed block to the live state.  They are separate code; [NodeProps]
    proves that they compute the same roots. *)
From stdpp Require Import base tactics gmap numbers sets strings list.
From Stdlib Require Import NArith Lia.
From Stdlib.Init Require Import Byte.
From S2P Require Import Prelude Bytes Crypto Bft Coordinator Slashing Codec Secp Tx Trie Receipt Block Engine.
From S2P Require Import Storage StateDb Evm Staking Governance ChainSpec Dpos Simulate Precompile.

Definition cf_as_str (cf : ColumnFamily) : string :=
  match cf with
  | CfDefault => "default" | Headers => "headers" | Bodies => "bodies" | Receipts => "receipts"
  | Transactions => "transactions" | State => "state" | AccountStorage => "account_storage"
  | TxLookup => "tx_lookup" | Meta => "meta" | MicroChain => "microchain" | Code => "code"
  end.

(** The [Display] of the errors; an [io::Error]'s own text is not modelled. *)
Definition storage_error_string (e : StorageError) : string :=
  match e with
  | BackendError msg => String.append "backend error: " msg
  | InvalidColumnFamily cf => String.append "column family not registered: " (cf_as_str cf)
  | IoError => "io error: "
  end.

(** [NodeState]'s own bundle of roots, without the gas *)
Record NodeRoots := mkNodeRoots {
  n_state_root : H256;
  n_receipts_root : H256;
  n_logs_bloom : Bloom
}.

#[export] Instance NodeRoots_eq_dec : EqDecision NodeRoots.
Proof. solve_decision. Defined.

Definition META_KEY_POSTROOT_PREFIX : bytes := String.list_byte_of_string "postroot:".
#[global] Arguments META_KEY_POSTROOT_PREFIX : simpl never.
Definition postroot_key (h : H256) : bytes := META_KEY_POSTROOT_PREFIX ++ arr_bytes h.

Section exec.
Context `{Primitives} `{Rlp} `{K256} `{Revm} {B : Type} `{KvBackend B}.

Definition state_error_string (e : StateError) : string :=
  match e with
  | StateStorage e => String.append "storage: " (storage_error_string e)
  | StateRlp e => String.append "rlp: " (rlp_error_string e)
  | StateDecode msg => String.append "decode: " msg
  end.

(** [.map_err(|e| ConsensusError::Io(e.to_string()))?] *)
Definition io_state {A} (m : action B StateError A) : action B ConsensusError A := fun b =>
  let '(b, r) := m b in (b, map_err (fun e => Io (state_error_string e)) r).
Definition io_storage {A} (m : action B StorageError A) : action B ConsensusError A := fun b =>
  let '(b, r) := m b in (b, map_err (fun e => Io (storage_error_string e)) r).

(** A call whose error is dropped: [let Ok(x) = m else { continue }] and [.is_ok()]. *)
Definition attempt {E A} (m : action B E A) : action B ConsensusError (option A) := fun b =>
  let '(b, r) := m b in
  (b, match r with Ok a => Ok (Some a) | Err _ => Ok None | Panic => Panic end).

(** ** For the proposal *)
Fixpoint copy_items (cf : ColumnFamily) (items : list kv_item) : action B ConsensusError unit :=
  match items with
  | [] => mret tt
  | item :: items =>
      '(key, value) ← io_storage (reading (fun _ => item));
      io_storage (fun dst => kv_put dst cf key value);;
      copy_items cf items
  end.

Fixpoint copy_families (src : B) (cfs : list ColumnFamily) : action B ConsensusError unit :=
  match cfs with
  | [] => mret tt
  | cf :: cfs => copy_items cf (kv_iter src cf);; copy_families src cfs
  end.

Definition copy_execution_backend (src : B) : action B ConsensusError unit :=
  copy_families src [State; Code; AccountStorage; Meta].

Definition credit_state_for_roots (addr : Address) (delta : N) : action B ConsensusError unit :=
  if delta =? 0 then mret tt
  else
    o ← io_state (reading (account addr));
    let acc := default EMPTY_ACCOUNT o in
    io_state (set_account addr (mkAccount (a_nonce acc) (saturating_add u256_mod (a_balance acc) delta)
                                  (a_storage_root acc) (a_code_hash acc))).

Definition beneficiary_may_receive_block_subsidy (beneficiary : Address) (b : B) : bool :=
  match latest_validator_set b with
  | Ok (Some (_, entries)) => existsb (fun e => bool_decide (e_address e = beneficiary)) entries
  | Ok None => true
  | _ => false
  end.

(** What both executions take out of a transaction; blob transactions are skipped. *)
Record TxCall := mkTxCall {
  tc_to : option Address;
  tc_value : N;
  tc_data : bytes;
  tc_gas_limit : N;
  tc_gas_price : N
}.

Definition tx_call (t : Tx) : option TxCall :=
  match t with
  | TLegacy t => Some (mkTxCall (tl_to t) (tl_value t) (tl_data t) (tl_gas_limit t) (tl_gas_price t))
  | TEip1559 t => Some (mkTxCall (td_to t) (td_value t) (td_data t) (td_gas_limit t) (td_max_fee_per_gas t))
  | TEip4844 _ => None
  end.

(** The loop of [execute_body_for_roots]. *)
Fixpoint roots_loop (spec : ChainSpec) (coinbase : Address) (block_number : N) (txs : list Tx)
    (cumulative : N) (receipts : list Receipt) : action B ConsensusError (N * list Receipt) :=
  match txs with
  | [] => mret (cumulative, receipts)
  | tx :: txs =>
      let continue := roots_loop spec coinbase block_number txs in
      match recover_signer tx (chain_id spec), tx_call tx with
      | Ok sender, Some (mkTxCall to value data gas_limit gas_price) =>
          if bool_decide (to = Some PRECOMPILE_ADDR) then
            outcome ← attempt (dispatch sender value data block_number (unbonding_period_blocks spec));
            let gas_charged := 21000 in
            let cumulative := saturating_add u64_mod cumulative gas_charged in
            credit_state_for_roots coinbase (saturating_mul u256_mod gas_charged gas_price);;
            continue cumulative
              (receipts ++ [mkReceipt (tx_ty tx) (bool_decide (is_Some outcome)) cumulative bloom_zero []])
          else
            o ← attempt (execute_with_revm sender to value data gas_limit gas_price);
            match o with
            | None => continue cumulative receipts
            | Some summary =>
                let cumulative := saturating_add u64_mod cumulative (gas_used summary) in
                credit_state_for_roots coinbase (saturating_mul u256_mod (gas_used summary) gas_price);;
                continue cumulative
                  (receipts ++ [mkReceipt (tx_ty tx) (success summary) cumulative
                                  (logs_bloom_of (logs summary)) (logs summary)])
            end
      | _, _ => continue cumulative receipts
      end
  end.

Definition block_bloom (receipts : list Receipt) : Bloom :=
  foldl (fun b r => foldl accrue_log b (r_logs r)) bloom_zero receipts.

Definition execute_body_for_roots (spec : ChainSpec) (body : BlockBody) (coinbase : Address)
    (block_number : N) : action B ConsensusError PostBlockRoots :=
  '(cumulative, receipts) ← roots_loop spec coinbase block_number (transactions body) 0 [];
  let subsidy_wei := block_reward_at spec block_number in
  may ← reading (fun b => Ok (beneficiary_may_receive_block_subsidy coinbase b));
  (if (0 <? subsidy_wei) && may then credit_state_for_roots coinbase subsidy_wei else mret tt);;
  root ← io_state (reading state_root);
  mret (mkRoots root (Receipt.receipts_root receipts) (block_bloom receipts) cumulative).

(** [temp] is what opening a temporary database gives. *)
Definition execute_for_proposal (spec : ChainSpec) (live : B) (temp : res StorageError B)
    (body : BlockBody) (coinbase : Address) (block_number : N) : res ConsensusError PostBlockRoots :=
  temp_backend ← map_err (fun e => Io (storage_error_string e)) temp;
  ((copy_execution_backend live;; execute_body_for_roots spec body coinbase block_number) temp_backend).2.

(** ** On the live state: errors are logged and dropped *)
Definition credit (addr : Address) (delta : N) (b : B) : B :=
  let acc := match account addr b with Ok (Some a) => a | _ => EMPTY_ACCOUNT end in
  (set_account addr (mkAccount (a_nonce acc) (saturating_add u256_mod (a_balance acc) delta)
                       (a_storage_root acc) (a_code_hash acc)) b).1.

Definition credit_fee (addr : Address) (fee : N) (b : B) : B := if fee =? 0 then b else credit addr fee b.

(** The loop of [execute_block_txs]. *)
Fixpoint block_loop (spec : ChainSpec) (h : Header) (txs : list Tx) (cumulative : N)
    (receipts : list (H256 * Receipt)) (b : B) : B * (N * list (H256 * Receipt)) :=
  match txs with
  | [] => (b, (cumulative, receipts))
  | tx :: txs =>
      let continue := block_loop spec h txs in
      match recover_signer tx (chain_id spec), tx_call tx with
      | Ok sender, Some (mkTxCall to value data gas_limit gas_price) =>
          if bool_decide (to = Some PRECOMPILE_ADDR) then
            let '(b, outcome) := dispatch sender value data (number h) (unbonding_period_blocks spec) b in
            let gas_charged := 21000 in
            let cumulative := saturating_add u64_mod cumulative gas_charged in
            let b := credit_fee (beneficiary h) (saturating_mul u256_mod gas_charged gas_price) b in
            continue cumulative
              (receipts ++ [(tx_hash tx, mkReceipt (tx_ty tx) (is_ok outcome) cumulative bloom_zero [])]) b
          else
            let '(b, r) := execute_with_revm sender to value data gas_limit gas_price b in
            match r with
            | Ok summary =>
                let cumulative := saturating_add u64_mod cumulative (gas_used summary) in
                let b := credit_fee (beneficiary h) (saturating_mul u256_mod (gas_used summary) gas_price) b in
                continue cumulative
                  (receipts ++ [(tx_hash tx, mkReceipt (tx_ty tx) (success summary) cumulative
                                   (logs_bloom_of (logs summary)) (logs summary))]) b
            | _ => continue cumulative receipts b
            end
      | _, _ => continue cumulative receipts b
      end
  end.

Definition persist_receipts (receipts : list (H256 * Receipt)) (b : B) : B :=
  match receipts with
  | [] => b
  | _ => (kv_write b ((fun x => Put Receipts (arr_bytes x.1) (receipt_encode_2718 x.2)) <$> receipts)).1
  end.

Definition encode_roots (r : NodeRoots) : bytes :=
  arr_bytes (n_state_root r) ++ arr_bytes (n_receipts_root r) ++ arr_bytes (n_logs_bloom r).

Definition persist_post_roots (block_hash : H256) (r : NodeRoots) (b : B) : B :=
  (kv_put b Meta (postroot_key block_hash) (encode_roots r)).1.

Definition decode_roots (v : bytes) : option NodeRoots :=
  if negb (len v =? 32 + 32 + 256) then None
  else
    sr ← arr_of (take 32 v);
    rr ← arr_of (take 32 (drop 32 v));
    bloom ← arr_of (drop 64 v);
    Some (mkNodeRoots sr rr bloom).

Definition post_roots (block_hash : H256) (b : B) : res NodeError (option NodeRoots) :=
  o ← meta_get (postroot_key block_hash) b;
  mret (o ≫= decode_roots).

(** What is persisted after the loop. *)
Definition computed_roots (receipts : list (H256 * Receipt)) (b : B) : NodeRoots :=
  mkNodeRoots (match state_root b with Ok r => r | _ => EMPTY_TRIE_HASH end)
    (Receipt.receipts_root (snd <$> receipts)) (block_bloom (snd <$> receipts)).

Definition execute_block_txs (spec : ChainSpec) (block : Block) (b : B) : B :=
  let h := header block in
  let '(b, (_, receipts)) := block_loop spec h (transactions (body block)) 0 [] b in
  let subsidy_wei := block_reward_at spec (number h) in
  let b := if (0 <? subsidy_wei) && beneficiary_may_receive_block_subsidy (beneficiary h) b
           then credit (beneficiary h) subsidy_wei b else b in
  let b := persist_receipts receipts b in
  persist_post_roots (block_hash block) (computed_roots receipts b) b.
End exec.
