(* ===== verification/Microchain.v ===== *)
(** * Microchain: the registry of sub-chains and their flush anchors

    Models [src/crates/aii-microchain/src/lib.rs]: the frame of a flush transaction and
    the in-memory registry.  A [BTreeMap] is a [gmap], its iteration sorted by id. *)
From stdpp Require Import base tactics gmap numbers sets strings sorting list.
From Stdlib Require Import NArith Lia.
From Stdlib.Init Require Import Byte.
From S2P Require Import Prelude Bytes Crypto.

(** [aii-consensus-iface]'s [ConsensusKind] *)
Inductive ConsensusKind := KindBft | KindPoa.

Definition FLUSH_TX_MAGIC : bytes := String.list_byte_of_string "AII_FLUSH".
#[global] Arguments FLUSH_TX_MAGIC : simpl never.

Record FlushTxPayload := mkPayload {
  fp_sub_chain_id : N;
  fp_sub_block_hash : H256;
  fp_sub_block_number : N
}.

(** [data.starts_with(..)] *)
Definition starts_with_bytes (p data : bytes) : bool := bool_decide (take (length p) data = p).

(** The slices are in range once the length is right. *)
Definition parse_flush_anchor (data : bytes) : option FlushTxPayload :=
  if negb (len data =? 9 + 4 + 32 + 8) || negb (starts_with_bytes FLUSH_TX_MAGIC data) then None
  else
    let rest := drop (length FLUSH_TX_MAGIC) data in
    hash ← arr_of (take 32 (drop 4 rest));
    Some (mkPayload (be_value (take 4 rest)) hash (be_value (take 8 (drop 36 rest)))).

(** The call data that the sub-chain's producer writes ([run_subchain] of [aii-cli]). *)
Definition flush_calldata (p : FlushTxPayload) : bytes :=
  FLUSH_TX_MAGIC ++ be_bytes 4 (fp_sub_chain_id p) ++ arr_bytes (fp_sub_block_hash p) ++
  be_bytes 8 (fp_sub_block_number p).

Definition MAIN : N := 0.

Record MicroChainSpec := mkMicroChain {
  mc_id : N;
  mc_name : string;
  flush_interval_blocks : N;
  consensus : ConsensusKind
}.

Record FlushAnchor := mkAnchor {
  sub_block_hash : H256;
  parent_block_hash : H256;
  sub_block_number : N
}.

#[export] Instance FlushAnchor_eq_dec : EqDecision FlushAnchor.
Proof. solve_decision. Defined.

Inductive MicroChainError := ReservedId | DuplicateId | InvalidFlushInterval | UnknownId.

Record Registry := mkRegistry {
  specs : gmap N MicroChainSpec;
  anchors : gmap N FlushAnchor
}.

Definition Registry_new : Registry := mkRegistry ∅ ∅.

Definition registry_register (self : Registry) (spec : MicroChainSpec)
    : Registry * res MicroChainError unit :=
  if mc_id spec =? MAIN then (self, Err ReservedId)
  else match specs self !! mc_id spec with
  | Some _ => (self, Err DuplicateId)
  | None =>
      if flush_interval_blocks spec =? 0 then (self, Err InvalidFlushInterval)
      else (mkRegistry (<[mc_id spec := spec]> (specs self)) (anchors self), Ok tt)
  end.

Definition registry_lookup (self : Registry) (id : N) : option MicroChainSpec := specs self !! id.

Definition registry_len (self : Registry) : nat := size (specs self).

Definition record_flush (self : Registry) (id : N) (anchor : FlushAnchor)
    : Registry * res MicroChainError unit :=
  match specs self !! id with
  | None => (self, Err UnknownId)
  | Some _ => (mkRegistry (specs self) (<[id := anchor]> (anchors self)), Ok tt)
  end.

Definition last_flush (self : Registry) (id : N) : option FlushAnchor := anchors self !! id.

(** The calls of the registry. *)
Inductive registry_op :=
| RRegister (spec : MicroChainSpec)
| RFlush (id : N) (anchor : FlushAnchor).

Definition registry_apply (self : Registry) (op : registry_op) : Registry :=
  match op with
  | RRegister spec => (registry_register self spec).1
  | RFlush id anchor => (record_flush self id anchor).1
  end.

(** Every registered id is its own, none is reserved, intervals are positive, and only
    registered chains have anchors. *)
Record registry_wf (self : Registry) : Prop := {
  rw_ids : forall id spec, specs self !! id = Some spec ->
    mc_id spec = id /\ id <> MAIN /\ 0 < flush_interval_blocks spec;
  rw_anchors : forall id a, anchors self !! id = Some a -> is_Some (specs self !! id)
}.

Lemma registry_wf_step self op : registry_wf self -> registry_wf (registry_apply self op).
Proof.
  intros [Hi Ha]. destruct op as [spec|id anchor]; cbn [registry_apply].
  - unfold registry_register. destruct (N.eqb_spec (mc_id spec) MAIN); [by split|].
    destruct (specs self !! mc_id spec) eqn:Hs; [by split|].
    destruct (N.eqb_spec (flush_interval_blocks spec) 0); [by split|]. cbn. split; cbn.
    + intros id spec'. destruct (decide (mc_id spec = id)) as [<-|Hne].
      * rewrite lookup_insert_eq. intros [= <-]. split_and!; [done..|lia].
      * rewrite lookup_insert_ne by done. apply Hi.
    + intros id a Hid%Ha. apply lookup_insert_is_Some. destruct (decide (mc_id spec = id)); auto.
  - unfold record_flush. destruct (specs self !! id) as [spec|] eqn:Hs; [|by split]. cbn. split; cbn; [done|].
    intros id' a. destruct (decide (id = id')) as [<-|Hne]; [by rewrite Hs|].
    rewrite lookup_insert_ne by done. apply Ha.
Qed.

Lemma registry_wf_new : registry_wf Registry_new.
Proof. split; cbn; intros ? ? Hl; by rewrite lookup_empty in Hl. Qed.

(** Reading the fields of the frame. *)
Lemma parse_flush_calldata p :
  fp_sub_chain_id p < u32_mod -> fp_sub_block_number p < u64_mod ->
  parse_flush_anchor (flush_calldata p) = Some p.
Proof.
  intros Hid Hn. unfold parse_flush_anchor, flush_calldata, starts_with_bytes.
  rewrite take_app_length, bool_decide_eq_true_2, drop_app_length by done.
  assert (len (FLUSH_TX_MAGIC ++ be_bytes 4 (fp_sub_chain_id p) ++ arr_bytes (fp_sub_block_hash p) ++
    be_bytes 8 (fp_sub_block_number p)) = 53) as ->.
  { unfold len. rewrite !length_app, !length_be_bytes, arr_length. done. }
  cbn [N.add Pos.add N.eqb Pos.eqb negb orb Pos.succ].
  rewrite (take_app_length' _ _ 4) by (by rewrite length_be_bytes).
  rewrite (drop_app_length' _ _ 4) by (by rewrite length_be_bytes).
  assert (drop 36 (be_bytes 4 (fp_sub_chain_id p) ++ arr_bytes (fp_sub_block_hash p) ++
    be_bytes 8 (fp_sub_block_number p)) = be_bytes 8 (fp_sub_block_number p)) as ->.
  { rewrite app_assoc. apply drop_app_length'. by rewrite length_app, length_be_bytes, arr_length. }
  rewrite take_app_length' by (by rewrite arr_length). rewrite arr_of_arr_bytes. cbn [mbind option_bind].
  rewrite (firstn_all2 (be_bytes 8 _)) by (by rewrite length_be_bytes).
  rewrite !be_value_small by done. by destruct p.
Qed.
