(* ===== verification/NodeState.v ===== *)
(** * NodeState: the node's chain state and its indices

    Models [NodeState] of [src/crates/aii-node/src/lib.rs]: the in-memory [BlockStore]
    with its eviction, [commit_block] with fork records, flush anchors, slashing records,
    receipts, the head, and [recover] from disk.  A [HashMap] is a [gmap]; the write lock
    of the store is held during each of the steps below. *)
From stdpp Require Import base tactics gmap numbers sets strings list.
From Stdlib Require Import NArith Lia.
From Stdlib.Init Require Import Byte.
From S2P Require Import Prelude Bytes Crypto Bft Coordinator Slashing Codec Secp Tx Trie Receipt Block Engine.
From S2P Require Import Storage StateDb Evm Staking Governance ChainSpec Dpos Simulate Precompile NodeExec Microchain.

Definition MAX_BLOCKS_IN_MEMORY : nat := 2048.

Definition META_KEY_HEAD : bytes := String.list_byte_of_string "head_block_number".
Definition META_KEY_HEAD_HASH : bytes := String.list_byte_of_string "head_block_hash".
Definition META_KEY_SLASH_PREFIX : bytes := String.list_byte_of_string "slash:".
Definition META_KEY_FORK_PREFIX : bytes := String.list_byte_of_string "fork:".
Definition NUMBER_PREFIX : bytes := String.list_byte_of_string "n:".
Definition ANCHOR_PREFIX : bytes := String.list_byte_of_string "anchor:".
#[global] Arguments META_KEY_HEAD : simpl never.
#[global] Arguments META_KEY_HEAD_HASH : simpl never.
#[global] Arguments META_KEY_SLASH_PREFIX : simpl never.
#[global] Arguments META_KEY_FORK_PREFIX : simpl never.
#[global] Arguments NUMBER_PREFIX : simpl never.
#[global] Arguments ANCHOR_PREFIX : simpl never.

Record ForkRecord := mkFork { f_height : N; canonical_hash : H256; fork_hash : H256 }.

Record SlashRecord := mkSlash {
  sl_validator_index : N;
  sl_height : N;
  sl_phase : string;
  sl_block_hashes : H256 * H256
}.

#[export] Instance ForkRecord_eq_dec : EqDecision ForkRecord.
Proof. solve_decision. Defined.
#[export] Instance SlashRecord_eq_dec : EqDecision SlashRecord.
Proof. solve_decision. Defined.

Record BlockStore := mkBlockStore {
  by_hash : gmap H256 Header;
  by_number : gmap N H256;
  order : list H256;
  body_by_hash : gmap H256 BlockBody;
  tx_index : gmap H256 (N * N)
}.

Definition BlockStore_default : BlockStore := mkBlockStore ∅ ∅ [] ∅ ∅.

Definition number_key (n : N) : bytes := NUMBER_PREFIX ++ be_bytes 8 n.
Definition fork_key (height : N) (fork : H256) : bytes :=
  META_KEY_FORK_PREFIX ++ be_bytes 8 height ++ arr_bytes fork.
Definition anchor_key (id : N) : bytes := ANCHOR_PREFIX ++ be_bytes 4 id.
Definition slash_key (idx height : N) (phase_byte : byte) : bytes :=
  META_KEY_SLASH_PREFIX ++ be_bytes 4 idx ++ be_bytes 8 height ++ [phase_byte].

Section store.
Context `{Primitives} `{Rlp}.

(** [for (idx, tx) in body.transactions.iter().enumerate()] *)
Definition index_txs (n : N) (txs : list Tx) (index : gmap H256 (N * N)) : gmap H256 (N * N) :=
  foldl (fun index itx => <[tx_hash itx.2 := (n, N.of_nat itx.1)]> index) index (imap pair txs).

Definition insert_block (s : BlockStore) (block : Block) (hash : H256) : BlockStore :=
  let n := number (header block) in
  mkBlockStore (<[hash := header block]> (by_hash s)) (<[n := hash]> (by_number s)) (order s ++ [hash])
    (<[hash := body block]> (body_by_hash s)) (index_txs n (transactions (body block)) (tx_index s)).

(** One turn of the eviction loop, for the oldest hash. *)
Definition evict_one (s : BlockStore) (oldest : H256) (rest : list H256) : BlockStore :=
  let '(hashes, numbers) :=
    match by_hash s !! oldest with
    | Some hdr => (delete oldest (by_hash s), delete (number hdr) (by_number s))
    | None => (by_hash s, by_number s)
    end in
  let '(bodies, index) :=
    match body_by_hash s !! oldest with
    | Some b => (delete oldest (body_by_hash s),
                 foldl (fun index tx => delete (tx_hash tx) index) (tx_index s) (transactions b))
    | None => (body_by_hash s, tx_index s)
    end in
  mkBlockStore hashes numbers rest bodies index.

(** [while s.order.len() > cap]: each turn removes the first hash. *)
Fixpoint evict (cap fuel : nat) (s : BlockStore) : BlockStore :=
  match fuel, order s with
  | S fuel, oldest :: rest =>
      if (cap <? length (order s))%nat then evict cap fuel (evict_one s oldest rest) else s
  | _, _ => s
  end.

Definition index_block (cap : nat) (s : BlockStore) (block : Block) (hash : H256) : BlockStore :=
  let s := insert_block s block hash in evict cap (length (order s)) s.
End store.

Section node.
Context `{Primitives} `{Rlp} `{K256} `{Revm} {B : Type} `{KvBackend B}.

Record NodeState := mkNode {
  ns_spec : ChainSpec;
  ns_head : N;
  ns_backend : B;
  ns_blocks : BlockStore
}.

Definition NodeState_new (spec : ChainSpec) (backend : B) : NodeState :=
  mkNode spec 0 backend BlockStore_default.

Definition set_backend (self : NodeState) (b : B) : NodeState :=
  mkNode (ns_spec self) (ns_head self) b (ns_blocks self).

Definition meta_write (key value : bytes) (b : B) : B := (kv_put b Meta key value).1.

Definition set_head (self : NodeState) (n : N) : NodeState :=
  let b := meta_write META_KEY_HEAD (be_bytes 8 n) (ns_backend self) in
  let b := match by_number (ns_blocks self) !! n with
           | Some hash => meta_write META_KEY_HEAD_HASH (arr_bytes hash) b
           | None => b
           end in
  mkNode (ns_spec self) n b (ns_blocks self).

(** ** Committing a block *)
Definition record_fork (height : N) (canonical fork : H256) (b : B) : B :=
  meta_write (fork_key height fork) (arr_bytes canonical) b.

Definition persist_block (block : Block) (hash : H256) (b : B) : B :=
  let lookups := imap (fun i tx => Put TxLookup (arr_bytes (tx_hash tx)) (arr_bytes hash ++ be_bytes 8 (N.of_nat i)))
                   (transactions (body block)) in
  (kv_write b
     ([Put Headers (arr_bytes hash) (encode_header (header block));
       Put Bodies (arr_bytes hash) (encode_body (body block));
       Put Meta (number_key (number (header block))) (arr_bytes hash)] ++ lookups)).1.

Definition persist_flush_anchor (id : N) (anchor : FlushAnchor) (b : B) : B :=
  (kv_put b MicroChain (anchor_key id)
     (arr_bytes (sub_block_hash anchor) ++ arr_bytes (parent_block_hash anchor) ++
      be_bytes 8 (sub_block_number anchor))).1.

Definition tx_data_to (t : Tx) : bytes * option Address :=
  match t with
  | TLegacy t => (tl_data t, tl_to t)
  | TEip1559 t => (td_data t, td_to t)
  | TEip4844 t => (tb_data t, Some (tb_to t))
  end.

(** The anchor that a transaction carries: a flush frame that the sender sent to itself. *)
Definition tx_anchor (chain_id : N) (parent : H256) (t : Tx) : option (N * FlushAnchor) :=
  let '(data, to) := tx_data_to t in
  payload ← parse_flush_anchor data;
  match recover_signer t chain_id with
  | Ok sender =>
      if bool_decide (Some sender = to)
      then Some (fp_sub_chain_id payload,
                 mkAnchor (fp_sub_block_hash payload) parent (fp_sub_block_number payload))
      else None
  | _ => None
  end.

Definition scan_microchain_anchors (spec : ChainSpec) (block : Block) (parent_block_hash : H256) (b : B) : B :=
  foldl (fun b tx =>
    match tx_anchor (chain_id spec) parent_block_hash tx with
    | Some (id, anchor) => persist_flush_anchor id anchor b
    | None => b
    end) b (transactions (body block)).

Definition last_flush_anchor (id : N) (b : B) : res StorageError (option FlushAnchor) :=
  o ← kv_get b MicroChain (anchor_key id);
  mret (v ← o;
        if negb (len v =? 72) then None
        else
          sub ← arr_of (take 32 v);
          parent ← arr_of (take 32 (drop 32 v));
          Some (mkAnchor sub parent (be_value (drop 64 v)))).

(** The capacity of the index is a parameter, [MAX_BLOCKS_IN_MEMORY] in the node. *)
Definition commit_block_capped (cap : nat) (self : NodeState) (block : Block) : NodeState :=
  let hash := block_hash block in
  let s := ns_blocks self in
  let n := number (header block) in
  match by_hash s !! hash with
  | Some _ => self
  | None =>
      let fork_detected :=
        match by_number s !! n with
        | Some existing => if bool_decide (existing = hash) then None else Some existing
        | None => None
        end in
      match fork_detected with
      | Some canonical => set_backend self (record_fork n canonical hash (ns_backend self))
      | None =>
          let b := persist_block block hash (ns_backend self) in
          let b := execute_block_txs (ns_spec self) block b in
          let b := scan_microchain_anchors (ns_spec self) block hash b in
          let b := maybe_elect_validator_set (ns_spec self) n b in
          mkNode (ns_spec self) (ns_head self) b (index_block cap s block hash)
      end
  end.

Definition commit_block (self : NodeState) (block : Block) : NodeState :=
  commit_block_capped MAX_BLOCKS_IN_MEMORY self block.

(** ** Reading the records back *)
Definition fork_entry (kv : bytes * bytes) : option ForkRecord :=
  let '(k, v) := kv in
  let suffix := drop (length META_KEY_FORK_PREFIX) k in
  if negb (len suffix =? 8 + 32) || negb (len v =? 32) then None
  else
    fork ← arr_of (drop 8 suffix);
    canonical ← arr_of v;
    Some (mkFork (be_value (take 8 suffix)) canonical fork).

Definition list_forks (b : B) : res NodeError (list ForkRecord) :=
  collect_entries fork_entry (kv_iter_prefix b Meta META_KEY_FORK_PREFIX).

Definition receipt_by_tx_hash (tx_hash : H256) (b : B) : res StateError (option Receipt) :=
  o ← map_err StateStorage (kv_get b Receipts (arr_bytes tx_hash));
  match o with
  | None => mret None
  | Some v => '(r, _) ← map_err StateRlp (receipt_decode_2718 v); mret (Some r)
  end.

Definition debit_slash_stake (offender : Address) (slash_amount_wei : N) (b : B) : B :=
  match stake_get offender b with
  | Ok (Some _) => (slash offender slash_amount_wei b).1
  | _ => b
  end.

Definition latest_validator_address_by_index (validator_index : N) (b : B) : option (N * Address) :=
  match latest_validator_set b with
  | Ok (Some (epoch, entries)) =>
      entry ← entries !! N.to_nat validator_index; Some (epoch, e_address entry)
  | _ => None
  end.

Definition evidence_record (e : EquivocationEvidence) : byte * string * (H256 * H256) :=
  match e with
  | EvPrevote c1 c2 => (x00, "prevote"%string, (vote_block_hash c1, vote_block_hash c2))
  | EvPrecommit c1 c2 => (x01, "precommit"%string, (vote_block_hash c1, vote_block_hash c2))
  end.

(** The value is the phase with its length, and the two hashes. *)
Definition record_slashing (e : EquivocationEvidence) (b : B) : B :=
  let '(phase_byte, phase_str, (h0, h1)) := evidence_record e in
  let phase := String.list_byte_of_string phase_str in
  meta_write (slash_key (ev_validator_index e) (ev_height e) phase_byte)
    ([byte_of_N (len phase)] ++ phase ++ arr_bytes h0 ++ arr_bytes h1) b.

Definition slash_entry (kv : bytes * bytes) : option SlashRecord :=
  let '(k, v) := kv in
  let suffix := drop (length META_KEY_SLASH_PREFIX) k in
  if negb (len suffix =? 4 + 8 + 1) then None
  else
    let phase := if bool_decide (nth 12 suffix x00 = x00) then "prevote"%string else "precommit"%string in
    if len v <? 1 + 64 then None
    else
      let plen := Byte.to_N (nth 0 v x00) in
      if len v <? 1 + plen + 64 then None
      else
        let hash_bytes := drop (N.to_nat (1 + plen)) v in
        h0 ← arr_of (take 32 hash_bytes);
        h1 ← arr_of (take 32 (drop 32 hash_bytes));
        Some (mkSlash (be_value (take 4 suffix)) (be_value (take 8 (drop 4 suffix))) phase (h0, h1)).

Definition list_slashings (b : B) : res NodeError (list SlashRecord) :=
  collect_entries slash_entry (kv_iter_prefix b Meta META_KEY_SLASH_PREFIX).

(** ** Lookups *)
Definition block_count (self : NodeState) : nat := length (order (ns_blocks self)).

Definition block_by_number (self : NodeState) (n : N) : option Block :=
  hash ← by_number (ns_blocks self) !! n;
  h ← by_hash (ns_blocks self) !! hash;
  Some (mkBlock h (default default_body (body_by_hash (ns_blocks self) !! hash))).

Definition head_block (self : NodeState) : option Block := block_by_number self (ns_head self).

(** ** Reopening a database: [recover] *)
Inductive RecoverError :=
| RecoverStorage (e : StorageError)
| RecoverRlp (e : RlpError).

(** [for kv in backend.iter(cf)] with the body of the loop as a function. *)
Fixpoint scan_items {X} (f : bytes -> bytes -> X -> res RecoverError X) (items : list kv_item) (x : X)
    : res RecoverError X :=
  match items with
  | [] => Ok x
  | item :: items =>
      '(k, v) ← map_err RecoverStorage item;
      x ← f k v x;
      scan_items f items x
  end.

Definition index_number (k v : bytes) (m : gmap N H256) : res RecoverError (gmap N H256) :=
  match arr_of k with
  | None => Ok m
  | Some hash =>
      '(h, _) ← map_err RecoverRlp (decode_header v);
      mret (<[number h := hash]> m)
  end.

Definition load_header (keep : gset H256) (k v : bytes) (m : gmap H256 Header)
    : res RecoverError (gmap H256 Header) :=
  match arr_of k with
  | None => Ok m
  | Some hash =>
      if bool_decide (hash ∉ keep) then Ok m
      else '(h, _) ← map_err RecoverRlp (decode_header v); mret (<[hash := h]> m)
  end.

Definition load_body (keep : gset H256) (headers : gmap H256 Header) (k v : bytes)
    (acc : gmap H256 BlockBody * gmap H256 (N * N)) : res RecoverError (gmap H256 BlockBody * gmap H256 (N * N)) :=
  let '(bodies, index) := acc in
  match arr_of k with
  | None => Ok acc
  | Some hash =>
      if bool_decide (hash ∉ keep) then Ok acc
      else
        '(b, _) ← map_err RecoverRlp (decode_body v);
        let index := match headers !! hash with
                     | Some h => index_txs (number h) (transactions b) index
                     | None => index
                     end in
        mret (<[hash := b]> bodies, index)
  end.

(** The numbers of a map, in ascending order. *)
Definition sorted_numbers (m : gmap N H256) : list N := sort_by N.leb (map_to_list m).*1.

Definition recover_capped (cap : nat) (spec : ChainSpec) (b : B) : res RecoverError NodeState :=
  num_to_hash ← scan_items index_number (kv_iter b Headers) ∅;
  let sorted_nums := sorted_numbers num_to_hash in
  let keep_nums := list_to_set (drop (length sorted_nums - cap) sorted_nums) : gset N in
  let keep_hashes := list_to_set (omap (fun n => num_to_hash !! n) (elements keep_nums)) : gset H256 in
  let by_number := filter (fun nh => nh.1 ∈ keep_nums) num_to_hash in
  by_hash ← scan_items (load_header keep_hashes) (kv_iter b Headers) ∅;
  '(bodies, index) ← scan_items (load_body keep_hashes by_hash) (kv_iter b Bodies) (∅, ∅);
  let order := omap (fun n => by_number !! n) (sorted_numbers by_number) in
  head ← map_err RecoverStorage (kv_get b Meta META_KEY_HEAD);
  let head := match head with Some v => if len v =? 8 then be_value v else 0 | None => 0 end in
  mret (mkNode spec head b (mkBlockStore by_hash by_number order bodies index)).

Definition recover (spec : ChainSpec) (b : B) : res RecoverError NodeState :=
  recover_capped MAX_BLOCKS_IN_MEMORY spec b.
End node.
