(* ===== verification/Queries.v ===== *)
(** * Queries: what a node answers about its chain, and catching up from a peer

    Models the query methods of [NodeState] ([impl RpcState] in
    [src/crates/aii-node/src/lib.rs]) with their views ([src/crates/aii-rpc/src/lib.rs]), the
    handlers of [aii-rpc] that do more than pass a call on, and [bootstrap_sync_from_peer] of
    [src/crates/aii-node/src/sync.rs].  A Rust string is its bytes.  The read lock of the
    store is never poisoned; a JSON-RPC error is its code. *)
From stdpp Require Import base tactics gmap numbers sets strings list.
From Stdlib Require Import NArith Lia.
From Stdlib.Init Require Import Byte.
From S2P Require Import Prelude Bytes Crypto Bft Coordinator Slashing Codec Secp Tx Trie Receipt Block Engine.
From S2P Require Import Storage StateDb Evm Staking Governance ChainSpec Dpos Simulate Precompile NodeExec Microchain NodeState.

(** [from..from + n] *)
Definition heights (from n : N) : list N := (fun i => from + N.of_nat i) <$> seq 0 (N.to_nat n).

(** ** Reading text *)

(** The encodings of the characters that [str::trim] removes. *)
Definition WHITESPACE : list text :=
  [[x09]; [x0a]; [x0b]; [x0c]; [x0d]; [x20]; [xc2; x85]; [xc2; xa0]; [xe1; x9a; x80];
   [xe2; x80; x80]; [xe2; x80; x81]; [xe2; x80; x82]; [xe2; x80; x83]; [xe2; x80; x84];
   [xe2; x80; x85]; [xe2; x80; x86]; [xe2; x80; x87]; [xe2; x80; x88]; [xe2; x80; x89];
   [xe2; x80; x8a]; [xe2; x80; xa8]; [xe2; x80; xa9]; [xe2; x80; xaf]; [xe2; x81; x9f];
   [xe3; x80; x80]].

Definition strip_with (w s : text) : option text :=
  if bool_decide (take (length w) s = w) then Some (drop (length w) s) else None.

(** Each turn removes a character, so the length bounds the turns. *)
Fixpoint trim_loop (ws : list text) (fuel : nat) (s : text) : text :=
  match fuel, head (omap (fun w => strip_with w s) ws) with
  | S fuel, Some rest => trim_loop ws fuel rest
  | _, _ => s
  end.

Definition trim (s : text) : text :=
  let s := trim_loop WHITESPACE (length s) s in
  reverse (trim_loop (reverse <$> WHITESPACE) (length s) (reverse s)).

Definition parse_block_tag (s : text) : option N :=
  let trimmed := trim s in
  match strip_0x trimmed with
  | Some stripped => from_str_radix 16 stripped
  | None => from_str_radix 10 trimmed
  end.

(** [parse_block_number_or_tag] of [aii-rpc]. *)
Definition parse_block_number_or_tag (s : text) (head : N) : option N :=
  if bool_decide (s ∈ [str "latest"; str "pending"; str "safe"; str "finalized"]) then Some head
  else if bool_decide (s = str "earliest") then Some 0
  else if bool_decide (take 2 s = str "0x" \/ take 2 s = str "0X") then from_str_radix 16 (drop 2 s)
  else from_str_radix 10 s.

(** ** The views *)
Record AccountView := mkAccountView {
  av_nonce : N; av_balance : text; av_storage_root : text; av_code_hash : text
}.

Record TxView := mkTxView {
  tv_hash : text; tv_from : text; tv_to : text; tv_value : text; tv_nonce : text;
  tv_gas_limit : text; tv_max_fee_per_gas : text; tv_max_priority_fee_per_gas : text;
  tv_tx_type : text
}.

Record HeaderView := mkHeaderView {
  hv_hash : text; hv_parent_hash : text; hv_number : text; hv_timestamp : text;
  hv_beneficiary : text; hv_gas_limit : text; hv_gas_used : text; hv_base_fee_per_gas : text;
  hv_state_root : text; hv_transactions_root : text; hv_receipts_root : text;
  hv_mix_hash : text; hv_extra_data_hex : text
}.

Record EthTxResponse := mkEthTx {
  et_tx : TxView; et_block_hash : text; et_block_number : text; et_transaction_index : text
}.

Inductive EthBlockTxs :=
| Hashes (hashes : list text)
| Full (txs : list EthTxResponse).

Record EthBlockResponse := mkEthBlock { eb_header : HeaderView; eb_transactions : EthBlockTxs }.

Record LogView := mkLogView { lv_address : text; lv_topics : list text; lv_data : text }.

Record ReceiptView := mkReceiptView {
  rv_transaction_hash : text; rv_block_number : text; rv_status : text;
  rv_cumulative_gas_used : text; rv_logs_bloom : text; rv_tx_type : text; rv_logs : list LogView
}.

Record LogFilter := mkFilter {
  from_block : option text; to_block : option text; lf_address : option text; lf_topics : list text
}.

Record LogEntryView := mkLogEntry {
  le_block_number : text; le_transaction_hash : text; le_address : text;
  le_topics : list text; le_data : text
}.

Record PostRootsView := mkPostRootsView {
  pv_state_root : text; pv_receipts_root : text; pv_logs_bloom : text
}.

Record ForkView := mkForkView { fv_height : text; fv_canonical_hash : text; fv_fork_hash : text }.

Record ProposalView := mkProposalView {
  pr_id : text; pr_title : text; pr_voting_ends_at : text; pr_status : text; pr_proposer : text;
  pr_yes_wei : text; pr_no_wei : text
}.

Record ValidatorEntryView := mkValidatorEntryView {
  ve_address : text; ve_stake_wei : text; ve_bls_pubkey : option text; ve_vrf_pubkey : option text
}.

Record ActiveValidatorsView := mkActiveValidators {
  ac_epoch : text; ac_validators : list ValidatorEntryView
}.

Record StakeView := mkStakeView {
  st_address : text; st_amount_wei : text; st_unbond_at : text; st_is_bonded : bool
}.

Record SubchainAnchorView := mkAnchorView {
  sa_sub_block_hash : text; sa_parent_block_hash : text; sa_sub_block_number : text
}.

Record SlashView := mkSlashView {
  sv_validator_index : N; sv_height : text; sv_phase : text; sv_block_hashes : text * text
}.

Record AiiStatus := mkStatus { status_chain_id : N; status_network : text; status_head : N }.

Record TxLookupView := mkTxLookup { tk_tx : TxView; tk_block_number : text }.

(** What [eth_call] and [eth_estimateGas] run, and how that can fail. *)
Record SimulateCallParams := mkCallParams {
  cp_from : Address; cp_to : Address; cp_value : N; cp_data : bytes; cp_gas_limit : N; cp_gas_price : N
}.

Inductive SimulateCallError :=
| CallReverted (reason : string)
| CallEvm (e : ExecError).

(** The body of [eth_call] and [eth_estimateGas]. *)
Record EthCallRequest := mkCallRequest {
  cr_from : option text; cr_to : text; cr_value : option text; cr_data : option text;
  cr_gas : option text; cr_gas_price : option text
}.

(** [U256::from_str_radix(s, 16)] of the integer library. *)
Class UintText := { u256_from_hex : text -> option N }.

(** The codes of the handlers' errors: -32602, -32603 and -32000. *)
Inductive RpcError :=
| InvalidParams
| Internal
| ServerError (reason : SimulateCallError).

Section queries.
Context `{Primitives} `{Rlp} `{K256} `{Revm} `{HexCrate} {B : Type} `{KvBackend B}.
Implicit Types (self : NodeState (B := B)).

(** ** Writing text *)
Definition hex_number (n : N) : text := prefix_0x (to_radix 16 n).
Definition hex_array {n} (a : array n) : text := hex_bytes (arr_bytes a).

(** [hex::decode_to_slice] into an array of the length, after a check of the text's. *)
Definition hex_to_array (n : nat) (s : text) : option (array n) :=
  if negb (len s =? N.of_nat (2 * n)) then None else hex_decode s ≫= (fun b => arr_of b).

Definition parse_hash_str (s : text) : option H256 := hex_to_array 32 (strip_or s).

(** ** Views of the records *)
Definition header_to_view (hash : H256) (h : Header) : HeaderView :=
  mkHeaderView (hex_array hash) (hex_array (parent_hash h)) (hex_number (number h))
    (hex_number (timestamp h)) (hex_array (beneficiary h)) (hex_number (gas_limit h))
    (hex_number (Block.gas_used h)) (hex_number (base_fee_per_gas h)) (hex_array (Block.state_root h))
    (hex_array (h_transactions_root h)) (hex_array (Block.receipts_root h)) (hex_array (mix_hash h))
    (hex_bytes (extra_data h)).

(** What a view shows of a transaction: to, value, nonce, gas limit and the two fees. *)
Definition tx_fields (t : Tx) : option Address * N * N * N * N * N * text :=
  match t with
  | TLegacy t => (tl_to t, tl_value t, tl_nonce t, tl_gas_limit t, tl_gas_price t, tl_gas_price t, str "legacy")
  | TEip1559 t => (td_to t, td_value t, td_nonce t, td_gas_limit t, td_max_fee_per_gas t,
                   td_max_priority_fee_per_gas t, str "eip1559")
  | TEip4844 t => (Some (tb_to t), tb_value t, tb_nonce t, tb_gas_limit t, tb_max_fee_per_gas t,
                   tb_max_priority_fee_per_gas t, str "eip4844")
  end.

Definition tx_to_view (t : Tx) (chain_id : N) : TxView :=
  let from := match recover_signer t chain_id with Ok a => hex_array a | _ => [] end in
  let '(to, value, nonce, gas_limit, max_fee, max_pri, ty) := tx_fields t in
  mkTxView (hex_array (tx_hash t)) from (match to with Some a => hex_array a | None => [] end)
    (hex_number value) (hex_number nonce) (hex_number gas_limit) (hex_number max_fee)
    (hex_number max_pri) ty.

Definition proposal_to_view (p : Proposal) (tally : option (N * N)) : ProposalView :=
  let '(yes, no) := default (0, 0) tally in
  mkProposalView (hex_number (p_id p)) (p_title p) (hex_number (p_voting_ends_at p))
    (str match p_status p with
         | Pending => "pending" | Passed => "passed" | Rejected => "rejected" | Executed => "executed"
         end)
    (hex_array (p_proposer p)) (hex_number yes) (hex_number no).

Definition stake_record_to_view (r : StakeRecord) : StakeView :=
  mkStakeView (hex_array (staker r)) (hex_number (amount_wei r)) (hex_number (unbond_at r)) (is_bonded r).

(** [.ok().flatten()] and [.ok().unwrap_or_default()] *)
Definition found {E A} (r : res E (option A)) : option A := match r with Ok o => o | _ => None end.
Definition listed {E A} (r : res E (list A)) : list A := match r with Ok l => l | _ => [] end.

(** ** Blocks and transactions *)
Definition head_block_number self : N := ns_head self.
Definition gas_price self : N := cs_min_base_fee_per_gas (ns_spec self).

Definition header_by_number self (n : N) : option HeaderView :=
  hash ← by_number (ns_blocks self) !! n;
  h ← by_hash (ns_blocks self) !! hash;
  Some (header_to_view hash h).

Definition header_by_hash self (hash_hex : text) : option HeaderView :=
  hash ← parse_hash_str hash_hex;
  h ← by_hash (ns_blocks self) !! hash;
  Some (header_to_view hash h).

Definition recent_headers self (limit : nat) : list HeaderView :=
  omap (fun h => header_to_view h <$> (by_hash (ns_blocks self) !! h))
    (take limit (reverse (order (ns_blocks self)))).

Definition block_transactions self (n : N) : option (list TxView) :=
  hash ← by_number (ns_blocks self) !! n;
  b ← body_by_hash (ns_blocks self) !! hash;
  Some ((fun tx => tx_to_view tx (chain_id (ns_spec self))) <$> transactions b).

(** The transaction with a hash: its block's number and hash, its index and itself. *)
Definition find_tx self (h : H256) : option (N * H256 * N * Tx) :=
  '(block_number, idx) ← tx_index (ns_blocks self) !! h;
  block_hash ← by_number (ns_blocks self) !! block_number;
  b ← body_by_hash (ns_blocks self) !! block_hash;
  tx ← transactions b !! N.to_nat idx;
  Some (block_number, block_hash, idx, tx).

Definition transaction_by_hash self (hash_hex : text) : option (TxView * N) :=
  h ← parse_hash_str hash_hex;
  '(block_number, _, _, tx) ← find_tx self h;
  Some (tx_to_view tx (chain_id (ns_spec self)), block_number).

Definition eth_transaction_by_hash self (hash_hex : text) : option EthTxResponse :=
  h ← parse_hash_str hash_hex;
  '(block_number, block_hash, idx, tx) ← find_tx self h;
  Some (mkEthTx (tx_to_view tx (chain_id (ns_spec self))) (hex_array block_hash)
          (hex_number block_number) (hex_number idx)).

Definition eth_block_response_from_indices (chain_id : N) (store : BlockStore) (block_hash : H256)
    (full_transactions : bool) : option EthBlockResponse :=
  h ← by_hash store !! block_hash;
  b ← body_by_hash store !! block_hash;
  Some (mkEthBlock (header_to_view block_hash h)
    (if full_transactions
     then Full (imap (fun idx tx => mkEthTx (tx_to_view tx chain_id) (hex_array block_hash)
                                      (hex_number (number h)) (hex_number (N.of_nat idx))) (transactions b))
     else Hashes ((fun tx => hex_array (tx_hash tx)) <$> transactions b))).

Definition eth_block_by_number self (n : N) (full_transactions : bool) : option EthBlockResponse :=
  block_hash ← by_number (ns_blocks self) !! n;
  eth_block_response_from_indices (chain_id (ns_spec self)) (ns_blocks self) block_hash full_transactions.

Definition eth_block_by_hash self (hash_hex : text) (full_transactions : bool) : option EthBlockResponse :=
  block_hash ← parse_hash_str hash_hex;
  eth_block_response_from_indices (chain_id (ns_spec self)) (ns_blocks self) block_hash full_transactions.

(** The block that a decimal number, a hexadecimal number or a hash names. *)
Definition raw_block_hash (s : BlockStore) (query : text) : option H256 :=
  match from_str_radix 10 query with
  | Some n => by_number s !! n
  | None =>
      match strip_0x query with
      | Some stripped =>
          match from_str_radix 16 stripped with
          | Some n => by_number s !! n
          | None => parse_hash_str query
          end
      | None => parse_hash_str query
      end
  end.

Definition raw_block self (query : text) : option text :=
  hash ← raw_block_hash (ns_blocks self) query;
  h ← by_hash (ns_blocks self) !! hash;
  b ← body_by_hash (ns_blocks self) !! hash;
  Some (hex_bytes (encode_block (mkBlock h b))).

(** ** Receipts and logs *)
Definition log_to_view (l : Log) : LogView :=
  mkLogView (hex_array (l_address l)) (hex_array <$> topics l) (hex_bytes (l_data l)).

Definition rpc_receipt_by_tx_hash self (hash_hex : text) : option ReceiptView :=
  h ← parse_hash_str hash_hex;
  receipt ← found (receipt_by_tx_hash h (ns_backend self));
  let block_number := fst <$> (tx_index (ns_blocks self) !! h) in
  Some (mkReceiptView (hex_array h)
          (match block_number with Some n => hex_number n | None => str "0x0" end)
          (str (if r_status receipt then "0x1" else "0x0"))
          (hex_number (r_cumulative_gas_used receipt)) (hex_array (Receipt.r_logs_bloom receipt))
          (str match r_tx_type receipt with
               | TypeLegacy => "legacy" | TypeEip1559 => "eip1559" | TypeEip4844 => "eip4844"
               end)
          (log_to_view <$> r_logs receipt)).

(** The address and the topics asked for: what does not read as such is ignored. *)
Definition want_addr (f : LogFilter) : option Address := lf_address f ≫= fun s => hex_to_array 20 (strip_or s).
Definition want_topics (f : LogFilter) : list H256 := omap (fun s => hex_to_array 32 (strip_or s)) (lf_topics f).

(** A bound that does not read as a number is the start, or the head. *)
Definition log_range (f : LogFilter) (head : N) : N * N :=
  let from := default 0 (match from_block f with Some s => parse_block_tag s | None => Some 0 end) in
  let to := default head (match to_block f with Some s => parse_block_tag s | None => Some head end) in
  (from, N.min to head).

(** The bloom excludes the block. *)
Definition bloom_miss (bloom : Bloom) (addr : option Address) (wanted : list H256) : bool :=
  match addr with Some a => negb (contains bloom (arr_bytes a)) | None => false end
  || existsb (fun t => negb (contains bloom (arr_bytes t))) wanted.

Definition log_matches (addr : option Address) (wanted : list H256) (l : Log) : bool :=
  match addr with Some a => bool_decide (l_address l = a) | None => true end
  && forallb (fun t => bool_decide (t ∈ topics l)) wanted.

Definition log_entry (n : N) (tx_hash : H256) (l : Log) : LogEntryView :=
  mkLogEntry (hex_number n) (hex_array tx_hash) (hex_array (l_address l)) (hex_array <$> topics l)
    (hex_bytes (l_data l)).

Definition tx_logs self (n : N) (addr : option Address) (wanted : list H256) (tx : Tx) : list LogEntryView :=
  match receipt_by_tx_hash (tx_hash tx) (ns_backend self) with
  | Ok (Some receipt) => log_entry n (tx_hash tx) <$> filter (fun l => log_matches addr wanted l = true) (r_logs receipt)
  | _ => []
  end.

(** The logs of one block, without the bloom and with it. *)
Definition walk_block self (n : N) (hash : H256) (addr : option Address) (wanted : list H256) : list LogEntryView :=
  match body_by_hash (ns_blocks self) !! hash with
  | Some b => transactions b ≫= tx_logs self n addr wanted
  | None => []
  end.

Definition block_logs self (addr : option Address) (wanted : list H256) (n : N) : list LogEntryView :=
  match by_number (ns_blocks self) !! n with
  | None => []
  | Some hash =>
      match post_roots hash (ns_backend self) with
      | Ok (Some roots) =>
          if bloom_miss (n_logs_bloom roots) addr wanted then [] else walk_block self n hash addr wanted
      | _ => walk_block self n hash addr wanted
      end
  end.

Definition logs_in_range self (f : LogFilter) : list LogEntryView :=
  let '(from, to) := log_range f (ns_head self) in
  if to <? from then []
  else heights from (to - from + 1) ≫= block_logs self (want_addr f) (want_topics f).

Definition post_roots_for self (block_hash_hex : text) : option PostRootsView :=
  h ← parse_hash_str block_hash_hex;
  r ← found (post_roots h (ns_backend self));
  Some (mkPostRootsView (hex_array (n_state_root r)) (hex_array (n_receipts_root r)) (hex_array (n_logs_bloom r))).

(** ** The tables *)
Definition forks self : list ForkView :=
  (fun f => mkForkView (hex_number (f_height f)) (hex_array (canonical_hash f)) (hex_array (fork_hash f)))
    <$> listed (list_forks (ns_backend self)).

Definition governance_proposals self : list ProposalView :=
  (fun p => proposal_to_view p (found (tally_of (p_id p) (ns_backend self))))
    <$> listed (gov_list_all (ns_backend self)).

Definition governance_proposal self (id : N) : option ProposalView :=
  p ← found (gov_get id (ns_backend self));
  Some (proposal_to_view p (found (tally_of (p_id p) (ns_backend self)))).

Definition active_validator_set self : option ActiveValidatorsView :=
  '(epoch, entries) ← found (latest_validator_set (ns_backend self));
  Some (mkActiveValidators (hex_number epoch)
    ((fun e => mkValidatorEntryView (hex_array (e_address e)) (hex_number (e_stake_wei e))
                 (hex_array <$> e_bls_pubkey e) (hex_array <$> e_vrf_pubkey e)) <$> entries)).

Definition stake_at self (addr : Address) : option StakeView :=
  stake_record_to_view <$> found (stake_get addr (ns_backend self)).

Definition total_bonded_stake self : N := res_or 0 (total_bonded (ns_backend self)).

Definition all_stakers self : list StakeView := stake_record_to_view <$> listed (list_all (ns_backend self)).

Definition subchain_anchor self (id : N) : option SubchainAnchorView :=
  a ← found (last_flush_anchor id (ns_backend self));
  Some (mkAnchorView (hex_array (sub_block_hash a)) (hex_array (parent_block_hash a))
          (hex_number (sub_block_number a))).

Definition slashings self : list SlashView :=
  (fun r => mkSlashView (sl_validator_index r) (hex_number (sl_height r)) (str (sl_phase r))
              (hex_array (sl_block_hashes r).1, hex_array (sl_block_hashes r).2))
    <$> listed (list_slashings (ns_backend self)).

(** ** Accounts and dry runs *)
Definition account_view self (addr : Address) : option AccountView :=
  acc ← found (account addr (ns_backend self));
  Some (mkAccountView (a_nonce acc) (hex_number (a_balance acc)) (hex_array (a_storage_root acc))
          (hex_array (a_code_hash acc))).

Definition code_at self (addr : Address) : bytes :=
  match account addr (ns_backend self) with
  | Ok (Some acc) => match code_get (a_code_hash acc) (ns_backend self) with Ok (Some c) => c | _ => [] end
  | _ => []
  end.

Definition storage_at self (addr : Address) (slot : H256) : H256 :=
  res_or (zero_array 32) (storage_get addr slot (ns_backend self)).

(** The dry run of a call, unless it reverts or fails. *)
Definition dry_run self (req : SimulateCallParams) : res SimulateCallError SimulationResult :=
  sim ← map_err CallEvm (simulate_with_revm (cp_from req) (Some (cp_to req)) (cp_value req)
          (cp_data req) (cp_gas_limit req) (cp_gas_price req) (ns_backend self));
  _ ← guard_err (negb (sim_success sim))
        (CallReverted (default "execution failed"%string (revert_reason sim)));
  mret sim.

Definition estimate_gas self (req : SimulateCallParams) : res SimulateCallError N :=
  sim ← dry_run self req; mret (sim_gas_used sim).

Definition simulate_call self (req : SimulateCallParams) : res SimulateCallError bytes :=
  sim ← dry_run self req; mret (return_data sim).

(** ** The handlers *)
Definition parse_address (s : text) : res RpcError Address :=
  ok_or (hex_to_array 20 (strip_or s)) InvalidParams.

(** [format!("{s:0>64}")] *)
Definition pad_64 (s : text) : text := replicate (64 - length s) x30 ++ s.

Definition parse_h256 (s : text) : res RpcError H256 :=
  let s := strip_or s in
  _ ← guard_err (64 <? len s) InvalidParams;
  ok_or (hex_to_array 32 (pad_64 s)) InvalidParams.

Definition get_balance self (address : text) : res RpcError text :=
  addr ← parse_address address;
  mret (match account_view self addr with Some a => av_balance a | None => str "0x0" end).

Definition get_code self (address : text) : res RpcError text :=
  addr ← parse_address address; mret (hex_bytes (code_at self addr)).

Definition get_storage_at self (address slot : text) : res RpcError text :=
  addr ← parse_address address;
  slot_h ← parse_h256 slot;
  mret (hex_array (storage_at self addr slot_h)).

(** The digits of a hexadecimal number; none at all stand for zero. *)
Definition hex_part (s : text) : text := let s := strip_or s in if bool_decide (s = []) then str "0" else s.

Definition parse_hex_u256 `{UintText} (s : text) : res RpcError N := ok_or (u256_from_hex (hex_part s)) InvalidParams.

Definition parse_hex_u64 (s : text) : res RpcError N := ok_or (from_str_radix 16 (hex_part s)) InvalidParams.

Definition parse_eth_call_request `{UintText} (req : EthCallRequest) : res RpcError SimulateCallParams :=
  to ← parse_address (cr_to req);
  from ← match cr_from req with Some s => parse_address s | None => mret (zero_array 20) end;
  value ← parse_hex_u256 (default (str "0x0") (cr_value req));
  data ← match cr_data req with Some s => ok_or (hex_decode (strip_or s)) InvalidParams | None => mret [] end;
  gas_limit ← parse_hex_u64 (default (str "0x1c9c380") (cr_gas req));
  gas_price ← parse_hex_u256 (default (str "0x0") (cr_gas_price req));
  mret (mkCallParams from to value data gas_limit gas_price).

Definition eth_call `{UintText} self (req : EthCallRequest) : res RpcError text :=
  params ← parse_eth_call_request req;
  b ← map_err ServerError (simulate_call self params);
  mret (hex_bytes b).

Definition eth_estimate_gas `{UintText} self (req : EthCallRequest) : res RpcError text :=
  params ← parse_eth_call_request req;
  g ← map_err ServerError (estimate_gas self params);
  mret (hex_number g).

Definition get_block_by_number self (number_or_tag : text) (full_transactions : bool)
    : res RpcError (option EthBlockResponse) :=
  n ← ok_or (parse_block_number_or_tag number_or_tag (head_block_number self)) InvalidParams;
  mret (eth_block_by_number self n full_transactions).

(** A decimal number, or a hexadecimal one after [0x]. *)
Definition parse_query (query : text) : option N :=
  match strip_0x query with Some rest => from_str_radix 16 rest | None => from_str_radix 10 query end.

Definition get_block_header self (query : text) : res RpcError (option HeaderView) :=
  let trimmed := strip_or query in
  if len trimmed =? 64 then mret (header_by_hash self (prefix_0x trimmed))
  else n ← ok_or (parse_query query) InvalidParams; mret (header_by_number self n).

Definition recent_blocks self (limit : N) : list HeaderView := recent_headers self (N.to_nat (N.min limit 100)).

Definition get_block_transactions self (query : text) : res RpcError (option (list TxView)) :=
  let trimmed := strip_or query in
  if len trimmed =? 64 then
    match header_by_hash self (prefix_0x trimmed) with
    | None => mret None
    | Some h =>
        n ← ok_or (from_str_radix 16 (trim_0x (hv_number h))) Internal;
        mret (block_transactions self n)
    end
  else n ← ok_or (parse_query query) InvalidParams; mret (block_transactions self n).

Definition get_transaction self (hash : text) : res RpcError (option TxLookupView) :=
  let trimmed := strip_or hash in
  _ ← guard_err (negb (len trimmed =? 64)) InvalidParams;
  mret ('(tx, n) ← transaction_by_hash self (prefix_0x trimmed); Some (mkTxLookup tx (hex_number n))).

Definition get_account self (address : text) : res RpcError (option AccountView) :=
  addr ← parse_address address; mret (account_view self addr).

Definition get_stake self (address : text) : res RpcError (option StakeView) :=
  addr ← parse_address address; mret (stake_at self addr).

Definition total_stake self : text := hex_number (total_bonded_stake self).

Definition status self : AiiStatus :=
  mkStatus (chain_id (ns_spec self)) (str (network (ns_spec self))) (ns_head self).

Definition eth_block_number self : text := hex_number (head_block_number self).

(** ** Catching up from a peer *)
Inductive CatchUpError :=
| SyncRpc
| SyncBadHead
| SyncNull (n : N)
| SyncHex
| SyncDecode (e : RlpError).

(** What the peer answers: [eth_blockNumber], and [aii_getRawBlock] of a number's text. *)
Record PeerRpc := mkPeer {
  peer_block_number : res CatchUpError text;
  peer_raw_block : text -> res CatchUpError (option text)
}.

Definition fetch_block (peer : PeerRpc) (n : N) : res CatchUpError Block :=
  raw ← peer_raw_block peer (to_radix 10 n);
  raw_hex ← ok_or raw (SyncNull n);
  raw_bytes ← ok_or (hex_decode (strip_or raw_hex)) SyncHex;
  '(block, _) ← map_err SyncDecode (decode_block raw_bytes);
  mret block.

(** Blocks that were committed before an error stay. *)
Fixpoint sync_blocks (peer : PeerRpc) (heights : list N) (synced : N) self : res CatchUpError N * NodeState (B := B) :=
  match heights with
  | [] => (Ok synced, self)
  | n :: heights =>
      match fetch_block peer n with
      | Ok block =>
          sync_blocks peer heights (synced + 1) (set_head (commit_block self block) (number (header block)))
      | Err e => (Err e, self)
      | Panic => (Panic, self)
      end
  end.

Definition bootstrap_sync_from_peer (peer : PeerRpc) self : res CatchUpError N * NodeState (B := B) :=
  match (s ← peer_block_number peer; ok_or (from_str_radix 16 (strip_or s)) SyncBadHead) with
  | Ok peer_head =>
      if peer_head <=? ns_head self then (Ok 0, self)
      else sync_blocks peer (heights (ns_head self + 1) (peer_head - ns_head self)) 0 self
  | Err e => (Err e, self)
  | Panic => (Panic, self)
  end.

(** A peer that is a node of this kind. *)
Definition node_peer self : PeerRpc :=
  mkPeer (Ok (eth_block_number self)) (fun query => Ok (raw_block self query)).
End queries.
