(* ===== verification/NodeSim.v ===== *)
(** * NodeSim: the two executions of a block run in lockstep

    [exec_rows] are the rows that execution reads: accounts, code, contract storage and
    the tables of the [Meta] family, but not the block index.  On stores that agree on
    them, the proposal's execution and the chain's compute the same receipts and stay in
    agreement; the copy that the proposal runs on agrees with the live state. *)
From stdpp Require Import base tactics gmap numbers sets strings list.
From Stdlib Require Import NArith Lia.
From Stdlib.Init Require Import Byte.
From S2P Require Import Prelude Bytes Crypto Bft Coordinator Slashing Codec Secp Tx Trie Receipt Block Engine.
From S2P Require Import Storage StateDb Evm Staking Governance ChainSpec Dpos Simulate Precompile NodeExec.
From S2P Require Import Microchain NodeState.

Definition exec_rows (cf : ColumnFamily) (k : bytes) : Prop :=
  match cf with
  | State | Code | AccountStorage => True
  | Meta => take (length NUMBER_PREFIX) k <> NUMBER_PREFIX
  | _ => False
  end.

Lemma exec_rows_tables : table_keys exec_rows.
Proof. split; intros s; cbn; unfold NUMBER_PREFIX; cbn; discriminate. Qed.

Section lockstep.
Context `{Primitives} `{R : Rlp} `{K : K256} `{V : Revm} `{!RevmLaws V}.
Context {B : Type} `{HB : KvBackend B} {HL : KvLaws B}.
Implicit Types (b : B).

Local Abbreviation agree := (agree exec_rows).
Local Abbreviation sim := (sim exec_rows).
Local Abbreviation reads_same := (reads_same exec_rows).

(** ** State reads and writes *)
Lemma db_get_same cf k : exec_rows cf k -> reads_same (db_get cf k).
Proof. intros Hk. apply (reads_map exec_rows (fun b => kv_get b cf k) (map_err StateStorage)). by apply get_same. Qed.

Lemma account_same a : reads_same (account a).
Proof. apply (reads_bind exec_rows); [by apply db_get_same|]. intros o. apply reads_const. Qed.

Lemma storage_get_same a s : reads_same (storage_get a s).
Proof. apply (reads_bind exec_rows); [by apply db_get_same|]. intros o. apply reads_const. Qed.

Lemma db_put_sim cf k v : sim (db_put cf k v).
Proof. apply (sim_wrap exec_rows (fun b => kv_put b cf k v)), put_sim. Qed.

Lemma db_delete_sim cf k : sim (db_delete cf k).
Proof. apply (sim_wrap exec_rows (fun b => kv_delete b cf k)), delete_sim. Qed.

Lemma storage_put_sim a s v : sim (storage_put a s v).
Proof. unfold storage_put. case_bool_decide; [apply db_delete_sim|apply db_put_sim]. Qed.

Lemma state_root_same : reads_same state_root.
Proof.
  apply (reads_bind exec_rows (fun b => root_pairs (kv_iter b State))); [|intros; apply reads_const].
  apply (reads_map exec_rows (fun b => kv_iter b State)). by apply iter_same.
Qed.

(** ** The virtual machine *)
Lemma revm_db_same b1 b2 : agree b1 b2 -> same_reads (revm_db b1) (revm_db b2).
Proof.
  intros Hag. split; cbn; intros; [by rewrite (account_same _ _ _ Hag)| |by rewrite (storage_get_same _ _ _ _ Hag)|done].
  unfold code_get. by rewrite (db_get_same Code (arr_bytes h) I _ _ Hag).
Qed.

Lemma exec_state_sim {A} (m : action B StateError A) : sim m -> sim (exec_state m).
Proof. apply (sim_wrap exec_rows m). Qed.

Lemma write_slots_sim a slots : sim (write_slots a slots).
Proof.
  induction slots as [|[i [[] v]] slots IH]; cbn [write_slots]; [apply sim_ret| |].
  - apply sim_bind; [apply exec_state_sim, storage_put_sim|done].
  - apply sim_bind; [apply sim_ret|done].
Qed.

Lemma write_accounts_sim changes : sim (write_accounts changes).
Proof.
  induction changes as [|[a acc] changes IH]; cbn [write_accounts]; [apply sim_ret|].
  apply sim_bind; [|done]. unfold write_account.
  apply sim_bind; [apply exec_state_sim, sim_reading, account_same|intros o].
  apply sim_bind; [apply exec_state_sim, db_put_sim|intros _].
  apply sim_bind; [|intros _; apply write_slots_sim].
  destruct (ai_code _) as [[|c cs]|]; [apply sim_ret|apply exec_state_sim, db_put_sim|apply sim_ret].
Qed.

Lemma execute_with_revm_sim s to v d gl gp : sim (execute_with_revm s to v d gl gp).
Proof.
  apply sim_bind.
  - apply sim_reading. intros b1 b2 Hag. by rewrite (revm_transact_reads _ _ _ (revm_db_same b1 b2 Hag)).
  - intros [r changes]. apply sim_bind; [apply write_accounts_sim|]. intros _. apply sim_ret.
Qed.

(** ** Crediting *)
Definition credited (d : N) (o : option Account) : Account :=
  let acc := default EMPTY_ACCOUNT o in
  mkAccount (a_nonce acc) (saturating_add u256_mod (a_balance acc) d) (a_storage_root acc) (a_code_hash acc).

Lemma credit_Ok b a d o : account a b = Ok o -> credit a d b = (set_account a (credited d o) b).1.
Proof. unfold credit. intros ->. by destruct o. Qed.

Lemma credit_same b1 b2 b1' a d :
  agree b1 b2 -> credit_state_for_roots a d b1 = (b1', Ok tt) -> agree b1' (credit_fee a d b2).
Proof.
  intros Hag. unfold credit_state_for_roots, credit_fee. destruct (d =? 0); [by intros [= <-]|].
  unfold io_state, reading, mbind, action_bind. pose proof (account_same a b1 b2 Hag) as Ha.
  destruct (account a b1) as [o|e|]; [|discriminate..]. cbn [map_err].
  rewrite (credit_Ok b2 a d o) by done. fold (credited d o).
  destruct (db_put_sim State (state_key a) (encode_account (credited d o)) b1 b2 Hag) as [Hag' _].
  unfold set_account. destruct (db_put State _ _ b1) as [b r]. cbn [fst] in Hag'. by intros [= <- _].
Qed.

Lemma may_receive_same a : reads_same (beneficiary_may_receive_block_subsidy a).
Proof.
  intros b1 b2 Hag. unfold beneficiary_may_receive_block_subsidy.
  by rewrite (latest_validator_set_same exec_rows exec_rows_tables b1 b2 Hag).
Qed.

(** What [attempt] gives, against the outcome on the other store. *)
Lemma attempt_sim {E A} (m : action B E A) b1 b2 b1' o :
  sim m -> agree b1 b2 -> attempt m b1 = (b1', Ok o) ->
  exists b2' r, m b2 = (b2', r) /\ agree b1' b2' /\ is_ok r = bool_decide (is_Some o) /\
    match o with Some a => r = Ok a | None => exists e, r = Err e end.
Proof.
  intros Hm Hag. unfold attempt. destruct (Hm b1 b2 Hag) as [Hag' Hr].
  destruct (m b1) as [c1 r1], (m b2) as [c2 r2]. cbn [fst snd] in *. subst r2.
  destruct r1 as [a|e|]; intros [= <- <-]; exists c2; eexists; split_and!; eauto.
Qed.

(** Success of an action, step by step. *)
(** ** The loops over the transactions *)
Lemma loops_agree spec h coinbase n txs : forall cum rs hrs b1 b2 b1' cum' rs',
  beneficiary h = coinbase -> number h = n -> agree b1 b2 -> snd <$> hrs = rs ->
  roots_loop spec coinbase n txs cum rs b1 = (b1', Ok (cum', rs')) ->
  exists b2' hrs', block_loop spec h txs cum hrs b2 = (b2', (cum', hrs')) /\
    agree b1' b2' /\ snd <$> hrs' = rs'.
Proof.
  induction txs as [|tx txs IH]; intros cum rs hrs b1 b2 b1' cum' rs' Hc Hn Hag Hrs Hrun;
    cbn [roots_loop block_loop] in *.
  { injection Hrun as <- <- <-. by exists b2, hrs. }
  destruct (recover_signer tx (chain_id spec)) as [sender|e|]; [|by eapply IH..].
  destruct (tx_call tx) as [[to value data gas_limit gas_price]|]; [|by eapply IH].
  subst coinbase n. case_bool_decide as Hto.
  - apply bind_action_Ok in Hrun as (c1 & o & Ho & Hrun).
    destruct (attempt_sim _ _ _ _ _ (dispatch_sim exec_rows exec_rows_tables sender value data (number h)
      (unbonding_period_blocks spec)) Hag Ho) as (c2 & r & Hr & Hag1 & Hok & _).
    rewrite Hr. apply bind_action_Ok in Hrun as (d1 & [] & Hd & Hrun).
    rewrite Hok. eapply IH; [done|done|by eapply credit_same| |exact Hrun].
    rewrite fmap_app, Hrs. done.
  - apply bind_action_Ok in Hrun as (c1 & o & Ho & Hrun).
    destruct (attempt_sim _ _ _ _ _ (execute_with_revm_sim sender to value data gas_limit gas_price) Hag Ho)
      as (c2 & r & Hr & Hag1 & _ & Hres).
    rewrite Hr. destruct o as [summary|].
    + subst r. apply bind_action_Ok in Hrun as (d1 & [] & Hd & Hrun).
      eapply IH; [done|done|by eapply credit_same| |exact Hrun]. rewrite fmap_app, Hrs. done.
    + destruct Hres as [e ->]. by eapply IH.
Qed.

(** ** Writes outside the rows, and the copy *)
Definition op_row (op : Op) : ColumnFamily * bytes :=
  match op with Put cf k _ | Delete cf k => (cf, k) end.

Lemma apply_op_other m op cf k : op_row op <> (cf, k) -> apply_op m op !! (cf, k) = m !! (cf, k).
Proof. destruct op; cbn; intros Hne; [by rewrite lookup_insert_ne|by rewrite lookup_delete_ne]. Qed.

Lemma apply_ops_other ops m cf k :
  Forall (fun op => op_row op <> (cf, k)) ops -> foldl apply_op m ops !! (cf, k) = m !! (cf, k).
Proof.
  intros Hops. revert m. induction Hops as [|op ops Hop _ IH]; intros m; [done|]. cbn [foldl].
  rewrite IH. by apply apply_op_other.
Qed.

Lemma kv_write_other b ops cf k :
  kv_ok b -> Forall (fun op => op_row op <> (cf, k)) ops ->
  kv_ok (kv_write b ops).1 /\ kv_view (kv_write b ops).1 !! (cf, k) = kv_view b !! (cf, k).
Proof.
  intros Hok Hops. destruct (kv_write_view b ops Hok) as (b' & -> & Hok' & Hv). split; [done|].
  cbn [fst]. rewrite Hv. by apply apply_ops_other.
Qed.

Lemma agree_write_other b1 b2 ops :
  agree b1 b2 -> Forall (fun op => ~ exec_rows (op_row op).1 (op_row op).2) ops ->
  agree b1 (kv_write b2 ops).1.
Proof.
  intros [Hok1 Hok2 Hv] Hops. split; [done| |].
  - destruct (kv_write_view b2 ops Hok2) as (b' & -> & Hok' & _). done.
  - intros cf k Hk. rewrite (Hv _ _ Hk). symmetry. apply kv_write_other; [done|].
    eapply Forall_impl; [exact Hops|]. intros op Hop Heq. apply Hop. by rewrite Heq.
Qed.

Lemma copy_items_view cf items : forall dst, kv_ok dst ->
  exists dst', copy_items cf (Ok <$> items) dst = (dst', Ok tt) /\ kv_ok dst' /\
    kv_view dst' = foldl apply_op (kv_view dst) ((fun kv => Put cf kv.1 kv.2) <$> items).
Proof.
  induction items as [|[k v] items IH]; intros dst Hok; [by exists dst|].
  cbn [fmap list_fmap copy_items foldl]. unfold mbind, action_bind, io_storage, reading. cbn [map_err].
  destruct (kv_put_view dst cf k v Hok) as (d1 & -> & Hok1 & Hv1). cbn [map_err].
  destruct (IH d1 Hok1) as (d2 & Hr & Hok2 & Hv2). unfold mbind, action_bind, io_storage, reading in Hr.
  exists d2. split_and!; [exact Hr|done|]. rewrite Hv2, Hv1. done.
Qed.

(** Inserting the items of a family one after the other. *)
Lemma foldl_puts (cf : ColumnFamily) (items : list (bytes * bytes)) (m : gmap (ColumnFamily * bytes) bytes) (cf' : ColumnFamily) k :
  NoDup items.*1 ->
  foldl apply_op m ((fun kv => Put cf kv.1 kv.2) <$> items) !! (cf', k) =
    if bool_decide (cf' = cf) then
      match (list_to_map items : gmap bytes bytes) !! k with Some v => Some v | None => m !! (cf', k) end
    else m !! (cf', k).
Proof.
  revert m. induction items as [|[k0 v0] items IH]; intros m Hnd; cbn [fmap list_fmap foldl].
  - case_bool_decide; [|done]. by rewrite list_to_map_nil, lookup_empty.
  - apply NoDup_cons in Hnd as [Hk0 Hnd]. cbn [fst] in Hk0. cbn [fst snd]. rewrite IH by done. cbn [apply_op].
    case_bool_decide as Hcf; [subst cf'|rewrite lookup_insert_ne; [done|intros [= ? _]; congruence]].
    change (list_to_map ((k0, v0) :: items)) with (<[k0 := v0]> (list_to_map items : gmap bytes bytes)).
    destruct (decide (k0 = k)) as [->|Hne].
    + by rewrite (not_elem_of_list_to_map_1 _ _ Hk0), !lookup_insert_eq.
    + rewrite (lookup_insert_ne m) by (intros [= ?]; done). by rewrite lookup_insert_ne by done.
Qed.

Lemma copy_family_view cf src dst :
  kv_ok src -> kv_ok dst -> (forall k, kv_view dst !! (cf, k) = None) ->
  exists dst', copy_items cf (kv_iter src cf) dst = (dst', Ok tt) /\ kv_ok dst' /\
    forall cf' k, kv_view dst' !! (cf', k) =
      if bool_decide (cf' = cf) then kv_view src !! (cf, k) else kv_view dst !! (cf', k).
Proof.
  intros Hs Hd Hempty. destruct (kv_iter_view src cf Hs) as (items & -> & Hasc & Hin).
  destruct (copy_items_view cf items dst Hd) as (dst' & Hr & Hok & Hv). exists dst'.
  split_and!; [done..|]. intros cf' k. rewrite Hv, foldl_puts by by apply ascending_keys.
  case_bool_decide as Hcf; [|done]. subst cf'. rewrite Hempty. apply option_eq. intros v.
  rewrite <-Hin, (elem_of_list_to_map (M := gmap bytes)) by by apply ascending_keys.
  by destruct (list_to_map items !! k).
Qed.

Lemma copy_view src dst :
  kv_ok src -> kv_ok dst -> kv_view dst = ∅ ->
  exists dst', copy_execution_backend src dst = (dst', Ok tt) /\ agree dst' src.
Proof.
  intros Hs Hd He. unfold copy_execution_backend. cbn [copy_families]. unfold mbind, action_bind.
  assert (He' : forall cf k, kv_view dst !! (cf, k) = None) by (intros; by rewrite He, lookup_empty).
  destruct (copy_family_view State src dst Hs Hd ltac:(auto)) as (d1 & -> & Hok1 & Hv1).
  destruct (copy_family_view Code src d1 Hs Hok1) as (d2 & -> & Hok2 & Hv2); [intros; rewrite Hv1; apply He'|].
  destruct (copy_family_view AccountStorage src d2 Hs Hok2) as (d3 & -> & Hok3 & Hv3);
    [intros; rewrite Hv2, Hv1; apply He'|].
  destruct (copy_family_view Meta src d3 Hs Hok3) as (d4 & -> & Hok4 & Hv4);
    [intros; rewrite Hv3, Hv2, Hv1; apply He'|].
  exists d4. split; [done|]. split; [done..|]. intros cf k Hk.
  rewrite Hv4, Hv3, Hv2, Hv1. by destruct cf.
Qed.
End lockstep.
