(* ===== verification/NodeProps.v ===== *)
(** * NodeProps: what committing a block does

    The roots of a proposal are the roots of the chain; commits are applied once, forks
    are recorded and change nothing else; the node's records read back. *)
From stdpp Require Import base tactics gmap numbers sets strings list.
From Stdlib Require Import NArith Lia.
From Stdlib.Init Require Import Byte.
From S2P Require Import Prelude Bytes Crypto Bft Coordinator Slashing Codec Secp Tx ToyRlp Trie Receipt Block Engine.
From S2P Require Import Storage StateDb Evm Staking Governance ChainSpec Dpos Simulate Precompile NodeExec.
From S2P Require Import Frames Microchain NodeState NodeSim.

Section commit.
Context `{Primitives} `{R : Rlp} `{K : K256} `{V : Revm} `{!RevmLaws V}.
Context {B : Type} `{HB : KvBackend B} {HL : KvLaws B}.
Implicit Types (b : B).

(** ** Frames: which rows the steps after the execution touch *)
Lemma write_same_but (t : ColumnFamily -> bytes -> Prop) b ops :
  kv_ok b -> Forall (fun op => t (op_row op).1 (op_row op).2) ops -> same_but t b (kv_write b ops).1.
Proof.
  intros Hok Hops. split.
  - destruct (kv_write_view b ops Hok) as (b' & -> & Hok' & _). done.
  - intros cf k Hk. apply kv_write_other; [done|]. eapply Forall_impl; [exact Hops|].
    intros op Hop Heq. cbv beta in Hop. rewrite Heq in Hop. done.
Qed.

Definition index_rows (cf : ColumnFamily) (k : bytes) : Prop :=
  match cf with
  | Headers | Bodies | TxLookup => True
  | Meta => exists n, k = number_key n
  | _ => False
  end.

Lemma persist_block_frame block hash b : kv_ok b -> same_but index_rows b (persist_block block hash b).
Proof.
  intros Hok. apply write_same_but; [done|]. apply Forall_app. split.
  - repeat constructor; cbn. by eexists.
  - apply Forall_forall. intros op (i & t & -> & _)%elem_of_lookup_imap. done.
Qed.

Lemma agree_index b1 b2 b2' : agree exec_rows b1 b2 -> same_but index_rows b2 b2' -> agree exec_rows b1 b2'.
Proof.
  intros [Hok1 Hok2 Hv] [Hok2' Hs]. split; [done..|]. intros cf k Hk. rewrite (Hv _ _ Hk). symmetry.
  apply Hs. intros Hi. destruct cf; try done. destruct Hi as [n ->].
  apply Hk. unfold number_key. by rewrite take_app_length.
Qed.

Definition anchor_rows (cf : ColumnFamily) (k : bytes) : Prop := cf = MicroChain.

Lemma scan_frame spec block parent b :
  kv_ok b -> same_but anchor_rows b (scan_microchain_anchors spec block parent b).
Proof.
  unfold scan_microchain_anchors. revert b. induction (transactions (body block)) as [|t ts IH]; intros b Hok.
  - by apply same_but_refl.
  - cbn [foldl]. destruct (tx_anchor _ _ t) as [[id anchor]|]; [|by apply IH].
    assert (same_but anchor_rows b (persist_flush_anchor id anchor b)) as Hp by by apply put_same_but.
    eapply same_but_trans; [exact Hp|]. apply IH, Hp.
Qed.

Definition epoch_rows (cf : ColumnFamily) (k : bytes) : Prop :=
  cf = Meta /\ VALIDATOR_SET_PREFIX `prefix_of` k.

Lemma persist_set_frame epoch set b :
  kv_ok b -> same_but epoch_rows b (persist_validator_set epoch set b).1.
Proof.
  intros Hok. unfold persist_validator_set, mbind, action_bind, reading.
  destruct (encode_entries _ set) as [x|e|]; [|by apply same_but_refl..].
  unfold meta_put. pose proof (put_same_but epoch_rows b Meta (epoch_key epoch)
    (be_bytes 4 (N.min (len set) (u32_mod - 1)) ++ x) Hok) as Hp.
  destruct (kv_put b Meta (epoch_key epoch) _) as [b' r]. cbn [fst] in *. apply Hp.
  split; [done|]. by eexists.
Qed.

Lemma elect_frame spec n b : kv_ok b -> same_but epoch_rows b (maybe_elect_validator_set spec n b).
Proof.
  intros Hok. unfold maybe_elect_validator_set. destruct (_ || _); [by apply same_but_refl|].
  destruct (match _ with [] => _ | _ => _ end) as [set|e|]; [|by apply same_but_refl..].
  by apply persist_set_frame.
Qed.

(** ** The two executions of a body *)
Lemma encode_decode_roots r : decode_roots (encode_roots r) = Some r.
Proof.
  unfold decode_roots, encode_roots.
  assert (len (arr_bytes (n_state_root r) ++ arr_bytes (n_receipts_root r) ++ arr_bytes (n_logs_bloom r)) = 320) as ->.
  { unfold len. rewrite !length_app, !arr_length. done. }
  change (negb (320 =? 32 + 32 + 256)) with false. cbn iota.
  assert (forall (x y z : bytes), length x = 32%nat -> length y = 32%nat ->
    take 32 (x ++ y ++ z) = x /\ take 32 (drop 32 (x ++ y ++ z)) = y /\ drop 64 (x ++ y ++ z) = z) as Hcut.
  { intros x y z Hx Hy. rewrite take_app_length', drop_app_length' by done.
    rewrite take_app_length' by done. split_and!; [done..|].
    change 64%nat with (32 + 32)%nat. by rewrite <-drop_drop, !drop_app_length'. }
  destruct (Hcut (arr_bytes (n_state_root r)) (arr_bytes (n_receipts_root r)) (arr_bytes (n_logs_bloom r)))
    as (-> & -> & ->); [by rewrite arr_length..|].
  rewrite !arr_of_arr_bytes. by destruct r.
Qed.

(** The bundle that the node keeps of the roots of a proposal. *)
Definition without_gas (r : PostBlockRoots) : NodeRoots :=
  mkNodeRoots (r_state_root r) (r_receipts_root r) (r_logs_bloom r).

Lemma receipts_frame receipts b : kv_ok b -> same_but (fun cf _ => cf = Receipts) b (persist_receipts receipts b).
Proof.
  intros Hok. unfold persist_receipts. destruct receipts as [|r rs]; [by apply same_but_refl|].
  apply write_same_but; [done|]. apply Forall_fmap, Forall_forall. by intros.
Qed.

Lemma execute_same spec h bd b1 b2 b1' roots :
  agree exec_rows b1 b2 ->
  execute_body_for_roots spec bd (beneficiary h) (number h) b1 = (b1', Ok roots) ->
  exists b2', execute_block_txs spec (mkBlock h bd) b2 =
      persist_post_roots (header_hash h) (without_gas roots) b2' /\ kv_ok b2' /\
    StateDb.state_root b2' = Ok (r_state_root roots).
Proof.
  intros Hag Hrun. unfold execute_body_for_roots in Hrun.
  apply bind_action_Ok in Hrun as (c1 & [cum rs] & Hloop & Hrun).
  destruct (loops_agree spec h _ _ (transactions bd) 0 [] [] b1 b2 c1 cum rs eq_refl eq_refl Hag eq_refl Hloop)
    as (c2 & hrs & Hl2 & Hag1 & Hrs).
  apply bind_action_Ok in Hrun as (c1' & may & Hmay & Hrun). injection Hmay as <- <-.
  rewrite (may_receive_same _ _ _ Hag1) in Hrun.
  apply bind_action_Ok in Hrun as (d1 & [] & Hcr & Hrun).
  set (subsidy := block_reward_at spec (number h)) in *.
  set (d2 := if (0 <? subsidy) && beneficiary_may_receive_block_subsidy (beneficiary h) c2
             then credit (beneficiary h) subsidy c2 else c2).
  assert (agree exec_rows d1 d2) as Hag2.
  { unfold d2. destruct ((0 <? subsidy) && _) eqn:Hc; [|by injection Hcr as <-].
    apply andb_prop in Hc as [Hpos%N.ltb_lt _]. pose proof (credit_same _ _ _ _ _ Hag1 Hcr) as Hcs.
    unfold credit_fee in Hcs. destruct (N.eqb_spec subsidy 0); [lia|done]. }
  apply bind_action_Ok in Hrun as (d1' & root & Hroot & Hrun). injection Hrun as <- <-.
  unfold io_state, reading in Hroot. injection Hroot as <- Hroot.
  apply map_err_Ok in Hroot. pose proof (receipts_frame hrs d2 (ag_ok2 _ _ _ Hag2)) as [Hok3 Hfr].
  assert (StateDb.state_root (persist_receipts hrs d2) = Ok root) as Hroot3.
  { rewrite <-Hroot, (state_root_same _ _ Hag2). apply state_root_view; [done|apply Hag2|]. intros k. by apply Hfr. }
  exists (persist_receipts hrs d2). split_and!; [|exact Hok3|exact Hroot3].
  unfold execute_block_txs. cbn [header body]. rewrite Hl2. fold subsidy. fold d2.
  unfold computed_roots. rewrite Hroot3, Hrs. done.
Qed.

Lemma postroot_other n h : postroot_key h <> number_key n.
Proof. unfold postroot_key, number_key, META_KEY_POSTROOT_PREFIX, NUMBER_PREFIX. cbn. discriminate. Qed.

Lemma postroot_not_epoch h : ~ epoch_rows Meta (postroot_key h).
Proof. intros [_ [s Hs]]. revert Hs. unfold postroot_key, META_KEY_POSTROOT_PREFIX, VALIDATOR_SET_PREFIX. cbn. discriminate. Qed.

(** A block that is new to the index and whose height is free is executed. *)
Lemma commit_new (self : NodeState) block :
  by_hash (ns_blocks self) !! block_hash block = None ->
  by_number (ns_blocks self) !! number (header block) = None ->
  ns_backend (commit_block self block) =
    maybe_elect_validator_set (ns_spec self) (number (header block))
      (scan_microchain_anchors (ns_spec self) block (block_hash block)
         (execute_block_txs (ns_spec self) block (persist_block block (block_hash block) (ns_backend self)))).
Proof. intros Hh Hn. unfold commit_block, commit_block_capped. by rewrite Hh, Hn. Qed.

Lemma commit_roots (self : NodeState) temp h bd roots :
  kv_ok (ns_backend self) -> kv_ok temp -> kv_view temp = ∅ ->
  by_hash (ns_blocks self) !! header_hash h = None -> by_number (ns_blocks self) !! number h = None ->
  execute_for_proposal (ns_spec self) (ns_backend self) (Ok temp) bd (beneficiary h) (number h) = Ok roots ->
  let b := ns_backend (commit_block self (mkBlock h bd)) in
  post_roots (header_hash h) b = Ok (Some (without_gas roots)) /\
  StateDb.state_root b = Ok (r_state_root roots).
Proof.
  intros Hok Htok Hempty Hh Hn Hrun. cbn zeta. rewrite commit_new by done. cbn [header body].
  change (block_hash (mkBlock h bd)) with (header_hash h).
  unfold execute_for_proposal in Hrun. cbn [map_err mbind res_bind] in Hrun.
  destruct (copy_view (ns_backend self) temp Hok Htok Hempty) as (t1 & Hcopy & Hag).
  unfold mbind, action_bind in Hrun. rewrite Hcopy in Hrun.
  destruct (execute_body_for_roots _ bd (beneficiary h) (number h) t1) as [t2 r] eqn:Hexec.
  cbn [snd] in Hrun. subst r.
  pose proof (agree_index _ _ _ Hag (persist_block_frame (mkBlock h bd) (header_hash h) _ Hok)) as Hag'.
  destruct (execute_same _ _ _ _ _ _ _ Hag' Hexec) as (b2 & Hb2 & Hok2 & Hroot). rewrite Hb2.
  set (b3 := persist_post_roots _ _ b2).
  assert (same_but (fun cf _ => cf = Meta) b2 b3) as [Hok3 Hf3] by by apply put_same_but.
  pose proof (scan_frame (ns_spec self) (mkBlock h bd) (header_hash h) b3 Hok3) as [Hok4 Hf4].
  set (b4 := scan_microchain_anchors _ _ _ b3) in *.
  pose proof (elect_frame (ns_spec self) (number h) b4 Hok4) as [Hok5 Hf5].
  set (b5 := maybe_elect_validator_set _ _ b4) in *. split.
  - unfold post_roots, meta_get. rewrite kv_get_view by done.
    rewrite Hf5 by apply postroot_not_epoch. rewrite Hf4 by done. unfold b3, persist_post_roots.
    destruct (kv_put_view b2 Meta (postroot_key (header_hash h)) (encode_roots (without_gas roots)) Hok2)
      as (b' & -> & _ & Hv). cbn [fst]. rewrite Hv, lookup_insert_eq. cbn. by rewrite encode_decode_roots.
  - rewrite <-Hroot. apply state_root_view; [done..|]. intros k.
    rewrite Hf5 by (by intros [? _]). rewrite Hf4, Hf3 by done. done.
Qed.

(** C7. The roots that a proposer puts into a header by executing the body on a copy of its
    state are the roots that the chain computes when it commits the block: whenever
    [execute_for_proposal] succeeds against the live database, then after
    [commit_block] of a new block with that body, beneficiary and height the persisted
    record of the block holds exactly those roots and bloom, and the state root of the
    live database is the proposed one - although the chain executes through different
    code, after having written the block itself, and writes receipts, anchors and
    election records as well. *)
Theorem proposal_equals_commit (self : NodeState) temp h bd roots :
  kv_ok (ns_backend self) -> kv_ok temp -> kv_view temp = ∅ ->
  by_hash (ns_blocks self) !! header_hash h = None -> by_number (ns_blocks self) !! number h = None ->
  execute_for_proposal (ns_spec self) (ns_backend self) (Ok temp) bd (beneficiary h) (number h) = Ok roots ->
  let b := ns_backend (commit_block self (mkBlock h bd)) in
  post_roots (header_hash h) b = Ok (Some (without_gas roots)) /\
  StateDb.state_root b = Ok (r_state_root roots).
Proof. apply commit_roots. Qed.

(** The executor that the node gives to its engine. *)
Definition node_executor (spec : ChainSpec) (live : B) (temp : res StorageError B)
    (bd : BlockBody) (coinbase : Address) (n : N) : ConsensusError + PostBlockRoots :=
  match execute_for_proposal spec live temp bd coinbase n with
  | Ok roots => inr roots
  | Err e => inl e
  | Panic => inl (Io "panic")
  end.

(** C8. End to end, from the engine to the state: a block that the BFT engine builds with the
    node's executor over a node's database, once the executor succeeded, carries in its
    header the state root, receipts root, bloom and gas of its own execution; committing
    it on a node with that database persists exactly the roots of the header and leaves
    the database with the header's state root. *)
Theorem header_locks_to_execution (c : BftConfig) (self : NodeState) temp roots parent ts height pf cb bd :
  executor c = Some (node_executor (ns_spec self) (ns_backend self) (Ok temp)) ->
  kv_ok (ns_backend self) -> kv_ok temp -> kv_view temp = ∅ ->
  execute_for_proposal (ns_spec self) (ns_backend self) (Ok temp) bd cb height = Ok roots ->
  let blk := build_block_with_body c parent ts height pf cb bd in
  by_hash (ns_blocks self) !! block_hash blk = None -> by_number (ns_blocks self) !! height = None ->
  let b := ns_backend (commit_block self blk) in
  post_roots (block_hash blk) b =
    Ok (Some (mkNodeRoots (Block.state_root (header blk)) (Block.receipts_root (header blk)) (logs_bloom (header blk)))) /\
  StateDb.state_root b = Ok (Block.state_root (header blk)) /\ Block.gas_used (header blk) = r_gas_used roots.
Proof.
  intros Hex Hok Htok Hempty Hrun. cbn zeta. intros Hh Hn.
  assert (roots_for c bd cb height = roots) as Hroots.
  { unfold roots_for. rewrite Hex. unfold node_executor. by rewrite Hrun. }
  unfold build_block_with_body in *. rewrite Hroots in *.
  set (h := mkHeader _ _ _ _ _ _ _ _ _ _ _ _ _ _ _ _ _ _ _ _) in *.
  destruct (commit_roots self temp h bd roots Hok Htok Hempty Hh Hn Hrun) as [Hp Hs].
  cbn zeta in *. split_and!; [exact Hp|exact Hs|reflexivity].
Qed.

(** ** The nonce *)

(** Two transactions with the same sender, call and type, as the executions see them. *)
Definition same_effect (spec : ChainSpec) (t t' : Tx) : Prop :=
  recover_signer t (chain_id spec) = recover_signer t' (chain_id spec) /\ tx_call t = tx_call t' /\ tx_ty t = tx_ty t'.

Lemma roots_loop_ext spec coinbase n txs txs' cum rs :
  Forall2 (same_effect spec) txs txs' ->
  forall b, roots_loop spec coinbase n txs cum rs b = roots_loop spec coinbase n txs' cum rs b.
Proof.
  intros Hs. revert cum rs. induction Hs as [|t t' txs txs' (Hr & Hc & Ht) Hs IH]; intros cum rs b; [done|].
  cbn [roots_loop]. rewrite Hr, Hc, Ht.
  destruct (recover_signer t' (chain_id spec)) as [sender|e|]; [|by apply IH..].
  destruct (tx_call t') as [[to value data gas_limit gas_price]|]; [|by apply IH].
  destruct (bool_decide _); unfold mbind, action_bind; cbv beta.
  - destruct (attempt _ b) as [b1 [o|e|]]; [|done..].
    destruct (credit_state_for_roots _ _ b1) as [b2 [[]|e|]]; [|done..]. by apply IH.
  - destruct (attempt _ b) as [b1 [[summary|]|e|]]; [|by apply IH|done..].
    destruct (credit_state_for_roots _ _ b1) as [b2 [[]|e|]]; [|done..]. by apply IH.
Qed.

(** The nonce of a transaction never reaches its execution: two bodies whose
    transactions have pairwise the same sender, call (recipient, value, data, gas) and
    type execute to the same roots, whatever their nonces are and whatever the senders'
    accounts say.  So a transaction with any nonce, used ones included, is executed. *)
Theorem nonce_never_checked spec live temp bd bd' cb n :
  Forall2 (same_effect spec) (transactions bd) (transactions bd') ->
  execute_for_proposal spec live temp bd cb n = execute_for_proposal spec live temp bd' cb n.
Proof.
  intros Hs. unfold execute_for_proposal. destruct temp as [t|e|]; [|done..]. cbn [map_err mbind res_bind].
  f_equal. unfold mbind, action_bind. destruct (copy_execution_backend live t) as [b1 [[]|e|]]; [|done..].
  unfold execute_body_for_roots, mbind, action_bind. by rewrite (roots_loop_ext _ _ _ _ _ _ _ Hs).
Qed.

(** ** Blocks seen before, and forks *)

(** Committing a block whose hash is in the index does nothing at all.  A block at a
    height where the index holds another block changes neither the index nor the head
    nor any row but one: its fork record, which names both blocks and which
    [list_forks] then reports; balances, code and storage stay as they are. *)
Theorem commit_seen_or_fork (self : NodeState) block canonical :
  kv_ok (ns_backend self) -> number (header block) < u64_mod ->
  (is_Some (by_hash (ns_blocks self) !! block_hash block) -> commit_block self block = self) /\
  (by_hash (ns_blocks self) !! block_hash block = None ->
   by_number (ns_blocks self) !! number (header block) = Some canonical -> canonical <> block_hash block ->
   let self' := commit_block self block in
   ns_blocks self' = ns_blocks self /\ ns_head self' = ns_head self /\
   same_but (fun cf k => cf = Meta /\ k = fork_key (number (header block)) (block_hash block))
     (ns_backend self) (ns_backend self') /\
   StateDb.state_root (ns_backend self') = StateDb.state_root (ns_backend self) /\
   exists forks, list_forks (ns_backend self') = Ok forks /\
     mkFork (number (header block)) canonical (block_hash block) ∈ forks).
Proof.
  intros Hok Hlt. split.
  - intros [x Hx]. unfold commit_block, commit_block_capped. by rewrite Hx.
  - intros Hh Hn Hne. cbn zeta. unfold commit_block, commit_block_capped. rewrite Hh, Hn.
    rewrite bool_decide_eq_false_2 by done. cbn [set_backend ns_blocks ns_head ns_backend].
    set (n := number (header block)) in *. set (hash := block_hash block) in *.
    unfold record_fork, meta_write.
    assert (same_but (fun cf k => cf = Meta /\ k = fork_key n hash) (ns_backend self)
      (kv_put (ns_backend self) Meta (fork_key n hash) (arr_bytes canonical)).1) as Hs by by apply put_same_but.
    destruct (kv_put_view (ns_backend self) Meta (fork_key n hash) (arr_bytes canonical) Hok)
      as (b' & Hput & Hok' & Hv). rewrite Hput in *. cbn [fst] in *.
    split_and!; [done..|exact Hs| |].
    + apply state_root_view; [done..|]. intros k. apply Hs. by intros [? _].
    + unfold list_forks. destruct (kv_iter_prefix_view b' Meta META_KEY_FORK_PREFIX Hok') as (items & -> & _ & Hin).
      rewrite collect_entries_Ok. eexists. split; [done|]. apply list_elem_of_omap.
      exists (fork_key n hash, arr_bytes canonical). split.
      { apply Hin. rewrite Hv, lookup_insert_eq. split; [done|]. by eexists. }
      unfold fork_entry, fork_key. rewrite drop_app_length. unfold len.
      rewrite length_app, length_be_bytes, !arr_length. cbn [negb orb].
      rewrite (take_app_length' _ _ 8), (drop_app_length' _ _ 8) by (by rewrite length_be_bytes).
      rewrite !arr_of_arr_bytes. cbn [mbind option_bind]. by rewrite be_value_small.
Qed.
End commit.
