(* ===== verification/NodeIndex.v ===== *)
(** * NodeIndex: the in-memory block index

    The index of [NodeState] stays consistent and bounded; what it forgets is executed
    again; a restart rebuilds it from disk. *)
From stdpp Require Import base tactics gmap numbers sets strings list.
From Stdlib Require Import NArith Lia.
From S2P Require Import Prelude Bytes Crypto Bft Coordinator Slashing Codec Secp Tx ToyRlp Trie Receipt Block Engine.
From S2P Require Import Storage StateDb Evm Staking Governance ChainSpec Dpos Simulate Precompile NodeExec.
From S2P Require Import Frames Microchain NodeState NodeSim NodeProps.

Section index.
Context `{Primitives} `{Rlp}.
Implicit Types (s : BlockStore).

(** The maps describe the same blocks, those of [order], at distinct heights. *)
Record store_wf s : Prop := {
  sw_nodup : NoDup (order s);
  sw_hashes : forall h, is_Some (by_hash s !! h) <-> h ∈ order s;
  sw_bodies : forall h, is_Some (body_by_hash s !! h) <-> h ∈ order s;
  sw_numbers : forall n h, by_number s !! n = Some h <-> exists hd, by_hash s !! h = Some hd /\ number hd = n
}.

Lemma store_wf_default : store_wf BlockStore_default.
Proof.
  split; cbn; [constructor|..]; intros; rewrite ?lookup_empty.
  - split; [by intros []|by intros ?%not_elem_of_nil].
  - split; [by intros []|by intros ?%not_elem_of_nil].
  - split; [done|]. intros (hd & Hl & _). done.
Qed.

Lemma insert_wf s block hash :
  store_wf s -> by_hash s !! hash = None -> by_number s !! number (header block) = None ->
  store_wf (insert_block s block hash).
Proof.
  intros [Hnd Hh Hb Hn] Hnew Hfree.
  assert (hash ∉ order s) as Hno by (rewrite <-Hh, Hnew; by intros []).
  split; cbn [insert_block order by_hash body_by_hash by_number].
  - apply NoDup_app. split_and!; [done| |apply NoDup_singleton]. intros x Hx ->%list_elem_of_singleton. done.
  - intros h. rewrite elem_of_app, list_elem_of_singleton, <-Hh.
    destruct (decide (hash = h)) as [->|Hne]; [rewrite lookup_insert_eq; split; eauto|].
    rewrite lookup_insert_ne by done. naive_solver.
  - intros h. rewrite elem_of_app, list_elem_of_singleton, <-Hb.
    destruct (decide (hash = h)) as [->|Hne]; [rewrite lookup_insert_eq; split; eauto|].
    rewrite lookup_insert_ne by done. naive_solver.
  - intros n h. destruct (decide (number (header block) = n)) as [<-|Hne].
    + rewrite lookup_insert_eq. split.
      * intros [= <-]. exists (header block). by rewrite lookup_insert_eq.
      * intros (hd & Hl & Heq). destruct (decide (hash = h)) as [->|Hne]; [done|].
        rewrite lookup_insert_ne in Hl by done. exfalso.
        assert (by_number s !! number (header block) = Some h) by (apply Hn; eauto). congruence.
    + rewrite lookup_insert_ne, Hn by done. split; intros (hd & Hl & Heq).
      * exists hd. split; [|done]. rewrite lookup_insert_ne; [done|]. intros ->. congruence.
      * exists hd. split; [|done]. destruct (decide (hash = h)) as [->|Hne'].
        -- rewrite lookup_insert_eq in Hl. by injection Hl as <-.
        -- by rewrite lookup_insert_ne in Hl.
Qed.

Lemma evict_one_wf s oldest rest :
  store_wf s -> order s = oldest :: rest -> store_wf (evict_one s oldest rest).
Proof.
  intros [Hnd Hh Hb Hn] Ho. rewrite Ho in Hnd, Hh, Hb. apply NoDup_cons in Hnd as [Hno Hnd].
  destruct (proj2 (Hh oldest) ltac:(left)) as [hd Hhd]. destruct (proj2 (Hb oldest) ltac:(left)) as [bd Hbd].
  unfold evict_one. rewrite Hhd, Hbd. split; cbn [order by_hash body_by_hash by_number]; [done|..].
  - intros h. destruct (decide (oldest = h)) as [->|Hne].
    + rewrite lookup_delete_eq. split; [by intros []|done].
    + rewrite lookup_delete_ne, Hh by done. rewrite elem_of_cons. naive_solver.
  - intros h. destruct (decide (oldest = h)) as [->|Hne].
    + rewrite lookup_delete_eq. split; [by intros []|done].
    + rewrite lookup_delete_ne, Hb by done. rewrite elem_of_cons. naive_solver.
  - intros n h. destruct (decide (number hd = n)) as [<-|Hne].
    + rewrite lookup_delete_eq. split; [done|]. intros (hd' & Hl & Heq).
      destruct (decide (oldest = h)) as [->|Hne]; [by rewrite lookup_delete_eq in Hl|].
      rewrite lookup_delete_ne in Hl by done.
      assert (by_number s !! number hd = Some oldest) by (apply Hn; eauto).
      assert (by_number s !! number hd = Some h) by (apply Hn; eauto). congruence.
    + rewrite lookup_delete_ne, Hn by done. split; intros (hd' & Hl & Heq); exists hd'; (split; [|done]).
      * rewrite lookup_delete_ne; [done|]. intros ->. congruence.
      * destruct (decide (oldest = h)) as [->|]; [by rewrite lookup_delete_eq in Hl|].
        by rewrite lookup_delete_ne in Hl.
Qed.

Lemma order_evict_one s oldest rest : order (evict_one s oldest rest) = rest.
Proof. unfold evict_one. by destruct (by_hash s !! oldest), (body_by_hash s !! oldest). Qed.

Lemma evict_wf cap fuel s :
  store_wf s -> (length (order s) <= fuel)%nat -> store_wf (evict cap fuel s) /\ (length (order (evict cap fuel s)) <= cap \/ order s = [] /\ order (evict cap fuel s) = [])%nat.
Proof.
  revert s. induction fuel as [|fuel IH]; intros s Hwf Hlen; cbn [evict].
  - split; [done|]. right. destruct (order s); [done|]. cbn in Hlen. lia.
  - destruct (order s) as [|oldest rest] eqn:Ho; [by auto|].
    destruct (Nat.ltb_spec cap (length (oldest :: rest))) as [Hlt|Hge].
    2:{ split; [done|]. left. by rewrite Ho. }
    destruct (IH (evict_one s oldest rest)) as [Hwf' Hl].
    + by apply evict_one_wf.
    + rewrite order_evict_one. cbn in Hlen. lia.
    + split; [done|]. left. destruct Hl as [Hl|[_ ->]]; [done|]. cbn. lia.
Qed.

Lemma index_block_wf cap s block hash :
  store_wf s -> by_hash s !! hash = None -> by_number s !! number (header block) = None ->
  store_wf (index_block cap s block hash) /\ (length (order (index_block cap s block hash)) <= cap)%nat.
Proof.
  intros Hwf Hh Hn. pose proof (insert_wf s block hash Hwf Hh Hn) as Hi. unfold index_block.
  destruct (evict_wf cap _ _ Hi (Nat.le_refl _)) as [Hw [Hl|[Ho _]]]; [done|].
  cbn in Ho. by destruct (order s).
Qed.

(** Eviction keeps the tail of the order. *)
Lemma evict_order cap fuel s :
  (length (order s) <= fuel)%nat -> order (evict cap fuel s) = drop (length (order s) - cap) (order s).
Proof.
  revert s. induction fuel as [|fuel IH]; intros s Hlen; cbn [evict].
  - destruct (order s); [by rewrite drop_nil|]. cbn in Hlen. lia.
  - destruct (order s) as [|oldest rest] eqn:Ho; [by rewrite Ho, drop_nil|].
    destruct (Nat.ltb_spec cap (length (oldest :: rest))) as [Hlt|Hge].
    + rewrite IH, order_evict_one by (rewrite order_evict_one; cbn in Hlen; lia). cbn [length] in *.
      replace (S (length rest) - cap)%nat with (S (length rest - cap)) by lia. done.
    + rewrite Ho. by replace (length (oldest :: rest) - cap)%nat with 0%nat by lia.
Qed.

Lemma index_block_order cap s block hash :
  order (index_block cap s block hash) = drop (S (length (order s)) - cap) (order s ++ [hash]).
Proof.
  unfold index_block. rewrite evict_order by done. cbn [insert_block order].
  by rewrite length_app, Nat.add_comm.
Qed.

Lemma evict_sub cap fuel s h : h ∈ order (evict cap fuel s) -> h ∈ order s.
Proof.
  revert s. induction fuel as [|fuel IH]; intros s; cbn [evict]; [done|].
  destruct (order s) as [|oldest rest] eqn:Ho; [by rewrite Ho|].
  destruct (cap <? _)%nat; [|by rewrite Ho]. intros Hin%IH. rewrite order_evict_one in Hin. by right.
Qed.

(** What stays in the order keeps its header and body. *)
Lemma evict_lookup cap fuel s h :
  NoDup (order s) -> h ∈ order (evict cap fuel s) ->
  by_hash (evict cap fuel s) !! h = by_hash s !! h /\ body_by_hash (evict cap fuel s) !! h = body_by_hash s !! h.
Proof.
  revert s. induction fuel as [|fuel IH]; intros s Hnd; cbn [evict]; [done|].
  destruct (order s) as [|oldest rest] eqn:Ho; [done|].
  destruct (Nat.ltb_spec cap (length (oldest :: rest))) as [Hlt|Hge]; [|done].
  intros Hin. apply NoDup_cons in Hnd as [Hno Hnd].
  destruct (IH (evict_one s oldest rest)) as [-> ->]; [by rewrite order_evict_one|done|].
  assert (h <> oldest) as Hne.
  { intros ->. apply evict_sub in Hin. by rewrite order_evict_one in Hin. }
  unfold evict_one. destruct (by_hash s !! oldest), (body_by_hash s !! oldest); cbn;
    rewrite ?lookup_delete_ne by done; done.
Qed.
End index.

Section node.
Context `{Primitives} `{R : Rlp} `{K : K256} `{V : Revm}.
Context {B : Type} `{HB : KvBackend B}.

(** The states of a node that started empty: any commits and head updates. *)
Inductive node_reach (cap : nat) (spec : ChainSpec) (b0 : B) : NodeState -> Prop :=
| nr_new : node_reach cap spec b0 (NodeState_new spec b0)
| nr_commit self block : node_reach cap spec b0 self -> node_reach cap spec b0 (commit_block_capped cap self block)
| nr_head self n : node_reach cap spec b0 self -> node_reach cap spec b0 (set_head self n).

Definition is_new (self : NodeState (B := B)) (block : Block) : Prop :=
  by_hash (ns_blocks self) !! block_hash block = None /\ by_number (ns_blocks self) !! number (header block) = None.

Lemma commit_blocks cap self block :
  ns_blocks (commit_block_capped cap self block) = ns_blocks self \/
  is_new self block /\
  ns_blocks (commit_block_capped cap self block) = index_block cap (ns_blocks self) block (block_hash block) \/
  by_hash (ns_blocks self) !! block_hash block = None /\
  by_number (ns_blocks self) !! number (header block) = Some (block_hash block).
Proof.
  unfold commit_block_capped, is_new. destruct (by_hash (ns_blocks self) !! block_hash block) eqn:Hh; [by left|].
  destruct (by_number (ns_blocks self) !! number (header block)) as [x|] eqn:Hn; [|by auto].
  case_bool_decide as Hx; [|by left]. subst x. auto.
Qed.

Lemma commit_wf cap self block :
  store_wf (ns_blocks self) -> (length (order (ns_blocks self)) <= cap)%nat ->
  store_wf (ns_blocks (commit_block_capped cap self block)) /\
  (length (order (ns_blocks (commit_block_capped cap self block))) <= cap)%nat.
Proof.
  intros Hwf Hlen. destruct (commit_blocks cap self block) as [->|[[[Hh Hn] ->]|[Hh Hn]]]; [done| |].
  - by apply index_block_wf.
  - exfalso. apply (sw_numbers _ Hwf) in Hn as (hd & Hl & _). congruence.
Qed.

(** C11. The block index never exceeds its capacity (2048 blocks in the node) and stays
    consistent, whatever blocks are committed in whatever order: the recency list has no
    duplicates, exactly its blocks have a header and a body, and the number index is the
    inverse of the headers' numbers, so heights in the index are distinct. *)
Theorem index_consistent cap spec b0 self :
  node_reach cap spec b0 self ->
  store_wf (ns_blocks self) /\ (length (order (ns_blocks self)) <= cap)%nat.
Proof.
  induction 1 as [|self block _ [Hwf Hlen]|self n _ IH].
  - split; [apply store_wf_default|cbn; lia].
  - by apply commit_wf.
  - done.
Qed.

Lemma new_block_found cap self block :
  (0 < cap)%nat -> store_wf (ns_blocks self) -> is_new self block ->
  block_by_number (commit_block_capped cap self block) (number (header block)) = Some block.
Proof.
  intros Hcap Hwf [Hh Hn]. unfold commit_block_capped. rewrite Hh, Hn. unfold block_by_number. cbn [ns_blocks].
  set (hash := block_hash block) in *. set (s := ns_blocks self) in *.
  pose proof (insert_wf s block hash Hwf Hh Hn) as Hi.
  destruct (index_block_wf cap s block hash Hwf Hh Hn) as [Hw _].
  assert (hash ∈ order (index_block cap s block hash)) as Hin.
  { rewrite index_block_order, drop_app_le by lia. apply elem_of_app. right. left. }
  unfold index_block in *.
  destruct (evict_lookup cap _ _ hash (sw_nodup _ Hi) Hin) as [Hlh Hlb].
  assert (by_number (evict cap (length (order (insert_block s block hash))) (insert_block s block hash))
    !! number (header block) = Some hash) as ->.
  { apply (sw_numbers _ Hw). exists (header block). split; [|done]. rewrite Hlh. cbn. apply lookup_insert_eq. }
  cbn [mbind option_bind]. rewrite Hlh, Hlb. cbn [insert_block by_hash body_by_hash].
  rewrite !lookup_insert_eq. cbn. by destruct block.
Qed.

(** A new block that was committed is served: looking its height up afterwards returns
    exactly the block, header and body, for every reachable node and capacity. *)
Theorem committed_block_found cap spec b0 self block :
  (0 < cap)%nat -> node_reach cap spec b0 self -> is_new self block ->
  block_by_number (commit_block_capped cap self block) (number (header block)) = Some block.
Proof.
  intros Hcap Hr Hnew. apply new_block_found; [done| |done].
  clear Hnew. induction Hr as [|self b' Hr IH|self n Hr IH]; [apply store_wf_default| |done].
  destruct (commit_blocks cap self b') as [->|[[[Hh Hn] ->]|[Hh Hn]]]; [done|by apply index_block_wf|].
  exfalso. apply (sw_numbers _ IH) in Hn as (hd & Hl & _). congruence.
Qed.

(** The block at the front of a full index is forgotten by the next commit. *)
Lemma oldest_forgotten cap self block old rest hd :
  store_wf (ns_blocks self) -> order (ns_blocks self) = old :: rest -> length (order (ns_blocks self)) = cap ->
  by_hash (ns_blocks self) !! old = Some hd -> is_new self block ->
  let self' := commit_block_capped cap self block in
  by_hash (ns_blocks self') !! old = None /\ by_number (ns_blocks self') !! number hd = None.
Proof.
  intros Hwf Ho Hcap Hhd [Hh Hn]. cbn zeta. unfold commit_block_capped. rewrite Hh, Hn. cbn [ns_blocks].
  set (s := ns_blocks self) in *. set (hash := block_hash block) in *.
  pose proof (insert_wf s block hash Hwf Hh Hn) as Hi.
  destruct (index_block_wf cap s block hash Hwf Hh Hn) as [Hw _].
  pose proof (sw_nodup _ Hi) as Hndi. cbn [insert_block order] in Hndi. rewrite Ho in Hndi.
  apply NoDup_cons in Hndi as [Hold _].
  assert (order (index_block cap s block hash) = rest ++ [hash]) as Hord.
  { rewrite index_block_order, Hcap, Ho. replace (S cap - cap)%nat with 1%nat by lia. done. }
  assert (by_hash (index_block cap s block hash) !! old = None) as Hgone.
  { apply eq_None_not_Some. rewrite (sw_hashes _ Hw), Hord. done. }
  split; [done|]. apply eq_None_not_Some. intros [x Hx]. apply (sw_numbers _ Hw) in Hx as (hd' & Hl & Heq).
  assert (x ∈ rest ++ [hash]) as Hin by (rewrite <-Hord; apply (sw_hashes _ Hw); eauto).
  unfold index_block in Hl. rewrite (proj1 (evict_lookup cap _ _ x (sw_nodup _ Hi)
    ltac:(unfold index_block in Hord; by rewrite Hord))) in Hl. cbn [insert_block by_hash] in Hl.
  destruct (decide (hash = x)) as [->|Hne].
  - rewrite lookup_insert_eq in Hl. injection Hl as <-. rewrite Heq in Hn.
    assert (by_number s !! number hd = Some old) by (apply (sw_numbers _ Hwf); eauto). congruence.
  - rewrite lookup_insert_ne in Hl by done.
    assert (by_number s !! number hd = Some old) by (apply (sw_numbers _ Hwf); eauto).
    assert (by_number s !! number hd = Some x) by (apply (sw_numbers _ Hwf); eauto).
    assert (x = old) as -> by congruence. done.
Qed.

(** ** Executing a block without transactions *)
Context {HL : KvLaws B}.

Lemma account_frame b b' a :
  kv_ok b -> kv_ok b' -> kv_view b' !! (State, state_key a) = kv_view b !! (State, state_key a) ->
  account a b' = account a b.
Proof. intros Hok Hok' Hv. by rewrite !account_view, Hv. Qed.

Lemma execute_empty `{!RlpLaws R} spec blk b o :
  kv_ok b -> transactions (body blk) = [] -> 0 < block_reward_at spec (number (header blk)) ->
  beneficiary_may_receive_block_subsidy (beneficiary (header blk)) b = true ->
  account (beneficiary (header blk)) b = Ok o ->
  account_wf (credited (block_reward_at spec (number (header blk))) o) ->
  kv_ok (execute_block_txs spec blk b) /\
  account (beneficiary (header blk)) (execute_block_txs spec blk b) =
    Ok (Some (credited (block_reward_at spec (number (header blk))) o)).
Proof.
  intros Hok Htx Hpos Hmay Ho Hwf. unfold execute_block_txs. rewrite Htx. cbn [block_loop].
  rewrite Hmay, (proj2 (N.ltb_lt _ _) Hpos). cbn [andb persist_receipts].
  rewrite (credit_Ok _ _ _ _ Ho).
  destruct (account_set b (beneficiary (header blk)) _ Hok Hwf) as (b1 & Hset & Hok1 & Hacc & _). rewrite Hset. cbn [fst].
  unfold persist_post_roots.
  destruct (put_same_but (fun cf _ => cf = Meta) b1 Meta (postroot_key (block_hash blk))
    (encode_roots (computed_roots [] b1)) Hok1 eq_refl) as [Hok2 Hf].
  split; [done|]. rewrite <-Hacc. apply account_frame; [done..|]. by apply Hf.
Qed.

(** The documentation of [commit_block] calls it idempotent, each finalised block being
    applied exactly once.  That holds while the block is in the index: once it has been
    evicted (2048 blocks later in the node, or after a restart of a longer chain), the
    same block is executed again.  For a block without transactions on a chain that pays
    a subsidy: committing a new block to a full index evicts the oldest, and committing
    that oldest block once more mints its subsidy to its beneficiary a second time. *)
Theorem evicted_block_reexecuted `{!RlpLaws R} cap self block old rest o :
  store_wf (ns_blocks self) -> order (ns_blocks self) = block_hash old :: rest ->
  length (order (ns_blocks self)) = cap ->
  by_hash (ns_blocks self) !! block_hash old = Some (header old) -> is_new self block ->
  let self' := commit_block_capped cap self block in
  let subsidy := block_reward_at (ns_spec self) (number (header old)) in
  kv_ok (ns_backend self') -> transactions (body old) = [] -> 0 < subsidy ->
  beneficiary_may_receive_block_subsidy (beneficiary (header old)) (ns_backend self') = true ->
  account (beneficiary (header old)) (ns_backend self') = Ok o -> account_wf (credited subsidy o) ->
  account (beneficiary (header old)) (ns_backend (commit_block_capped cap self' old)) =
    Ok (Some (credited subsidy o)).
Proof.
  intros Hwf Hord Hcap Hold Hnew. cbn zeta. intros Hok Htx Hpos Hmay Ho Hawf.
  destruct (oldest_forgotten cap self block _ _ _ Hwf Hord Hcap Hold Hnew) as [Hh Hn].
  assert (ns_spec (commit_block_capped cap self block) = ns_spec self) as Hspec.
  { unfold commit_block_capped. destruct Hnew as [-> ->]. done. }
  set (self' := commit_block_capped cap self block) in *.
  unfold commit_block_capped at 1. rewrite Hh, Hn. cbn [ns_backend]. rewrite Hspec.
  pose proof (persist_block_frame old (block_hash old) _ Hok) as Hpf. pose proof Hpf as [Hok1 Hf1].
  set (b1 := persist_block old (block_hash old) (ns_backend self')) in *.
  assert (agree exec_rows (ns_backend self') b1) as Hag
    by (apply (agree_index _ (ns_backend self')); [split; done|exact Hpf]).
  destruct (execute_empty (ns_spec self) old b1 o) as [Hok2 Hacc]; try done.
  - by rewrite <-(may_receive_same _ _ _ Hag).
  - rewrite <-Ho. apply account_frame; [done..|]. apply Hf1. by intros [].
  - rewrite <-Hacc. set (b2 := execute_block_txs (ns_spec self) old b1) in *.
    pose proof (scan_frame (ns_spec self) old (block_hash old) b2 Hok2) as [Hok3 Hf3].
    pose proof (elect_frame (ns_spec self) (number (header old)) _ Hok3) as [Hok4 Hf4].
    apply account_frame; [done..|]. rewrite Hf4 by (by intros [? _]). by apply Hf3.
Qed.
End node.
