(* ===== verification/NodeDemo.v ===== *)
(** * NodeDemo: a node with one funded account, and the instances of the node's properties

    The wallet of [TransferDemo] holds 100 AII on a fresh in-memory database; block 1
    carries one transfer that it signed. *)
From stdpp Require Import base tactics gmap numbers sets strings list.
From Stdlib Require Import NArith Lia.
From S2P Require Import Prelude Bytes Crypto Bft Coordinator Slashing Codec Secp Tx ToyRlp Transfer.
From S2P Require Import Trie Receipt Block Engine Demo EngineDemo Storage StateDb Evm.
From S2P Require Import Staking Governance ChainSpec Dpos Simulate Precompile NodeExec Frames Microchain.
From S2P Require Import NodeState NodeSim NodeProps NodeIndex.

Lemma MemoryBackend_new_view : kv_view MemoryBackend_new = ∅.
Proof.
  apply map_eq. intros [cf k]. cbn [kv_view memory_laws]. rewrite mem_view_lookup, lookup_empty.
  by destruct cf.
Qed.

Module NodeDemo.
Export Demo ToyRlp ToySecp ToyRevm EngineDemo.

Definition aii : N := 1000000000000000000.
Definition wallet : Address := secp.address TransferDemo.sk.
Definition bob : Address := be_array 20 18.
Definition miner : Address := be_array 20 1.

Definition funded : MemoryBackend :=
  (set_account wallet (mkAccount 3 (100 * aii) EMPTY_TRIE_HASH EMPTY_CODE_HASH) MemoryBackend_new).1.
Definition node : NodeState := NodeState_new testnet funded.

Definition transfer : Tx :=
  match sign_legacy_transfer TransferDemo.sk 9999 3 bob 5 1000000000 with
  | Ok tx => tx
  | _ => tx0
  end.
Definition bd : BlockBody := mkBody [transfer] [] [].

(** The same transfer with a nonce that the account does not have. *)
Definition late_transfer : Tx :=
  match sign_legacy_transfer TransferDemo.sk 9999 77 bob 5 1000000000 with
  | Ok tx => tx
  | _ => tx0
  end.

Definition outcome : res ConsensusError PostBlockRoots :=
  execute_for_proposal testnet funded (Ok MemoryBackend_new) bd miner 1.
Definition roots : PostBlockRoots := res_or (placeholder_roots bd) outcome.

Lemma outcome_ok : outcome = Ok roots.
Proof. apply is_ok_res_or. vm_compute. reflexivity. Qed.

Lemma mem_ok_all (b : MemoryBackend) :
  forallb (fun cf => bool_decide (is_Some (inner b !! cf))) all_families = true -> kv_ok b.
Proof.
  intros Hall cf. rewrite forallb_forall in Hall. apply (bool_decide_unpack (is_Some (inner b !! cf))).
  rewrite Hall; [done|]. by destruct cf; cbn; auto 12.
Qed.

Lemma funded_ok : kv_ok funded.
Proof. apply mem_ok_all. vm_compute. reflexivity. Qed.

(** The header that validator 0 of [EngineDemo] builds for the body on this node. *)
Definition bft_config : BftConfig :=
  mkConfig vset 0 (sk 0) (vsk 0) seed0 miner 30000000 1000000000 3
    (Some (node_executor testnet funded (Ok MemoryBackend_new))).
Definition block1 : Block := build_block_with_body bft_config (zero_array 32) 0 1 proof0 miner bd.

Lemma build_coinbase c p t n pf who b : beneficiary (header (build_block_with_body c p t n pf who b)) = who.
Proof. done. Qed.

Lemma build_number c p t n pf who b : number (header (build_block_with_body c p t n pf who b)) = n.
Proof. done. Qed.

Lemma block1_outcome :
  execute_for_proposal (ns_spec node) (ns_backend node) (Ok MemoryBackend_new) bd
    (beneficiary (header block1)) (number (header block1)) = Ok roots.
Proof. unfold block1. rewrite build_coinbase, build_number. exact outcome_ok. Qed.

(** Blocks without transactions, and a node whose index holds one block. *)
Definition with_number (n : N) (who : Address) : Block :=
  mkBlock (header (build_block_with_body bft_config (zero_array 32) 0 n proof0 who default_body)) default_body.
Definition block_a : Block := with_number 1 miner.
Definition block_b : Block := with_number 2 bob.
Definition node_a : NodeState := commit_block_capped 1 node block_a.
Definition node_b : NodeState := commit_block_capped 1 node_a block_b.

(** Another block at the height of [block_a]. *)
Definition rival : Block := with_number 1 bob.

Lemma node_a_ok : kv_ok (ns_backend node_a).
Proof. apply mem_ok_all. vm_compute. reflexivity. Qed.

Lemma node_b_ok : kv_ok (ns_backend node_b).
Proof. apply mem_ok_all. vm_compute. reflexivity. Qed.

Lemma node_a_wf : store_wf (ns_blocks node_a).
Proof. apply commit_wf; [apply store_wf_default|cbn; lia]. Qed.

Lemma node_a_reach : node_reach 1 testnet funded node_a.
Proof. apply nr_commit, nr_new. Qed.

Lemma node_b_reach : node_reach 1 testnet funded node_b.
Proof. apply nr_commit, node_a_reach. Qed.

Lemma block_b_new : is_new node_a block_b.
Proof. split; apply (bool_decide_eq_true_1 _); vm_compute; reflexivity. Qed.

Lemma block_a_coinbase : beneficiary (header block_a) = miner.
Proof. apply build_coinbase. Qed.

(** What the miner holds before its block is applied again. *)
Definition miner_b : option Account := res_or None (account miner (ns_backend node_b)).
End NodeDemo.
Import NodeDemo.

Lemma proposal_equals_commit_witness :
  exists roots, outcome = Ok roots /\
    StateDb.state_root (ns_backend (commit_block node block1)) = Ok (r_state_root roots).
Proof.
  exists roots. split; [exact outcome_ok|].
  exact (proj2 (proposal_equals_commit node MemoryBackend_new
    (header block1) bd roots funded_ok MemoryBackend_new_ok
    MemoryBackend_new_view eq_refl eq_refl block1_outcome)).
Defined.

Lemma header_locks_to_execution_witness :
  StateDb.state_root (ns_backend (commit_block node block1)) =
    Ok (Block.state_root (header block1)).
Proof.
  exact (proj1 (proj2 (header_locks_to_execution bft_config
    node MemoryBackend_new roots (zero_array 32) 0 1 proof0 miner bd
    eq_refl funded_ok MemoryBackend_new_ok MemoryBackend_new_view outcome_ok eq_refl eq_refl))).
Defined.

Lemma commit_seen_or_fork_witness :
  exists forks, list_forks (ns_backend (commit_block node_a rival)) = Ok forks /\
    mkFork 1 (block_hash block_a) (block_hash rival) ∈ forks.
Proof.
  destruct (commit_seen_or_fork node_a rival (block_hash block_a)
    node_a_ok eq_refl) as [_ H].
  destruct H as (_ & _ & _ & _ & forks & Hl & Hin).
  - apply (bool_decide_eq_true_1 _). vm_compute. reflexivity.
  - apply (bool_decide_eq_true_1 _). vm_compute. reflexivity.
  - apply (bool_decide_eq_false_1 _). vm_compute. reflexivity.
  - exists forks. exact (conj Hl Hin).
Defined.

Lemma index_consistent_witness :
  store_wf (ns_blocks node_b) /\ (length (order (ns_blocks node_b)) <= 1)%nat.
Proof. exact (index_consistent 1 testnet funded node_b node_b_reach). Defined.

Lemma committed_block_found_witness :
  block_by_number node_b 2 = Some block_b.
Proof.
  exact (committed_block_found 1 testnet funded node_a block_b (le_n 1)
    node_a_reach block_b_new).
Defined.

(** Two subsidies of 2 AII for one block. *)
Lemma evicted_block_reexecuted_witness :
  exists acc, account miner (ns_backend (commit_block_capped 1 node_b block_a)) = Ok (Some acc) /\
    a_balance acc = 4 * aii.
Proof.
  pose proof (evicted_block_reexecuted (HL := memory_laws) 1 node_a block_b block_a [] miner_b node_a_wf) as H.
  cbn zeta in H. fold node_b in H. rewrite block_a_coinbase in H.
  eexists. split.
  - refine (H _ _ _ block_b_new node_b_ok _ _ _ _ _).
    + apply (bool_decide_eq_true_1 _). vm_compute. reflexivity.
    + apply (bool_decide_eq_true_1 _). vm_compute. reflexivity.
    + apply (bool_decide_eq_true_1 _). vm_compute. reflexivity.
    + reflexivity.
    + vm_compute. reflexivity.
    + vm_compute. reflexivity.
    + apply is_ok_res_or. vm_compute. reflexivity.
    + split; vm_compute; reflexivity.
  - vm_compute. reflexivity.
Defined.

Lemma nonce_never_checked_witness :
  execute_for_proposal testnet funded (Ok MemoryBackend_new) (mkBody [late_transfer] [] []) miner 1 = Ok roots.
Proof.
  transitivity outcome; [|exact outcome_ok].
  refine (nonce_never_checked testnet funded (Ok MemoryBackend_new) (mkBody [late_transfer] [] []) bd miner 1 _).
  repeat constructor; apply (bool_decide_eq_true_1 _); vm_compute; reflexivity.
Defined.
