(* ===== verification/QueriesProps.v ===== *)
(** * QueriesProps: a node serves its chain to a joining peer, and its logs to clients

    A node that replays another's chain ends in the same state, as long as the other still
    has the blocks in memory; and the bloom that [eth_getLogs] consults hides no log of a
    committed block. *)
From stdpp Require Import base tactics gmap numbers sets strings list.
From Stdlib Require Import NArith Lia.
From Stdlib.Init Require Import Byte.
From S2P Require Import Prelude Bytes Crypto Bft Coordinator Slashing Codec Secp Tx ToyRlp Transfer Trie Receipt Block Engine.
From S2P Require Import Storage StateDb Evm Staking Governance ChainSpec Dpos Simulate Precompile NodeExec Frames Microchain.
From S2P Require Import NodeState NodeSim NodeProps NodeIndex NodeDemo Queries.

Lemma length_heights from n : length (heights from n) = N.to_nat n.
Proof. unfold heights. by rewrite length_fmap, length_seq. Qed.

Lemma heights_succ from n : heights from (N.succ n) = from :: heights (from + 1) n.
Proof.
  unfold heights. rewrite N2Nat.inj_succ. cbn [seq fmap list_fmap]. f_equal; [lia|].
  rewrite <-fmap_S_seq, <-list_fmap_compose. apply list_fmap_ext. intros i x _. cbn. lia.
Qed.

Lemma elem_of_heights from n x : x ∈ heights from n <-> from <= x < from + n.
Proof.
  unfold heights. rewrite list_elem_of_fmap. split.
  - intros (i & -> & Hi%elem_of_seq). lia.
  - intros Hx. exists (N.to_nat (x - from)). split; [lia|]. apply elem_of_seq. lia.
Qed.

Lemma elem_of_dropped {A} n (x : A) l : x ∈ drop n l -> x ∈ l.
Proof. intros Hx. rewrite <-(take_drop n l). apply elem_of_app. by right. Qed.

Section chain.
Context `{Primitives} `{R : Rlp} `{K : K256} `{V : Revm} `{X : HexCrate}.
Context {B : Type} `{HB : KvBackend B}.
Implicit Types (self s peer : NodeState (B := B)) (bs : list Block).

(** ** Committing one block after the other *)
Definition extend (cap : nat) self bs : NodeState (B := B) :=
  foldl (fun s b => set_head (commit_block_capped cap s b) (number (header b))) self bs.

(** A new block takes the last place of the index, and nothing else changes but what is evicted. *)
Lemma commit_index cap s b :
  (0 < cap)%nat -> store_wf (ns_blocks s) -> is_new s b ->
  let s' := commit_block_capped cap s b in
  store_wf (ns_blocks s') /\
  order (ns_blocks s') = drop (S (length (order (ns_blocks s))) - cap) (order (ns_blocks s) ++ [block_hash b]) /\
  forall h, h ∈ order (ns_blocks s') -> h <> block_hash b ->
    by_hash (ns_blocks s') !! h = by_hash (ns_blocks s) !! h /\
    body_by_hash (ns_blocks s') !! h = body_by_hash (ns_blocks s) !! h.
Proof.
  intros Hcap Hwf Hnew. cbn zeta. destruct Hnew as [Hh Hn].
  assert (ns_blocks (commit_block_capped cap s b) = index_block cap (ns_blocks s) b (block_hash b)) as ->.
  { unfold commit_block_capped. by rewrite Hh, Hn. }
  split; [by apply index_block_wf|]. split; [apply index_block_order|]. intros h Hin Hne.
  pose proof (insert_wf _ _ _ Hwf Hh Hn) as Hi. unfold index_block in *.
  destruct (evict_lookup cap _ _ h (sw_nodup _ Hi) Hin) as [-> ->].
  cbn [insert_block by_hash body_by_hash]. by rewrite !lookup_insert_ne by done.
Qed.

(** What the index says after the blocks [pre] on top of [s0]. *)
Record extended (cap : nat) (s0 : NodeState (B := B)) (pre : list Block) (s : NodeState (B := B)) : Prop := {
  ex_wf : store_wf (ns_blocks s);
  ex_order : exists n, order (ns_blocks s) = drop n (order (ns_blocks s0) ++ (block_hash <$> pre)) /\
    (n <= length (order (ns_blocks s0)) + length pre - cap)%nat /\
    (length (order (ns_blocks s0)) + length pre - n <= cap \/ pre = [])%nat;
  ex_old : forall h, h ∈ order (ns_blocks s) -> h ∉ block_hash <$> pre ->
    by_hash (ns_blocks s) !! h = by_hash (ns_blocks s0) !! h;
  ex_new : forall b, b ∈ pre -> block_hash b ∈ order (ns_blocks s) ->
    by_hash (ns_blocks s) !! block_hash b = Some (header b) /\
    body_by_hash (ns_blocks s) !! block_hash b = Some (body b)
}.

Lemma extended_start cap s0 : store_wf (ns_blocks s0) -> extended cap s0 [] s0.
Proof.
  intros Hwf. split; [done| |done|].
  - exists 0%nat. rewrite drop_0. cbn. rewrite app_nil_r. split_and!; [done|lia|by right].
  - intros b Hb. by apply not_elem_of_nil in Hb.
Qed.

Lemma extended_snoc cap s0 pre s b :
  (0 < cap)%nat -> extended cap s0 pre s -> is_new s b -> block_hash b ∉ block_hash <$> pre ->
  extended cap s0 (pre ++ [b]) (set_head (commit_block_capped cap s b) (number (header b))).
Proof.
  intros Hcap [Hwf (n & Ho & Hn & Hl) Hold Hnw] Hnew Hfresh.
  destruct (commit_index cap s b Hcap Hwf Hnew) as (Hwf' & Ho' & Hkeep).
  set (s' := commit_block_capped cap s b) in *.
  change (ns_blocks (set_head s' (number (header b)))) with (ns_blocks s').
  assert (forall h, h ∈ order (ns_blocks s') -> h <> block_hash b -> h ∈ order (ns_blocks s)) as Hsub.
  { intros h Hh Hne. rewrite Ho' in Hh. by apply elem_of_dropped, elem_of_app in Hh as [Hh|Hh%list_elem_of_singleton]. }
  split; [exact Hwf'| | |].
  - assert (length (order (ns_blocks s)) = length (order (ns_blocks s0)) + length pre - n)%nat as Hlen
      by (rewrite Ho, length_drop, length_app, length_fmap; lia).
    exists (n + (S (length (order (ns_blocks s))) - cap))%nat. cbn [set_head ns_blocks].
    rewrite Ho', fmap_app, app_assoc, length_app. cbn [length fmap list_fmap]. split_and!.
    + rewrite <-drop_drop, (drop_app_le _ _ n) by (rewrite length_app, length_fmap; lia). by rewrite <-Ho.
    + lia.
    + left. lia.
  - intros h Hh Hni. cbn [set_head ns_blocks] in *. rewrite fmap_app in Hni. apply not_elem_of_app in Hni as [Hni Hne].
    assert (h <> block_hash b) by (intros ->; apply Hne; by left).
    destruct (Hkeep h Hh ltac:(done)) as [-> _]. apply Hold; [by apply Hsub|done].
  - intros b' [Hb'| ->%list_elem_of_singleton]%elem_of_app Hin; cbn [set_head ns_blocks] in *.
    + assert (block_hash b' <> block_hash b) as Hne.
      { intros Heq. apply Hfresh. rewrite <-Heq. by apply list_elem_of_fmap_2. }
      destruct (Hkeep _ Hin Hne) as [-> ->]. apply Hnw; [done|]. by apply Hsub.
    + pose proof (new_block_found cap s b Hcap Hwf Hnew) as Hf. fold s' in Hf. unfold block_by_number in Hf.
      destruct (by_number (ns_blocks s') !! number (header b)) as [h|] eqn:Hnum; [|done].
      destruct Hnew as [Hh Hn']. unfold s' in *.
      assert (Hblk : ns_blocks (commit_block_capped cap s b) = index_block cap (ns_blocks s) b (block_hash b))
        by (unfold commit_block_capped; by rewrite Hh, Hn').
      rewrite Hblk in *. unfold index_block in *.
      pose proof (insert_wf _ _ _ Hwf Hh Hn') as Hi.
      destruct (evict_lookup cap _ _ _ (sw_nodup _ Hi) Hin) as [-> ->].
      cbn [insert_block by_hash body_by_hash]. by rewrite !lookup_insert_eq.
Qed.

(** The blocks [bs] continue the chain of [s]: their heights follow the head and are free,
    and their hashes are new. *)
Record continues s bs : Prop := {
  ct_heights : (fun b => number (header b)) <$> bs = heights (ns_head s + 1) (len bs);
  ct_free : forall n, ns_head s < n -> by_number (ns_blocks s) !! n = None;
  ct_hashes : NoDup (block_hash <$> bs);
  ct_new : forall b, b ∈ bs -> by_hash (ns_blocks s) !! block_hash b = None
}.

Lemma number_of_lookup s bs i b : continues s bs -> bs !! i = Some b ->
  number (header b) = ns_head s + 1 + N.of_nat i.
Proof.
  intros Hc Hi. assert (((fun b => number (header b)) <$> bs) !! i = Some (number (header b))) as Hl
    by (by rewrite list_lookup_fmap, Hi).
  rewrite (ct_heights _ _ Hc) in Hl. unfold heights in Hl. rewrite list_lookup_fmap in Hl.
  apply fmap_Some in Hl as (j & [-> _]%lookup_seq & ->). lia.
Qed.

Lemma extended_all cap s bs :
  (0 < cap)%nat -> store_wf (ns_blocks s) -> continues s bs -> extended cap s bs (extend cap s bs).
Proof.
  intros Hcap Hwf Hc.
  assert (forall pre suf, bs = pre ++ suf -> extended cap s pre (extend cap s pre)) as Hall.
  { intros pre. induction pre as [|b pre IH] using rev_ind; intros suf Hbs; [by apply extended_start|].
    unfold extend. rewrite foldl_app. cbn [foldl]. fold (extend cap s pre). rewrite <-app_assoc in Hbs. cbn in Hbs.
    specialize (IH (b :: suf) Hbs).
    assert (bs !! length pre = Some b) as Hb by (subst bs; by rewrite lookup_app_r, Nat.sub_diag by lia).
    pose proof (number_of_lookup _ _ _ _ Hc Hb) as Hnum.
    pose proof (ct_hashes _ _ Hc) as Hnd. rewrite Hbs, fmap_app, fmap_cons in Hnd.
    apply NoDup_app in Hnd as (_ & Hdisj & _).
    assert (block_hash b ∉ block_hash <$> pre) as Hfresh by (intros Hin; apply (Hdisj _ Hin); left).
    apply extended_snoc; [done|done| |done].
    assert (by_hash (ns_blocks s) !! block_hash b = None) as Hnew.
    { apply (ct_new _ _ Hc). subst bs. apply elem_of_app. right. left. }
    assert (forall h, h ∈ order (ns_blocks (extend cap s pre)) -> h ∉ block_hash <$> pre ->
      h ∈ order (ns_blocks s)) as Hfrom.
    { intros h Hh Hni. destruct (ex_order _ _ _ _ IH) as (n & Ho & _). rewrite Ho in Hh.
      by apply elem_of_dropped, elem_of_app in Hh as [Hh|Hh]. }
    split.
    - apply eq_None_not_Some. intros Hs%(sw_hashes _ (ex_wf _ _ _ _ IH)).
      pose proof (Hfrom _ Hs Hfresh) as Ho%(sw_hashes _ Hwf). rewrite Hnew in Ho. by destruct Ho.
    - apply eq_None_not_Some. intros [h Hn]. apply (sw_numbers _ (ex_wf _ _ _ _ IH)) in Hn as (hd & Hh & Hhd).
      assert (h ∈ order (ns_blocks (extend cap s pre))) as Hin by (apply (sw_hashes _ (ex_wf _ _ _ _ IH)); eauto).
      destruct (decide (h ∈ block_hash <$> pre)) as [(b' & -> & Hb')%list_elem_of_fmap|Hni].
      + destruct (ex_new _ _ _ _ IH b' Hb' Hin) as [Hb'' _]. rewrite Hh in Hb''. injection Hb'' as ->.
        apply list_elem_of_lookup in Hb' as [i Hi].
        assert (bs !! i = Some b') as Hi' by (subst bs; by apply lookup_app_l_Some).
        pose proof (number_of_lookup _ _ _ _ Hc Hi') as Hnum'.
        apply lookup_lt_Some in Hi. lia.
      + rewrite (ex_old _ _ _ _ IH h Hin Hni) in Hh.
        assert (by_number (ns_blocks s) !! number hd = Some h) as Hcl by (apply (sw_numbers _ Hwf); eauto).
        rewrite (ct_free _ _ Hc) in Hcl by lia. done. }
  apply (Hall bs []). by rewrite app_nil_r.
Qed.

Lemma head_extend cap s bs : continues s bs -> ns_head (extend cap s bs) = ns_head s + len bs.
Proof.
  intros Hc. destruct bs as [|b bs _] using rev_ind; [unfold len; cbn; lia|].
  unfold extend. rewrite foldl_app. cbn [foldl set_head ns_head].
  rewrite (number_of_lookup s (bs ++ [b]) (length bs) b Hc).
  - unfold len. rewrite length_app. cbn. lia.
  - by rewrite lookup_app_r, Nat.sub_diag by lia.
Qed.
End chain.

(** ** Serving blocks *)
Section serve.
Context `{Primitives} `{R : Rlp} `{K : K256} `{V : Revm} `{X : HexCrate} `{!HexLaws X} `{!RlpLaws R}.
Context {B : Type} `{HB : KvBackend B}.
Implicit Types (self s peer : NodeState (B := B)) (bs : list Block).

(** A block that the codec carries. *)
Definition block_wf (b : Block) : Prop :=
  header_wf (header b) /\ body_wf (body b) /\ len (encode_header (header b) ++ encode_body (body b)) < u64_mod.

Lemma strip_or_prefix (x : text) : strip_or (prefix_0x x) = x.
Proof. done. Qed.

Lemma hex_number_reads n : n < u64_mod -> from_str_radix 16 (strip_or (hex_number n)) = Some n.
Proof. intros Hn. unfold hex_number. rewrite strip_or_prefix. by apply from_str_to_radix. Qed.

Lemma raw_block_number self n : n < u64_mod ->
  raw_block self (to_radix 10 n) =
    (hash ← by_number (ns_blocks self) !! n; h ← by_hash (ns_blocks self) !! hash;
     b ← body_by_hash (ns_blocks self) !! hash; Some (hex_bytes (encode_block (mkBlock h b)))).
Proof. intros Hn. unfold raw_block, raw_block_hash. by rewrite from_str_to_radix. Qed.

Lemma fetch_served peer n hash b :
  n < u64_mod -> by_number (ns_blocks peer) !! n = Some hash ->
  by_hash (ns_blocks peer) !! hash = Some (header b) ->
  body_by_hash (ns_blocks peer) !! hash = Some (body b) -> block_wf b ->
  fetch_block (node_peer peer) n = Ok b.
Proof.
  intros Hn H1 H2 H3 (Hh & Hb & Hl). unfold fetch_block, node_peer. cbn [peer_raw_block mbind res_bind].
  rewrite raw_block_number, H1 by done. cbn [mbind option_bind]. rewrite H2. cbn [mbind option_bind]. rewrite H3.
  cbn [mbind option_bind ok_or res_bind]. unfold hex_bytes. rewrite strip_or_prefix, hex_roundtrip.
  cbn [ok_or mbind res_bind]. pose proof (decode_encode_block b [] Hh Hb Hl) as Hd. rewrite app_nil_r in Hd.
  destruct b as [hd bd]. cbn [header body] in *. by rewrite Hd.
Qed.

Lemma fetch_missing peer n : n < u64_mod -> by_number (ns_blocks peer) !! n = None ->
  fetch_block (node_peer peer) n = Err (SyncNull n).
Proof.
  intros Hn H1. unfold fetch_block, node_peer. cbn [peer_raw_block mbind res_bind].
  by rewrite raw_block_number, H1.
Qed.

Lemma sync_blocks_extend (rpc : PeerRpc) bs : forall start k s,
  (fun b => number (header b)) <$> bs = heights start (len bs) ->
  (forall b, b ∈ bs -> fetch_block rpc (number (header b)) = Ok b) ->
  sync_blocks rpc (heights start (len bs)) k s = (Ok (k + len bs), extend MAX_BLOCKS_IN_MEMORY s bs).
Proof.
  induction bs as [|b bs IH]; intros start k s Hn Hf.
  - unfold len. cbn. by rewrite N.add_0_r.
  - assert (len (b :: bs) = N.succ (len bs)) as Hlen by (unfold len; cbn [length]; lia).
    rewrite Hlen, heights_succ in *. cbn [fmap list_fmap] in Hn. injection Hn as Hn0 Hn.
    cbn [sync_blocks]. rewrite <-Hn0 at 1. rewrite (Hf b) by left.
    rewrite (IH (start + 1) (k + 1)); [|done|by intros b' Hb'; apply Hf; right].
    unfold extend. cbn [foldl]. f_equal. f_equal. lia.
Qed.

(** What a peer that replayed [bs] on [s] still holds of them. *)
Lemma served_after cap s bs b :
  (0 < cap)%nat -> store_wf (ns_blocks s) -> continues s bs -> b ∈ bs ->
  block_hash b ∈ order (ns_blocks (extend cap s bs)) -> block_wf b ->
  fetch_block (node_peer (extend cap s bs)) (number (header b)) = Ok b.
Proof.
  intros Hcap Hwf Hc Hb Hin Hbw. pose proof (extended_all cap s bs Hcap Hwf Hc) as Hx.
  destruct (ex_new _ _ _ _ Hx b Hb Hin) as [Hh Hbody].
  apply (fetch_served _ _ (block_hash b)); [apply Hbw| |done..].
  apply (sw_numbers _ (ex_wf _ _ _ _ Hx)). eauto.
Qed.

Lemma all_kept cap s bs b : (0 < cap)%nat -> store_wf (ns_blocks s) -> continues s bs -> (length bs <= cap)%nat ->
  b ∈ bs -> block_hash b ∈ order (ns_blocks (extend cap s bs)).
Proof.
  intros Hcap Hwf Hc Hlen Hb. destruct (ex_order _ _ _ _ (extended_all cap s bs Hcap Hwf Hc)) as (n & -> & Hn & _).
  rewrite drop_app_le by lia. apply elem_of_app. right. by apply list_elem_of_fmap_2.
Qed.

Lemma first_gone cap s b bs : (0 < cap)%nat -> store_wf (ns_blocks s) -> continues s (b :: bs) ->
  (cap <= length bs)%nat -> by_number (ns_blocks (extend cap s (b :: bs))) !! (ns_head s + 1) = None.
Proof.
  intros Hcap Hwf Hc Hlen. pose proof (extended_all cap s (b :: bs) Hcap Hwf Hc) as Hx.
  apply eq_None_not_Some. intros [h Hn]. apply (sw_numbers _ (ex_wf _ _ _ _ Hx)) in Hn as (hd & Hh & Hhd).
  assert (h ∈ order (ns_blocks (extend cap s (b :: bs)))) as Hin by (apply (sw_hashes _ (ex_wf _ _ _ _ Hx)); eauto).
  destruct (ex_order _ _ _ _ Hx) as (n & Ho & _ & [Hcl|Hcl]); [|done]. cbn [length] in Hcl.
  pose proof Hin as Hin'. rewrite Ho in Hin'.
  rewrite fmap_cons, drop_app_ge in Hin' by lia.
  replace (n - length (order (ns_blocks s)))%nat with (S (n - length (order (ns_blocks s)) - 1)) in Hin' by lia.
  cbn [drop] in Hin'. apply elem_of_dropped in Hin'.
  apply list_elem_of_fmap in Hin' as (b' & -> & Hb').
  destruct (ex_new _ _ _ _ Hx b' ltac:(by right) Hin) as [Hh' _]. rewrite Hh in Hh'. injection Hh' as ->.
  apply list_elem_of_lookup in Hb' as [i Hi].
  pose proof (number_of_lookup s (b :: bs) (S i) b' Hc Hi) as Hnum. lia.
Qed.

Lemma bootstrap_asks peer s : ns_head s < ns_head peer -> ns_head peer < u64_mod ->
  bootstrap_sync_from_peer (node_peer peer) s =
    sync_blocks (node_peer peer) (heights (ns_head s + 1) (ns_head peer - ns_head s)) 0 s.
Proof.
  intros Hlt Hu. unfold bootstrap_sync_from_peer, node_peer. cbn [peer_block_number mbind res_bind].
  unfold eth_block_number, head_block_number. rewrite hex_number_reads by done. cbn [ok_or].
  by rewrite (proj2 (N.leb_gt _ _)).
Qed.

(** C12. Cold join: a node that asks a peer which replayed at most [MAX_BLOCKS_IN_MEMORY] blocks on
    top of the same chain fetches them one after the other through the hexadecimal JSON-RPC
    encoding, and ends in exactly the peer's state, database and index included. *)
Theorem cold_join_copies_chain local bs :
  store_wf (ns_blocks local) -> continues local bs -> Forall block_wf bs ->
  (length bs <= MAX_BLOCKS_IN_MEMORY)%nat -> ns_head local + len bs < u64_mod ->
  let peer := extend MAX_BLOCKS_IN_MEMORY local bs in
  bootstrap_sync_from_peer (node_peer peer) local = (Ok (len bs), peer).
Proof.
  intros Hwf Hc Hbw Hlen Hu peer. assert (0 < MAX_BLOCKS_IN_MEMORY)%nat as Hcap by (unfold MAX_BLOCKS_IN_MEMORY; lia).
  pose proof (head_extend MAX_BLOCKS_IN_MEMORY local bs Hc) as Hh. fold peer in Hh.
  destruct (decide (bs = [])) as [->|Hne].
  { unfold bootstrap_sync_from_peer, peer, extend, node_peer. cbn [foldl peer_block_number mbind res_bind].
    unfold eth_block_number, head_block_number. rewrite hex_number_reads by (unfold len in Hu; cbn in Hu; lia).
    cbn [ok_or]. by rewrite N.leb_refl. }
  assert (0 < len bs) by (destruct bs; [done|unfold len; cbn [length]; lia]).
  rewrite bootstrap_asks by (rewrite Hh; lia). replace (ns_head peer - ns_head local) with (len bs) by lia.
  rewrite sync_blocks_extend; [done|apply (ct_heights _ _ Hc)|].
  intros b Hb. rewrite Forall_forall in Hbw.
  apply served_after; [done..| |by apply Hbw]. by apply all_kept.
Qed.

(** A cold join past the peer's retention fails: [aii_getRawBlock] reads the blocks in memory
    only, so once the peer evicted the block after the head of the joining node, the node stops
    at that block with an error and keeps its state. *)
Theorem cold_join_past_retention cap s b bs local :
  (0 < cap)%nat -> store_wf (ns_blocks s) -> continues s (b :: bs) -> (cap <= length bs)%nat ->
  ns_head s + len (b :: bs) < u64_mod -> ns_head local = ns_head s ->
  bootstrap_sync_from_peer (node_peer (extend cap s (b :: bs))) local = (Err (SyncNull (ns_head s + 1)), local).
Proof.
  intros Hcap Hwf Hc Hlen Hu Hl. pose proof (head_extend cap s (b :: bs) Hc) as Hh.
  assert (len (b :: bs) = N.succ (len bs)) as Hs by (unfold len; cbn [length]; lia).
  rewrite bootstrap_asks by lia. rewrite Hh, Hl.
  replace (ns_head s + len (b :: bs) - ns_head s) with (N.succ (len bs)) by lia.
  rewrite heights_succ. cbn [sync_blocks]. by rewrite fetch_missing; [|lia|apply first_gone].
Qed.
End serve.

(** ** Logs *)
Section logs.
Context `{Primitives} `{R : Rlp} `{K : K256} `{V : Revm} `{X : HexCrate} `{!RlpLaws R}.
Context {B : Type} `{HB : KvBackend B} {HL : KvLaws B}.
Implicit Types (self : NodeState (B := B)) (b : B).

Definition exec_frame : row_set := fun cf k => state_rows cf k \/ table_rows cf k.

Lemma credit_frame a d b : kv_ok b -> same_but exec_frame b (credit a d b).
Proof.
  intros Hok. unfold credit.
  assert (same_but state_rows b
    (set_account a (mkAccount (a_nonce (match account a b with Ok (Some x) => x | _ => EMPTY_ACCOUNT end))
      (saturating_add u256_mod (a_balance (match account a b with Ok (Some x) => x | _ => EMPTY_ACCOUNT end)) d)
      (a_storage_root (match account a b with Ok (Some x) => x | _ => EMPTY_ACCOUNT end))
      (a_code_hash (match account a b with Ok (Some x) => x | _ => EMPTY_ACCOUNT end))) b).1) as Hs.
  { apply db_put_frames; [by left|done]. }
  eapply same_but_weaken; [exact Hs|]. by left.
Qed.

Lemma credit_fee_frame a d b : kv_ok b -> same_but exec_frame b (credit_fee a d b).
Proof. intros Hok. unfold credit_fee. destruct (d =? 0); [by apply same_but_refl|by apply credit_frame]. Qed.

(** The loop keeps the backend sound, and its receipts are those of some of the transactions, in order. *)
Lemma block_loop_frame spec h txs : forall cum rs b b' cum' rs',
  kv_ok b -> block_loop spec h txs cum rs b = (b', (cum', rs')) ->
  kv_ok b' /\ exists new, rs' = rs ++ new /\ new.*1 `sublist_of` (tx_hash <$> txs).
Proof.
  induction txs as [|tx txs IH]; intros cum rs b b' cum' rs' Hok Hrun; cbn [block_loop] in Hrun.
  { injection Hrun as <- <- <-. split; [done|]. exists []. by rewrite app_nil_r. }
  assert (forall cum rs b, kv_ok b -> block_loop spec h txs cum rs b = (b', (cum', rs')) ->
    kv_ok b' /\ exists new, rs' = rs ++ new /\ new.*1 `sublist_of` (tx_hash <$> tx :: txs)) as Hskip.
  { intros cum1 rs1 b1 Hok1 Hr. destruct (IH _ _ _ _ _ _ Hok1 Hr) as (Hok' & new & -> & Hnew). split; [done|].
    exists new. split; [done|]. cbn [fmap list_fmap]. by apply sublist_cons. }
  assert (forall cum rs r b, kv_ok b -> block_loop spec h txs cum (rs ++ [(tx_hash tx, r)]) b = (b', (cum', rs')) ->
    kv_ok b' /\ exists new, rs' = rs ++ new /\ new.*1 `sublist_of` (tx_hash <$> tx :: txs)) as Hpush.
  { intros cum1 rs1 r b1 Hok1 Hr. destruct (IH _ _ _ _ _ _ Hok1 Hr) as (Hok' & new & -> & Hnew). split; [done|].
    exists ((tx_hash tx, r) :: new). rewrite <-app_assoc. split; [done|]. by apply sublist_skip. }
  destruct (recover_signer tx (chain_id spec)) as [sender|e|]; [|by eapply Hskip..].
  destruct (tx_call tx) as [[to value data gl gp]|]; [|by eapply Hskip].
  case_bool_decide.
  - pose proof (dispatch_frames sender value data (number h) (unbonding_period_blocks spec) b Hok) as Hd.
    destruct (dispatch sender value data (number h) (unbonding_period_blocks spec) b) as [b1 o]. cbn [fst] in Hd.
    eapply Hpush; [|exact Hrun]. apply credit_fee_frame, Hd.
  - pose proof (execute_with_revm_frames sender to value data gl gp b Hok) as He.
    destruct (execute_with_revm sender to value data gl gp b) as [b1 r]. cbn [fst] in He.
    destruct r as [summary|e|]; [|eapply Hskip; [apply He|exact Hrun]..].
    eapply Hpush; [|exact Hrun]. apply credit_fee_frame, He.
Qed.

(** The receipts that committing a block produces, by transaction hash. *)
Definition produced self (block : Block) : list (H256 * Receipt) :=
  (block_loop (ns_spec self) (header block) (transactions (body block)) 0 []
     (persist_block block (block_hash block) (ns_backend self))).2.2.

Lemma produced_hashes self block : kv_ok (ns_backend self) ->
  (produced self block).*1 `sublist_of` (tx_hash <$> transactions (body block)).
Proof.
  intros Hok. unfold produced. pose proof (persist_block_frame block (block_hash block) _ Hok) as [Hok0 _].
  destruct (block_loop _ _ _ _ _ _) as [b1 [cum rs]] eqn:Hloop. cbn [snd].
  by destruct (block_loop_frame _ _ _ _ _ _ _ _ _ Hok0 Hloop) as (_ & new & -> & Hnew).
Qed.

(** The receipt stored for a hash is the last one produced for it: a block may hold a
    transaction twice, and executes it twice. *)
Definition last_with (rs : list (H256 * Receipt)) (h : H256) (r : Receipt) : Prop :=
  exists rs1 rs2, rs = rs1 ++ (h, r) :: rs2 /\ h ∉ rs2.*1.

Lemma last_with_elem rs h r : last_with rs h r -> (h, r) ∈ rs.
Proof. intros (rs1 & rs2 & -> & _). apply elem_of_app. right. left. Qed.

(** With distinct hashes every receipt is the last with its hash. *)
Lemma last_with_NoDup rs h r : NoDup rs.*1 -> (h, r) ∈ rs -> last_with rs h r.
Proof.
  intros Hnd (rs1 & rs2 & ->)%list_elem_of_split. exists rs1, rs2. split; [done|].
  rewrite fmap_app in Hnd. apply NoDup_app in Hnd as (_ & _ & Hnd). by apply NoDup_cons in Hnd as [? _].
Qed.

Definition put_receipt (x : H256 * Receipt) : Op := Put Receipts (arr_bytes x.1) (receipt_encode_2718 x.2).

Lemma put_receipts_other rs m h :
  h ∉ rs.*1 -> foldl apply_op m (put_receipt <$> rs) !! (Receipts, arr_bytes h) = m !! (Receipts, arr_bytes h).
Proof.
  revert m. induction rs as [|[h' r'] rs IH]; intros m; [done|]. cbn [fmap list_fmap foldl fst].
  intros [Hne Hni]%not_elem_of_cons. rewrite IH by done. cbn [apply_op put_receipt fst snd].
  rewrite lookup_insert_ne; [done|]. intros [= Heq]. by apply Hne, arr_ext.
Qed.

Lemma persist_receipts_get rs b h r :
  kv_ok b -> last_with rs h r ->
  kv_ok (persist_receipts rs b) /\
  kv_view (persist_receipts rs b) !! (Receipts, arr_bytes h) = Some (receipt_encode_2718 r).
Proof.
  intros Hok (rs1 & rs2 & Hrs & Hni). unfold persist_receipts.
  destruct rs as [|x0 rs0] eqn:Hx; [by destruct rs1|]. rewrite <-Hx in *. clear Hx x0 rs0.
  destruct (kv_write_view b (put_receipt <$> rs) Hok) as (b' & Hw & Hok' & Hv).
  change ((fun x => Put Receipts (arr_bytes x.1) (receipt_encode_2718 x.2)) <$> rs) with (put_receipt <$> rs).
  rewrite Hw. split; [done|]. cbn [fst]. rewrite Hv, Hrs, fmap_app, fmap_cons, foldl_app. cbn [foldl].
  rewrite put_receipts_other by done. cbn [apply_op put_receipt fst snd]. apply lookup_insert_eq.
Qed.

Lemma block_bloom_contains rs (bloom : Bloom) r l x :
  r ∈ rs -> l ∈ r_logs r -> x = arr_bytes (l_address l) \/ (exists t, t ∈ topics l /\ x = arr_bytes t) ->
  contains (foldl (fun (m : Bloom) (r : Receipt) => foldl accrue_log m (r_logs r)) bloom rs) x = true.
Proof.
  intros Hr Hl Hx. revert bloom.
  assert (forall rs (bloom : Bloom), contains bloom x = true ->
    contains (foldl (fun (m : Bloom) (r : Receipt) => foldl accrue_log m (r_logs r)) bloom rs) x = true) as Hkeep.
  { clear rs Hr. intros rs. induction rs as [|r' rs IH]; intros bl Hb; [done|]. cbn [foldl]. by apply IH, logs_bloom_keeps. }
  induction rs as [|r' rs IH]; intros bl; [by apply not_elem_of_nil in Hr|]. cbn [foldl].
  apply elem_of_cons in Hr as [->|Hr]; [|by apply IH]. by apply Hkeep, (logs_bloom_contains _ _ l).
Qed.

Lemma bloom_no_miss rs r l addr wanted :
  r ∈ rs -> l ∈ r_logs r -> log_matches addr wanted l = true -> bloom_miss (block_bloom rs) addr wanted = false.
Proof.
  intros Hr Hl Hm. unfold log_matches in Hm. apply andb_prop in Hm as [Ha Ht]. unfold bloom_miss.
  apply orb_false_iff. split.
  - destruct addr as [a|]; [|done]. apply bool_decide_eq_true_1 in Ha. apply negb_false_iff.
    apply (block_bloom_contains rs _ r l); [done|done|]. left. by rewrite Ha.
  - apply not_true_iff_false. rewrite existsb_exists. intros (t & Hin & Hc). apply negb_true_iff in Hc.
    rewrite forallb_forall in Ht. specialize (Ht t Hin). apply bool_decide_eq_true_1 in Ht.
    assert (contains (block_bloom rs) (arr_bytes t) = true); [|congruence].
    apply (block_bloom_contains rs _ r l); [done|done|]. right. by exists t.
Qed.

Lemma postroot_not_head h : postroot_key h <> META_KEY_HEAD /\ postroot_key h <> META_KEY_HEAD_HASH.
Proof.
  unfold postroot_key, META_KEY_POSTROOT_PREFIX, META_KEY_HEAD, META_KEY_HEAD_HASH. split; cbn; discriminate.
Qed.

Definition head_rows : row_set := fun cf k => cf = Meta /\ (k = META_KEY_HEAD \/ k = META_KEY_HEAD_HASH).

Lemma set_head_frame self n : kv_ok (ns_backend self) ->
  same_but head_rows (ns_backend self) (ns_backend (set_head self n)).
Proof.
  intros Hok. unfold set_head, meta_write. cbn [ns_backend].
  pose proof (put_same_but head_rows (ns_backend self) Meta META_KEY_HEAD (be_bytes 8 n) Hok ltac:(split; auto)) as H1.
  destruct (by_number (ns_blocks self) !! n) as [hash|]; [|exact H1].
  eapply same_but_trans; [exact H1|]. apply put_same_but; [apply H1|]. split; auto.
Qed.

(** What a commit and a head update leave in the store about a new block. *)
Lemma committed_rows cap self block n h r :
  kv_ok (ns_backend self) -> is_new self block -> last_with (produced self block) h r ->
  let b := ns_backend (set_head (commit_block_capped cap self block) n) in
  kv_ok b /\ kv_view b !! (Receipts, arr_bytes h) = Some (receipt_encode_2718 r) /\
  exists roots, post_roots (block_hash block) b = Ok (Some roots) /\
    n_logs_bloom roots = block_bloom (snd <$> produced self block).
Proof.
  intros Hok [Hh Hn] Hin. cbn zeta.
  set (s' := commit_block_capped cap self block).
  assert (ns_backend s' = maybe_elect_validator_set (ns_spec self) (number (header block))
    (scan_microchain_anchors (ns_spec self) block (block_hash block)
      (execute_block_txs (ns_spec self) block (persist_block block (block_hash block) (ns_backend self))))) as Hb.
  { unfold s', commit_block_capped. by rewrite Hh, Hn. }
  pose proof (persist_block_frame block (block_hash block) _ Hok) as [Hok0 _].
  unfold produced in *. unfold execute_block_txs in Hb.
  destruct (block_loop (ns_spec self) (header block) (transactions (body block)) 0 []
    (persist_block block (block_hash block) (ns_backend self))) as [b1 [cum rs]] eqn:Hloop. cbn [snd] in *.
  destruct (block_loop_frame _ _ _ _ _ _ _ _ _ Hok0 Hloop) as [Hok1 _].
  set (b2 := if _ && _ then credit _ _ b1 else b1) in Hb.
  assert (kv_ok b2) as Hok2 by (unfold b2; destruct (_ && _); [apply credit_frame|]; done).
  destruct (persist_receipts_get rs b2 h r Hok2 Hin) as [Hok3 Hget].
  set (b3 := persist_receipts rs b2) in *. set (roots := computed_roots rs b3) in *.
  destruct (kv_put_view b3 Meta (postroot_key (block_hash block)) (encode_roots roots) Hok3) as (b4 & Hput & Hok4 & Hv4).
  assert (persist_post_roots (block_hash block) roots b3 = b4) as Hp4 by (unfold persist_post_roots; by rewrite Hput).
  rewrite Hp4 in Hb.
  pose proof (scan_frame (ns_spec self) block (block_hash block) b4 Hok4) as [Hok5 Hf5].
  set (b5 := scan_microchain_anchors _ _ _ b4) in *.
  pose proof (elect_frame (ns_spec self) (number (header block)) b5 Hok5) as [Hok6 Hf6].
  rewrite <-Hb in Hok6, Hf6.
  destruct (set_head_frame s' n Hok6) as [Hok7 Hf7].
  split; [exact Hok7|]. split.
  - rewrite Hf7 by (by intros [? _]). rewrite Hf6 by (by intros [? _]). rewrite Hf5 by done.
    by rewrite Hv4, lookup_insert_ne by done.
  - exists roots. split; [|done]. unfold post_roots, meta_get. rewrite kv_get_view by exact Hok7.
    rewrite Hf7 by (destruct (postroot_not_head (block_hash block)); intros [_ [? | ?]]; done).
    rewrite Hf6 by apply postroot_not_epoch. rewrite Hf5 by done.
    rewrite Hv4, lookup_insert_eq. cbn. by rewrite encode_decode_roots.
Qed.

(** A stored receipt reads back. *)
Lemma receipt_read h (b : B) r :
  kv_ok b -> kv_view b !! (Receipts, arr_bytes h) = Some (receipt_encode_2718 r) -> receipt_wf r ->
  receipt_by_tx_hash h b = Ok (Some r).
Proof.
  intros Hok Hget Hrw. unfold receipt_by_tx_hash. rewrite kv_get_view, Hget by exact Hok.
  cbn [map_err mbind res_bind]. pose proof (receipt_2718_roundtrip r [] Hrw) as Hd.
  rewrite app_nil_r in Hd. by rewrite Hd.
Qed.

Lemma logs_of_block cap self block f h r l :
  (0 < cap)%nat -> store_wf (ns_blocks self) -> kv_ok (ns_backend self) -> is_new self block ->
  last_with (produced self block) h r -> receipt_wf r -> l ∈ r_logs r ->
  log_matches (want_addr f) (want_topics f) l = true ->
  log_entry (number (header block)) h l ∈
    block_logs (set_head (commit_block_capped cap self block) (number (header block)))
      (want_addr f) (want_topics f) (number (header block)).
Proof.
  intros Hcap Hwf Hok Hnew Hlast Hrw Hl Hm. pose proof (last_with_elem _ _ _ Hlast) as Hin.
  destruct (committed_rows cap self block (number (header block)) h r Hok Hnew Hlast)
    as (Hok' & Hget & roots & Hroots & Hbloom).
  destruct (commit_index cap self block Hcap Hwf Hnew) as (Hwf' & Ho & _).
  assert (block_hash block ∈ order (ns_blocks (commit_block_capped cap self block))) as Hino.
  { rewrite Ho, drop_app_le by lia. apply elem_of_app. right. left. }
  pose proof (extended_snoc cap self [] self block Hcap (extended_start cap self Hwf) Hnew
    ltac:(apply not_elem_of_nil)) as Hx.
  destruct (ex_new _ _ _ _ Hx block ltac:(by left) Hino) as [Hbh Hbb].
  set (s := set_head (commit_block_capped cap self block) (number (header block))) in *.
  assert (by_number (ns_blocks s) !! number (header block) = Some (block_hash block)) as Hbn
    by (apply (sw_numbers _ (ex_wf _ _ _ _ Hx)); eauto).
  unfold block_logs. rewrite Hbn, Hroots, Hbloom.
  rewrite (bloom_no_miss (snd <$> produced self block) r l) by (done || by apply (list_elem_of_fmap_2 snd _ (h, r))).
  unfold walk_block. rewrite Hbb. apply list_elem_of_bind.
  assert (h ∈ tx_hash <$> transactions (body block)) as (tx & -> & Htx)%list_elem_of_fmap.
  { eapply elem_of_sublist; [|by apply (produced_hashes self)]. by apply (list_elem_of_fmap_2 fst _ (h, r)). }
  exists tx. split; [|done]. unfold tx_logs. rewrite (receipt_read _ _ r) by done.
  apply list_elem_of_fmap_2. by apply list_elem_of_filter.
Qed.

(** A transaction that a body holds twice is executed twice; what the first execution
    logged is in no answer: every entry for its hash is a log of the last receipt. *)
Theorem duplicate_logs_lost cap self block addr wanted tx r e :
  kv_ok (ns_backend self) -> is_new self block -> last_with (produced self block) (tx_hash tx) r -> receipt_wf r ->
  let n := number (header block) in
  e ∈ tx_logs (set_head (commit_block_capped cap self block) n) n addr wanted tx ->
  exists l, l ∈ r_logs r /\ e = log_entry n (tx_hash tx) l.
Proof.
  intros Hok Hnew Hlast Hrw n. destruct (committed_rows cap self block n _ r Hok Hnew Hlast) as (Hok' & Hget & _).
  unfold tx_logs. rewrite (receipt_read _ _ r) by done.
  intros (l & -> & [_ Hl]%list_elem_of_filter)%list_elem_of_fmap. by exists l.
Qed.

(** What the answer to a filter consists of. *)
Lemma logs_sound self f e : e ∈ logs_in_range self f ->
  exists n hash bd tx receipt l,
    (log_range f (ns_head self)).1 <= n <= (log_range f (ns_head self)).2 /\
    by_number (ns_blocks self) !! n = Some hash /\ body_by_hash (ns_blocks self) !! hash = Some bd /\
    tx ∈ transactions bd /\ receipt_by_tx_hash (tx_hash tx) (ns_backend self) = Ok (Some receipt) /\
    l ∈ r_logs receipt /\ log_matches (want_addr f) (want_topics f) l = true /\
    e = log_entry n (tx_hash tx) l.
Proof.
  unfold logs_in_range. destruct (log_range f (ns_head self)) as [from to]. cbn [fst snd].
  destruct (to <? from) eqn:Hlt; [by intros ?%not_elem_of_nil|]. apply N.ltb_ge in Hlt.
  intros (n & He & Hn%elem_of_heights)%list_elem_of_bind. unfold block_logs in He.
  destruct (by_number (ns_blocks self) !! n) as [hash|] eqn:Hbn; [|by apply not_elem_of_nil in He].
  assert (e ∈ walk_block self n hash (want_addr f) (want_topics f)) as Hw.
  { destruct (post_roots hash (ns_backend self)) as [[roots|]|er|]; [|done..].
    destruct (bloom_miss _ _ _); [by apply not_elem_of_nil in He|done]. }
  unfold walk_block in Hw. destruct (body_by_hash (ns_blocks self) !! hash) as [bd|] eqn:Hbd;
    [|by apply not_elem_of_nil in Hw].
  apply list_elem_of_bind in Hw as (tx & Hw & Htx). unfold tx_logs in Hw.
  destruct (receipt_by_tx_hash (tx_hash tx) (ns_backend self)) as [[receipt|]|er|] eqn:Hr;
    [|by apply not_elem_of_nil in Hw..].
  apply list_elem_of_fmap in Hw as (l & -> & [Hm Hl]%list_elem_of_filter).
  exists n, hash, bd, tx, receipt, l. split_and!; (done || lia).
Qed.

(** C13. [eth_getLogs] misses no log of a stored receipt, for all the blooms it uses to
    skip blocks: after a block whose hash and number are new was committed and became the
    head, on a fault-free store with a consistent index, a log of one of the
    receipts its execution produced is in the answer to every filter whose range contains
    the block and whose address and topics the log has, in any positions; and every entry
    of an answer is a log that matches the filter, from the stored receipt of a
    transaction in the body of a block in the range.  The receipt is one whose numbers and
    length fit their machine types, and the last that the block produced for its
    transaction hash: [commit_block] executes a transaction that a body repeats once more
    and keeps only the last receipt, so the logs of the earlier executions are lost
    ([duplicate_logs_lost]). *)
Theorem committed_logs_found cap self block f h r l :
  (0 < cap)%nat -> store_wf (ns_blocks self) -> kv_ok (ns_backend self) -> is_new self block ->
  last_with (produced self block) h r -> receipt_wf r -> l ∈ r_logs r ->
  log_matches (want_addr f) (want_topics f) l = true ->
  let n := number (header block) in
  let s := set_head (commit_block_capped cap self block) n in
  (log_range f n).1 <= n <= (log_range f n).2 ->
  log_entry n h l ∈ logs_in_range s f /\
  forall e, e ∈ logs_in_range s f ->
    exists n' hash bd tx receipt l',
      (log_range f n).1 <= n' <= (log_range f n).2 /\
      by_number (ns_blocks s) !! n' = Some hash /\ body_by_hash (ns_blocks s) !! hash = Some bd /\
      tx ∈ transactions bd /\ receipt_by_tx_hash (tx_hash tx) (ns_backend s) = Ok (Some receipt) /\
      l' ∈ r_logs receipt /\ log_matches (want_addr f) (want_topics f) l' = true /\
      e = log_entry n' (tx_hash tx) l'.
Proof.
  intros Hcap Hwf Hok Hnew Hlast Hrw Hl Hm n s Hrange. split; [|intros e He; exact (logs_sound s f e He)].
  pose proof (logs_of_block cap self block f h r l Hcap Hwf Hok Hnew Hlast Hrw Hl Hm) as Hb. fold n s in Hb.
  unfold logs_in_range. change (ns_head s) with n. destruct (log_range f n) as [from to]. cbn [fst snd] in Hrange.
  rewrite (proj2 (N.ltb_ge to from)) by lia. apply list_elem_of_bind. exists n. split; [done|].
  apply elem_of_heights. lia.
Qed.
End logs.

(** ** Concrete nodes *)
Module QueriesDemo.
Export NodeDemo ToyHex.

Definition two_blocks : list Block := [block_a; block_b].

Lemma two_blocks_continue : continues node two_blocks.
Proof.
  split.
  - vm_compute. reflexivity.
  - intros n _. apply lookup_empty.
  - apply (bool_decide_eq_true_1 _). vm_compute. reflexivity.
  - intros b _. apply lookup_empty.
Qed.

Lemma with_number_wf n who :
  let h := header (with_number n who) in
  forallb (fun x => x <? u64_mod) [number h; gas_limit h; Block.gas_used h; timestamp h; base_fee_per_gas h;
    difficulty h; len (header_payload h); len (encode_header h ++ encode_body default_body)] = true ->
  len (extra_data h) <= 32 -> blob_gas_used h = None -> excess_blob_gas h = None -> parent_beacon_block_root h = None ->
  block_wf (with_number n who).
Proof.
  intros h Hall Hx Hb He Hp. cbn [forallb] in Hall. rewrite !andb_true_iff, !N.ltb_lt in Hall.
  destruct Hall as (H1 & H2 & H3 & H4 & H5 & H6 & H7 & H8 & _).
  assert (forall x, x < u64_mod -> x < u256_mod) as Hle by (intros x Hl; etransitivity; [exact Hl|reflexivity]).
  split_and!; [| |exact H8].
  - split; auto; fold h; congruence.
  - split; [constructor|constructor|constructor|vm_compute; reflexivity].
Qed.

Lemma two_blocks_wf : Forall block_wf two_blocks.
Proof.
  apply Forall_cons_2; [|apply Forall_cons_2; [|apply Forall_nil_2]]; apply with_number_wf;
    (vm_compute; reflexivity) || (vm_compute; discriminate).
Qed.

(** An interpreter whose transfers emit a log with one topic. *)
Definition topic : H256 := be_array 32 5.
Definition event_log : Log := mkLog bob [topic] [x01].
Definition log_transact (r : RevmReads) (env : TxEnv)
    : res string (ExecutionResult * list (Address * RevmAccount)) :=
  '(_, changes) ← ToyRevm.transact r env; mret (Success 21000 [event_log] (OutputCall []), changes).
Definition log_revm : Revm := {| revm_transact := log_transact |}.

Definition filter1 : LogFilter :=
  mkFilter (Some (str "0x1")) None (Some (hex_array bob)) [hex_array topic].
Definition event_receipt : Receipt := mkReceipt TypeLegacy true 21000 (@logs_bloom_of Toy.prims [event_log]) [event_log].

Lemma block1_new : is_new node block1.
Proof. split; apply lookup_empty. Qed.

Lemma block1_produces : produced (V := log_revm) node block1 = [(tx_hash transfer, event_receipt)].
Proof. vm_compute. reflexivity. Qed.
End QueriesDemo.
Import QueriesDemo.

Lemma cold_join_copies_chain_witness :
  bootstrap_sync_from_peer (node_peer (extend MAX_BLOCKS_IN_MEMORY node two_blocks)) node =
    (Ok 2, extend MAX_BLOCKS_IN_MEMORY node two_blocks).
Proof.
  exact (cold_join_copies_chain node two_blocks store_wf_default two_blocks_continue two_blocks_wf
    ltac:(apply Nat.leb_le; reflexivity) eq_refl).
Defined.

Lemma cold_join_past_retention_witness :
  bootstrap_sync_from_peer (node_peer (extend 1 node two_blocks)) node = (Err (SyncNull 1), node).
Proof.
  exact (cold_join_past_retention 1 node block_a [block_b] node ltac:(apply Nat.lt_0_1) store_wf_default
    two_blocks_continue ltac:(apply Nat.le_refl) eq_refl eq_refl).
Defined.

Lemma committed_logs_found_witness :
  log_entry 1 (tx_hash transfer) event_log ∈
    logs_in_range (set_head (commit_block_capped (H2 := log_revm) 4 node block1) 1) filter1.
Proof.
  exact (proj1 (committed_logs_found (V := log_revm) 4 node block1 filter1 (tx_hash transfer) event_receipt event_log
    ltac:(apply Nat.lt_0_succ) store_wf_default funded_ok block1_new
    ltac:(rewrite block1_produces; apply last_with_NoDup; [apply NoDup_singleton|apply list_elem_of_here])
    ltac:(split; [reflexivity|vm_compute; reflexivity])
    ltac:(apply list_elem_of_here) ltac:(vm_compute; reflexivity)
    ltac:(split; vm_compute; discriminate))).
Defined.
