(* ===== verification/DposProps.v ===== *)
(** * DposProps: elections are top-n, records round-trip, sets are well formed

    Proofs about [Dpos]. *)
From stdpp Require Import base tactics gmap numbers sets sorting strings list.
From Stdlib Require Import NArith Lia.
From Stdlib.Init Require Import Byte.
From S2P Require Import Prelude Bytes Crypto Bft BftFacts Storage Staking ChainSpec Dpos.

(** ** The election order *)
Section ranking.
Implicit Types r : StakeRecord.

Lemma rank_le_total r1 r2 : rank_le r1 r2 = true \/ rank_le r2 r1 = true.
Proof.
  unfold rank_le.
  destruct (N.ltb_spec (amount_wei r2) (amount_wei r1)), (N.ltb_spec (amount_wei r1) (amount_wei r2)),
    (N.eqb_spec (amount_wei r1) (amount_wei r2)), (N.eqb_spec (amount_wei r2) (amount_wei r1));
    auto; try lia. apply lex_le_total.
Qed.

Lemma rank_le_trans r1 r2 r3 : rank_le r1 r2 = true -> rank_le r2 r3 = true -> rank_le r1 r3 = true.
Proof.
  unfold rank_le.
  destruct (N.ltb_spec (amount_wei r2) (amount_wei r1)), (N.ltb_spec (amount_wei r3) (amount_wei r2)),
    (N.ltb_spec (amount_wei r3) (amount_wei r1)), (N.eqb_spec (amount_wei r1) (amount_wei r2)),
    (N.eqb_spec (amount_wei r2) (amount_wei r3)), (N.eqb_spec (amount_wei r1) (amount_wei r3));
    auto; try lia; try done. apply bytes_le_trans.
Qed.

Lemma rank_le_staker r1 r2 : rank_le r1 r2 = true -> rank_le r2 r1 = true -> staker r1 = staker r2.
Proof.
  unfold rank_le.
  destruct (N.ltb_spec (amount_wei r2) (amount_wei r1)), (N.ltb_spec (amount_wei r1) (amount_wei r2)),
    (N.eqb_spec (amount_wei r1) (amount_wei r2)), (N.eqb_spec (amount_wei r2) (amount_wei r1));
    try done; try lia.
  intros H1' H2'. by apply (inj arr_bytes), bytes_le_antisym.
Qed.

(** An entry that ranks strictly before another: more stake, or as much and a lower address. *)
Definition better (v w : ValidatorEntry) : Prop :=
  e_stake_wei w < e_stake_wei v \/
  (e_stake_wei v = e_stake_wei w /\ bytes_le (arr_bytes (e_address v)) (arr_bytes (e_address w)) = true /\
   e_address v <> e_address w).

Lemma rank_le_better r1 r2 v w :
  rank_le r1 r2 = true -> staker r1 <> staker r2 ->
  e_stake_wei v = amount_wei r1 -> e_address v = staker r1 ->
  e_stake_wei w = amount_wei r2 -> e_address w = staker r2 -> better v w.
Proof.
  unfold rank_le, better. intros Hr Hs -> -> -> ->.
  destruct (N.ltb_spec (amount_wei r2) (amount_wei r1)); [by left|].
  destruct (N.eqb_spec (amount_wei r1) (amount_wei r2)); [by right|done].
Qed.
End ranking.

(** ** The first [n] of a sorted selection *)
Section selection.
Context {A C : Type} (R : A -> A -> Prop) (R' : C -> C -> Prop) (f : A -> option C).

Lemma StronglySorted_omap (l : list A) :
  StronglySorted R l -> (forall x y u v, R x y -> f x = Some u -> f y = Some v -> R' u v) ->
  StronglySorted R' (omap f l).
Proof.
  intros Hs HR. induction Hs as [|x l Hs IH Hx]; [constructor|]. cbn.
  destruct (f x) as [u|] eqn:E; [|done]. constructor; [done|].
  apply Forall_forall. intros v (y & Hy & Hv)%list_elem_of_omap. rewrite Forall_forall in Hx. eauto.
Qed.
End selection.

Lemma top_n {C} (R : C -> C -> Prop) (l : list C) (n : nat) x :
  StronglySorted R l -> x ∈ l ->
  x ∈ take n l \/ (length (take n l) = n /\ forall y, y ∈ take n l -> R y x).
Proof.
  intros Hs Hx. rewrite <-(take_drop n l) in Hs, Hx.
  apply elem_of_app in Hx as [Hx|Hx]; [by left|right]. split.
  - rewrite length_take. assert (length (drop n l) <> 0)%nat by (by destruct (drop n l); [apply not_elem_of_nil in Hx|]).
    rewrite length_drop in *. lia.
  - intros y Hy. eapply StronglySorted_app_1_elem_of; [exact Hs|done..].
Qed.

Lemma StronglySorted_take {C} (R : C -> C -> Prop) (l : list C) n :
  StronglySorted R l -> StronglySorted R (take n l).
Proof. intros Hs. rewrite <-(take_drop n l) in Hs. by apply StronglySorted_app_1_l in Hs. Qed.

(** ** Elections *)
Section election.
Context {B : Type} `{HB : KvBackend B} {HL : KvLaws B}.
Implicit Types (b : B) (a : Address) (r : StakeRecord).

(** The keys registered for an address. *)
Definition registered b a : option ValidatorKeys := kv_view b !! (Meta, registry_key a) ≫= decode_keys.

Lemma registry_get_view b a : kv_ok b -> registry_get a b = Ok (registered b a).
Proof. intros Hok. unfold registry_get, meta_get. by rewrite kv_get_view. Qed.

Definition record_of (row : Address * (N * N)) : StakeRecord := mkStake row.1 row.2.1 row.2.2.

(** The candidates, as a function of the table's map. *)
Definition ranking (min_stake : N) (m : stakes) : list StakeRecord :=
  candidates min_stake (record_of <$> map_to_list m).

Lemma candidates_perm (min_stake : N) (l k : list StakeRecord) :
  l ≡ₚ k -> NoDup (staker <$> l) -> candidates min_stake l = candidates min_stake k.
Proof.
  intros Hp Hn. unfold candidates. apply sort_by_unique; [apply rank_le_total|apply rank_le_trans|by rewrite Hp|].
  intros r1 r2 [_ Hr1]%list_elem_of_filter [_ Hr2]%list_elem_of_filter H1 H2.
  eapply (NoDup_fst_inj staker); [exact Hn|done..|]. by apply rank_le_staker.
Qed.

Lemma NoDup_records m : NoDup (staker <$> (record_of <$> map_to_list m)).
Proof. rewrite <-list_fmap_compose. apply NoDup_fst_map_to_list. Qed.

Lemma list_all_ranking b min_stake :
  kv_ok b -> exists l, list_all b = Ok l /\ candidates min_stake l = ranking min_stake (stake_map b).
Proof.
  intros Hok. destruct (list_all_spec b Hok) as (l & Hl & Hp). exists l. split; [done|].
  assert (l ≡ₚ record_of <$> map_to_list (stake_map b)) as Hp'.
  { rewrite Hp. apply Permutation_refl', list_fmap_ext. by intros _ [a [x u]] _. }
  apply candidates_perm; [done|]. rewrite Hp'. apply NoDup_records.
Qed.

Lemma elem_of_ranking min_stake m r :
  r ∈ ranking min_stake m <->
  m !! staker r = Some (amount_wei r, 0) /\ unbond_at r = 0 /\ amount_wei r <> 0 /\ min_stake <= amount_wei r.
Proof.
  unfold ranking, candidates. rewrite sort_by_perm, list_elem_of_filter, list_elem_of_fmap.
  unfold eligible, is_bonded. rewrite !andb_true_iff, negb_true_iff, N.eqb_eq, N.eqb_neq, N.leb_le.
  split.
  - intros (((Hu & Hn) & Hm) & [a [x u]] & -> & Hin%elem_of_map_to_list). cbn in *. by subst.
  - intros (Hin & Hu & Hn & Hm). split; [done|]. exists (staker r, (amount_wei r, 0)).
    split; [destruct r; cbn in *; by subst|]. by apply elem_of_map_to_list.
Qed.

Lemma ranking_sorted min_stake m :
  StronglySorted (fun r1 r2 => rank_le r1 r2 = true /\ staker r1 <> staker r2) (ranking min_stake m).
Proof.
  assert (NoDup (staker <$> ranking min_stake m)) as Hn.
  { unfold ranking, candidates. rewrite sort_by_perm.
    eapply sublist_NoDup; [apply (NoDup_records m)|apply fmap_sublist, sublist_filter]. }
  assert (StronglySorted (fun r1 r2 => rank_le r1 r2 = true) (ranking min_stake m)) as Hs
    by apply (sort_by_sorted _ rank_le_total rank_le_trans).
  induction Hs as [|r l Hs IH Hr]; [constructor|]. apply NoDup_cons in Hn as [Hr' Hl].
  constructor; [by apply IH|]. rewrite Forall_forall in Hr |- *. intros r2 Hr2. split; [by apply Hr|].
  intros He. apply Hr'. rewrite He. by apply list_elem_of_fmap_2.
Qed.

(** The loop of the keyed election takes the first [cap] candidates with keys. *)
Definition keyed b r : option ValidatorEntry := keyed_entry r <$> registered b (staker r).

Lemma keyed_loop_spec cap b all out :
  kv_ok b -> len out <= cap ->
  keyed_loop cap b all out = Ok (out ++ take (N.to_nat (cap - len out)) (omap (keyed b) all)).
Proof.
  intros Hok. revert out. induction all as [|r all IH]; intros out Ho; cbn [keyed_loop omap list_omap].
  { by rewrite take_nil, app_nil_r. }
  destruct (N.leb_spec cap (len out)) as [Hc|Hc].
  { replace (cap - len out) with 0 by lia. by rewrite app_nil_r. }
  rewrite registry_get_view by done. cbn [mbind res_bind]. unfold keyed at 1.
  destruct (registered b (staker r)) as [keys|]; cbn [fmap option_fmap option_map]; [|by apply IH].
  rewrite IH; rewrite len_app; change (len [keyed_entry r keys]) with 1; [|lia].
  rewrite <-app_assoc. do 2 f_equal. replace (N.to_nat (cap - len out)) with (S (N.to_nat (cap - (len out + 1)))) by lia.
  done.
Qed.

Lemma keyed_election b min_stake cap :
  kv_ok b -> elect_registered_active_set min_stake cap b =
    Ok (take (N.to_nat cap) (omap (keyed b) (ranking min_stake (stake_map b)))).
Proof.
  intros Hok. destruct (list_all_ranking b min_stake Hok) as (l & Hl & Hc).
  unfold elect_registered_active_set. rewrite Hl. cbn [mbind res_bind].
  rewrite Hc, keyed_loop_spec by (done || (change (@len ValidatorEntry []) with 0; lia)).
  change (@len ValidatorEntry []) with 0. by rewrite N.sub_0_r.
Qed.

Lemma stake_only_election b min_stake cap :
  kv_ok b -> elect_active_set min_stake cap b =
    Ok (take (N.to_nat cap) (stake_only_entry <$> ranking min_stake (stake_map b))).
Proof.
  intros Hok. destruct (list_all_ranking b min_stake Hok) as (l & Hl & Hc).
  unfold elect_active_set. rewrite Hl. cbn [mbind res_bind mret res_ret]. by rewrite Hc, fmap_take.
Qed.
End election.

(** ** Records *)
Definition entry_wf (v : ValidatorEntry) : Prop := e_stake_wei v < u256_mod.

(** What a record without keys keeps of an entry. *)
Definition strip (v : ValidatorEntry) : ValidatorEntry := mkEntry (e_address v) (e_stake_wei v) None None.

Definition recorded (set : list ValidatorEntry) : list ValidatorEntry :=
  if forallb is_keyed set then set else strip <$> set.

Lemma is_keyed_true v :
  is_keyed v = true <-> exists bls vrf, v = mkEntry (e_address v) (e_stake_wei v) (Some bls) (Some vrf).
Proof.
  unfold is_keyed. rewrite andb_true_iff, !bool_decide_eq_true. split.
  - intros [[bls Hb] [vrf Hv]]. exists bls, vrf. destruct v; cbn in *. by subst.
  - intros (bls & vrf & ->). by split; eexists.
Qed.

Definition entry_bytes (has_keys : bool) (v : ValidatorEntry) : bytes :=
  arr_bytes (e_address v) ++ be_bytes 32 (e_stake_wei v) ++
  (if has_keys then default [] (arr_bytes <$> e_bls_pubkey v) ++ default [] (arr_bytes <$> e_vrf_pubkey v) else []).

Lemma encode_entries_Ok has_keys set :
  (has_keys = true -> Forall (fun v => is_keyed v = true) set) ->
  encode_entries has_keys set = Ok (concat (entry_bytes has_keys <$> set)).
Proof.
  intros Hk. induction set as [|v set IH]; [done|]. cbn [encode_entries fmap list_fmap concat].
  rewrite IH by (intros Hh; apply Hk in Hh; by apply Forall_cons in Hh as [_ Hh]).
  unfold encode_entry, entry_bytes. destruct has_keys; cbn [mbind res_bind mret res_ret].
  - specialize (Hk eq_refl). apply Forall_cons in Hk as [(bls & vrf & ->)%is_keyed_true _]. cbn.
    by rewrite <-!app_assoc.
  - by rewrite app_nil_r.
Qed.

Lemma length_entry_bytes has_keys v :
  (has_keys = true -> is_keyed v = true) -> length (entry_bytes has_keys v) = N.to_nat (entry_len has_keys).
Proof.
  intros Hk. unfold entry_bytes. rewrite !length_app, arr_length, length_be_bytes. destruct has_keys; [|done].
  destruct (proj1 (is_keyed_true v) (Hk eq_refl)) as (bls & vrf & ->). cbn. by rewrite length_app, !arr_length.
Qed.

Lemma length_entries has_keys set :
  (has_keys = true -> Forall (fun v => is_keyed v = true) set) ->
  len (concat (entry_bytes has_keys <$> set)) = len set * entry_len has_keys.
Proof.
  intros Hk. induction set as [|v set IH]; [done|]. cbn [fmap list_fmap concat]. rewrite len_app, IH.
  - unfold len at 1. rewrite length_entry_bytes; [|intros Hh; apply Hk in Hh; by apply Forall_cons in Hh as [? _]].
    rewrite N2Nat.id. unfold len. cbn [length]. lia.
  - intros Hh; apply Hk in Hh; by apply Forall_cons in Hh as [_ ?].
Qed.

(** The entry a record with or without keys yields. *)
Definition kept (has_keys : bool) (v : ValidatorEntry) : ValidatorEntry := if has_keys then v else strip v.

Lemma is_keyed_head has_keys v set :
  (has_keys = true -> Forall (fun v => is_keyed v = true) (v :: set)) ->
  (has_keys = true -> is_keyed v = true) /\ (has_keys = true -> Forall (fun v => is_keyed v = true) set).
Proof. intros Hk. split; intros Hh; apply Hk in Hh; by apply Forall_cons in Hh as [? ?]. Qed.

Lemma decode_encode_entries has_keys set body off rest :
  (has_keys = true -> Forall (fun v => is_keyed v = true) set) -> Forall entry_wf set ->
  drop off body = concat (entry_bytes has_keys <$> set) ++ rest ->
  decode_entries has_keys body (length set) off = Ok (kept has_keys <$> set).
Proof.
  revert off. induction set as [|v set IH]; intros off Hk Hwf Hd; [done|].
  apply Forall_cons in Hwf as [Hv Hwf]. apply is_keyed_head in Hk as [Hkv Hk].
  cbn [fmap list_fmap concat] in Hd. rewrite <-app_assoc in Hd.
  pose proof (cursor_next _ _ _ _ _ Hd (length_entry_bytes has_keys v Hkv)) as Hnext.
  specialize (IH _ Hk Hwf Hnext). cbn [length decode_entries]. rewrite IH.
  unfold entry_bytes in Hd. rewrite <-!app_assoc in Hd.
  destruct (slice_array_cursor (E := NodeError) 20 _ _ _ _ Hd ltac:(lia)) as [-> Hd1].
  destruct (slice_be_cursor (E := NodeError) _ _ 32 _ _ Hd1 Hv ltac:(lia)) as [-> Hd2].
  rewrite <-Nat.add_assoc in Hd2. change (20 + 32)%nat with 52%nat in Hd2.
  cbn [mbind res_bind]. destruct has_keys; cbn [mbind res_bind mret res_ret kept fmap list_fmap]; [|done].
  destruct (proj1 (is_keyed_true v) (Hkv eq_refl)) as (bls & vrf & Heq). rewrite Heq in Hd2 |- *.
  cbn [e_bls_pubkey e_vrf_pubkey fmap option_fmap option_map default from_option] in Hd2.
  unfold id in Hd2. rewrite <-!app_assoc in Hd2.
  destruct (slice_array_cursor (E := NodeError) 48 _ _ _ _ Hd2 ltac:(lia)) as [-> Hd3].
  rewrite <-Nat.add_assoc in Hd3. change (52 + 48)%nat with 100%nat in Hd3.
  destruct (slice_array_cursor (E := NodeError) 32 _ _ _ _ Hd3 ltac:(lia)) as [-> _]. done.
Qed.

Lemma recorded_kept set : recorded set = kept (forallb is_keyed set) <$> set.
Proof. unfold recorded. destruct (forallb is_keyed set); [|done]. by rewrite list_fmap_id. Qed.

Lemma forallb_keyed set : forallb is_keyed set = true -> Forall (fun v => is_keyed v = true) set.
Proof. rewrite forallb_forall, Forall_forall. intros Hf x Hx. apply Hf. by apply list_elem_of_In. Qed.

(** Decoding the value that [persist_validator_set] writes. *)
Lemma decode_record_encoded set :
  len set < u32_mod -> Forall entry_wf set ->
  decode_record (be_bytes 4 (len set) ++ concat (entry_bytes (forallb is_keyed set) <$> set)) =
  Ok (Some (recorded set)).
Proof.
  intros Hlen Hwf. set (hk := forallb is_keyed set).
  pose proof (forallb_keyed set) as Hk. fold hk in Hk. pose proof (length_entries hk set Hk) as Hl.
  unfold decode_record. rewrite len_app. change (len (be_bytes 4 (len set))) with 4.
  rewrite (proj2 (N.ltb_ge _ 4)) by lia.
  rewrite take_app_length', drop_app_length' by (by rewrite length_be_bytes).
  rewrite be_value_small by done. cbv zeta. rewrite Hl.
  rewrite to_nat_len.
  assert (Hd : decode_entries hk (concat (entry_bytes hk <$> set)) (length set) 0 = Ok (recorded set)).
  { rewrite recorded_kept. apply (decode_encode_entries _ _ _ _ [] Hk Hwf). by rewrite app_nil_r. }
  destruct hk.
  - rewrite N.eqb_refl, andb_false_r. by rewrite Hd.
  - rewrite N.eqb_refl. cbn [negb andb].
    destruct (N.eqb_spec (len set * entry_len false) (len set * entry_len true)) as [He|]; [|by rewrite Hd].
    assert (set = []) as -> by (destruct set; [done|]; unfold entry_len, len in He; cbn [length] in He; lia).
    done.
Qed.

(** Keys of the three tables never coincide. *)
Lemma epoch_key_inj e1 e2 : e1 < u64_mod -> e2 < u64_mod -> epoch_key e1 = epoch_key e2 -> e1 = e2.
Proof. intros H1 H2 He%app_inv_head. by apply be_bytes_inj in He. Qed.

Lemma epoch_not_stake e a : epoch_key e <> stake_key a.
Proof. done. Qed.

Lemma epoch_not_registry e a : epoch_key e <> registry_key a.
Proof. done. Qed.

Section records.
Context {B : Type} `{HB : KvBackend B} {HL : KvLaws B}.
Implicit Types (b : B).

(** The record of an epoch. *)
Definition epoch_record b (epoch : N) : res NodeError (option (list ValidatorEntry)) :=
  match kv_view b !! (Meta, epoch_key epoch) with None => Ok None | Some v => decode_record v end.

Lemma read_validator_set_view b epoch : kv_ok b -> read_validator_set epoch b = epoch_record b epoch.
Proof.
  intros Hok. unfold read_validator_set, meta_get, epoch_record. rewrite kv_get_view by done. cbn.
  by destruct (kv_view b !! _).
Qed.

Lemma persist_spec b epoch set :
  kv_ok b -> len set < u32_mod -> Forall entry_wf set ->
  exists b', persist_validator_set epoch set b = (b', Ok tt) /\ kv_ok b' /\
    kv_view b' = <[(Meta, epoch_key epoch) :=
      be_bytes 4 (len set) ++ concat (entry_bytes (forallb is_keyed set) <$> set)]> (kv_view b).
Proof.
  intros Hok Hlen Hwf. unfold persist_validator_set.
  erewrite action_bind_Ok; [|apply reading_Ok, encode_entries_Ok, forallb_keyed].
  rewrite N.min_l by lia. by apply meta_put_view.
Qed.

(** The scan's epochs are those with a record. *)
Lemma elem_of_epochs b (items : list (bytes * bytes)) e :
  (forall k v, (k, v) ∈ items <-> kv_view b !! (Meta, k) = Some v /\ VALIDATOR_SET_PREFIX `prefix_of` k) ->
  e ∈ omap key_epoch items <-> e < u64_mod /\ is_Some (kv_view b !! (Meta, epoch_key e)).
Proof.
  intros Hin. rewrite list_elem_of_omap. split.
  - intros ([k v] & [Hv [s ->]]%Hin & He). unfold key_epoch in He. cbn [fst] in He.
    rewrite drop_app_length in He. destruct (N.eqb_spec (len s) 8) as [Hl|]; [|done].
    injection He as <-. assert (length s = 8%nat) as Hs by (unfold len in Hl; lia).
    split; [pose proof (be_value_lt s) as Hb; by rewrite Hs in Hb|].
    unfold epoch_key. rewrite <-Hs, be_bytes_value. by exists v.
  - intros [He [v Hv]]. exists (epoch_key e, v). split; [apply Hin; split; [done|by eexists]|].
    unfold key_epoch, epoch_key. cbn [fst]. rewrite drop_app_length. unfold len.
    rewrite length_be_bytes. by rewrite be_value_small.
Qed.

Lemma foldl_later (l : list N) c :
  exists m, foldl later (Some c) l = Some m /\ m ∈ c :: l /\ forall x, x ∈ c :: l -> x <= m.
Proof.
  revert c. induction l as [|x l IH]; intros c; cbn [foldl].
  - exists c. split_and!; [done|set_solver|]. intros x Hx. by apply list_elem_of_singleton in Hx as ->.
  - unfold later at 2. destruct (N.ltb_spec c x) as [Hc|Hc].
    + destruct (IH x) as (m & -> & Hm & Hall). exists m. split_and!; [done|set_solver|].
      intros y [->|Hy]%elem_of_cons; [|by apply Hall]. specialize (Hall x ltac:(set_solver)). lia.
    + destruct (IH c) as (m & -> & Hm & Hall). exists m. split_and!; [done|set_solver|].
      intros y [->|[->|Hy]%elem_of_cons]%elem_of_cons; [apply Hall; set_solver| |apply Hall; set_solver].
      specialize (Hall c ltac:(set_solver)). lia.
Qed.

(** The latest set is the record of the highest epoch. *)
Lemma latest_spec b e :
  kv_ok b -> e < u64_mod -> is_Some (kv_view b !! (Meta, epoch_key e)) ->
  (forall e', e' < u64_mod -> is_Some (kv_view b !! (Meta, epoch_key e')) -> e' <= e) ->
  latest_validator_set b = (set ← epoch_record b e; mret (Some (e, default [] set))).
Proof.
  intros Hok He Hs Hmax. destruct (kv_iter_prefix_view b Meta VALIDATOR_SET_PREFIX Hok) as (items & Hi & _ & Hin).
  pose proof (fun e => elem_of_epochs b items e Hin) as Hmem.
  unfold latest_validator_set. rewrite Hi, collect_entries_Ok. cbn [mbind res_bind].
  assert (e ∈ omap key_epoch items) as He' by by apply Hmem.
  destruct (omap key_epoch items) as [|x l]; [by apply not_elem_of_nil in He'|].
  cbn [foldl later]. destruct (foldl_later l x) as (m & -> & Hm & Hall).
  assert (m = e) as ->.
  { specialize (Hall e He'). apply Hmem in Hm as [Hm1 Hm2]. specialize (Hmax m Hm1 Hm2). lia. }
  rewrite read_validator_set_view by done. by destruct (epoch_record b e).
Qed.
End records.

(** ** Properties *)
Lemma elem_of_take_omap {A C} (f : A -> option C) (l : list A) n v :
  v ∈ take n (omap f l) -> exists x, x ∈ l /\ f x = Some v.
Proof. intros Hv. apply list_elem_of_omap. eapply elem_of_sublist; [exact Hv|apply sublist_take]. Qed.

Lemma validate_Ok spec : validate spec = Ok tt -> 0 < epoch_length_blocks spec /\ validators_per_epoch spec <= 128.
Proof.
  unfold validate. intros Hv. inv_ok. rewrite ?N.eqb_neq, ?N.ltb_ge in *. unfold MAX_ACTIVE_VALIDATORS in *.
  split; lia.
Qed.

(** ** What an election hands to the record *)
Section elected.
Context {B : Type} `{HB : KvBackend B} {HL : KvLaws B}.
Implicit Types (b : B).

Lemma keyed_recorded b min_stake (n : nat) :
  let set := take n (omap (keyed b) (ranking min_stake (stake_map b))) in
  Forall entry_wf set /\ recorded set = set.
Proof.
  assert (forall v, v ∈ take n (omap (keyed b) (ranking min_stake (stake_map b))) ->
    entry_wf v /\ is_keyed v = true) as Hall.
  { intros v (r & Hr & Hv)%elem_of_take_omap. apply elem_of_ranking in Hr as (Hm & _).
    apply stake_map_wf in Hm as [Hm _]. unfold keyed in Hv.
    destruct (registered b (staker r)); [|done]. by injection Hv as <-. }
  intros set. split; [apply Forall_forall; by apply Hall|]. unfold recorded.
  rewrite (proj2 (forallb_forall _ _)); [done|]. intros v Hv%list_elem_of_In. by apply Hall.
Qed.

Lemma stake_only_recorded b min_stake (n : nat) :
  let set := take n (stake_only_entry <$> ranking min_stake (stake_map b)) in
  Forall entry_wf set /\ recorded set = set.
Proof.
  assert (forall v, v ∈ take n (stake_only_entry <$> ranking min_stake (stake_map b)) ->
    entry_wf v /\ strip v = v) as Hall.
  { intros v Hv. eapply elem_of_sublist in Hv; [|apply sublist_take].
    apply list_elem_of_fmap in Hv as (r & -> & Hr). apply elem_of_ranking in Hr as (Hm & _).
    by apply stake_map_wf in Hm as [Hm _]. }
  intros set. split; [apply Forall_forall; by apply Hall|]. unfold recorded.
  destruct (forallb is_keyed set); [done|]. rewrite <-(list_fmap_id set) at 2.
  apply list_fmap_ext. intros i v Hv%list_elem_of_lookup_2. by apply Hall.
Qed.

(** The effect of persisting a set of well-formed entries. *)
Lemma persist_effects b epoch set :
  kv_ok b -> epoch < u64_mod -> len set < u32_mod -> Forall entry_wf set ->
  exists b', persist_validator_set epoch set b = (b', Ok tt) /\ kv_ok b' /\
    epoch_record b' epoch = Ok (Some (recorded set)) /\
    (forall e, e < u64_mod -> e <> epoch ->
       kv_view b' !! (Meta, epoch_key e) = kv_view b !! (Meta, epoch_key e)) /\
    stake_map b' = stake_map b /\ (forall a, registered b' a = registered b a).
Proof.
  intros Hok He Hlen Hwf. destruct (persist_spec b epoch set Hok Hlen Hwf) as (b' & Hp & Hok' & Hv).
  exists b'. split_and!; [done|done|..].
  - unfold epoch_record. rewrite Hv, lookup_insert_eq. by apply decode_record_encoded.
  - intros e Hlt Hne. rewrite Hv, lookup_insert_ne; [done|]. intros Hk%(f_equal snd). by apply Hne, epoch_key_inj.
  - apply map_eq. intros a. rewrite !lookup_stake_map, Hv, lookup_insert_ne; [done|].
    intros Hk%(f_equal snd). by apply epoch_not_stake in Hk.
  - intros a. unfold registered. rewrite Hv, lookup_insert_ne; [done|].
    intros Hk%(f_equal snd). by apply epoch_not_registry in Hk.
Qed.

(** Persisting the newest epoch makes it the latest. *)
Lemma persist_latest b epoch set :
  kv_ok b -> epoch < u64_mod -> len set < u32_mod -> Forall entry_wf set ->
  (forall e, e < u64_mod -> is_Some (kv_view b !! (Meta, epoch_key e)) -> e < epoch) ->
  exists b', persist_validator_set epoch set b = (b', Ok tt) /\
    latest_validator_set b' = Ok (Some (epoch, recorded set)) /\
    stake_map b' = stake_map b /\ (forall a, registered b' a = registered b a).
Proof.
  intros Hok He Hlen Hwf Hold.
  destruct (persist_effects b epoch set Hok He Hlen Hwf) as (b' & Hp & Hok' & Hr & Ho & Hm & Hk).
  exists b'. split_and!; [done| |done|done].
  rewrite (latest_spec b' epoch Hok' He).
  - by rewrite Hr.
  - unfold epoch_record in Hr. destruct (kv_view b' !! _); [by eexists|done].
  - intros e Hlt Hs. destruct (decide (e = epoch)) as [->|Hne]; [done|].
    rewrite Ho in Hs by done. specialize (Hold e Hlt Hs). lia.
Qed.
(** The set the epoch hook chooses. *)
Definition elected (spec : ChainSpec) b : list ValidatorEntry :=
  let ranked := ranking (min_validator_stake_wei spec) (stake_map b) in
  match take (N.to_nat (validators_per_epoch spec)) (omap (keyed b) ranked) with
  | [] => take (N.to_nat (validators_per_epoch spec)) (stake_only_entry <$> ranked)
  | set => set
  end.

Lemma elected_recorded spec b :
  validate spec = Ok tt -> len (elected spec b) <= MAX_VALIDATORS /\ Forall entry_wf (elected spec b) /\
  recorded (elected spec b) = elected spec b.
Proof.
  intros [_ Hcap]%validate_Ok. unfold elected.
  pose proof (keyed_recorded b (min_validator_stake_wei spec) (N.to_nat (validators_per_epoch spec))) as Hk.
  pose proof (stake_only_recorded b (min_validator_stake_wei spec) (N.to_nat (validators_per_epoch spec))) as Hs.
  cbv zeta in *. destruct (take _ (omap _ _)) as [|v l] eqn:E.
  - split; [|done]. unfold len, MAX_VALIDATORS. rewrite length_take. lia.
  - split; [|done]. rewrite <-E. unfold len, MAX_VALIDATORS. rewrite length_take. lia.
Qed.

(** At a boundary with only earlier epochs recorded, the hook records its choice as the latest set. *)
Lemma maybe_elect_latest spec n b :
  kv_ok b -> validate spec = Ok tt -> 0 < n < u64_mod -> n mod epoch_length_blocks spec = 0 ->
  (forall e, e < u64_mod -> is_Some (kv_view b !! (Meta, epoch_key e)) -> e < n / epoch_length_blocks spec) ->
  latest_validator_set (maybe_elect_validator_set spec n b) =
    Ok (Some (n / epoch_length_blocks spec, elected spec b)) /\
  stake_map (maybe_elect_validator_set spec n b) = stake_map b /\
  (forall a, registered (maybe_elect_validator_set spec n b) a = registered b a).
Proof.
  intros Hok Hspec Hn Hm Hold. destruct (elected_recorded spec b Hspec) as (Hl & Hwf & Hrec).
  apply validate_Ok in Hspec as (Hlen & _). unfold maybe_elect_validator_set.
  rewrite (proj2 (N.eqb_neq (epoch_length_blocks spec) 0)) by lia.
  rewrite Hm, (proj2 (N.eqb_neq n 0)) by lia. cbn [orb negb N.eqb].
  rewrite keyed_election, stake_only_election by done.
  assert (n / epoch_length_blocks spec < u64_mod) as He
    by (eapply N.le_lt_trans; [apply N.Div0.div_le_upper_bound|apply Hn]; nia).
  destruct (persist_latest b _ (elected spec b) Hok He ltac:(unfold MAX_VALIDATORS in *; lia) Hwf Hold)
    as (b1 & Hp & Hlatest & Hm1 & Hk1).
  rewrite Hrec in Hlatest. unfold elected in Hp, Hlatest |- *.
  destruct (take _ (omap _ _)) as [|v l]; rewrite Hp; cbn [fst]; by split_and!.
Qed.
End elected.

Section properties.
Context {B : Type} `{HB : KvBackend B} {HL : KvLaws B}.

(** C17. The keyed election returns exactly the top validators: at most the cap; each of
    them bonded with at least the minimum stake and with registered keys, listed
    with its stake and keys; in strictly descending order of stake, ties broken by
    address; and whoever is eligible and has keys but was not elected found the set
    full of better ranked ones.  The outcome depends only on the stake table and the
    registered keys, so all nodes with the same tables elect the same set. *)
Theorem election_top_n (min_stake cap : N) (b : B) :
  kv_ok b ->
  exists set, elect_registered_active_set min_stake cap b = Ok set /\
    len set <= cap /\ StronglySorted better set /\
    (forall v, v ∈ set -> exists keys, stake_map b !! e_address v = Some (e_stake_wei v, 0) /\
       e_stake_wei v <> 0 /\ min_stake <= e_stake_wei v /\
       registered b (e_address v) = Some keys /\
       v = mkEntry (e_address v) (e_stake_wei v) (Some (k_bls keys)) (Some (k_vrf keys))) /\
    (forall a x keys, stake_map b !! a = Some (x, 0) -> x <> 0 -> min_stake <= x ->
       registered b a = Some keys ->
       let w := mkEntry a x (Some (k_bls keys)) (Some (k_vrf keys)) in
       w ∈ set \/ (len set = cap /\ forall v, v ∈ set -> better v w)) /\
    (forall b2 : B, kv_ok b2 -> stake_map b2 = stake_map b ->
       (forall a, registered b2 a = registered b a) ->
       elect_registered_active_set min_stake cap b2 = Ok set).
Proof.
  intros Hok. rewrite keyed_election by done. eexists. split; [done|].
  assert (Hs : StronglySorted better (omap (keyed b) (ranking min_stake (stake_map b)))).
  { eapply StronglySorted_omap; [apply ranking_sorted|]. intros r1 r2 v w [Hr Hn] Hv Hw.
    unfold keyed in Hv, Hw. destruct (registered b (staker r1)), (registered b (staker r2)); try done.
    injection Hv as <-. injection Hw as <-. by apply (rank_le_better r1 r2). }
  split_and!.
  - unfold len. rewrite length_take. lia.
  - by apply StronglySorted_take.
  - intros v (r & Hr & Hv)%elem_of_take_omap. apply elem_of_ranking in Hr as (Hm & Hu & Hn & Hmin).
    unfold keyed in Hv. destruct (registered b (staker r)) as [keys|] eqn:Hk; [|done].
    injection Hv as <-. exists keys. by split_and!.
  - intros a x keys Hm Hn Hmin Hk w.
    assert (w ∈ omap (keyed b) (ranking min_stake (stake_map b))) as Hw.
    { apply list_elem_of_omap. exists (mkStake a x 0). split; [by apply elem_of_ranking|].
      unfold keyed. cbn [staker]. by rewrite Hk. }
    destruct (top_n _ _ (N.to_nat cap) w Hs Hw) as [?|[Hl Hb]]; [by left|right].
    split; [unfold len; lia|done].
  - intros b2 Hok2 Hm Hk. rewrite keyed_election by done. rewrite Hm. do 2 f_equal.
    apply list_omap_ext, Forall_Forall2_diag, Forall_forall. intros r _. unfold keyed. by rewrite Hk.
Qed.

(** Epoch records round-trip: after a set of fewer than 2^32 entries is persisted for
    an epoch, reading that epoch returns the set, with the keys if every entry has
    both and without any key otherwise; the records of other epochs, the stake
    table and the registered keys are untouched. *)
Theorem epoch_record_roundtrip (epoch : N) (set : list ValidatorEntry) (b : B) :
  kv_ok b -> epoch < u64_mod -> len set < u32_mod -> Forall entry_wf set ->
  exists b', persist_validator_set epoch set b = (b', Ok tt) /\ kv_ok b' /\
    read_validator_set epoch b' = Ok (Some (recorded set)) /\
    (forall e, e < u64_mod -> e <> epoch -> read_validator_set e b' = read_validator_set e b) /\
    stake_map b' = stake_map b /\ (forall a, registered b' a = registered b a).
Proof.
  intros Hok He Hlen Hwf.
  destruct (persist_effects b epoch set Hok He Hlen Hwf) as (b' & Hp & Hok' & Hr & Ho & Hrest).
  exists b'. split_and!; [done|done| | |apply Hrest..].
  - by rewrite read_validator_set_view.
  - intros e Hlt Hne. rewrite !read_validator_set_view by done. unfold epoch_record. by rewrite Ho.
Qed.

(** At an epoch boundary the node elects and records: under a valid specification,
    at a block whose number is a positive multiple of the epoch length and with only
    earlier epochs recorded, the hook leaves the set it elected as the latest record
    of this epoch - the keyed election if it is not empty, else the stake-only one -
    which has at most 128 entries and fits a BFT validator set; the tables it read
    are unchanged.  At any other block the hook does nothing. *)
Theorem epoch_election_recorded (spec : ChainSpec) (n : N) (b : B) :
  kv_ok b -> validate spec = Ok tt -> n < u64_mod ->
  (forall e, e < u64_mod -> is_Some (kv_view b !! (Meta, epoch_key e)) -> e < n / epoch_length_blocks spec) ->
  let b' := maybe_elect_validator_set spec n b in
  (n = 0 \/ n mod epoch_length_blocks spec <> 0 -> b' = b) /\
  (0 < n -> n mod epoch_length_blocks spec = 0 ->
   exists keyed_set stake_set,
     elect_registered_active_set (min_validator_stake_wei spec) (validators_per_epoch spec) b = Ok keyed_set /\
     elect_active_set (min_validator_stake_wei spec) (validators_per_epoch spec) b = Ok stake_set /\
     let set := match keyed_set with [] => stake_set | _ => keyed_set end in
     latest_validator_set b' = Ok (Some (n / epoch_length_blocks spec, set)) /\
     len set <= MAX_VALIDATORS /\ stake_map b' = stake_map b /\
     (forall a, registered b' a = registered b a)).
Proof.
  intros Hok Hspec Hn Hold b'. split.
  { pose proof (validate_Ok _ Hspec) as [Hlen _]. unfold b', maybe_elect_validator_set.
    rewrite (proj2 (N.eqb_neq (epoch_length_blocks spec) 0)) by lia.
    intros [->|Hm]; [done|]. rewrite (proj2 (N.eqb_neq (n mod _) 0)) by done. by rewrite orb_true_r. }
  intros Hpos Hm. rewrite keyed_election, stake_only_election by done. eexists _, _.
  split; [done|]. split; [done|]. cbv zeta.
  destruct (elected_recorded spec b Hspec) as (Hl & _).
  destruct (maybe_elect_latest spec n b Hok Hspec (conj Hpos Hn) Hm Hold) as (Hlatest & Hrest).
  unfold elected in Hl, Hlatest. by destruct (take _ (omap _ _)).
Qed.
End properties.
