(* ===== verification/Rotation.v ===== *)
(** * Rotation: the engine follows the elected validator set

    Models from [src/crates/aii-node/src/lib.rs] [BftDposRotation] and
    [rotate_bft_engine_to_latest_dpos], with [my_bls_pubkey] of
    [src/crates/aii-consensus-bft/src/engine.rs] and the check that the commit loop of
    [src/crates/aii-node/src/main.rs] makes after each block.  The proofs join the
    stake table, the election, the epoch record and the BFT engine. *)
From stdpp Require Import base tactics gmap numbers sets sorting strings list.
From Stdlib Require Import NArith Lia.
From S2P Require Import Prelude Bytes Crypto Bft BftFacts Coordinator CoordinatorFacts Slashing.
From S2P Require Import Codec Block Engine EngineFacts Storage Staking ChainSpec Dpos DposProps.
From S2P Require Import Demo EngineDemo.

Inductive BftDposRotation :=
| NoActiveSet
| LocalKeyMissing (epoch count : N)
| Rotated (epoch count my_index : N).

(** [Box<dyn Error>] of either part *)
Inductive RotationError :=
| NodeFailed (e : NodeError)
| BftFailed (e : BftError).

Section rotation.
Context `{Primitives} `{Rlp} {B : Type} `{HB : KvBackend B}.

Definition my_bls_pubkey (self : BftEngine) : array 48 :=
  bls.PublicKey_to_compressed (bls.public_key (my_bls_sk (config self))).

Definition rotate_bft_engine_to_latest_dpos (engine : BftEngine) (b : B)
    : BftEngine * res RotationError BftDposRotation :=
  match latest_validator_set b with
  | Err e => (engine, Err (NodeFailed e))
  | Panic => (engine, Panic)
  | Ok None => (engine, Ok NoActiveSet)
  | Ok (Some (epoch, entries)) =>
      match bft_my_index_from_entries entries (my_bls_pubkey engine) with
      | None => (engine, Ok (LocalKeyMissing epoch (len entries)))
      | Some my_index =>
          match bft_validator_set_from_entries entries with
          | Err e => (engine, Err (BftFailed e))
          | Panic => (engine, Panic)
          | Ok validator_set =>
              let validators := size validator_set in
              let '(engine, r) := rotate_validator_set engine validator_set my_index in
              (engine, map_err BftFailed r;; mret (Rotated epoch validators my_index))
          end
      end
  end.

(** The commit loop's check; [last] is [last_rotation_checked_epoch]. *)
Definition rotation_check (last : option N) (engine : BftEngine) (b : B) : option N * BftEngine :=
  match latest_validator_set b with
  | Ok (Some (epoch, entries)) =>
      if bool_decide (last = Some epoch) then (last, engine)
      else
        (Some epoch,
         match bft_my_index_from_entries entries (my_bls_pubkey engine) with
         | Some my_index =>
             match bft_validator_set_from_entries entries with
             | Ok set => (rotate_validator_set engine set my_index).1
             | _ => engine
             end
         | None => engine
         end)
  | _ => (last, engine)
  end.

(** ** What a record means to the engine *)

(** The weight of a stake: whole tokens, at least one. *)
Definition weight_of (stake_wei : N) : N := N.max 1 (stake_wei / BFT_STAKE_WEIGHT_UNIT_WEI).

(** The validator an entry stands for. *)
Definition stands_for (entry : ValidatorEntry) (v : Validator) : Prop :=
  (e_bls_pubkey entry ≫= blst_pk_from_bytes) = Some (v_bls_pubkey v) /\
  (e_vrf_pubkey entry ≫= sr_pk_from_bytes) = Some (v_vrf_pubkey v) /\
  v_stake v = weight_of (e_stake_wei entry) /\ v_stake v < u64_mod.
End rotation.

Section proofs.
Context `{HPL : PrimitiveLaws} `{Rlp}.

Lemma bft_weight_Ok wei w :
  bft_stake_weight_from_wei wei = Ok w <-> w = weight_of wei /\ w < u64_mod.
Proof.
  unfold bft_stake_weight_from_wei, weight_of.
  generalize (wei / BFT_STAKE_WEIGHT_UNIT_WEI) as q. intros q. cbv zeta.
  assert ((if q =? 0 then 1 else q) = N.max 1 q) as -> by (destruct (N.eqb_spec q 0); lia).
  destruct (N.ltb_spec (N.max 1 q) u64_mod) as [Hl|Hl].
  - split; [by intros [= <-]|by intros [-> _]].
  - split; [done|]. intros [-> Hlt]. lia.
Qed.

Lemma entry_validators_Ok i entries vs :
  entry_validators i entries = Ok vs <-> Forall2 stands_for entries vs.
Proof.
  revert i vs. induction entries as [|entry entries IH]; intros i vs; cbn [entry_validators].
  { split; [intros [= <-]; constructor|by intros ->%Forall2_nil_inv_l]. }
  split.
  - intros Hv. inv_ok. subst vs.
    repeat match goal with
      | H : bls.PublicKey_from_compressed _ = Ok _ |- _ => apply ok_or_Ok in H
      | H : vrf.PublicKey_from_bytes _ = Ok _ |- _ => apply ok_or_Ok in H
      | H : bft_stake_weight_from_wei _ = Ok _ |- _ => apply bft_weight_Ok in H as [-> ?]
      | H : entry_validators _ _ = Ok _ |- _ => apply IH in H
      | H : _ = Some _ |- _ => rewrite H
      end.
    constructor; [|done]. unfold stands_for. cbn [v_bls_pubkey v_vrf_pubkey v_stake].
    repeat match goal with H : _ = Some _ |- _ => rewrite H; clear H end. cbn. by split_and!.
  - intros (v & vs' & (Hb & Hr & Hs & Hlt) & Hrest%(IH (i + 1)) & ->)%Forall2_cons_inv_l.
    apply bind_Some in Hb as (bls & -> & Hb). apply bind_Some in Hr as (vr & -> & Hr). cbn.
    unfold bls.PublicKey_from_compressed, vrf.PublicKey_from_bytes. rewrite Hb, Hr. cbn.
    rewrite (proj2 (bft_weight_Ok _ _) (conj Hs Hlt)). cbn. rewrite Hrest. by destruct v.
Qed.

Lemma bft_set_Ok entries vs :
  bft_validator_set_from_entries entries = Ok vs <->
  Forall2 stands_for entries (validators vs) /\ vs_wf vs.
Proof.
  unfold bft_validator_set_from_entries. split.
  - intros Hv. inv_ok. apply ValidatorSet_new_Ok in Hv as [-> Hwf].
    match goal with H : entry_validators _ _ = Ok _ |- _ => apply entry_validators_Ok in H end. done.
  - intros [Hf%(entry_validators_Ok 0) Hwf]. rewrite Hf. cbn. apply ValidatorSet_new_Ok.
    split; [|done]. destruct vs as [l t]. by rewrite <-(vs_total _ Hwf).
Qed.

(** The local index is the first entry with the local key. *)
Lemma my_index_Some entries key i :
  bft_my_index_from_entries entries key = Some i ->
  exists entry, entries !! N.to_nat i = Some entry /\ e_bls_pubkey entry = Some key.
Proof.
  unfold bft_my_index_from_entries. intros ([idx entry] & Hf & Hi)%bind_Some.
  destruct (N.of_nat idx <? u32_mod); [|done]. injection Hi as <-. rewrite Nat2N.id.
  apply list_find_Some in Hf as (? & ? & _). by exists entry.
Qed.

Lemma my_index_is_Some entries key :
  len entries <= u32_mod -> (exists entry, entry ∈ entries /\ e_bls_pubkey entry = Some key) ->
  is_Some (bft_my_index_from_entries entries key).
Proof.
  intros Hlen (entry & Hin & Hk). unfold bft_my_index_from_entries.
  destruct (list_find_elem_of (fun entry => e_bls_pubkey entry = Some key) entries entry Hin Hk)
    as [[idx e] Hf]. rewrite Hf. cbn.
  apply list_find_Some in Hf as (Hl%lookup_lt_Some & _).
  destruct (N.ltb_spec (N.of_nat idx) u32_mod) as [|Hge]; [by eexists|]. unfold len in Hlen. lia.
Qed.

(** The index names the engine's own key in the set of the record. *)
Lemma own_key engine entries i vs :
  bft_my_index_from_entries entries (my_bls_pubkey engine) = Some i ->
  Forall2 stands_for entries (validators vs) ->
  v_bls_pubkey <$> get vs i = Some (bls.public_key (my_bls_sk (config engine))).
Proof.
  intros (entry & Hi & Hk)%my_index_Some Hf.
  destruct (Forall2_lookup_l _ _ _ _ _ Hf Hi) as (v & Hv & Hb & _).
  unfold get. rewrite Hv. cbn. rewrite Hk in Hb. cbn in Hb.
  unfold my_bls_pubkey, bls.PublicKey_to_compressed, bls.public_key in Hb.
  rewrite blst_pk_roundtrip in Hb. by injection Hb as <-.
Qed.

(** Between rounds a rotation to an index inside the set succeeds, and starts afresh on the same head. *)
Lemma rotate_fresh engine vs i :
  coordinator (state engine) = None -> proposal (state engine) = None -> i < size vs ->
  exists engine', rotate_validator_set engine vs i = (engine', Ok tt) /\
    config engine' = config engine /\ pending_txs engine' = pending_txs engine /\
    validator_set (state engine') = vs /\ my_index (state engine') = i /\
    head_hash (state engine') = head_hash (state engine) /\
    head_number (state engine') = head_number (state engine) /\
    coordinator (state engine') = None.
Proof.
  intros Hc Hp Hi. unfold rotate_validator_set. rewrite (proj2 (N.leb_gt _ _)) by done.
  rewrite Hc, Hp. by eexists.
Qed.

Lemma rotate_Ok engine vs i engine' u :
  rotate_validator_set engine vs i = (engine', Ok u) ->
  i < size vs /\ coordinator (state engine) = None /\ proposal (state engine) = None.
Proof.
  unfold rotate_validator_set. destruct (N.leb_spec (size vs) i); [done|].
  by destruct (coordinator (state engine)), (proposal (state engine)).
Qed.

Lemma rotate_not_Ok engine vs i engine' r :
  rotate_validator_set engine vs i = (engine', r) -> r <> Ok tt -> engine' = engine /\ exists e, r = Err e.
Proof.
  unfold rotate_validator_set. destruct (size vs <=? i); [intros [= <- <-]; eauto|].
  destruct (coordinator (state engine)), (proposal (state engine)); intros [= <- <-]; eauto. done.
Qed.
End proofs.

(** ** Properties *)
Section properties.
Context `{HPL : PrimitiveLaws} `{Rlp} {B : Type} `{HB : KvBackend B} {HL : KvLaws B}.

(** Rotation installs what is recorded, or nothing: unless the outcome is [Rotated],
    the engine is unchanged; when it is, the engine was between rounds, its new set is
    well formed and has, entry by entry, the keys and the weight (whole tokens, at
    least one) of the latest record, its index is inside the set and names the
    engine's own key, and head, configuration and staged transactions are kept.
    Conversely, a record whose entries all stand for validators of a well-formed set
    and that contains the engine's key is installed whenever no round is active. *)
Theorem rotation_installs_record (engine : BftEngine) (b : B) :
  let '(engine', r) := rotate_bft_engine_to_latest_dpos engine b in
  match r with
  | Ok (Rotated epoch n i) => exists entries,
      latest_validator_set b = Ok (Some (epoch, entries)) /\ n = len entries /\
      Forall2 stands_for entries (validators (validator_set (state engine'))) /\
      vs_wf (validator_set (state engine')) /\
      my_index (state engine') = i /\ i < n /\
      v_bls_pubkey <$> get (validator_set (state engine')) i =
        Some (bls.public_key (my_bls_sk (config engine))) /\
      coordinator (state engine) = None /\ coordinator (state engine') = None /\
      head_number (state engine') = head_number (state engine) /\
      head_hash (state engine') = head_hash (state engine) /\
      config engine' = config engine /\ pending_txs engine' = pending_txs engine
  | _ => engine' = engine
  end /\
  (forall epoch entries vs, latest_validator_set b = Ok (Some (epoch, entries)) ->
     (exists entry, entry ∈ entries /\ e_bls_pubkey entry = Some (my_bls_pubkey engine)) ->
     Forall2 stands_for entries (validators vs) -> vs_wf vs ->
     coordinator (state engine) = None -> proposal (state engine) = None ->
     exists i, r = Ok (Rotated epoch (len entries) i)).
Proof.
  unfold rotate_bft_engine_to_latest_dpos.
  destruct (latest_validator_set b) as [[[epoch entries]|]|e|]; try (by split; [|intros ???[=]]).
  destruct (bft_my_index_from_entries entries (my_bls_pubkey engine)) as [i|] eqn:Hi.
  - destruct (bft_validator_set_from_entries entries) as [vs|e|] eqn:Hvs.
    + pose proof (proj1 (bft_set_Ok _ _) Hvs) as [Hf Hwf].
      pose proof (own_key engine entries i vs Hi Hf) as Hown.
      assert (size vs = len entries) as Hsize by (unfold size, len; by rewrite (Forall2_length _ _ _ Hf)).
      assert (i < size vs) as Hlt.
      { unfold get in Hown. destruct (validators vs !! N.to_nat i) eqn:Hv; [|done].
        apply lookup_lt_Some in Hv. unfold size, len. lia. }
      destruct (rotate_validator_set engine vs i) as [engine' r] eqn:Hr. destruct r as [[]|e|]; cbn.
      * pose proof (rotate_Ok _ _ _ _ _ Hr) as (_ & Hc & Hp).
        destruct (rotate_fresh engine vs i Hc Hp Hlt) as (e2 & Hr2 & Hcfg & Htx & Hv & Hx & Hh & Hn & Hco).
        rewrite Hr in Hr2. injection Hr2 as <-. split.
        -- exists entries. rewrite Hv, Hsize. rewrite Hsize in Hlt. by split_and!.
        -- intros ? ? vs2 [= <- <-] _ _ _ _ _. exists i. by rewrite Hsize.
      * pose proof (rotate_not_Ok _ _ _ _ _ Hr ltac:(done)) as [-> _]. split; [done|].
        intros ? ? vs2 _ _ _ _ Hc Hp. destruct (rotate_fresh engine vs i Hc Hp Hlt) as (e2 & Hr2 & _).
        by rewrite Hr in Hr2.
      * pose proof (rotate_not_Ok _ _ _ _ _ Hr ltac:(done)) as [-> [? [=]]].
    + split; [done|]. intros ? ? vs [= <- <-] _ Hf Hwf. by rewrite (proj2 (bft_set_Ok _ _) (conj Hf Hwf)) in Hvs.
    + split; [done|]. intros ? ? vs [= <- <-] _ Hf Hwf. by rewrite (proj2 (bft_set_Ok _ _) (conj Hf Hwf)) in Hvs.
  - split; [done|]. intros ? ? vs [= <- <-] Hex Hf Hwf _ _.
    destruct (my_index_is_Some entries (my_bls_pubkey engine)) as [i Hi']; [|done|by rewrite Hi in Hi'].
    pose proof (vs_size_le _ Hwf) as Hs. unfold size, len in *. rewrite (Forall2_length _ _ _ Hf).
    unfold MAX_VALIDATORS in *. lia.
Qed.

(** C18. Stake reaches consensus: at an epoch boundary with only earlier epochs recorded,
    if the entries of the elected set stand for the validators of a well-formed set
    and one carries the engine's key, then running the epoch hook and rotating an
    idle engine installs exactly that set, at the index of the engine's own key. *)
Theorem election_reaches_engine (spec : ChainSpec) (n : N) (b : B) (engine : BftEngine) (vs : ValidatorSet) :
  kv_ok b -> validate spec = Ok tt -> 0 < n < u64_mod -> n mod epoch_length_blocks spec = 0 ->
  (forall e, e < u64_mod -> is_Some (kv_view b !! (Meta, epoch_key e)) -> e < n / epoch_length_blocks spec) ->
  Forall2 stands_for (elected spec b) (validators vs) -> vs_wf vs ->
  (exists entry, entry ∈ elected spec b /\ e_bls_pubkey entry = Some (my_bls_pubkey engine)) ->
  coordinator (state engine) = None -> proposal (state engine) = None ->
  exists engine' i,
    rotate_bft_engine_to_latest_dpos engine (maybe_elect_validator_set spec n b) =
      (engine', Ok (Rotated (n / epoch_length_blocks spec) (size vs) i)) /\
    validator_set (state engine') = vs /\ my_index (state engine') = i /\
    v_bls_pubkey <$> get vs i = Some (bls.public_key (my_bls_sk (config engine'))).
Proof.
  intros Hok Hspec Hn Hm Hold Hf Hwf Hex Hc Hp.
  destruct (maybe_elect_latest spec n b Hok Hspec Hn Hm Hold) as (Hlatest & _).
  unfold rotate_bft_engine_to_latest_dpos. rewrite Hlatest.
  assert (size vs = len (elected spec b)) as Hsize by (unfold size, len; by rewrite (Forall2_length _ _ _ Hf)).
  destruct (my_index_is_Some (elected spec b) (my_bls_pubkey engine)) as [i Hi].
  { pose proof (vs_size_le _ Hwf). unfold MAX_VALIDATORS in *. lia. } { done. }
  rewrite Hi, (proj2 (bft_set_Ok _ _) (conj Hf Hwf)). pose proof (own_key _ _ _ _ Hi Hf) as Hown.
  assert (i < size vs) as Hlt.
  { unfold get in Hown. destruct (validators vs !! N.to_nat i) eqn:Hv; [|done].
    apply lookup_lt_Some in Hv. unfold size, len. lia. }
  destruct (rotate_fresh engine vs i Hc Hp Hlt) as (e2 & Hr2 & Hcfg & _ & Hv & Hx & _).
  exists e2, i. rewrite Hr2. cbn. rewrite Hcfg. by split_and!.
Qed.
End properties.

(** ** A concrete stake table, election and rotation

    Four stakers with registered keys, one richer staker without keys and one poorer
    with keys. *)
Module DposDemo.
Export Demo.
Definition addr (i : N) : Address := be_array 20 (i + 1).
Definition aii (x : N) : N := x * BFT_STAKE_WEIGHT_UNIT_WEI.

(** Staker 4 has no keys, staker 5 too little stake. *)
Definition bonds : list stake_op :=
  ((fun i => SBond (addr i) (aii (100 * (i + 1)))) <$> [0; 1; 2; 3]) ++
  [SBond (addr 4) (aii 900); SBond (addr 5) (aii 50)].
Definition enrol (b : MemoryBackend) (i : N) : MemoryBackend := (register (addr i) (mkKeys (sk i) (vsk i)) b).1.
Definition store : MemoryBackend := foldl enrol (stake_run bonds MemoryBackend_new).1 [0; 1; 2; 3; 5].

Lemma enrol_ok l b : kv_ok b -> kv_ok (foldl enrol b l).
Proof.
  revert b. induction l as [|i l IH]; intros b Hok; [done|]. cbn. apply IH. unfold enrol, register.
  by destruct (meta_put_view (registry_key (addr i)) (encode_keys (mkKeys (sk i) (vsk i))) b Hok) as (b' & -> & ? & _).
Qed.

Lemma store_ok : kv_ok store.
Proof.
  apply enrol_ok. pose proof (stake_run_spec bonds MemoryBackend_new MemoryBackend_new_ok) as Hr.
  destruct (stake_run bonds MemoryBackend_new). apply Hr.
Qed.

(** The record of an epoch exists only if the prefix scan finds it. *)
Lemma no_epochs (b : MemoryBackend) :
  kv_ok b -> kv_iter_prefix b Meta VALIDATOR_SET_PREFIX = [] ->
  forall e, ~ is_Some (kv_view b !! (Meta, epoch_key e)).
Proof.
  intros Hok Hnil e [v Hv]. destruct (kv_iter_prefix_view b Meta VALIDATOR_SET_PREFIX Hok) as (items & Hi & _ & Hin).
  rewrite Hnil in Hi. destruct items as [|x items]; [|discriminate Hi].
  assert ((epoch_key e, v) ∈ @nil (bytes * bytes)) as Hx by (apply Hin; split; [done|by eexists]).
  by apply not_elem_of_nil in Hx.
Qed.

Lemma store_no_epochs e : ~ is_Some (kv_view store !! (Meta, epoch_key e)).
Proof. apply (no_epochs _ store_ok). vm_compute. reflexivity. Qed.

Definition entry (i : N) : ValidatorEntry :=
  mkEntry (addr i) (aii (100 * (i + 1))) (Some (sk i)) (Some (vsk i)).
Definition chosen : list ValidatorEntry := entry <$> [3; 2; 1; 0].
Definition chosen_set : ValidatorSet :=
  mkValidatorSet ((fun i => validator i (100 * (i + 1))) <$> [3; 2; 1; 0]) 1000.

Lemma store_elected : elected mainnet store = chosen.
Proof. apply (bool_decide_eq_true (elected mainnet store = chosen)). vm_compute. reflexivity. Qed.

Lemma store_elects : elect_registered_active_set 100000000000000000000 21 store = Ok chosen.
Proof. rewrite (keyed_election _ _ _ store_ok), <-store_elected. unfold elected. vm_compute. reflexivity. Qed.

Lemma chosen_set_wf : vs_wf chosen_set.
Proof. split; [discriminate|by vm_compute..]. Qed.

Lemma chosen_stand : Forall2 stands_for chosen (validators chosen_set).
Proof. repeat constructor. Qed.

Lemma own_entry : exists e, e ∈ chosen /\ e_bls_pubkey e = Some (my_bls_pubkey (EngineDemo.engine_of 1)).
Proof. exists (entry 1). split; [do 2 right; left|vm_compute; reflexivity]. Qed.

Definition boundary : N := 3 * epoch_length_blocks mainnet.
End DposDemo.

Lemma election_top_n_witness :
  elect_registered_active_set 100000000000000000000 21 DposDemo.store = Ok DposDemo.chosen /\
  len DposDemo.chosen <= 21 /\ StronglySorted better DposDemo.chosen.
Proof.
  destruct (election_top_n 100000000000000000000 21 DposDemo.store DposDemo.store_ok)
    as (set & Hset & Hl & Hs & _).
  split; [exact DposDemo.store_elects|]. rewrite DposDemo.store_elects in Hset.
  injection Hset as Hset. rewrite Hset. exact (conj Hl Hs).
Defined.

Lemma epoch_record_roundtrip_witness :
  exists b', persist_validator_set 3 DposDemo.chosen DposDemo.store = (b', Ok tt) /\
    read_validator_set 3 b' = Ok (Some (recorded DposDemo.chosen)) /\
    recorded DposDemo.chosen = DposDemo.chosen.
Proof.
  destruct (epoch_record_roundtrip 3 DposDemo.chosen DposDemo.store DposDemo.store_ok eq_refl eq_refl)
    as (b' & Hp & _ & Hr & _); [repeat constructor|].
  exists b'. split; [exact Hp|split; [exact Hr|reflexivity]].
Defined.

Lemma epoch_election_recorded_witness :
  latest_validator_set (maybe_elect_validator_set mainnet DposDemo.boundary DposDemo.store) =
    Ok (Some (3, DposDemo.chosen)).
Proof.
  destruct (epoch_election_recorded mainnet DposDemo.boundary DposDemo.store DposDemo.store_ok eq_refl eq_refl)
    as (_ & H); [intros e _ He; by apply DposDemo.store_no_epochs in He|].
  destruct (H eq_refl eq_refl) as (ks & ss & Hk & _ & Hl & _).
  change (elect_registered_active_set 100000000000000000000 21 DposDemo.store = Ok ks) in Hk.
  rewrite DposDemo.store_elects in Hk. injection Hk as Hk. rewrite <-Hk in Hl. exact Hl.
Defined.

Lemma rotation_installs_record_witness :
  let '(_, r) := rotate_bft_engine_to_latest_dpos (EngineDemo.engine_of 1)
    (maybe_elect_validator_set mainnet DposDemo.boundary DposDemo.store) in
  exists i, r = Ok (Rotated 3 4 i).
Proof.
  pose proof (rotation_installs_record (HPL := Toy.laws) (EngineDemo.engine_of 1)
    (maybe_elect_validator_set mainnet DposDemo.boundary DposDemo.store)) as H.
  destruct (rotate_bft_engine_to_latest_dpos _ _) as [e' r]. destruct H as [_ H].
  refine (H 3 DposDemo.chosen DposDemo.chosen_set _ DposDemo.own_entry DposDemo.chosen_stand
    DposDemo.chosen_set_wf eq_refl eq_refl).
  rewrite <-DposDemo.store_elected.
  refine (proj1 (maybe_elect_latest mainnet DposDemo.boundary DposDemo.store DposDemo.store_ok eq_refl
    (conj eq_refl eq_refl) eq_refl _)).
  intros e _ He. by apply DposDemo.store_no_epochs in He.
Defined.

Lemma election_reaches_engine_witness :
  exists engine' i,
    rotate_bft_engine_to_latest_dpos (EngineDemo.engine_of 1)
      (maybe_elect_validator_set mainnet DposDemo.boundary DposDemo.store) =
      (engine', Ok (Rotated 3 4 i)) /\
    validator_set (state engine') = DposDemo.chosen_set /\ my_index (state engine') = i.
Proof.
  destruct (election_reaches_engine (HPL := Toy.laws) mainnet DposDemo.boundary DposDemo.store
    (EngineDemo.engine_of 1) DposDemo.chosen_set DposDemo.store_ok eq_refl (conj eq_refl eq_refl) eq_refl)
    as (e' & i & Hr & Hv & Hi & _).
  - intros e _ He. by apply DposDemo.store_no_epochs in He.
  - rewrite DposDemo.store_elected. exact DposDemo.chosen_stand.
  - exact DposDemo.chosen_set_wf.
  - rewrite DposDemo.store_elected. exact DposDemo.own_entry.
  - reflexivity.
  - reflexivity.
  - exists e', i. exact (conj Hr (conj Hv Hi)).
Defined.
