(* ===== verification/Bootstrap.v ===== *)
(** * Bootstrap: from the operators' keys to the engine of a validator

    Models the validator tooling of the command line ([src/crates/aii-cli/src/lib.rs]: keystore,
    public keys, genesis file), the genesis header ([src/crates/aii-config/src/genesis.rs]) and
    [src/crates/aii-node/src/bft_bootstrap.rs], which builds the engine's configuration from the
    two files.  The files are their parsed values; their JSON text is not modelled.  Random
    numbers are arguments. *)
From stdpp Require Import base tactics gmap numbers strings list.
From Stdlib Require Import NArith Lia.
From S2P Require Import Prelude Bytes Crypto Bft BftFacts Codec Tx Trie Block ChainSpec Engine EngineFacts.

(** The encodings of secret keys and the VRF's public keys, of [blst] and [schnorrkel]. *)
Class KeyCodec `{Primitives} := {
  blst_key_gen : bytes -> bytes -> option bls_sk;
  blst_sk_from_bytes : array 32 -> option bls_sk;
  blst_sk_to_bytes : bls_sk -> array 32;
  sr_sk_from_bytes : array 64 -> option vrf_sk;
  sr_sk_to_bytes : vrf_sk -> array 64;
  sr_pk_to_bytes : vrf_pk -> array 32
}.

(** A key that was generated reads back, and so does every VRF key. *)
Class KeyCodecLaws `{Primitives} (C : KeyCodec) : Prop := {
  blst_sk_roundtrip : forall ikm info sk, blst_key_gen ikm info = Some sk ->
    blst_sk_from_bytes (blst_sk_to_bytes sk) = Some sk;
  sr_sk_roundtrip : forall sk, sr_sk_from_bytes (sr_sk_to_bytes sk) = Some sk;
  sr_pk_roundtrip : forall pk, sr_pk_from_bytes (sr_pk_to_bytes pk) = Some pk
}.

(** The messages of [CliError::Client]. *)
Inductive ToolError :=
| BadHex (label : string)
| BadLength (label : string) (expected got : N)
| BadKey (label : string)
| KeyMismatch (label : string)
| UnknownNetwork (name : string)
| InvalidPoint (i : N) (label : string)
| BadSpec (msg : string)
| NoValidators
| StakeOverflow (i : N)
| ZeroStake.

Record ValidatorKeystore := mkKeystore {
  ks_bls_pubkey : text; ks_bls_secret : text; ks_vrf_pubkey : text; ks_vrf_secret : text
}.

Record ValidatorPubkeys := mkPubkeys { pk_bls_pubkey : text; pk_vrf_pubkey : text }.

Definition pubkeys (self : ValidatorKeystore) : ValidatorPubkeys :=
  mkPubkeys (ks_bls_pubkey self) (ks_vrf_pubkey self).

Record CliValidatorEntry := mkValidatorEntry { ve_pubkeys : ValidatorPubkeys; ve_stake : N }.

Inductive BootstrapError :=
| BootHex (label : string)
| BootLength (label : string) (expected got : N)
| BootKey (label : string)
| BootIndex
| NotAValidator (bls : text)
| BootBft (e : BftError).

Section bootstrap.
Context `{Primitives} `{!KeyCodec} `{Rlp} `{HexCrate}.

(** ** [bls.rs] and [vrf.rs]: secret keys *)
Definition bls_SecretKey_from_ikm (ikm info : bytes) : res CryptoError bls_sk :=
  ok_or (blst_key_gen ikm info) (InvalidEncoding "BLS IKM too short (need >=32 bytes)").

Definition bls_SecretKey_from_bytes (b : array 32) : res CryptoError bls_sk :=
  ok_or (blst_sk_from_bytes b) (InvalidEncoding "BLS secret key invalid").

Definition vrf_SecretKey_from_bytes (b : array 64) : res CryptoError vrf_sk :=
  ok_or (sr_sk_from_bytes b) vrf.decoding_failed.

(** ** The validator's files *)
Definition decode_hex (n : nat) (s : text) (label : string) : res ToolError (array n) :=
  raw ← ok_or (hex_decode (strip_or s)) (BadHex label);
  ok_or (arr_of raw) (BadLength label (N.of_nat n) (len raw)).

Definition run_validator_keygen (ikm : array 32) (vrf_secret_key : vrf_sk) : res ToolError ValidatorKeystore :=
  bls_secret_key ← map_err (fun _ => BadKey "bls keygen")
    (bls_SecretKey_from_ikm (arr_bytes ikm) (str "aii-validator"));
  mret (mkKeystore
    (hex_bytes (arr_bytes (blst_pk_compress (bls.public_key bls_secret_key))))
    (hex_bytes (arr_bytes (blst_sk_to_bytes bls_secret_key)))
    (hex_bytes (arr_bytes (sr_pk_to_bytes (sr_to_public vrf_secret_key))))
    (hex_bytes (arr_bytes (sr_sk_to_bytes vrf_secret_key)))).

Definition run_validator_pubkey (ks : ValidatorKeystore) : res ToolError ValidatorPubkeys :=
  sk_bytes ← decode_hex 32 (ks_bls_secret ks) "bls_secret";
  bls_sk ← map_err (fun _ => BadKey "bls_secret") (bls_SecretKey_from_bytes sk_bytes);
  actual_pk_bytes ← decode_hex 48 (ks_bls_pubkey ks) "bls_pubkey";
  _ ← guard_err (negb (bool_decide (blst_pk_compress (bls.public_key bls_sk) = actual_pk_bytes)))
        (KeyMismatch "bls_pubkey");
  vrf_sk_bytes ← decode_hex 64 (ks_vrf_secret ks) "vrf_secret";
  vrf_sk ← map_err (fun _ => BadKey "vrf_secret") (vrf_SecretKey_from_bytes vrf_sk_bytes);
  actual_vrf_pk ← decode_hex 32 (ks_vrf_pubkey ks) "vrf_pubkey";
  _ ← guard_err (negb (bool_decide (sr_pk_to_bytes (sr_to_public vrf_sk) = actual_vrf_pk)))
        (KeyMismatch "vrf_pubkey");
  mret (pubkeys ks).

(** ** The genesis file *)
Fixpoint genesis_validators (i : N) (vs : list CliValidatorEntry) : res ToolError (list GenesisValidator) :=
  match vs with
  | [] => Ok []
  | v :: vs =>
      bls_bytes ← decode_hex 48 (pk_bls_pubkey (ve_pubkeys v)) "bls_pubkey";
      vrf_bytes ← decode_hex 32 (pk_vrf_pubkey (ve_pubkeys v)) "vrf_pubkey";
      _ ← map_err (fun _ => InvalidPoint i "bls_pubkey") (bls.PublicKey_from_compressed bls_bytes);
      _ ← map_err (fun _ => InvalidPoint i "vrf_pubkey") (vrf.PublicKey_from_bytes vrf_bytes);
      rest ← genesis_validators (i + 1) vs;
      mret (mkGenesisValidator bls_bytes vrf_bytes (ve_stake v) :: rest)
  end.

Definition spec_of_network (network : string) : res ToolError ChainSpec :=
  if bool_decide (network = "mainnet"%string) then Ok mainnet
  else if bool_decide (network = "testnet"%string) then Ok testnet
  else Err (UnknownNetwork network).

Definition run_genesis_init (network : string) (timestamp : N) (initial_seed_hex : text)
    (validators : list CliValidatorEntry) : res ToolError Genesis :=
  chain_spec ← spec_of_network network;
  initial_seed ← decode_hex 32 initial_seed_hex "initial_seed";
  gen_validators ← genesis_validators 0 validators;
  mret (mkGenesis chain_spec timestamp (str (String.append "aii-" network)) [] gen_validators initial_seed).

Fixpoint validate_validators (i total : N) (vs : list GenesisValidator) : res ToolError N :=
  match vs with
  | [] => Ok total
  | v :: vs =>
      _ ← map_err (fun _ => InvalidPoint i "bls pubkey") (bls.PublicKey_from_compressed (g_bls_pubkey v));
      _ ← map_err (fun _ => InvalidPoint i "vrf pubkey") (vrf.PublicKey_from_bytes (g_vrf_pubkey v));
      total ← ok_or (checked_add u64_mod total (g_stake v)) (StakeOverflow i);
      validate_validators (i + 1) total vs
  end.

Definition run_genesis_validate (g : Genesis) : res ToolError Genesis :=
  _ ← map_err BadSpec (validate (g_chain_spec g));
  _ ← guard_err (len (g_validators g) =? 0) NoValidators;
  total ← validate_validators 0 0 (g_validators g);
  _ ← guard_err (total =? 0) ZeroStake;
  mret g.

Definition to_header (self : Genesis) (state_root : H256) : Header :=
  mkHeader (zero_array 32) EMPTY_LIST_HASH (zero_array 20) state_root EMPTY_TRIE_HASH EMPTY_TRIE_HASH
    (zero_array 256) 0 0 (cs_initial_gas_limit (g_chain_spec self)) 0 (g_timestamp self) (g_extra_data self)
    (zero_array 32) (zero_array 8) (cs_min_base_fee_per_gas (g_chain_spec self)) EMPTY_TRIE_HASH None None None.

(** ** [bft_bootstrap.rs] *)
Fixpoint discover_loop (i : N) (vs : list GenesisValidator) (needle : text) : option N :=
  match vs with
  | [] => None
  | v :: vs =>
      if bool_decide (hex_encode (arr_bytes (g_bls_pubkey v)) = needle) then Some i
      else discover_loop (i + 1) vs needle
  end.

Definition discover_my_index (genesis : Genesis) (keystore : ValidatorKeystore) : res BootstrapError N :=
  let needle := to_lowercase (trim_0x (ks_bls_pubkey keystore)) in
  match discover_loop 0 (g_validators genesis) needle with
  | Some i => if i <? u32_mod then Ok i else Err BootIndex
  | None => Err (NotAValidator (ks_bls_pubkey keystore))
  end.

Definition decode_fixed (n : nat) (hex_str : text) (label : string) : res BootstrapError (array n) :=
  raw ← ok_or (hex_decode (trim_0x hex_str)) (BootHex label);
  ok_or (arr_of raw) (BootLength label (N.of_nat n) (len raw)).

Definition build_bft_config (genesis : Genesis) (keystore : ValidatorKeystore) (coinbase : Address)
    (my_index_override : option N) : res BootstrapError BftConfig :=
  my_index ← match my_index_override with Some i => Ok i | None => discover_my_index genesis keystore end;
  bls_sk_bytes ← decode_fixed 32 (ks_bls_secret keystore) "bls_secret";
  bls_sk ← map_err (fun _ => BootKey "bls_secret") (bls_SecretKey_from_bytes bls_sk_bytes);
  vrf_sk_bytes ← decode_fixed 64 (ks_vrf_secret keystore) "vrf_secret";
  vrf_sk ← map_err (fun _ => BootKey "vrf_secret") (vrf_SecretKey_from_bytes vrf_sk_bytes);
  map_err BootBft (from_genesis genesis my_index bls_sk vrf_sk coinbase).

Definition genesis_block (genesis : Genesis) : Block := mkBlock (to_header genesis EMPTY_TRIE_HASH) default_body.

Definition boot_bft_engine (genesis : Genesis) (keystore : ValidatorKeystore) (coinbase : Address)
    : res BootstrapError BftEngine :=
  cfg ← build_bft_config genesis keystore coinbase None;
  mret (BftEngine_new cfg (genesis_block genesis)).

Definition boot_bft_engine_with_recovered_head (genesis : Genesis) (keystore : ValidatorKeystore)
    (coinbase : Address) (recovered_head : Block) : res BootstrapError BftEngine :=
  cfg ← build_bft_config genesis keystore coinbase None;
  mret (from_recovered cfg recovered_head).
End bootstrap.

Section facts.
Context `{Primitives} `{!PrimitiveLaws _} `{C : !KeyCodec} `{!KeyCodecLaws C} `{R : Rlp} `{X : HexCrate} `{!HexLaws X}.

(** The keystore of a pair of keys. *)
Definition keystore_of (k : bls_sk * vrf_sk) : ValidatorKeystore :=
  mkKeystore (hex_bytes (arr_bytes (blst_pk_compress (bls.public_key k.1))))
    (hex_bytes (arr_bytes (blst_sk_to_bytes k.1)))
    (hex_bytes (arr_bytes (sr_pk_to_bytes (sr_to_public k.2))))
    (hex_bytes (arr_bytes (sr_sk_to_bytes k.2))).

Definition generated (ks : ValidatorKeystore) : Prop :=
  exists ikm vrf_secret, run_validator_keygen ikm vrf_secret = Ok ks.

Lemma generated_key ks : generated ks ->
  exists k, ks = keystore_of k /\ blst_sk_from_bytes (blst_sk_to_bytes k.1) = Some k.1.
Proof.
  intros (ikm & vsk & Hk). unfold run_validator_keygen, bls_SecretKey_from_ikm in Hk.
  destruct (blst_key_gen (arr_bytes ikm) (str "aii-validator")) as [sk|] eqn:Hg; [|done].
  injection Hk as <-. exists (sk, vsk). split; [done|]. by eapply blst_sk_roundtrip.
Qed.

Lemma decode_hex_bytes n (a : array n) label : decode_hex n (hex_bytes (arr_bytes a)) label = Ok a.
Proof. unfold decode_hex. rewrite strip_hex_bytes, hex_roundtrip. cbn [ok_or mbind res_bind]. by rewrite arr_of_arr_bytes. Qed.

Lemma decode_fixed_bytes n (a : array n) label : decode_fixed n (hex_bytes (arr_bytes a)) label = Ok a.
Proof. unfold decode_fixed. rewrite trim_hex_bytes, hex_roundtrip. cbn [ok_or mbind res_bind]. by rewrite arr_of_arr_bytes. Qed.

Lemma run_validator_pubkey_generated ks : generated ks -> run_validator_pubkey ks = Ok (pubkeys ks).
Proof.
  intros ((sk & vsk) & -> & Hs)%generated_key. cbn [fst] in Hs. unfold run_validator_pubkey, keystore_of. cbn [ks_bls_secret ks_bls_pubkey ks_vrf_secret ks_vrf_pubkey fst snd].
  rewrite !decode_hex_bytes. cbn [mbind res_bind]. unfold bls_SecretKey_from_bytes. rewrite Hs. cbn [ok_or map_err mbind res_bind].
  rewrite bool_decide_eq_true_2 by done. cbn [negb guard_err mbind res_bind].
  unfold vrf_SecretKey_from_bytes. rewrite sr_sk_roundtrip. cbn [ok_or map_err mbind res_bind].
  by rewrite bool_decide_eq_true_2.
Qed.

(** The entries of keys and stakes in the genesis file, and in the validator set. *)
Definition genesis_validator (o : bls_sk * vrf_sk * N) : GenesisValidator :=
  mkGenesisValidator (blst_pk_compress (bls.public_key o.1.1)) (sr_pk_to_bytes (sr_to_public o.1.2)) o.2.
Definition runtime_validator (o : bls_sk * vrf_sk * N) : Validator :=
  mkValidator (bls.public_key o.1.1) (sr_to_public o.1.2) o.2.

Lemma points_decode o :
  bls.PublicKey_from_compressed (g_bls_pubkey (genesis_validator o)) = Ok (bls.public_key o.1.1) /\
  vrf.PublicKey_from_bytes (g_vrf_pubkey (genesis_validator o)) = Ok (sr_to_public o.1.2).
Proof.
  split; cbn [genesis_validator g_bls_pubkey g_vrf_pubkey].
  - unfold bls.PublicKey_from_compressed, bls.public_key. by rewrite blst_pk_roundtrip.
  - unfold vrf.PublicKey_from_bytes. by rewrite sr_pk_roundtrip.
Qed.

Lemma genesis_validators_of ops : forall i,
  genesis_validators i ((fun o => mkValidatorEntry (pubkeys (keystore_of o.1)) o.2) <$> ops) =
    Ok (genesis_validator <$> ops).
Proof.
  induction ops as [|o ops IH]; intros i; [done|]. cbn [fmap list_fmap genesis_validators].
  unfold pubkeys, keystore_of. cbn [ve_pubkeys pk_bls_pubkey pk_vrf_pubkey ks_bls_pubkey ks_vrf_pubkey ve_stake].
  rewrite !decode_hex_bytes. cbn [mbind res_bind].
  destruct (points_decode o) as [H1 H2]. cbn [genesis_validator g_bls_pubkey g_vrf_pubkey] in H1, H2.
  rewrite H1. cbn [map_err mbind res_bind]. rewrite H2. cbn [map_err mbind res_bind]. fold (@keystore_of). rewrite IH. done.
Qed.

Lemma decode_validators_of ops : forall i, decode_validators i (genesis_validator <$> ops) = Ok (runtime_validator <$> ops).
Proof.
  induction ops as [|o ops IH]; intros i; [done|]. cbn [fmap list_fmap decode_validators].
  destruct (points_decode o) as [-> ->]. cbn [map_err mbind res_bind]. by rewrite IH.
Qed.

Lemma sum_stakes_cons v vs : sum_stakes (v :: vs) = v_stake v + sum_stakes vs.
Proof. done. Qed.

Lemma validate_validators_of ops : forall i total,
  total + sum_stakes (runtime_validator <$> ops) < u64_mod ->
  validate_validators i total (genesis_validator <$> ops) = Ok (total + sum_stakes (runtime_validator <$> ops)).
Proof.
  induction ops as [|o ops IH]; intros i total Hlt.
  - cbn. by rewrite N.add_0_r.
  - cbn [fmap list_fmap validate_validators] in *. rewrite sum_stakes_cons in *. cbn [v_stake runtime_validator] in *.
    destruct (points_decode o) as [-> ->]. cbn [map_err mbind res_bind g_stake genesis_validator].
    unfold checked_add. rewrite (proj2 (N.ltb_lt _ _)) by lia. cbn [ok_or mbind res_bind].
    rewrite IH by lia. f_equal. lia.
Qed.

Lemma hex_bytes_inj a b : hex_bytes a = hex_bytes b -> a = b.
Proof. intros [= Hab]. pose proof (hex_roundtrip a) as Ha. rewrite Hab, hex_roundtrip in Ha. congruence. Qed.

Lemma discover_of ops : forall i j o,
  NoDup ((fun o => ks_bls_pubkey (keystore_of o.1)) <$> ops) -> ops !! j = Some o ->
  discover_loop i (genesis_validator <$> ops) (to_lowercase (trim_0x (ks_bls_pubkey (keystore_of o.1)))) =
    Some (i + N.of_nat j).
Proof.
  induction ops as [|o' ops IH]; intros i j o Hnd Hj; [done|]. cbn [fmap list_fmap discover_loop] in *.
  apply NoDup_cons in Hnd as [Hni Hnd].
  assert (to_lowercase (trim_0x (ks_bls_pubkey (keystore_of o.1))) =
    hex_encode (arr_bytes (blst_pk_compress (bls.public_key o.1.1)))) as Hneedle
    by (cbn [keystore_of ks_bls_pubkey]; by rewrite trim_hex_bytes, lower_hex).
  destruct j as [|j]; cbn [lookup list_lookup] in Hj.
  - injection Hj as ->. rewrite Hneedle, bool_decide_eq_true_2 by done. f_equal. lia.
  - rewrite bool_decide_eq_false_2.
    + rewrite (IH (i + 1) j o Hnd Hj). f_equal. lia.
    + rewrite Hneedle. intros Heq. apply Hni. apply list_elem_of_fmap. exists o.
      split; [|by eapply list_elem_of_lookup_2]. cbn [keystore_of ks_bls_pubkey].
      unfold hex_bytes. by rewrite <-Heq.
Qed.

Lemma keys_of_generated ops : Forall (fun o => generated o.1) ops ->
  exists ks, ops = (fun k : bls_sk * vrf_sk * N => (keystore_of k.1, k.2)) <$> ks /\
    Forall (fun k => blst_sk_from_bytes (blst_sk_to_bytes k.1.1) = Some k.1.1) ks.
Proof.
  induction ops as [|[ks stake] ops IH]; intros Hall; [by exists []|].
  apply Forall_cons in Hall as [(k & Hk & Hs)%generated_key Hall]. cbn [fst] in Hk.
  destruct (IH Hall) as (kss & -> & Hkss). exists ((k, stake) :: kss). cbn [fmap list_fmap fst snd]. rewrite Hk.
  split; [done|by constructor].
Qed.

(** The validator set that the genesis file of [ks] describes. *)
Definition genesis_set (ks : list (bls_sk * vrf_sk * N)) : ValidatorSet :=
  mkValidatorSet (runtime_validator <$> ks) (sum_stakes (runtime_validator <$> ks)).

Lemma genesis_set_wf ks : ks <> [] -> len ks <= MAX_VALIDATORS ->
  0 < sum_stakes (runtime_validator <$> ks) < u64_mod -> vs_wf (genesis_set ks).
Proof.
  intros Hne Hlen Hs. split; cbn [genesis_set validators total_stake]; [|unfold size, len; cbn; rewrite length_fmap; exact Hlen|done|lia|lia].
  by destruct ks.
Qed.

Lemma from_genesis_of g ks i sk vsk coinbase :
  vs_wf (genesis_set ks) -> g_validators g = genesis_validator <$> ks -> i < len ks ->
  exists cfg, from_genesis g i sk vsk coinbase = Ok cfg /\
    cfg_validator_set cfg = genesis_set ks /\ cfg_my_index cfg = i /\ my_bls_sk cfg = sk /\ my_vrf_sk cfg = vsk.
Proof.
  intros Hwf Hg Hi. unfold from_genesis. rewrite Hg, decode_validators_of.
  assert (len (genesis_validator <$> ks) = len ks) as Hlen by (unfold len; by rewrite length_fmap).
  rewrite Hlen, (proj2 (N.eqb_neq _ _)) by lia. cbn [guard_err mbind res_bind].
  assert (ValidatorSet_new (runtime_validator <$> ks) = Ok (genesis_set ks)) as -> by (by apply ValidatorSet_new_Ok).
  cbn [mbind res_bind]. assert (size (genesis_set ks) = len ks) as -> by (unfold size, len; cbn; by rewrite length_fmap).
  rewrite (proj2 (N.leb_gt _ _)) by done. cbn [guard_err mbind res_bind mret res_ret].
  eexists. split; [reflexivity|]. done.
Qed.

(** A keystore with the public keys of [k] and the secrets of [k']. *)
Definition spliced (k k' : bls_sk * vrf_sk) : ValidatorKeystore :=
  mkKeystore (ks_bls_pubkey (keystore_of k)) (ks_bls_secret (keystore_of k'))
    (ks_vrf_pubkey (keystore_of k)) (ks_vrf_secret (keystore_of k')).

Lemma build_config_of g ks i k k' coinbase :
  vs_wf (genesis_set ks) -> g_validators g = genesis_validator <$> ks ->
  NoDup ((fun k => ks_bls_pubkey (keystore_of k.1)) <$> ks) -> ks !! i = Some k ->
  blst_sk_from_bytes (blst_sk_to_bytes k'.1) = Some k'.1 ->
  exists cfg, build_bft_config g (spliced k.1 k') coinbase None = Ok cfg /\
    cfg_validator_set cfg = genesis_set ks /\ cfg_my_index cfg = N.of_nat i /\
    my_bls_sk cfg = k'.1 /\ my_vrf_sk cfg = k'.2.
Proof.
  intros Hwf Hg Hnd Hi Hsk. pose proof (lookup_lt_Some _ _ _ Hi) as Hlt.
  pose proof (vs_size_le _ Hwf) as Hmax. unfold size, len in Hmax. cbn in Hmax. rewrite length_fmap in Hmax.
  unfold build_bft_config, discover_my_index. cbn [spliced ks_bls_pubkey ks_bls_secret ks_vrf_secret].
  rewrite Hg, (discover_of ks 0 i k Hnd Hi), N.add_0_l.
  rewrite (proj2 (N.ltb_lt _ _)) by (unfold MAX_VALIDATORS in Hmax; lia). cbn [mbind res_bind].
  cbn [keystore_of ks_bls_secret ks_vrf_secret]. rewrite !decode_fixed_bytes. cbn [mbind res_bind].
  unfold bls_SecretKey_from_bytes, vrf_SecretKey_from_bytes. rewrite Hsk, sr_sk_roundtrip.
  cbn [ok_or map_err mbind res_bind].
  destruct (from_genesis_of g ks (N.of_nat i) k'.1 k'.2 coinbase Hwf Hg) as (cfg & -> & Hrest); [unfold len; lia|].
  exists cfg. done.
Qed.

Lemma spec_valid network spec : spec_of_network network = Ok spec -> validate spec = Ok tt.
Proof. unfold spec_of_network. repeat case_bool_decide; by intros [= <-]. Qed.

Lemma init_of network spec ts (seed : array 32) ks :
  spec_of_network network = Ok spec ->
  exists g, run_genesis_init network ts (hex_bytes (arr_bytes seed))
      ((fun k => mkValidatorEntry (pubkeys (keystore_of k.1)) k.2) <$> ks) = Ok g /\
    g_chain_spec g = spec /\ g_validators g = genesis_validator <$> ks /\ g_initial_seed g = seed.
Proof.
  intros Hs. unfold run_genesis_init. rewrite Hs, decode_hex_bytes, genesis_validators_of.
  cbn [mbind res_bind mret res_ret]. eexists. split; [reflexivity|]. done.
Qed.

Lemma validate_of g ks : validate (g_chain_spec g) = Ok tt -> g_validators g = genesis_validator <$> ks ->
  ks <> [] -> 0 < sum_stakes (runtime_validator <$> ks) < u64_mod -> run_genesis_validate g = Ok g.
Proof.
  intros Hs Hg Hne Ht. unfold run_genesis_validate. rewrite Hs. cbn [map_err mbind res_bind].
  rewrite Hg, validate_validators_of by lia. rewrite N.add_0_l.
  rewrite (proj2 (N.eqb_neq _ _)) by (destruct ks; [done|unfold len; cbn; lia]). cbn [guard_err mbind res_bind].
  by rewrite (proj2 (N.eqb_neq _ _)) by lia.
Qed.

(** C19. The keys the operators generate boot the chain they describe: take any number of keystores
    that [aii validator keygen] made, up to the limit and with distinct BLS keys, and stakes whose
    sum is a positive [u64].  The genesis file of their public keys is built for either
    network and passes its validation, each keystore passes its own check, and each operator's
    configuration builds with the operator's place in the list as its index: all hold the same
    well-formed validator set, in which the entry at that index has the public keys of the secrets that
    the configuration signs and proves with. *)
Theorem generated_keys_boot network spec ts (seed : array 32) (ops : list (ValidatorKeystore * N)) :
  spec_of_network network = Ok spec -> Forall (fun o => generated o.1) ops ->
  NoDup ((fun o => ks_bls_pubkey o.1) <$> ops) ->
  ops <> [] -> len ops <= MAX_VALIDATORS -> 0 < weight snd ops < u64_mod ->
  exists g vs,
    run_genesis_init network ts (hex_bytes (arr_bytes seed))
      ((fun o => mkValidatorEntry (pubkeys o.1) o.2) <$> ops) = Ok g /\
    run_genesis_validate g = Ok g /\ vs_wf vs /\ total_stake vs = weight snd ops /\
    forall i o coinbase, ops !! i = Some o ->
      run_validator_pubkey o.1 = Ok (pubkeys o.1) /\
      exists cfg, build_bft_config g o.1 coinbase None = Ok cfg /\ cfg_ok cfg /\
        cfg_validator_set cfg = vs /\ cfg_my_index cfg = N.of_nat i /\
        get vs (N.of_nat i) = Some (mkValidator (bls.public_key (my_bls_sk cfg)) (sr_to_public (my_vrf_sk cfg)) o.2).
Proof.
  intros Hs Hgen Hnd Hne Hmax Hw. pose proof Hgen as Hgen'.
  apply keys_of_generated in Hgen as (ks & -> & Hsk).
  rewrite <-list_fmap_compose in Hnd |- *.
  assert (weight snd ((fun k : bls_sk * vrf_sk * N => (keystore_of k.1, k.2)) <$> ks) = sum_stakes (runtime_validator <$> ks)) as Hsum.
  { clear. induction ks as [|k ks IH]; [done|]. cbn [fmap list_fmap]. rewrite weight_cons, sum_stakes_cons, <-IH. done. }
  rewrite Hsum in *.
  assert (len ks <= MAX_VALIDATORS) as Hmax' by (unfold len in *; by rewrite length_fmap in Hmax).
  assert (ks <> []) as Hne' by (by intros ->).
  pose proof (genesis_set_wf ks Hne' Hmax' Hw) as Hwf.
  destruct (init_of network spec ts seed ks Hs) as (g & Hg & Hspec & Hv & _).
  exists g, (genesis_set ks). split; [exact Hg|]. split; [apply (validate_of g ks); [rewrite Hspec; by eapply spec_valid|done..]|].
  split; [exact Hwf|]. split; [done|]. intros i o coinbase Ho.
  split; [apply run_validator_pubkey_generated; by eapply Forall_lookup_1 in Hgen'|].
  rewrite list_lookup_fmap in Ho. apply fmap_Some in Ho as (k & Hk & ->). cbn [fst snd].
  destruct (build_config_of g ks i k k.1 coinbase Hwf Hv Hnd Hk) as (cfg & Hcfg & Hset & Hidx & Hb & Hvrf);
    [by eapply Forall_lookup_1 in Hsk|].
  exists cfg. rewrite Hset, Hidx, Hb, Hvrf. split_and!; try done.
  - split; rewrite Hset; [done|]. rewrite Hidx. unfold size, len. cbn. rewrite length_fmap.
    apply lookup_lt_Some in Hk. lia.
  - unfold get. cbn [genesis_set validators]. by rewrite Nat2N.id, list_lookup_fmap, Hk.
Qed.

(** The start does not compare the secrets with the public keys: a keystore whose BLS secret
    belongs to another key pair boots, under the index of its public key, and every vote it
    signs is signed with a key that the validator set does not have there.  The
    keystore's own check refuses it. *)
Lemma spliced_keystore_boots g ks i k k' coinbase :
  vs_wf (genesis_set ks) -> g_validators g = genesis_validator <$> ks ->
  NoDup ((fun k => ks_bls_pubkey (keystore_of k.1)) <$> ks) -> ks !! i = Some k ->
  blst_sk_from_bytes (blst_sk_to_bytes k'.1) = Some k'.1 -> bls.public_key k'.1 <> bls.public_key k.1.1 ->
  run_validator_pubkey (spliced k.1 k') = Err (KeyMismatch "bls_pubkey") /\
  exists cfg, build_bft_config g (spliced k.1 k') coinbase None = Ok cfg /\
    exists v, get (cfg_validator_set cfg) (cfg_my_index cfg) = Some v /\
      v_bls_pubkey v <> bls.public_key (my_bls_sk cfg).
Proof.
  intros Hwf Hg Hnd Hi Hsk Hne. split.
  - unfold run_validator_pubkey. cbn [spliced keystore_of ks_bls_secret ks_bls_pubkey].
    rewrite !decode_hex_bytes. cbn [mbind res_bind]. unfold bls_SecretKey_from_bytes. rewrite Hsk.
    cbn [ok_or map_err mbind res_bind]. rewrite bool_decide_eq_false_2; [done|]. intros Heq. apply Hne.
    pose proof (blst_pk_roundtrip k'.1) as H1. unfold bls.public_key in *. rewrite Heq, blst_pk_roundtrip in H1. congruence.
  - destruct (build_config_of g ks i k k' coinbase Hwf Hg Hnd Hi Hsk) as (cfg & Hc & Hset & Hidx & Hb & _).
    exists cfg. split; [done|]. exists (runtime_validator k). rewrite Hset, Hidx, Hb. split; [|done].
    unfold get. cbn [genesis_set validators]. by rewrite Nat2N.id, list_lookup_fmap, Hi.
Qed.

(** The validation of the genesis file has no limit on the number of validators, the
    validator set has one: such a file passes and no node starts with it. *)
Lemma validated_genesis_too_large g ks i sk vsk coinbase :
  validate (g_chain_spec g) = Ok tt -> g_validators g = genesis_validator <$> ks ->
  MAX_VALIDATORS < len ks -> 0 < sum_stakes (runtime_validator <$> ks) < u64_mod ->
  run_genesis_validate g = Ok g /\
  from_genesis g i sk vsk coinbase = Err (ValidatorSetTooLarge (len ks) MAX_VALIDATORS).
Proof.
  intros Hs Hg Hmax Hw. assert (ks <> []) as Hne by (intros ->; unfold len in Hmax; cbn in Hmax; lia).
  split; [by apply (validate_of g ks)|]. unfold from_genesis. rewrite Hg, decode_validators_of.
  assert (forall B (f : _ -> B), len (f <$> ks) = len ks) as Hlen by (intros; unfold len; by rewrite length_fmap).
  rewrite Hlen, (proj2 (N.eqb_neq _ _)) by lia. cbn [guard_err mbind res_bind].
  unfold ValidatorSet_new. rewrite Hlen, (proj2 (N.eqb_neq _ _)) by lia. cbn [guard_err mbind res_bind].
  by rewrite (proj2 (N.ltb_lt _ _)).
Qed.
End facts.

(** ** Keys over the toy primitives *)
Module ToyKeys.
Definition widen (k : array 32) : array 48 := be_array 48 (be_value (arr_bytes k)).
Definition narrow (k : array 48) : array 32 := be_array 32 (be_value (arr_bytes k)).

(** Any key material of 32 bytes is a key. *)
#[export] Instance codec : KeyCodec (H := Toy.prims) := {|
  blst_key_gen ikm _ := (fun a : array 32 => widen a : bls_sk (Primitives := Toy.prims)) <$> arr_of ikm;
  blst_sk_from_bytes b := Some (widen b : bls_sk (Primitives := Toy.prims));
  blst_sk_to_bytes := narrow;
  sr_sk_from_bytes b := Some (be_array 32 (be_value (arr_bytes b)) : vrf_sk (Primitives := Toy.prims));
  sr_sk_to_bytes (k : array 32) := be_array 64 (be_value (arr_bytes k));
  sr_pk_to_bytes (k : array 32) := k
|}.

Lemma be_array_value n m (a : array n) : (n <= m)%nat ->
  be_array n (be_value (arr_bytes (be_array m (be_value (arr_bytes a))))) = a.
Proof.
  intros Hnm. cbn [be_array arr_bytes]. rewrite be_value_bytes.
  assert (be_value (arr_bytes a) < 256 ^ N.of_nat n) as Hlt.
  { pose proof (be_value_lt (arr_bytes a)) as Hv. by rewrite arr_length in Hv. }
  rewrite N.mod_small by (eapply N.lt_le_trans; [exact Hlt|]; apply N.pow_le_mono_r; lia).
  apply arr_ext. cbn. apply be_value_inj; [by rewrite length_be_bytes, arr_length|].
  by rewrite be_value_bytes, N.mod_small.
Qed.

#[export] Instance laws : KeyCodecLaws codec.
Proof.
  split; cbn.
  - intros ikm info sk Hk. destruct (arr_of ikm) as [a|]; [|done]. injection Hk as <-.
    f_equal. unfold widen, narrow. by rewrite (be_array_value 32 48) by lia.
  - intros k. f_equal. apply be_array_value. lia.
  - done.
Qed.
End ToyKeys.

Module BootstrapDemo.
Export Toy ToyHex ToyKeys.

Definition keys (i : N) : ValidatorKeystore :=
  match run_validator_keygen (be_array 32 (i + 1)) (be_array 32 (i + 100)) with
  | Ok ks => ks
  | _ => mkKeystore [] [] [] []
  end.
Definition operators : list (ValidatorKeystore * N) := [(keys 0, 10); (keys 1, 20); (keys 2, 30)].

Lemma operators_generated : Forall (fun o => generated o.1) operators.
Proof.
  assert (forall i, generated (keys i)) as Hk.
  { intros i. exists (be_array 32 (i + 1)), (be_array 32 (i + 100)). unfold keys, run_validator_keygen, bls_SecretKey_from_ikm.
    cbn [blst_key_gen codec]. by rewrite arr_of_arr_bytes. }
  apply Forall_cons_2; [apply Hk|]. apply Forall_cons_2; [apply Hk|]. apply Forall_cons_2; [apply Hk|apply Forall_nil_2].
Qed.

Lemma operators_distinct : NoDup ((fun o => ks_bls_pubkey o.1) <$> operators).
Proof. apply (bool_decide_eq_true_1 _). vm_compute. reflexivity. Qed.
End BootstrapDemo.
Import BootstrapDemo.

Lemma generated_keys_boot_witness :
  exists g vs cfg, run_genesis_init "testnet" 5 (hex_bytes (arr_bytes (be_array 32 7)))
      ((fun o => mkValidatorEntry (pubkeys o.1) o.2) <$> operators) = Ok g /\
    run_genesis_validate g = Ok g /\ total_stake vs = 60 /\
    build_bft_config g (keys 1) (zero_array 20) None = Ok cfg /\ cfg_my_index cfg = 1.
Proof.
  destruct (generated_keys_boot (C := codec) "testnet" testnet 5 (be_array 32 7) operators eq_refl operators_generated
    operators_distinct ltac:(discriminate) ltac:(vm_compute; discriminate) ltac:(split; reflexivity))
    as (g & vs & Hg & Hv & _ & Ht & Hall).
  destruct (Hall 1%nat (keys 1, 20) (zero_array 20) eq_refl) as (_ & cfg & Hc & _ & _ & Hi & _).
  exists g, vs, cfg. split; [exact Hg|]. split; [exact Hv|]. split; [exact Ht|]. split; [exact Hc|exact Hi].
Defined.
