(* ===== verification/Cli.v ===== *)
(** * Cli: the operator's commands that compute

    Models, of [src/crates/aii-cli/src/lib.rs], the committee's capacity and pressure runs
    ([run_bft_capacity], [run_bft_pressure]), the sub-chain that anchors into a parent
    ([run_subchain] with the operator's state file).  The parent chain is what it
    answers to each submitted transaction; random keys and the clock are arguments. *)
From stdpp Require Import base tactics gmap numbers sets strings list.
From Stdlib Require Import NArith Lia.
From Stdlib.Init Require Import Byte.
From S2P Require Import Prelude Bytes Crypto ReleaseProps Demo ToyRlp ChainSpec Storage StateDb Microchain NodeState Queries Release ReleaseStore ReleaseStoreProps TxPool Bft BftFacts CoordinatorFacts.
From S2P Require Import Codec RlpUint Secp Tx Transfer Trie Receipt Block Engine Consensus Wire Capacity Bootstrap.

(** ** Capacity and pressure *)

(** The messages of [CliError::Client] in these commands. *)
Inductive PressureError :=
| PressureCapacity (e : CapacityError)
| TooFewNodes (network_nodes validators : N)
| ZeroHeights
| PressureKey (e : CryptoError)
| PressureBft (e : BftError)
| NoPolc
| NoCertificate.

Record BftCapacityReport := mkCapacityReport {
  cr_validators : N;
  cr_network_nodes : N;
  cr_consensus_nodes : N;
  cr_passive_nodes : N;
  cr_target_secs : N;
  cr_proposal_bytes : N;
  cr_equal_stake_quorum_votes : N;
  cr_vote_messages_per_round : N;
  cr_vote_payload_bytes_per_round : N;
  cr_leader_proposal_fanout_bytes : N;
  cr_min_leader_upload_mbps : N;
  cr_satisfies_design_cap : bool;
  cr_passive_nodes_do_not_increase_bft_fanout : bool
}.

Record BftPressureReport := mkPressureReport {
  pr_validators : N;
  pr_network_nodes : N;
  pr_consensus_nodes : N;
  pr_passive_nodes : N;
  pr_heights : N;
  pr_target_secs : N;
  pr_equal_stake_quorum_votes : N;
  votes_processed : N;
  certificates_verified : N;
  elapsed_ms : N;
  max_height_ms : N;
  avg_height_ms : N;
  satisfies_target : bool;
  pr_passive_nodes_do_not_increase_bft_fanout : bool
}.

Definition run_bft_capacity (validators : N) (proposal_bytes target_secs network_nodes : option N)
    : res PressureError BftCapacityReport :=
  budget ← map_err PressureCapacity
    (capacity_budget validators (default max_wire_proposal_bytes proposal_bytes)
       (default FINALITY_TARGET_SECS target_secs));
  let network_nodes := default validators network_nodes in
  _ ← guard_err (network_nodes <? validators) (TooFewNodes network_nodes validators);
  mret (mkCapacityReport (cb_validators budget) network_nodes (cb_validators budget)
    (network_nodes - cb_validators budget) (Capacity.target_secs budget) (Capacity.proposal_bytes budget)
    (cb_equal_stake_quorum_votes budget) (cb_vote_messages_per_round budget)
    (vote_payload_bytes_per_round budget) (leader_proposal_fanout_bytes budget)
    (min_leader_upload_mbps budget) (satisfies_design_cap budget) true).

Section pressure.
Context `{HP : Primitives} `{HC : !KeyCodec}.

(** [(i + 1).to_be_bytes() ‖ "AII-BFTP"], filled with zeros *)
Definition pressure_ikm (i : N) : bytes :=
  be_bytes 8 (wrapping_add u64_mod i 1) ++ str "AII-BFTP" ++ replicate 16 x00.

(** The loop; the VRF keys are random. *)
Fixpoint pressure_entries (vrf_key : N -> vrf_sk) (i : N) (n : nat)
    : res PressureError (list Validator * list bls_sk) :=
  match n with
  | O => Ok ([], [])
  | S n =>
      bls ← map_err PressureKey (bls_SecretKey_from_ikm (pressure_ikm i) (str "AII-BFT-PRESSURE"));
      '(entries, bls_keys) ← pressure_entries vrf_key (i + 1) n;
      mret (mkValidator (bls.public_key bls) (sr_to_public (vrf_key i)) 1 :: entries, bls :: bls_keys)
  end.

Definition pressure_validator_set (vrf_key : N -> vrf_sk) (validators : N)
    : res PressureError (ValidatorSet * list bls_sk) :=
  '(entries, bls_keys) ← pressure_entries vrf_key 0 (N.to_nat validators);
  validator_set ← map_err PressureBft (ValidatorSet_new entries);
  mret (validator_set, bls_keys).

Definition pressure_block_hash (height : N) : H256 :=
  be_array 32 (be_value (be_bytes 8 height ++ str "AII-PRESSURE" ++ replicate 12 x00)).

(** [for (idx, sk) in bls_keys.iter().take(quorum_votes).enumerate()] *)
Fixpoint submit_votes {k} (t : Tallier k) (block_hash : H256) (height idx : N) (bls_keys : list bls_sk)
    : res PressureError (Tallier k) :=
  match bls_keys with
  | [] => Ok t
  | sk :: bls_keys =>
      let '(t, r) := Tallier_submit t (vote_sign k sk block_hash height 0 (idx mod u32_mod)) in
      _ ← map_err PressureBft r;
      submit_votes t block_hash height (idx + 1) bls_keys
  end.

(** One phase of a height; the two phases differ in their tallier only. *)
Definition pressure_phase (k : vote_kind) (missing : PressureError) (validator_set : ValidatorSet)
    (bls_keys : list bls_sk) (quorum_votes height : N) : res PressureError unit :=
  let block_hash := pressure_block_hash height in
  t ← submit_votes (Tallier_new k block_hash height 0 validator_set) block_hash height 0
        (take (N.to_nat quorum_votes) bls_keys);
  certificate ← ok_or (Tallier_certificate t) missing;
  map_err PressureBft (Certificate_verify certificate validator_set).

(** [for height in 1..=heights], from [height] on; [height_ms] is what the clock measures. *)
Fixpoint pressure_loop (height_ms : N -> N) (validator_set : ValidatorSet) (bls_keys : list bls_sk)
    (quorum_votes max_ms height : N) (n : nat) : res PressureError N :=
  match n with
  | O => Ok max_ms
  | S n =>
      _ ← pressure_phase KPrevote NoPolc validator_set bls_keys quorum_votes height;
      _ ← pressure_phase KPrecommit NoCertificate validator_set bls_keys quorum_votes height;
      pressure_loop height_ms validator_set bls_keys quorum_votes (N.max max_ms (height_ms height)) (height + 1) n
  end.

Definition run_bft_pressure (vrf_key : N -> vrf_sk) (height_ms : N -> N) (total_ms validators : N)
    (network_nodes heights target_secs : option N) : res PressureError BftPressureReport :=
  capacity ← run_bft_capacity validators None target_secs network_nodes;
  let heights := default 1 heights in
  _ ← guard_err (heights =? 0) ZeroHeights;
  '(validator_set, bls_keys) ← pressure_validator_set vrf_key (cr_validators capacity);
  let quorum_votes := cr_equal_stake_quorum_votes capacity in
  let target_ms := cr_target_secs capacity * 1000 in
  max_ms ← pressure_loop height_ms validator_set bls_keys quorum_votes 0 1 (N.to_nat heights);
  mret (mkPressureReport (cr_validators capacity) (cr_network_nodes capacity) (cr_consensus_nodes capacity)
    (cr_passive_nodes capacity) heights (cr_target_secs capacity) quorum_votes
    (wrapping_mul u64_mod (wrapping_mul u64_mod heights quorum_votes) 2) (wrapping_mul u64_mod heights 2)
    total_ms max_ms (total_ms / heights) (max_ms <=? target_ms) true).

(** *** A quorum of honest votes always certifies *)
Lemma weight_const {A} (f : A -> N) c l : (forall x, x ∈ l -> f x = c) -> weight f l = c * len l.
Proof.
  induction l as [|x l IH]; intros Hf; [rewrite weight_nil; unfold len; cbn; lia|].
  rewrite weight_cons, IH, (Hf x) by set_solver. unfold len. cbn [length]. lia.
Qed.

Lemma positions_app i n : positions 0 (S i + n) = positions 0 i ++ N.of_nat i :: positions (S i) n.
Proof.
  unfold positions. replace (S i + n)%nat with (i + S n)%nat by lia. by rewrite seq_app, fmap_app.
Qed.

Context `{HL : !PrimitiveLaws HP}.

Lemma submit_votes_spec {k} bls_keys : forall (t : Tallier k) log i,
  tally_inv t log -> vote_index <$> log = positions 0 i -> t_round t = 0 ->
  (forall j sk, bls_keys !! j = Some sk ->
    exists val, get (t_vs t) (N.of_nat (i + j)) = Some val /\ v_bls_pubkey val = bls.public_key sk) ->
  exists t' log', submit_votes t (t_block_hash t) (t_height t) (N.of_nat i) bls_keys = Ok t' /\
    tally_inv t' log' /\ t_vs t' = t_vs t /\ vote_index <$> log' = positions 0 (i + length bls_keys).
Proof.
  induction bls_keys as [|sk sks IH]; intros t log i Hinv Hlog Hr Hk; cbn [submit_votes length].
  { exists t, log. rewrite Nat.add_0_r. done. }
  destruct (Hk 0%nat sk eq_refl) as (val & Hg & Hpk). rewrite Nat.add_0_r in Hg.
  pose proof (vs_size_le _ (ti_vs _ _ Hinv)) as Hsz. pose proof (get_Some_lt _ _ _ Hg) as Hlt.
  unfold MAX_VALIDATORS in Hsz. rewrite N.mod_small by lia.
  set (v := vote_sign k sk (t_block_hash t) (t_height t) 0 (N.of_nat i)).
  assert (check_vote t v = Ok val) as Hc.
  { apply check_vote_Ok. split_and!; [|rewrite (ti_received _ _ Hinv), Hlog|done].
    - apply (signed_valid t (fun _ => sk)); eauto.
    - rewrite elem_of_list_to_set, elem_of_positions. change (vote_index v) with (N.of_nat i). lia. }
  rewrite Tallier_submit_state, Hc. cbn [map_err mbind res_bind].
  replace (N.of_nat i + 1) with (N.of_nat (S i)) by lia.
  destruct (IH (accept_vote t v val) (log ++ [v]) (S i)) as (t' & log' & Hs & Hinv' & Hv' & Hlog').
  - by apply accept_vote_inv.
  - rewrite fmap_app, Hlog. pose proof (positions_app i 0) as Hp. rewrite Nat.add_0_r in Hp. rewrite Hp. done.
  - done.
  - intros j sk' Hj. destruct (Hk (S j) sk' Hj) as (val' & Hg' & Hpk'). exists val'. split; [|done].
    cbn [t_vs accept_vote]. by replace (S i + j)%nat with (i + S j)%nat by lia.
  - exists t', log'. split_and!; [done..|]. by rewrite Hlog', Nat.add_succ_r.
Qed.

(** The keys of a set, all of stake one. *)
Definition unit_set (vs : ValidatorSet) (bls_keys : list bls_sk) : Prop :=
  vs_wf vs /\ Forall2 (fun v sk => v_bls_pubkey v = bls.public_key sk /\ v_stake v = 1) (validators vs) bls_keys.

Lemma pressure_phase_Ok k missing vs bls_keys height :
  unit_set vs bls_keys -> (forall l, blst_pks_cancel (keys_of vs l) = false) ->
  pressure_phase k missing vs bls_keys (equal_stake_quorum_votes (size vs)) height = Ok tt.
Proof.
  intros [Hwf Hf] Hcancel. pose proof (vs_size_le _ Hwf) as Hsz. unfold MAX_VALIDATORS in Hsz.
  set (q := equal_stake_quorum_votes (size vs)).
  assert (0 < size vs) as Hpos.
  { pose proof (vs_nonempty _ Hwf). unfold size, len. destruct (validators vs); [done|]. cbn. lia. }
  assert (0 < q <= size vs) as [Hq0 Hq].
  { subst q. unfold equal_stake_quorum_votes. rewrite wrapping_mul_small, wrapping_add_small by div_lia. div_lia. }
  assert (Forall (fun v => v_stake v = 1) (validators vs)) as Hst.
  { clear -Hf. induction Hf as [|v sk l k' [_ Hs] _ IH]; by constructor. }
  assert (total_stake vs = size vs) as Htot.
  { rewrite (vs_total _ Hwf). unfold sum_stakes. rewrite (weight_const _ 1); [unfold size; lia|].
    rewrite Forall_forall in Hst. done. }
  pose proof (Forall2_length _ _ _ Hf) as Hlen.
  unfold pressure_phase.
  destruct (submit_votes_spec (take (N.to_nat q) bls_keys) (Tallier_new k (pressure_block_hash height) height 0 vs) [] 0)
    as (t & log & Hs & Hinv & Hvs & Hlog); [by apply Tallier_new_inv|done|done| |].
  { intros j sk Hj. apply lookup_take_Some in Hj as [Hj _].
    destruct (Forall2_lookup_r _ _ _ _ _ Hf Hj) as (v & Hv & Hpk & _). exists v. split; [|done].
    unfold get. by rewrite Nat2N.id. }
  cbn [t_block_hash t_height Tallier_new t_vs] in Hs, Hvs. change (N.of_nat 0) with 0 in Hs. rewrite Hs. cbn [mbind res_bind].
  rewrite length_take_le in Hlog by (unfold size, len in Hq; lia). cbn [Nat.add] in Hlog.
  assert (quorum_threshold (t_vs t) <= stake_collected t) as Hquorum.
  { rewrite (ti_stake _ _ Hinv), Hvs, Hlog.
    rewrite (weight_const _ 1).
    - unfold len, positions. rewrite length_fmap, length_seq, N2Nat.id. rewrite N.mul_comm.
      apply (equal_votes_quorum vs 1 q Hwf Hst); [lia|lia|done].
    - intros i Hi%elem_of_positions. unfold stake_at. destruct (get_lt vs i ltac:(lia)) as [v Hv]. rewrite Hv. cbn.
      rewrite Forall_forall in Hst. apply Hst. unfold get in Hv. by eapply list_elem_of_lookup_2. }
  destruct (tally_quorum_certificate _ _ Hinv Hquorum) as [c Hc]. rewrite Hc. cbn [ok_or mbind res_bind].
  rewrite <-Hvs in *. rewrite (proj2 (Certificate_verify_Ok c (t_vs t) tt Hwf)); [done|].
  by eapply tally_certificate_certifies.
Qed.

(** The keys that the run derives from its indexes exist. *)
Definition keys_derive (n : nat) (i : N) : Prop :=
  forall j, i <= j < i + N.of_nat n -> is_Some (blst_key_gen (pressure_ikm j) (str "AII-BFT-PRESSURE")).

Lemma pressure_entries_spec vrf_key n : forall i, keys_derive n i ->
  exists entries bls_keys, pressure_entries vrf_key i n = Ok (entries, bls_keys) /\ length entries = n /\
    Forall2 (fun v sk => v_bls_pubkey v = bls.public_key sk /\ v_stake v = 1) entries bls_keys.
Proof.
  induction n as [|n IH]; intros i Hd; cbn [pressure_entries]; [by exists [], []|].
  destruct (Hd i) as [sk Hsk]; [lia|]. unfold bls_SecretKey_from_ikm. rewrite Hsk. cbn [ok_or map_err mbind res_bind].
  destruct (IH (i + 1)) as (es & sks & -> & Hl & Hf); [intros j Hj; apply Hd; lia|].
  cbn [mbind res_bind]. eexists _, _. split; [done|]. split; [cbn; lia|]. by constructor.
Qed.

Lemma pressure_set_Ok vrf_key n :
  0 < n <= MAX_VALIDATORS -> keys_derive (N.to_nat n) 0 ->
  exists vs bls_keys, pressure_validator_set vrf_key n = Ok (vs, bls_keys) /\ unit_set vs bls_keys /\ size vs = n.
Proof.
  intros [Hn Hm] Hd. destruct (pressure_entries_spec vrf_key _ 0 Hd) as (es & sks & He & Hl & Hf).
  assert (sum_stakes es = n) as Hsum.
  { unfold sum_stakes. rewrite (weight_const _ 1); [unfold len; lia|]. intros v Hv.
    apply list_elem_of_lookup in Hv as [i Hi]. by destruct (Forall2_lookup_l _ _ _ _ _ Hf Hi) as (sk & _ & _ & ?). }
  exists (mkValidatorSet es n), sks. unfold MAX_VALIDATORS in Hm.
  assert (vs_wf (mkValidatorSet es n)) as Hwf.
  { split; cbn; unfold size, len, MAX_VALIDATORS; cbn; [|lia|done|lia..]. intros ->. cbn in Hl. lia. }
  split_and!; [|done|unfold size, len; cbn; lia]. unfold pressure_validator_set. rewrite He. cbn [mbind res_bind].
  by rewrite (proj2 (ValidatorSet_new_Ok es _) (conj (f_equal _ (eq_sym Hsum)) Hwf)).
Qed.

Lemma pressure_loop_Ok height_ms vs bls_keys n : forall max_ms height,
  unit_set vs bls_keys -> (forall l, blst_pks_cancel (keys_of vs l) = false) ->
  pressure_loop height_ms vs bls_keys (equal_stake_quorum_votes (size vs)) max_ms height n =
    Ok (foldl (fun m h => N.max m (height_ms h)) max_ms (heights height (N.of_nat n))).
Proof.
  unfold heights. induction n as [|n IH]; intros max_ms height Hu Hc; [done|]. cbn [pressure_loop].
  rewrite !pressure_phase_Ok by done. cbn [mbind res_bind]. rewrite IH by done. rewrite !Nat2N.id.
  cbn [seq fmap list_fmap foldl]. rewrite N.add_0_r. f_equal.
  rewrite <-(fmap_S_seq 0 n), <-list_fmap_compose. f_equal. apply list_fmap_ext. intros i x _. cbn. lia.
Qed.

Lemma foldl_max_le (f : N -> N) l : forall m x,
  foldl (fun m h => N.max m (f h)) m l <= x <-> m <= x /\ forall h, h ∈ l -> f h <= x.
Proof.
  induction l as [|h l IH]; intros m x; cbn; [set_solver|]. rewrite IH. set_unfold. split.
  - intros [? ?]. split; [lia|]. intros h' [->|?]; [lia|auto].
  - intros [? Ha]. pose proof (Ha h). split; [apply N.max_lub; auto|auto].
Qed.

(** The pressure run ends without an error exactly on valid input: a committee of 1 to 128
    validators, a positive target, at least as many nodes as validators and at least one
    height.  So whatever committee is asked for, the number of votes that the capacity
    budget calls a quorum, signed and submitted in order, forms a POLC and a finality
    certificate that both verify, at every height; and the report counts them. *)
Theorem pressure_run_succeeds vrf_key height_ms total_ms validators network_nodes heights target_secs :
  (validators <= MAX_VALIDATORS -> keys_derive (N.to_nat validators) 0) ->
  (forall vs sks l, pressure_validator_set vrf_key validators = Ok (vs, sks) -> blst_pks_cancel (keys_of vs l) = false) ->
  let r := run_bft_pressure vrf_key height_ms total_ms validators network_nodes heights target_secs in
  (is_ok r = true <-> 0 < validators <= MAX_VALIDATORS /\ 0 < default FINALITY_TARGET_SECS target_secs /\
    validators <= default validators network_nodes /\ 0 < default 1 heights) /\
  forall report, r = Ok report ->
    pr_equal_stake_quorum_votes report = validators * 2 / 3 + 1 /\
    pr_passive_nodes report = default validators network_nodes - validators /\
    (default 1 heights * (validators * 2 / 3 + 1) * 2 < u64_mod ->
     votes_processed report = default 1 heights * (validators * 2 / 3 + 1) * 2 /\
     certificates_verified report = default 1 heights * 2) /\
    (satisfies_target report = true <->
     forall h, h ∈ Queries.heights 1 (default 1 heights) -> height_ms h <= default FINALITY_TARGET_SECS target_secs * 1000).
Proof.
  intros Hkeys Hcancel. cbn zeta. unfold run_bft_pressure, run_bft_capacity, capacity_budget. cbn [default from_option].
  set (T := default FINALITY_TARGET_SECS target_secs). set (NN := default validators network_nodes). set (Hs := default 1 heights).
  rewrite N.ltb_irrefl. unfold guard_err at 4.
  destruct (N.eqb_spec validators 0) as [->|Hv]; [split; [split; [done|lia]|done]|].
  destruct (N.ltb_spec MAX_VALIDATORS validators) as [Hm|Hm]; [split; [split; [done|lia]|done]|].
  destruct (N.eqb_spec T 0) as [HT|HT]; [split; [split; [done|lia]|done]|].
  cbn [guard_err map_err mbind res_bind mret res_ret cb_validators].
  destruct (N.ltb_spec NN validators) as [HN|HN]; [split; [split; [done|lia]|done]|].
  cbn [guard_err map_err mbind res_bind mret res_ret cr_validators cr_equal_stake_quorum_votes cb_equal_stake_quorum_votes
    cr_target_secs Capacity.target_secs cr_network_nodes cr_consensus_nodes cr_passive_nodes].
  destruct (N.eqb_spec Hs 0) as [HH|HH]; [split; [split; [done|lia]|done]|].
  cbn [guard_err mbind res_bind].
  destruct (pressure_set_Ok vrf_key validators) as (vs & sks & Hset & Hu & Hsize); [lia|by apply Hkeys|].
  rewrite Hset. cbn [mbind res_bind]. rewrite <-Hsize, pressure_loop_Ok by (done || by intros l; eapply Hcancel).
  rewrite Hsize, N2Nat.id. cbn [mbind res_bind]. split; [split; [intros _; lia|done]|].
  intros report [= <-]. cbn.
  assert (equal_stake_quorum_votes validators = validators * 2 / 3 + 1) as ->.
  { unfold MAX_VALIDATORS in Hm. unfold equal_stake_quorum_votes. rewrite wrapping_mul_small, wrapping_add_small by div_lia. done. }
  split_and!; [done|done| |].
  - generalize (validators * 2 / 3). intros q Hsmall. rewrite (wrapping_mul_small _ Hs) by nia.
    by rewrite !wrapping_mul_small by nia.
  - rewrite N.leb_le. rewrite foldl_max_le. split; [intros [_ Ha]; exact Ha|intros Ha; split; [lia|exact Ha]].
Qed.
End pressure.

(** ** A sub-chain that anchors into its parent *)

Inductive SubchainError :=
| SameChain
| EngineFailed (e : PoaError)
| ProduceFailed (e : PoaError)
| SigningFailed (e : CryptoError).

Record FlushRecord := mkFlushRecord {
  fr_sub_block_number : N;
  fr_sub_block_hash : text;
  parent_tx : text
}.

Record SubchainRunReport := mkSubchainReport {
  sc_sub_chain_id : N;
  sc_parent_chain_id : N;
  sub_blocks_produced : N;
  sub_head_hash : text;
  flushes : list FlushRecord
}.

Section subchain.
Context `{Primitives} `{Rlp} `{K256} `{HexCrate}.

(** The local variables of [run_subchain], and the texts the parent has received. *)
Record SubchainRun := mkRun {
  run_engine : PoaEngine;
  run_sent : list text;
  run_nonce : N;
  run_flushes : list FlushRecord;
  run_head : H256
}.

(** What the parent answers to [eth_sendRawTransaction], after what it has received: a
    transaction hash or an error. *)
Context (answer : list text -> text -> text + text).
Context (sk : ec_sk) (sub_chain_id parent_chain_id slot_seconds interval : N).

Definition operator : Address := secp.address (ec_verifying_key sk).

Definition subchain_genesis : Block :=
  mkBlock
    (mkHeader (zero_array 32) EMPTY_LIST_HASH operator EMPTY_TRIE_HASH EMPTY_TRIE_HASH EMPTY_TRIE_HASH
       bloom_zero 0 0 30000000 0 1700000000 (str "aii-sub-" ++ to_radix 10 sub_chain_id) (zero_array 32)
       (zero_array 8) 1000000000 EMPTY_TRIE_HASH None None None)
    default_body.

Definition subchain_config : PoaConfig :=
  mkPoaConfig [operator] operator slot_seconds 30000000 1000000000 None.

(** The flush transaction: a transfer of nothing to oneself. *)
Definition unsigned_flush (nonce : N) (h : H256) (n : N) : TxLegacy :=
  mkTxLegacy nonce 1000000000 100000 (Some operator) 0
    (FLUSH_TX_MAGIC ++ be_bytes 4 (sub_chain_id mod u32_mod) ++ arr_bytes h ++ be_bytes 8 n)
    0 (zero_array 32) (zero_array 32) Secp256k1.

Definition flush_transaction (nonce : N) (h : H256) (n : N) : res SubchainError Tx :=
  let tx := unsigned_flush nonce h n in
  hash ← compute_legacy_eip155_hash tx parent_chain_id;
  sig ← map_err SigningFailed (secp.sign sk hash);
  let raw := secp.Signature_to_bytes sig in
  r ← slice_array 32 raw 0;
  s ← slice_array 32 raw 32;
  recid ← expect (raw !! 64%nat);
  let v := wrapping_add u64_mod (wrapping_add u64_mod (wrapping_mul u64_mod parent_chain_id 2) 35)
             (Byte.to_N recid) in
  mret (TLegacy (mkTxLegacy nonce (tl_gas_price tx) (tl_gas_limit tx) (tl_to tx) (tl_value tx) (tl_data tx)
                   v r s Secp256k1)).

(** What follows the production of block [n]: the remainder by an interval of zero panics. *)
Definition flush_block (h : H256) (n : N) : action SubchainRun SubchainError unit := fun st =>
  if interval =? 0 then (st, Panic)
  else if negb (n mod interval =? 0) then (st, Ok tt)
  else match flush_transaction (run_nonce st) h n with
  | Ok tx =>
      let raw_hex := hex_bytes (tx_encode tx) in
      let '(parent_nonce, parent_tx) :=
        match answer (run_sent st) raw_hex with
        | inl s => (wrapping_add u64_mod (run_nonce st) 1, s)
        | inr e => (run_nonce st, str "err: " ++ e)
        end in
      (mkRun (run_engine st) (run_sent st ++ [raw_hex]) parent_nonce
         (run_flushes st ++ [mkFlushRecord n (hex_bytes (arr_bytes h)) parent_tx]) (run_head st), Ok tt)
  | Err e => (st, Err e)
  | Panic => (st, Panic)
  end.

Definition subchain_block : action SubchainRun SubchainError unit := fun st =>
  match poa_produce_block (run_engine st) with
  | (engine, Ok (h, n, _)) =>
      flush_block h n (mkRun engine (run_sent st) (run_nonce st) (run_flushes st) h)
  | (engine, Err e) => (mkRun engine (run_sent st) (run_nonce st) (run_flushes st) (run_head st), Err (ProduceFailed e))
  | (engine, Panic) => (mkRun engine (run_sent st) (run_nonce st) (run_flushes st) (run_head st), Panic)
  end.

(** [for _ in 1..=duration_blocks]; the pause of a slot is not modelled. *)
Fixpoint subchain_loop (n : nat) : action SubchainRun SubchainError unit :=
  match n with
  | O => mret tt
  | S n => _ ← subchain_block; subchain_loop n
  end.

(** The texts sent to the parent, and the report. *)
Definition run_subchain (duration_blocks : N) : list text * res SubchainError SubchainRunReport :=
  if sub_chain_id =? parent_chain_id then ([], Err SameChain)
  else match PoaEngine_new subchain_config subchain_genesis with
  | Ok engine =>
      let '(st, r) := subchain_loop (N.to_nat duration_blocks)
                        (mkRun engine [] 0 [] (block_hash subchain_genesis)) in
      (run_sent st,
       _ ← r;
       mret (mkSubchainReport sub_chain_id parent_chain_id duration_blocks
               (hex_bytes (arr_bytes (run_head st))) (run_flushes st)))
  | Err e => ([], Err (EngineFailed e))
  | Panic => ([], Panic)
  end.
End subchain.

(** *** Every flush reaches the parent's anchors *)
Section subchain_facts.
Context `{HP : Primitives} `{R : Rlp} `{U : RlpUint} `{K : K256} `{X : HexCrate}.
Context `{!RlpLaws R} `{!RlpUintLaws R U} `{!K256Laws K}.
Context {B : Type} `{HB : KvBackend B} {HL : KvLaws B}.
(** A transaction whose numbers fit and whose data is short can be encoded. *)
Lemma legacy_wf_small t :
  tl_nonce t < u64_mod -> tl_gas_price t < u256_mod -> tl_gas_limit t < u64_mod -> tl_value t < u256_mod ->
  tl_v t < u64_mod -> len (tl_data t) < 1000 -> tl_algo_id t = Secp256k1 -> legacy_wf t.
Proof.
  intros Hn Hp Hg Hv Hv' Hd Ha. split; try done; [lia|].
  unfold legacy_payload, legacy_unsigned, encode_algo, encode_to, encode_array, encode_u256.
  rewrite Ha, bool_decide_eq_true_2 by done. rewrite !len_app.
  pose proof (rlp_u64_len _ Hn). pose proof (rlp_u64_len _ Hg). pose proof (rlp_u64_len _ Hv').
  pose proof (fun b => proj2 (rlp_string_len b)) as Hb.
  pose proof (Hb (trim_zeros (be_bytes 32 (tl_gas_price t)))). pose proof (Hb (trim_zeros (be_bytes 32 (tl_value t)))).
  pose proof (Hb (arr_bytes (tl_r t))). pose proof (Hb (arr_bytes (tl_s t))). pose proof (Hb (tl_data t)).
  assert (len (match tl_to t with Some a => rlp_string (arr_bytes a) | None => [x80] end) <= 29).
  { destruct (tl_to t) as [a|]; [|done]. pose proof (Hb (arr_bytes a)) as Hto. unfold len in *. rewrite arr_length in Hto. lia. }
  pose proof (length_trim_zeros (be_bytes 32 (tl_gas_price t))). pose proof (length_trim_zeros (be_bytes 32 (tl_value t))).
  unfold len in *. rewrite !arr_length, !length_be_bytes in *. cbn [length]. lia.
Qed.

Lemma submitted_legacy t : legacy_wf t -> submitted_tx (tx_encode (TLegacy t)) = Ok (TLegacy t).
Proof.
  intros Hwf. pose proof (decode_encode_legacy t [] Hwf) as Hd. rewrite app_nil_r in Hd.
  cbn [tx_encode]. unfold submitted_tx. unfold encode_legacy, with_list_header in *.
  destruct (rlp_list_prefix (len (legacy_payload t))) as (b & rest & Hp & Hb). rewrite Hp in *. cbn [app] in *.
  rewrite (proj2 (N.ltb_ge _ _)) by done. by rewrite Hd.
Qed.

(** *** The parent's scan of a block *)
Lemma tx_anchor_id_lt c ph t id a : tx_anchor c ph t = Some (id, a) -> id < u32_mod.
Proof.
  unfold tx_anchor. destruct (tx_data_to t) as [data to]. destruct (parse_flush_anchor data) as [p|] eqn:Hp; [|done].
  cbn [mbind option_bind]. destruct (recover_signer t c); [|done..]. case_bool_decide; [|done]. intros [= <- _].
  unfold parse_flush_anchor in Hp. destruct (_ || _); [done|]. destruct (arr_of _); [|done]. injection Hp as <-. cbn.
  pose proof (be_value_lt (take 4 (drop (length FLUSH_TX_MAGIC) data))) as Hlt.
  eapply N.lt_le_trans; [exact Hlt|]. change u32_mod with (256 ^ 4). apply N.pow_le_mono_r; [done|]. rewrite length_take. lia.
Qed.

Definition scan_step (c : N) (ph : H256) (b : B) (t : Tx) : B :=
  match tx_anchor c ph t with Some (id, anchor) => persist_flush_anchor id anchor b | None => b end.

Lemma scan_step_view c ph b t :
  kv_ok b -> kv_ok (scan_step c ph b t) /\
  kv_view (scan_step c ph b t) = match tx_anchor c ph t with
    | Some (id, a) => <[(MicroChain, anchor_key id) := arr_bytes (sub_block_hash a) ++ arr_bytes (parent_block_hash a) ++
                         be_bytes 8 (sub_block_number a)]> (kv_view b)
    | None => kv_view b
    end.
Proof.
  intros Hok. unfold scan_step. destruct (tx_anchor c ph t) as [[id a]|]; [|done]. unfold persist_flush_anchor.
  destruct (kv_put_view b MicroChain (anchor_key id) (arr_bytes (sub_block_hash a) ++ arr_bytes (parent_block_hash a) ++
    be_bytes 8 (sub_block_number a)) Hok) as (b' & -> & Hok' & Hv). done.
Qed.

Lemma scan_ok c ph l : forall b, kv_ok b -> kv_ok (foldl (scan_step c ph) b l).
Proof. induction l as [|t l IH]; intros b Hok; cbn; [done|]. apply IH. by apply scan_step_view. Qed.

Lemma scan_keeps c ph id l : forall b, kv_ok b -> id < u32_mod ->
  Forall (fun t => forall id' a, tx_anchor c ph t = Some (id', a) -> id' <> id) l ->
  kv_view (foldl (scan_step c ph) b l) !! (MicroChain, anchor_key id) = kv_view b !! (MicroChain, anchor_key id).
Proof.
  induction l as [|t l IH]; intros b Hok Hid Hl; cbn; [done|]. apply Forall_cons in Hl as [Ht Hl].
  destruct (scan_step_view c ph b t Hok) as [Hok' Hv]. rewrite IH, Hv by done.
  destruct (tx_anchor c ph t) as [[id' a]|] eqn:Ha; [|done]. apply lookup_insert_ne. intros Hk%(f_equal snd). cbn [snd] in Hk.
  apply (Ht _ _ eq_refl). unfold anchor_key in Hk. apply app_inv_head in Hk. apply tx_anchor_id_lt in Ha.
  by eapply (be_bytes_inj 4).
Qed.

(** The last anchor of a chain in a block is the one that the parent reports. *)
Lemma scan_records spec blk ph b l1 t l2 id a :
  kv_ok b -> transactions (body blk) = l1 ++ t :: l2 -> tx_anchor (chain_id spec) ph t = Some (id, a) ->
  sub_block_number a < u64_mod ->
  Forall (fun t => forall id' a, tx_anchor (chain_id spec) ph t = Some (id', a) -> id' <> id) l2 ->
  last_flush_anchor id (scan_microchain_anchors spec blk ph b) = Ok (Some a).
Proof.
  intros Hok Htx Ht Hn Hl. unfold scan_microchain_anchors. change (fun b tx => _) with (scan_step (chain_id spec) ph).
  rewrite Htx, foldl_app. cbn [foldl]. set (b1 := foldl _ b l1). pose proof (scan_ok (chain_id spec) ph l1 b Hok) as Hok1.
  fold b1 in Hok1. destruct (scan_step_view (chain_id spec) ph b1 t Hok1) as [Hok2 Hv2]. rewrite Ht in Hv2.
  unfold last_flush_anchor. rewrite kv_get_view by by apply scan_ok.
  rewrite scan_keeps, Hv2, lookup_insert_eq by (done || by eapply tx_anchor_id_lt). cbn [mbind res_bind option_bind].
  unfold len. rewrite !length_app, !arr_length, length_be_bytes. cbn [Nat.add N.of_nat N.eqb negb].
  rewrite take_app_length' by (by rewrite arr_length).
  rewrite (drop_app_length' (arr_bytes (sub_block_hash a)) _ 32) by (by rewrite arr_length).
  rewrite take_app_length' by (by rewrite arr_length). rewrite !arr_of_arr_bytes. cbn [mbind option_bind].
  rewrite app_assoc, drop_app_length' by (by rewrite length_app, !arr_length).
  rewrite be_value_small by done. by destruct a.
Qed.

(** *** The transactions of the operator *)
Context (answer : list text -> text -> text + text).
Context (sk : ec_sk) (sub_chain_id parent_chain_id slot_seconds interval : N).

Local Abbreviation unsigned := (unsigned_flush sk sub_chain_id).
Local Abbreviation me := (operator sk).

(** The chain that the operator produces: the engine after [n] blocks, and its head. *)
Definition engine_after (n : nat) : PoaEngine :=
  Nat.iter n (fun e => (poa_produce_block e).1)
    (mkPoa (subchain_config sk slot_seconds) (head_of (subchain_genesis sk sub_chain_id)) []).

Definition sub_head (n : nat) : H256 := hs_hash (poa_state (engine_after n)).

(** How many of the texts [sent] the parent accepts, after it has received [seen]. *)
Fixpoint accepted (seen sent : list text) : N :=
  match sent with
  | [] => 0
  | raw :: sent => (if answer seen raw then 1 else 0) + accepted (seen ++ [raw]) sent
  end.

Lemma accepted_snoc sent raw : forall seen,
  accepted seen (sent ++ [raw]) = accepted seen sent + if answer (seen ++ sent) raw then 1 else 0.
Proof.
  induction sent as [|x sent IH]; intros seen; cbn.
  - rewrite app_nil_r. lia.
  - rewrite IH, <-app_assoc. cbn. lia.
Qed.

Lemma accepted_le sent : forall seen, accepted seen sent <= len sent.
Proof.
  unfold len. induction sent as [|x sent IH]; intros seen; cbn [accepted length]; [lia|].
  specialize (IH (seen ++ [x])). destruct (answer seen x); lia.
Qed.

(** The signed flush transaction. *)
Definition is_flush (nonce : N) (h : H256) (n : N) (t : TxLegacy) : Prop :=
  exists recid r s, t = mkTxLegacy nonce 1000000000 100000 (Some me) 0 (tl_data (unsigned nonce h n))
    (parent_chain_id * 2 + 35 + recid) r s Secp256k1 /\ recid < 4 /\
    recover_from_rs recid r s (legacy_signing_hash_eip155 (unsigned nonce h n) parent_chain_id) = Ok me.

Context (Hparent : parent_chain_id * 2 + 38 < u64_mod).

(** The transaction carries a plain parity.  [k256] also knows the recovery ids 2 and 3, of a
    point whose coordinate exceeds the group order, for which the node has no [v]. *)
Definition plain_parity (t : TxLegacy) : Prop := tl_v t <= parent_chain_id * 2 + 36.

Lemma flush_transaction_Ok nonce h n : exists t,
  flush_transaction sk sub_chain_id parent_chain_id nonce h n = Ok (TLegacy t) /\ is_flush nonce h n t.
Proof.
  unfold flush_transaction. rewrite (cli_hash_eq _ _ me) by done. cbn [mbind res_bind].
  set (hash := legacy_signing_hash_eip155 _ _).
  destruct (secp.sign sk hash) as [sig|e|] eqn:Hs.
  2,3: unfold secp.sign in Hs; destruct (ec_sign_total sk hash) as [[s v] Hv]; rewrite Hv in Hs; done.
  cbn [map_err mbind res_bind]. destruct (sign_recover _ _ _ Hs) as (_ & _ & Hrec).
  destruct (signature_parts (E := SubchainError) sig) as (r & s & Hr & Hs' & Hid & Hrs).
  rewrite Hr, Hs'. cbn [mbind res_bind]. rewrite Hid. cbn [expect mbind res_bind].
  eexists. split; [done|]. exists (secp.recovery_id sig), r, s. split_and!; [|done|by apply (recover_signed sk)].
  f_equal. rewrite to_N_byte_of_N, N.mod_small by lia. rewrite wrapping_mul_small by lia.
  by rewrite !wrapping_add_small by (rewrite ?wrapping_add_small; lia).
Qed.

Lemma is_flush_recovers nonce h n t :
  is_flush nonce h n t -> plain_parity t -> recover_signer (TLegacy t) parent_chain_id = Ok me.
Proof.
  unfold plain_parity. intros (recid & r & s & -> & Hrec & Hr) Hv. cbn [tl_v] in Hv. cbn [recover_signer].
  rewrite (recover_legacy_eip155 _ parent_chain_id recid) by (done || lia). by rewrite N.eqb_refl.
Qed.

Lemma is_flush_anchor nonce h n t ph :
  n < u64_mod -> is_flush nonce h n t -> plain_parity t ->
  tx_anchor parent_chain_id ph (TLegacy t) = Some (sub_chain_id mod u32_mod, mkAnchor h ph n).
Proof.
  intros Hn Hf Hv. unfold tx_anchor. rewrite (is_flush_recovers _ _ _ _ Hf Hv). destruct Hf as (recid & r & s & -> & _).
  cbn [tx_data_to tl_data tl_to unsigned_flush].
  change (FLUSH_TX_MAGIC ++ _) with (flush_calldata (mkPayload (sub_chain_id mod u32_mod) h n)).
  rewrite parse_flush_calldata; [|apply N.mod_lt; lia|done]. cbn [mbind option_bind]. by rewrite bool_decide_eq_true_2.
Qed.

Lemma len_data (h : H256) n : len (FLUSH_TX_MAGIC ++ be_bytes 4 (sub_chain_id mod u32_mod) ++ arr_bytes h ++ be_bytes 8 n) = 53.
Proof. unfold len. rewrite !length_app, !length_be_bytes, arr_length. done. Qed.

Lemma is_flush_wf nonce h n t : nonce < u64_mod -> is_flush nonce h n t -> legacy_wf t.
Proof.
  intros Hn (recid & r & s & -> & Hrec & _).
  apply legacy_wf_small; cbn [tl_nonce tl_gas_price tl_gas_limit tl_value tl_v tl_data tl_algo_id unsigned_flush]; rewrite ?len_data; done || lia.
Qed.

(** *** The run *)
Context (Hinterval : 0 < interval).

(** The multiples of the interval up to [k]. *)
Definition flush_heights (k : nat) : list N :=
  (fun i => interval * N.of_nat (S i)) <$> seq 0 (N.to_nat (N.of_nat k / interval)).

Lemma flush_heights_S k :
  flush_heights (S k) = flush_heights k ++ if N.of_nat (S k) mod interval =? 0 then [N.of_nat (S k)] else [].
Proof.
  unfold flush_heights. pose proof (N.div_mod' (N.of_nat (S k)) interval) as D1. pose proof (N.div_mod' (N.of_nat k) interval) as D0.
  pose proof (N.mod_lt (N.of_nat (S k)) interval ltac:(lia)) as M1. pose proof (N.mod_lt (N.of_nat k) interval ltac:(lia)) as M0.
  revert D1 D0 M1 M0. generalize (N.of_nat (S k) / interval), (N.of_nat (S k) mod interval), (N.of_nat k / interval), (N.of_nat k mod interval).
  intros q1 r1 q0 r0 D1 D0 M1 M0. destruct (N.eqb_spec r1 0) as [->|Hr].
  - assert (q1 = q0 + 1) as -> by nia. replace (N.to_nat (q0 + 1)) with (N.to_nat q0 + 1)%nat by lia.
    rewrite seq_app, fmap_app. f_equal. cbn. f_equal. nia.
  - assert (q1 = q0) as -> by nia. by rewrite app_nil_r.
Qed.

Definition recorded_tx (sent : list text) (raw : text) : text :=
  match answer sent raw with inl s => s | inr e => str "err: " ++ e end.

(** The [i]-th text and the [i]-th record belong to one flush. *)
Definition flush_spec (sent : list text) (i : nat) (raw : text) (fl : FlushRecord) (t : TxLegacy) : Prop :=
  let n := fr_sub_block_number fl in
  let h := sub_head (N.to_nat n) in
  raw = hex_bytes (tx_encode (TLegacy t)) /\ fr_sub_block_hash fl = hex_bytes (arr_bytes h) /\
  parent_tx fl = recorded_tx (take i sent) raw /\ is_flush (accepted [] (take i sent)) h n t.

Record run_inv (k : nat) (st : SubchainRun) : Prop := {
  ri_engine : run_engine st = engine_after k;
  ri_head : run_head st = sub_head k;
  ri_nonce : run_nonce st = accepted [] (run_sent st);
  ri_numbers : fr_sub_block_number <$> run_flushes st = flush_heights k;
  ri_len : length (run_sent st) = length (run_flushes st);
  ri_flushes : forall i raw fl, run_sent st !! i = Some raw -> run_flushes st !! i = Some fl ->
    exists t, flush_spec (run_sent st) i raw fl t
}.

Lemma engine_after_number k : N.of_nat k < u64_mod -> hs_number (poa_state (engine_after k)) = N.of_nat k.
Proof.
  induction k as [|k IH]; intros Hk; [done|].
  assert (engine_after (S k) = (poa_produce_block (engine_after k)).1) as -> by done.
  unfold poa_produce_block, checked_add. rewrite IH by lia. rewrite (proj2 (N.ltb_lt _ _)) by lia. cbn. lia.
Qed.

Lemma poa_produce_next (e : PoaEngine) : hs_number (poa_state e) + 1 < u64_mod -> exists blk,
  poa_produce_block e = ((poa_produce_block e).1,
    Ok (hs_hash (poa_state (poa_produce_block e).1), hs_number (poa_state e) + 1, blk)).
Proof. intros He. unfold poa_produce_block, checked_add. rewrite (proj2 (N.ltb_lt _ _)) by lia. eauto. Qed.

Lemma engine_after_step k : N.of_nat (S k) < u64_mod -> exists blk,
  poa_produce_block (engine_after k) = (engine_after (S k), Ok (sub_head (S k), N.of_nat (S k), blk)).
Proof.
  intros Hk. pose proof (engine_after_number k ltac:(lia)) as Hn.
  destruct (poa_produce_next (engine_after k)) as [blk Hb]; [lia|]. exists blk. rewrite Hn in Hb.
  by replace (N.of_nat (S k)) with (N.of_nat k + 1) by lia.
Qed.

Lemma subchain_block_inv k st :
  N.of_nat (S k) < u64_mod -> run_inv k st ->
  exists st', subchain_block answer sk sub_chain_id parent_chain_id interval st = (st', Ok tt) /\ run_inv (S k) st'.
Proof.
  intros Hk Hi. destruct (engine_after_step k Hk) as [blk Hb]. unfold subchain_block. rewrite (ri_engine _ _ Hi), Hb.
  unfold flush_block. rewrite (proj2 (N.eqb_neq interval 0)) by lia.
  pose proof (flush_heights_S k) as Hf. destruct (N.of_nat (S k) mod interval =? 0); cbn [negb].
  - cbn [run_nonce run_sent run_flushes run_engine run_head].
    destruct (flush_transaction_Ok (run_nonce st) (sub_head (S k)) (N.of_nat (S k))) as (t & -> & Ht).
    set (raw := hex_bytes _).
    assert (accepted [] (run_sent st) <= N.of_nat k) as Hacc.
    { etransitivity; [apply accepted_le|]. unfold len. rewrite (ri_len _ _ Hi), <-(length_fmap fr_sub_block_number), (ri_numbers _ _ Hi).
      unfold flush_heights. rewrite length_fmap, length_seq. pose proof (N.Div0.div_le_upper_bound (N.of_nat k) interval (N.of_nat k)). nia. }
    set (st' := mkRun (engine_after (S k)) (run_sent st ++ [raw]) (accepted [] (run_sent st ++ [raw]))
      (run_flushes st ++ [mkFlushRecord (N.of_nat (S k)) (hex_bytes (arr_bytes (sub_head (S k)))) (recorded_tx (run_sent st) raw)]) (sub_head (S k))).
    exists st'. split.
    + subst st'. rewrite accepted_snoc. unfold recorded_tx. cbn [app]. rewrite (ri_nonce _ _ Hi).
      destruct (answer (run_sent st) raw); [rewrite wrapping_add_small by lia|rewrite N.add_0_r]; done.
    + split; cbn [st' run_engine run_head run_nonce run_sent run_flushes]; try done.
      * by rewrite fmap_app, (ri_numbers _ _ Hi), Hf.
      * rewrite !length_app, (ri_len _ _ Hi). done.
      * intros i raw' fl Hraw Hfl. apply lookup_snoc_Some in Hraw as [[Hlt Hraw]|[-> <-]].
        -- rewrite lookup_app_l in Hfl by (rewrite <-(ri_len _ _ Hi); done).
           destruct (ri_flushes _ _ Hi i raw' fl Hraw Hfl) as [t' Ht']. exists t'. unfold flush_spec in *.
           by rewrite take_app_le by lia.
        -- apply lookup_snoc_Some in Hfl as [[Hlt _]|[_ <-]]; [rewrite (ri_len _ _ Hi) in Hlt; lia|]. exists t. unfold flush_spec.
           cbn [fr_sub_block_number fr_sub_block_hash parent_tx]. rewrite Nat2N.id, take_app_length.
           rewrite <-(ri_nonce _ _ Hi). done.
  - eexists. split; [done|]. rewrite app_nil_r in Hf. destruct Hi. split; cbn; congruence || done.
Qed.

Lemma subchain_loop_inv n : forall k st,
  N.of_nat (k + n) < u64_mod -> run_inv k st ->
  exists st', subchain_loop answer sk sub_chain_id parent_chain_id interval n st = (st', Ok tt) /\ run_inv (k + n) st'.
Proof.
  induction n as [|n IH]; intros k st Hk Hi; [exists st; by rewrite Nat.add_0_r|]. cbn [subchain_loop].
  destruct (subchain_block_inv k st ltac:(lia) Hi) as (st1 & H1 & Hi1).
  destruct (IH (S k) st1 ltac:(lia) Hi1) as (st2 & H2 & Hi2). exists st2.
  unfold mbind, action_bind. rewrite H1, H2. split; [done|]. by replace (k + S n)%nat with (S k + n)%nat by lia.
Qed.

(** C20. A sub-chain with its own id and a positive interval runs to its end: it has flushed at
    exactly the multiples of the interval.  Every flush was sent as a transaction that the
    parent's node decodes and whose nonce counts the flushes accepted before.  If the
    transaction carries a plain parity (unless [k256] returned one of the recovery ids 2
    and 3, for which [v] exceeds twice the parent's id plus 36), its signer is the
    operator, and every node of the parent with a working store whose block has that transaction as the last
    anchor of its id reports afterwards the number and hash of the sub-chain's block as
    the last flush.  The id it reports is the sub-chain's modulo 2^32.  The duration fits
    in 64 bits, and so does twice the parent's chain id plus 38. *)
Theorem subchain_flushes_anchor (duration : N) :
  sub_chain_id <> parent_chain_id -> duration < u64_mod ->
  let '(sent, r) := run_subchain answer sk sub_chain_id parent_chain_id slot_seconds interval duration in
  exists report, r = Ok report /\ sub_blocks_produced report = duration /\
    sub_head_hash report = hex_bytes (arr_bytes (sub_head (N.to_nat duration))) /\
    fr_sub_block_number <$> flushes report = flush_heights (N.to_nat duration) /\
    length sent = length (flushes report) /\
    forall i raw fl, sent !! i = Some raw -> flushes report !! i = Some fl ->
    exists t, raw = hex_bytes (tx_encode (TLegacy t)) /\ submitted_tx (tx_encode (TLegacy t)) = Ok (TLegacy t) /\
      tl_nonce t = accepted [] (take i sent) /\
      fr_sub_block_hash fl = hex_bytes (arr_bytes (sub_head (N.to_nat (fr_sub_block_number fl)))) /\
      (plain_parity t -> recover_signer (TLegacy t) parent_chain_id = Ok me /\
      forall spec blk ph (b : B) before after,
        chain_id spec = parent_chain_id -> kv_ok b -> transactions (body blk) = before ++ TLegacy t :: after ->
        Forall (fun t' => forall id a, tx_anchor parent_chain_id ph t' = Some (id, a) -> id <> sub_chain_id mod u32_mod) after ->
        last_flush_anchor (sub_chain_id mod u32_mod) (scan_microchain_anchors spec blk ph b) =
          Ok (Some (mkAnchor (sub_head (N.to_nat (fr_sub_block_number fl))) ph (fr_sub_block_number fl)))).
Proof.
  intros Hne Hd. unfold run_subchain. rewrite (proj2 (N.eqb_neq _ _) Hne). cbn [PoaEngine_new subchain_config authorities].
  set (st0 := mkRun _ _ _ _ _).
  destruct (subchain_loop_inv (N.to_nat duration) 0 st0) as (st & Hst & Hi); [lia| |].
  { by split. }
  rewrite Hst. cbn [Nat.add] in Hi. cbn [mbind res_bind mret res_ret]. eexists. split; [done|].
  cbn [sub_blocks_produced sub_head_hash flushes].
  split_and!; [done|by rewrite (ri_head _ _ Hi)|apply Hi|apply Hi|].
  intros i raw fl Hraw Hfl. destruct (ri_flushes _ _ Hi i raw fl Hraw Hfl) as (t & Hr & Hh & _ & Ht).
  assert (fr_sub_block_number fl < u64_mod) as Hn.
  { assert (fr_sub_block_number fl ∈ flush_heights (N.to_nat duration)) as Hin.
    { rewrite <-(ri_numbers _ _ Hi). apply list_elem_of_fmap. exists fl. split; [done|]. by eapply list_elem_of_lookup_2. }
    unfold flush_heights in Hin. apply list_elem_of_fmap in Hin as (j & -> & Hj%elem_of_seq). rewrite N2Nat.id in Hj.
    pose proof (N.Div0.mul_div_le duration interval). nia. }
  assert (accepted [] (take i (run_sent st)) < u64_mod) as Hacc.
  { eapply N.le_lt_trans; [apply accepted_le|]. unfold len. rewrite length_take, (ri_len _ _ Hi).
    rewrite <-(length_fmap fr_sub_block_number), (ri_numbers _ _ Hi). unfold flush_heights.
    rewrite length_fmap, length_seq, N2Nat.id. pose proof (N.Div0.mul_div_le duration interval). nia. }
  exists t. split_and!; [done|by apply submitted_legacy, (is_flush_wf _ _ _ _ Hacc Ht)| |done|].
  - destruct Ht as (recid & r & s & -> & _). done.
  - intros Hv. split; [by eapply is_flush_recovers|]. intros spec blk ph b before after Hc Hok Htx Hafter.
    apply (scan_records _ _ _ _ before (TLegacy t) after); rewrite ?Hc; try done. by eapply is_flush_anchor.
Qed.
End subchain_facts.

(** An interval of zero is not refused: the run panics at the first block, with nothing sent. *)
Theorem zero_interval_panics `{Primitives} `{Rlp} `{K256} `{HexCrate} answer sk sub_chain_id parent_chain_id slot_seconds duration :
  sub_chain_id <> parent_chain_id -> 0 < duration ->
  run_subchain answer sk sub_chain_id parent_chain_id slot_seconds 0 duration = ([], Panic).
Proof.
  intros Hne Hd. unfold run_subchain. rewrite (proj2 (N.eqb_neq _ _) Hne). cbn [PoaEngine_new subchain_config authorities].
  destruct (N.to_nat duration) as [|n] eqn:Hn; [lia|]. cbn [subchain_loop]. unfold mbind at 1, action_bind at 1, subchain_block.
  reflexivity.
Qed.

(** ** The operator's state file *)
Inductive SubchainConsensus := SubPoa | SubBft.

Record SubchainPersistentState := mkPersistentState {
  ps_sub_chain_id : N;
  ps_consensus : text;
  operator_sk_hex : text;
  head_number : N;
  head_hash : text;
  ps_parent_nonce : N;
  flush_count : N
}.

Inductive StateFileError :=
| UnknownConsensus (other : text)
| DataDirFailed (e : IoError)
| ReadFailed (e : IoError)
| ParseFailed
| WriteFailed (e : IoError)
| RenameFailed (e : IoError)
| OperatorHex
| OperatorLength (got : N)
| OperatorParse (e : CryptoError).

Definition SubchainConsensus_parse (s : text) : res StateFileError SubchainConsensus :=
  if bool_decide (s = str "poa") then Ok SubPoa
  else if bool_decide (s = str "bft") then Ok SubBft
  else Err (UnknownConsensus s).

Definition as_label (self : SubchainConsensus) : text :=
  match self with SubPoa => str "poa" | SubBft => str "bft" end.

Definition consensus_kind (self : SubchainPersistentState) : res StateFileError SubchainConsensus :=
  SubchainConsensus_parse (ps_consensus self).

Definition state_path (data_dir : path) : path := str "state.json" :: data_dir.
Definition state_tmp_path (data_dir : path) : path := str "state.json.tmp" :: data_dir.

Section state_file.
Context `{K256} `{HexCrate}.
(** [serde_json] and the encoding of [k256]'s secret keys *)
Context (state_to_json : SubchainPersistentState -> bytes).
Context (state_of_json : bytes -> option SubchainPersistentState).
Context (ec_sk_to_bytes : ec_sk -> array 32).

Definition state_save (self : SubchainPersistentState) (data_dir : path) : io StateFileError unit :=
  _ ← lift DataDirFailed fs_create_dir_all;
  _ ← lift WriteFailed (fs_write (state_tmp_path data_dir) (state_to_json self));
  lift RenameFailed (fs_rename (state_tmp_path data_dir) (state_path data_dir)).

Definition state_load (data_dir : path) : io StateFileError (option SubchainPersistentState) :=
  there ← fs_exists (state_path data_dir);
  if negb (there : bool) then mret None
  else
    bytes ← lift ReadFailed (fs_read (state_path data_dir));
    st ← io_res (ok_or (state_of_json bytes) ParseFailed);
    mret (Some st).

(** The key is the first valid one that was drawn. *)
Definition create_fresh (sk : ec_sk) (sub_chain_id : N) (consensus : SubchainConsensus) (data_dir : path)
    : io StateFileError SubchainPersistentState :=
  _ ← lift DataDirFailed fs_create_dir_all;
  let st := mkPersistentState sub_chain_id (as_label consensus) (hex_bytes (arr_bytes (ec_sk_to_bytes sk))) 0 [] 0 0 in
  _ ← state_save st data_dir;
  mret st.

Definition operator_secret_key (self : SubchainPersistentState) : res StateFileError ec_sk :=
  raw ← ok_or (hex_decode (strip_or (operator_sk_hex self))) OperatorHex;
  arr ← ok_or (arr_of raw) (OperatorLength (len raw));
  map_err OperatorParse (secp.SecretKey_from_bytes arr).

Lemma lift_spec {E A} (f : IoError -> E) (op : io IoError A) fs :
  lift f op fs = (map_err f (fst (op fs)), snd (op fs)).
Proof. unfold lift. by destruct (op fs). Qed.

Lemma fs_write_Ok p b fs u fs' : fs_write p b fs = (Ok u, fs') -> contents <$> files fs' !! p = Some b.
Proof.
  unfold fs_write, put, next_fault, io_fail. unfold mbind, io_bind, get_files, set_files. cbn.
  destruct (faults fs) as [|[[|k]|] rest]; cbn; try done; intros [= _ <-]; cbn; by rewrite lookup_insert_eq.
Qed.

(** A save leaves the new state under the name, or exactly what was there. *)
Lemma state_save_files self data_dir fs :
  let '(r, fs') := state_save self data_dir fs in
  r <> Panic /\
  if is_ok r then contents <$> files fs' !! state_path data_dir = Some (state_to_json self)
  else files fs' !! state_path data_dir = files fs !! state_path data_dir.
Proof.
  unfold state_save. rewrite bind_eq, lift_spec.
  assert (state_path data_dir <> state_tmp_path data_dir) as Hne by by intros [=].
  pose proof (keeps_dir (state_path data_dir) fs) as Hd. pose proof (no_panic_dir fs) as Pd.
  destruct (fs_create_dir_all fs) as [[u|e|] fs1]; cbn [fst snd map_err] in *; [|by split|done].
  rewrite bind_eq, lift_spec. pose proof (keeps_write _ _ (state_to_json self) Hne fs1) as Hw.
  destruct (fs_write (state_tmp_path data_dir) (state_to_json self) fs1) as [[u'|e|] fs2] eqn:E; cbn [fst snd map_err] in *.
  - pose proof (fs_write_Ok _ _ _ _ _ E) as Hc. rewrite lift_spec.
    pose proof (no_panic_rename (state_tmp_path data_dir) (state_path data_dir) fs2) as Pr.
    destruct (fs_rename _ _ fs2) as [[[]|e|] fs3] eqn:Er; cbn [fst snd map_err is_ok] in *; [|split; [done|]|done].
    + split; [done|]. apply fs_rename_Ok in Er as (f & Hf & ->). rewrite lookup_insert_eq. rewrite Hf in Hc. done.
    + apply fs_rename_Err in Er. by rewrite Er, Hw, Hd.
  - split; [done|]. cbn [is_ok]. by rewrite Hw, Hd.
  - exfalso. revert E. unfold fs_write, put, next_fault, io_fail. unfold mbind, io_bind, get_files, set_files. cbn.
    by destruct (faults fs1) as [|[[|k]|] rest].
Qed.

(** What a load reads, when nothing fails. *)
Lemma state_load_files data_dir m :
  (state_load data_dir (mkFS m [])).1 =
  match contents <$> m !! state_path data_dir with
  | None => Ok None
  | Some b => st ← ok_or (state_of_json b) ParseFailed; Ok (Some st)
  end.
Proof.
  unfold state_load. rewrite bind_eq. unfold fs_exists at 1. cbn [files].
  destruct (m !! state_path data_dir) as [f|] eqn:Hf; cbn [fmap option_fmap option_map].
  - rewrite bool_decide_eq_true_2 by done. cbn [negb]. rewrite bind_eq, lift_spec. unfold fs_read.
    rewrite atomic_spec. cbn [faults]. rewrite bind_eq, look_spec. cbn [files]. rewrite Hf. cbn [fst snd map_err].
    destruct (state_of_json (contents f)) eqn:E; cbn; by rewrite bind_eq; unfold io_res; rewrite E.
  - by rewrite bool_decide_eq_false_2 by by intros [].
Qed.

Lemma create_fresh_saves sk id kind data_dir fs st fs2 :
  create_fresh sk id kind data_dir fs = (Ok st, fs2) ->
  st = mkPersistentState id (as_label kind) (hex_bytes (arr_bytes (ec_sk_to_bytes sk))) 0 [] 0 0 /\
  contents <$> files fs2 !! state_path data_dir = Some (state_to_json st).
Proof.
  unfold create_fresh. rewrite bind_eq, lift_spec. destruct (fs_create_dir_all fs) as [[u|e|] fs1]; cbn [fst snd map_err]; [|done..].
  set (st0 := mkPersistentState _ _ _ _ _ _ _). rewrite bind_eq. pose proof (state_save_files st0 data_dir fs1) as Hs.
  destruct (state_save st0 data_dir fs1) as [[u'|e|] fs3]; [|done..]. intros [= <- <-]. by destruct Hs as [_ Hs].
Qed.

(** The operator's state survives: however the file system fails during a save, a later
    load that can read finds the new state if the save reported success and what was there
    before otherwise, never a torn file; and from a fresh state the operator's key is
    recovered. *)
Theorem subchain_state_survives `{!HexLaws _} (self : SubchainPersistentState) data_dir fs :
  (forall st, state_of_json (state_to_json st) = Some st) ->
  let '(r, fs') := state_save self data_dir fs in
  r <> Panic /\
  (state_load data_dir (mkFS (files fs') [])).1 =
    (if is_ok r then Ok (Some self) else (state_load data_dir (mkFS (files fs) [])).1) /\
  forall sk id kind st fs2, (forall k, ec_sk_from_bytes (ec_sk_to_bytes k) = Some k) ->
    create_fresh sk id kind data_dir fs = (Ok st, fs2) ->
    operator_secret_key st = Ok sk /\ consensus_kind st = Ok kind /\
    (state_load data_dir (mkFS (files fs2) [])).1 = Ok (Some st).
Proof.
  intros Hjson. pose proof (state_save_files self data_dir fs) as Hs. destruct (state_save self data_dir fs) as [r fs'].
  destruct Hs as [Hnp Hs]. split; [done|]. split.
  - rewrite !state_load_files. destruct (is_ok r); rewrite Hs; [|done]. by rewrite Hjson.
  - intros sk id kind st fs2 Hsk (-> & Hc)%create_fresh_saves. split_and!.
    + unfold operator_secret_key. cbn [operator_sk_hex]. rewrite strip_hex_bytes, hex_roundtrip. cbn [ok_or mbind res_bind].
      rewrite arr_of_arr_bytes. cbn [ok_or mbind res_bind]. unfold secp.SecretKey_from_bytes. by rewrite Hsk.
    + by destruct kind.
    + rewrite state_load_files, Hc, Hjson. done.
Qed.
End state_file.

(** ** The commands on concrete input *)
Module CliDemo.
Export ToySecp ToyRlp ToyUint ToyHex ToyKeys Toy.

Lemma keys n i : keys_derive n i.
Proof. intros j _. by eexists. Qed.

Definition sk : array 32 := be_array 32 7.
(** The parent refuses the first flush and accepts the others. *)
Definition parent (sent : list text) (raw : text) : text + text :=
  match sent with [] => inr (str "busy") | _ => inl (str "0x01") end.

(** The state file as one number. *)
Definition to_json (st : SubchainPersistentState) : bytes :=
  ToyRelease.put_num (ps_sub_chain_id st, ps_consensus st, operator_sk_hex st, head_number st, head_hash st,
    ps_parent_nonce st, flush_count st).
Definition of_json (b : bytes) : option SubchainPersistentState :=
  '(i, c, s, n, h, p, f) ← ToyRelease.get_num b; Some (mkPersistentState i c s n h p f).

Lemma json_roundtrip st : of_json (to_json st) = Some st.
Proof. unfold of_json, to_json. rewrite ToyRelease.get_put. by destruct st. Qed.

Definition saved : SubchainPersistentState := mkPersistentState 10000 (str "poa") [] 5 [] 2 2.
Definition dir : path := [str "data"].
(** The disk is full after three bytes. *)
Definition full_disk : FS := mkFS ∅ [None; Some (FailsAt 3)].
End CliDemo.
Import CliDemo.

(** Four validators, two heights. *)
Lemma pressure_run_succeeds_witness :
  is_ok (run_bft_pressure (fun i => be_array 32 i) (fun _ => 3) 6 4 None (Some 2) None) = true.
Proof.
  refine (proj2 (proj1 (pressure_run_succeeds (HL := Toy.laws) (fun i => be_array 32 i) (fun _ => 3) 6 4 None (Some 2) None _ _)) _).
  - intros _. apply keys.
  - intros vs sks l _. reflexivity.
  - split; [split; [reflexivity|discriminate]|]. split; [reflexivity|]. split; [discriminate|reflexivity].
Defined.

Lemma subchain_flushes_anchor_witness :
  let '(sent, r) := run_subchain parent sk 10000 9999 1 2 5 in
  exists report, r = Ok report /\ fr_sub_block_number <$> flushes report = [2; 4] /\ length sent = 2%nat.
Proof.
  pose proof (subchain_flushes_anchor (RlpLaws0 := ToyRlp.rlp_laws) (RlpUintLaws0 := ToyUint.laws) (K256Laws0 := ToySecp.laws)
    (HL := memory_laws) parent sk 10000 9999 1 2 eq_refl) as Hw.
  specialize (Hw eq_refl 5 ltac:(discriminate) eq_refl).
  revert Hw. match goal with |- (let '(_, _) := ?t in _) -> _ => destruct t as [sent r] end. intros Hw.
  destruct Hw as (report & Hr & _ & _ & Hn & Hl & _). exists report. split; [exact Hr|].
  assert (flush_heights 2 (N.to_nat 5) = [2; 4]) as Hf by reflexivity. rewrite Hf in Hn. split; [exact Hn|].
  rewrite Hl, <-(length_fmap fr_sub_block_number), Hn. reflexivity.
Defined.

Lemma subchain_state_survives_witness :
  let '(r, fs') := state_save to_json saved dir full_disk in
  r <> Panic /\ (state_load of_json dir (mkFS (files fs') [])).1 =
    (if is_ok r then Ok (Some saved) else (state_load of_json dir (mkFS (files full_disk) [])).1).
Proof.
  pose proof (subchain_state_survives (H := ToySecp.k256) (HexLaws0 := ToyHex.hex_laws) to_json of_json (fun k => k)
    saved dir full_disk json_roundtrip) as Hw.
  destruct (state_save to_json saved dir full_disk) as [r fs']. destruct Hw as (Hp & Hl & _). split; [exact Hp|exact Hl].
Defined.
