(* ===== verification/Funding.v ===== *)
(** * Funding: the operator's commands that give accounts their money

    Models, of [src/crates/aii-cli/src/lib.rs], the reading of amounts and keys, the crediting
    of accounts in a stopped node's store ([run_state_credit]) and the funding of addresses by
    transfers from one key ([run_fund_addresses]).  The node behind the RPC is what it answers;
    files are their contents, and the clock is an argument. *)
From stdpp Require Import base tactics gmap numbers sets strings list.
From Stdlib Require Import NArith Lia.
From Stdlib.Init Require Import Byte.
From S2P Require Import Prelude Bytes Crypto ReleaseProps Demo ToyRlp ChainSpec Storage StateDb Microchain NodeState Queries Release ReleaseStore ReleaseStoreProps TxPool Bft BftFacts CoordinatorFacts.
From S2P Require Import Codec RlpUint Secp Tx Transfer Trie Receipt Block Engine Consensus Wire Capacity Bootstrap Cli.

(** ** Crediting accounts in a stopped node's store *)
Inductive CreditError :=
| BadAmount (input : text)
| AmountOverflow
| NoRecipients
| ZeroAmount
| ReadAccount (e : StateError)
| WriteAccount (e : StateError).

Definition WEI_PER_AII : N := 1000000000000000000.

Definition is_ascii_digit (c : byte) : bool := (48 <=? Byte.to_N c) && (Byte.to_N c <=? 57).

(** [s.split(c)]; [acc] is the part read so far. *)
Fixpoint split_on (c : byte) (acc s : text) : list text :=
  match s with
  | [] => [acc]
  | x :: s => if bool_decide (x = c) then acc :: split_on c [] s else split_on c (acc ++ [x]) s
  end.

(** [parse::<u128>] on digits: an overflow is an error. *)
Fixpoint parse_u128_from (acc : N) (s : text) : option N :=
  match s with
  | [] => Some acc
  | c :: s =>
      d ← to_digit 10 c;
      let acc := acc * 10 + d in
      if u128_mod <=? acc then None else parse_u128_from acc s
  end.

Definition parse_u128 (s : text) : option N := match s with [] => None | _ => parse_u128_from 0 s end.

(** What follows the checks of the integer part [w]. *)
Definition amount_tail (input w : text) (frac : option text) : res CreditError N :=
  x ← ok_or (parse_u128 w) (BadAmount input);
  whole_wei ← ok_or (checked_mul u128_mod x WEI_PER_AII) AmountOverflow;
  frac_wei ← match frac with
             | Some frac =>
                 _ ← guard_err ((18 <? len frac) || negb (forallb is_ascii_digit frac)) (BadAmount input);
                 ok_or (parse_u128 (frac ++ replicate (18 - length frac) x30)) (BadAmount input)
             | None => mret 0
             end;
  ok_or (checked_add u128_mod whole_wei frac_wei) AmountOverflow.

Definition parse_aii_decimal_to_wei (input : text) : res CreditError N :=
  let s := trim input in
  _ ← guard_err (bool_decide (s = []) || bool_decide (head s = Some x2d) || bool_decide (head s = Some x2b)) (BadAmount input);
  let parts := split_on x2e [] s in
  whole ← ok_or (head parts) (BadAmount input);
  let frac := parts !! 1%nat in
  _ ← guard_err (bool_decide (is_Some (parts !! 2%nat)) || bool_decide (whole = [])) (BadAmount input);
  _ ← guard_err (negb (forallb is_ascii_digit whole)) (BadAmount input);
  amount_tail input whole frac.

Record StateCreditAccountReport := mkCreditAccount {
  ca_index : N;
  ca_address : text;
  before_balance_wei : text;
  after_balance_wei : text;
  ca_nonce : N
}.

Record StateCreditReport := mkCreditReport {
  sc_data_dir : text;
  sc_amount_aii : text;
  sc_amount_wei : text;
  sc_accounts : list StateCreditAccountReport
}.

Section credit.
Context `{Primitives} `{Rlp} `{HexCrate} {B : Type} `{KvBackend B}.

Fixpoint credit_loop (amount index : N) (recipients : list Address) : action B CreditError (list StateCreditAccountReport) :=
  match recipients with
  | [] => mret []
  | address :: recipients =>
      acc ← reading (fun b => map_err ReadAccount (account address b));
      let acc := default EMPTY_ACCOUNT acc in
      let balance := saturating_add u256_mod (a_balance acc) amount in
      _ ← (fun b => let '(b, r) := set_account address
                      (mkAccount (a_nonce acc) balance (a_storage_root acc) (a_code_hash acc)) b in
                    (b, map_err WriteAccount r));
      reports ← credit_loop amount (index + 1) recipients;
      mret (mkCreditAccount index (hex_bytes (arr_bytes address)) (to_radix 10 (a_balance acc))
              (to_radix 10 balance) (a_nonce acc) :: reports)
  end.

(** On the store that was opened at [data_dir]. *)
Definition run_state_credit (data_dir : text) (recipients : list Address) (amount_aii : text)
    : action B CreditError StateCreditReport := fun b =>
  match recipients with
  | [] => (b, Err NoRecipients)
  | _ =>
      match parse_aii_decimal_to_wei amount_aii with
      | Ok amount_wei =>
          if amount_wei =? 0 then (b, Err ZeroAmount)
          else (reports ← credit_loop amount_wei 0 recipients;
                mret (mkCreditReport data_dir amount_aii (to_radix 10 amount_wei) reports)) b
      | Err e => (b, Err e)
      | Panic => (b, Panic)
      end
  end.
End credit.

(** *** Amounts are read exactly *)
Definition dec_value (s : text) : N := foldl (fun v c => v * 10 + (Byte.to_N c - 48)) 0 s.

Definition digits (s : text) : Prop := Forall (fun c => is_ascii_digit c = true) s.

(** What an amount looks like, and its value in Wei. *)
Definition amount_text (s : text) (v : N) : Prop :=
  exists whole, whole <> [] /\ digits whole /\ v < u128_mod /\
    ((s = whole /\ v = dec_value whole * WEI_PER_AII) \/
     exists frac, digits frac /\ (length frac <= 18)%nat /\ s = whole ++ x2e :: frac /\
       v = dec_value whole * WEI_PER_AII + dec_value frac * 10 ^ (18 - len frac)).

Lemma digits_iff s : forallb is_ascii_digit s = true <-> digits s.
Proof. unfold digits. induction s as [|c s IH]; cbn; [done|]. by rewrite andb_true_iff, IH, Forall_cons. Qed.

Lemma digit_range10 c : is_ascii_digit c = true -> 48 <= Byte.to_N c <= 57.
Proof. unfold is_ascii_digit. rewrite andb_true_iff, !N.leb_le. done. Qed.

Lemma to_digit_ascii c : is_ascii_digit c = true -> to_digit 10 c = Some (Byte.to_N c - 48).
Proof.
  intros Hc. unfold is_ascii_digit in Hc. unfold to_digit. rewrite Hc.
  apply digit_range10 in Hc. by rewrite (proj2 (N.ltb_lt _ _)) by lia.
Qed.

Lemma digits_no_dot s : digits s -> x2e ∉ s.
Proof. intros Hs Hin. unfold digits in Hs. rewrite Forall_forall in Hs. by specialize (Hs _ Hin). Qed.

Lemma dec_from_ge s : forall acc, acc <= foldl (fun v c => v * 10 + (Byte.to_N c - 48)) acc s.
Proof. induction s as [|c s IH]; intros acc; cbn; [lia|]. etransitivity; [|apply IH]. lia. Qed.

Lemma parse_u128_from_digits s : forall acc, digits s -> acc < u128_mod ->
  parse_u128_from acc s =
    let v := foldl (fun v c => v * 10 + (Byte.to_N c - 48)) acc s in
    if u128_mod <=? v then None else Some v.
Proof.
  induction s as [|c s IH]; intros acc Hs Hacc; cbn [parse_u128_from foldl].
  { by rewrite (proj2 (N.leb_gt _ _)). }
  apply Forall_cons in Hs as [Hc Hs]. rewrite to_digit_ascii by done. cbn [mbind option_bind].
  destruct (N.leb_spec u128_mod (acc * 10 + (Byte.to_N c - 48))) as [Hge|Hlt]; [|by apply IH].
  pose proof (dec_from_ge s (acc * 10 + (Byte.to_N c - 48))). cbn. by rewrite (proj2 (N.leb_le _ _)) by lia.
Qed.

Lemma parse_u128_digits s : s <> [] -> digits s ->
  parse_u128 s = if u128_mod <=? dec_value s then None else Some (dec_value s).
Proof. intros Hne Hs. destruct s; [done|]. by apply parse_u128_from_digits. Qed.

Lemma dec_value_zeros s k : dec_value (s ++ replicate k x30) = dec_value s * 10 ^ N.of_nat k.
Proof.
  unfold dec_value. rewrite foldl_app. generalize (foldl (fun v c => v * 10 + (Byte.to_N c - 48)) 0 s).
  induction k as [|k IH]; intros v; [cbn; lia|]. cbn [replicate foldl]. rewrite IH.
  rewrite Nat2N.inj_succ, N.pow_succ_r'. change (Byte.to_N x30 - 48) with 0. lia.
Qed.

Lemma dec_value_lt s : digits s -> dec_value s < 10 ^ len s.
Proof.
  unfold dec_value, len. enough (forall acc, digits s ->
    foldl (fun v c => v * 10 + (Byte.to_N c - 48)) acc s < (acc + 1) * 10 ^ N.of_nat (length s)) as Hg by (intros Hs; specialize (Hg 0 Hs); lia).
  induction s as [|c s IH]; intros acc Hs; [cbn; lia|]. apply Forall_cons in Hs as [Hc%digit_range10 Hs]. cbn [foldl length].
  specialize (IH (acc * 10 + (Byte.to_N c - 48)) Hs). rewrite Nat2N.inj_succ, N.pow_succ_r'.
  eapply N.lt_le_trans; [exact IH|]. rewrite N.mul_assoc. apply N.mul_le_mono_r. lia.
Qed.

(** Splitting at the first separator. *)
Lemma split_on_cases c s : forall acc,
  (c ∉ s /\ split_on c acc s = [acc ++ s]) \/
  exists a b, s = a ++ c :: b /\ c ∉ a /\ split_on c acc s = (acc ++ a) :: split_on c [] b.
Proof.
  induction s as [|x s IH]; intros acc; cbn [split_on]; [left; split; [by intros ?%not_elem_of_nil|by rewrite app_nil_r]|].
  case_bool_decide as Hx.
  - subst x. right. exists [], s. rewrite app_nil_r. split_and!; [done|by intros ?%not_elem_of_nil|done].
  - destruct (IH (acc ++ [x])) as [[Hn Hs]|(a & b & -> & Hn & Hs)].
    + left. rewrite Hs, <-app_assoc. split; [set_solver|done].
    + right. exists (x :: a), b. rewrite Hs, <-app_assoc. split_and!; [done|set_solver|done].
Qed.

Lemma split_unique (c : byte) a b a' b' : c ∉ a -> c ∉ a' -> a ++ c :: b = a' ++ c :: b' -> a = a' /\ b = b'.
Proof.
  revert a'. induction a as [|x a IH]; intros [|y a'] Ha Ha' He; cbn in He; simplify_eq; [done|set_solver|set_solver|].
  destruct (IH a') as [-> ->]; [set_solver|set_solver|done|done].
Qed.

(** A fraction, padded with zeros to 18 places. *)
Lemma parse_fraction f : digits f -> (length f <= 18)%nat ->
  parse_u128 (f ++ replicate (18 - length f) x30) = Some (dec_value f * 10 ^ (18 - len f)).
Proof.
  intros Hf Hl. assert (digits (f ++ replicate (18 - length f) x30)) as Hd.
  { apply Forall_app. split; [done|]. by apply Forall_replicate. }
  assert (length (f ++ replicate (18 - length f) x30) = 18%nat) as H18 by (rewrite length_app, length_replicate; lia).
  rewrite parse_u128_digits by (done || by intros Hnil; rewrite Hnil in H18).
  pose proof (dec_value_lt _ Hd) as Hlt. unfold len in Hlt. rewrite H18, dec_value_zeros in *.
  change (10 ^ N.of_nat 18) with 1000000000000000000 in Hlt.
  replace (N.of_nat (18 - length f)) with (18 - len f) in * by (unfold len; lia).
  by rewrite (proj2 (N.leb_gt _ _)) by lia.
Qed.

(** A numeral has no sign. *)
Lemma digits_no_sign s rest :
  s <> [] -> digits s -> bool_decide (s ++ rest = []) || bool_decide (head (s ++ rest) = Some x2d) || bool_decide (head (s ++ rest) = Some x2b) = false.
Proof.
  intros Hne Hs. destruct s as [|c s]; [done|]. apply Forall_cons in Hs as [Hc _]. cbn [app head].
  rewrite !bool_decide_eq_false_2; [done|by intros [= ->]..|done].
Qed.

Lemma amount_tail_iff input w frac v : w <> [] -> digits w ->
  amount_tail input w frac = Ok v <->
  v < u128_mod /\ match frac with
  | None => v = dec_value w * WEI_PER_AII
  | Some f => digits f /\ (length f <= 18)%nat /\ v = dec_value w * WEI_PER_AII + dec_value f * 10 ^ (18 - len f)
  end.
Proof.
  intros Hne Hw. unfold amount_tail. rewrite (parse_u128_digits w) by done.
  destruct (N.leb_spec u128_mod (dec_value w)) as [Hge|Hlt]; cbn [ok_or mbind res_bind].
  { split; [done|]. unfold WEI_PER_AII. destruct frac; intros; lia. }
  unfold checked_mul. destruct (N.ltb_spec (dec_value w * WEI_PER_AII) u128_mod) as [Hm|Hm]; cbn [ok_or mbind res_bind].
  2: split; [done|]; destruct frac; intros; lia.
  destruct frac as [f|]; [|cbn [mbind res_bind mret res_ret]; rewrite ok_or_Ok, checked_add_Some, N.add_0_r; naive_solver].
  destruct (N.ltb_spec 18 (len f)) as [Hl|Hl]; cbn [orb guard_err mbind res_bind].
  { split; [done|]. unfold len in Hl. lia. }
  destruct (forallb is_ascii_digit f) eqn:Hf; cbn [negb guard_err mbind res_bind].
  2: { split; [done|]. intros (_ & Hd%digits_iff & _). congruence. }
  apply digits_iff in Hf. assert (length f <= 18)%nat as Hl' by (unfold len in Hl; lia).
  rewrite parse_fraction by done. cbn [ok_or mbind res_bind]. rewrite ok_or_Ok, checked_add_Some. naive_solver.
Qed.

(** An amount is accepted exactly if it is a decimal numeral with at most 18 places whose
    value in Wei fits in 128 bits, and then that is the value read. *)
Lemma parse_amount_iff input v : parse_aii_decimal_to_wei input = Ok v <-> amount_text (trim input) v.
Proof.
  unfold parse_aii_decimal_to_wei. set (s := trim input). clearbody s.
  assert (forall w rest (third : option text) frac, s = w ++ rest ->
    (_ ← guard_err (bool_decide (s = []) || bool_decide (head s = Some x2d) || bool_decide (head s = Some x2b)) (BadAmount input);
     _ ← guard_err (bool_decide (is_Some third) || bool_decide (w = [])) (BadAmount input);
     _ ← guard_err (negb (forallb is_ascii_digit w)) (BadAmount input);
     amount_tail input w frac) = Ok v <->
    third = None /\ w <> [] /\ digits w /\ amount_tail input w frac = Ok v) as Hguards.
  { intros w rest third frac ->. rewrite <-digits_iff. destruct (decide (w = [])) as [Hw|Hne].
    { rewrite (bool_decide_eq_true_2 (w = [])), orb_true_r by done. split; [|naive_solver]. by destruct (_ || _ || _). }
    rewrite (bool_decide_eq_false_2 (w = [])) by done. destruct third as [x|].
    { rewrite bool_decide_eq_true_2 by done. split; [|naive_solver]. by destruct (_ || _ || _). }
    rewrite bool_decide_eq_false_2 by by intros []. destruct (forallb is_ascii_digit w) eqn:Hd; cbn [orb negb].
    - rewrite digits_no_sign by (done || by apply digits_iff). cbn. naive_solver.
    - split; [|naive_solver]. by destruct (_ || _ || _). }
  destruct (split_on_cases x2e s []) as [[Hn Hs]|(a & b & Hs & Hn & Hsplit)].
  - rewrite Hs. cbn [app head ok_or mbind res_bind]. rewrite (Hguards s [] None None) by by rewrite app_nil_r. split.
    + intros (_ & Hne & Hd & Ht). apply amount_tail_iff in Ht as [Hv ->]; [|done..]. exists s. split_and!; [done..|by left].
    + intros (w & Hne & Hd & Hv & [[-> ->]|(f & _ & _ & Hs' & _)]).
      * split_and!; [done..|]. by apply amount_tail_iff.
      * exfalso. apply Hn. rewrite Hs'. set_solver.
  - rewrite Hsplit. cbn [app head ok_or mbind res_bind].
    etransitivity; [exact (Hguards a (x2e :: b) (split_on x2e [] b !! 1%nat) (split_on x2e [] b !! 0%nat) Hs)|]. split.
    + intros (Hthird & Hne & Hd & Ht). destruct (split_on_cases x2e b []) as [[Hnb Hsb]|(a' & b' & _ & _ & Hsb)]; rewrite Hsb in *.
      * cbn [app lookup list_lookup] in Ht. apply amount_tail_iff in Ht as (Hv & Hf & Hl & ->); [|done..].
        exists a. split_and!; [done..|]. right. by exists b.
      * exfalso. destruct (split_on_cases x2e b' []) as [[_ Hsb']|(? & ? & _ & _ & Hsb')]; by rewrite Hsb' in Hthird.
    + intros (w & Hne & Hd & Hv & [[Hs' _]|(f & Hf & Hl & Hs' & ->)]).
      { exfalso. apply (digits_no_dot _ Hd). rewrite <-Hs', Hs. set_solver. }
      rewrite Hs' in Hs. apply split_unique in Hs as [<- <-]; [|by apply digits_no_dot|done].
      destruct (split_on_cases x2e f []) as [[_ Hsf]|(? & ? & Hf' & _)]; [|exfalso; apply (digits_no_dot _ Hf); rewrite Hf'; set_solver].
      rewrite Hsf. cbn [app lookup list_lookup]. split_and!; [done..|]. by apply amount_tail_iff.
Qed.

(** *** The accounts after a credit *)
Section credit_facts.
Context `{Primitives} `{R : Rlp} `{U : RlpUint} `{X : HexCrate} `{!RlpLaws R} `{!RlpUintLaws R U}.
Context {B : Type} `{HB : KvBackend B} {HL : KvLaws B}.

Lemma account_wf_small a : a_nonce a < u64_mod -> a_balance a < u256_mod -> account_wf a.
Proof.
  intros Hn Hb. split; [done..|]. unfold account_payload, encode_u256, encode_array. rewrite !len_app.
  pose proof (rlp_u64_len _ Hn). pose proof (fun s => proj2 (rlp_string_len s)) as Hs.
  pose proof (Hs (trim_zeros (be_bytes 32 (a_balance a)))). pose proof (Hs (arr_bytes (a_storage_root a))).
  pose proof (Hs (arr_bytes (a_code_hash a))). pose proof (length_trim_zeros (be_bytes 32 (a_balance a))).
  unfold len in *. rewrite !arr_length, length_be_bytes in *. lia.
Qed.

(** An account with [k] credits of [amount]. *)
Definition credited (amount k : N) (a : Account) : Account :=
  mkAccount (a_nonce a) (N.min (a_balance a + k * amount) (u256_mod - 1)) (a_storage_root a) (a_code_hash a).

Definition times (a : Address) (recipients : list Address) : N := len (filter (fun x => x = a) recipients).

(** The accounts of the recipients can be read and their numbers fit their types; no two
    addresses in question share a key. *)
Definition creditable (b : B) (recipients : list Address) : Prop :=
  forall x, x ∈ recipients -> exists o, account x b = Ok o /\
    a_nonce (default EMPTY_ACCOUNT o) < u64_mod /\ a_balance (default EMPTY_ACCOUNT o) < u256_mod.

Lemma credited_again amount k a : credited amount k (credited amount 1 a) = credited amount (1 + k) a.
Proof. unfold credited. cbn. f_equal. rewrite N.mul_add_distr_r. lia. Qed.

Lemma times_cons x a l : times a (x :: l) = (if decide (x = a) then 1 else 0) + times a l.
Proof. unfold times, len. rewrite filter_cons. destruct (decide (x = a)); cbn [length]; lia. Qed.

Lemma times_none a l : a ∉ l -> times a l = 0.
Proof. intros Ha. unfold times. rewrite filter_none; [done|]. apply Forall_forall. by intros x Hx ->. Qed.

Lemma credited_0 amount a : a_balance a < u256_mod -> credited amount 0 a = a.
Proof. intros Hb. unfold credited. destruct a; cbn in *. f_equal. lia. Qed.

Lemma credit_loop_spec (amount : N) recipients : forall (b : B) index,
  kv_ok b -> creditable b recipients ->
  (forall x y, x ∈ recipients -> y ∈ recipients -> state_key x = state_key y -> x = y) ->
  exists b' reports, credit_loop amount index recipients b = (b', Ok reports) /\ kv_ok b' /\
    forall a, (forall x, x ∈ recipients -> state_key x = state_key a -> x = a) ->
    account a b' =
      if bool_decide (a ∈ recipients)
      then (o ← account a b; Ok (Some (credited amount (times a recipients) (default EMPTY_ACCOUNT o))))
      else account a b.
Proof.
  induction recipients as [|x l IH]; intros b index Hok Hc Hinj.
  { exists b, []. split_and!; [done..|]. intros a _. by rewrite bool_decide_eq_false_2 by set_solver. }
  destruct (Hc x) as (o & Ho & Hn & Hb); [set_solver|]. set (acc := default EMPTY_ACCOUNT o) in *.
  assert (account_wf (credited amount 1 acc)) as Hwf by (apply account_wf_small; cbn; lia).
  destruct (account_set b x _ Hok Hwf) as (b1 & Hset & Hok1 & Hx & Hview).
  assert (forall a, state_key x <> state_key a -> account a b1 = account a b) as Hother.
  { intros a Hk. rewrite !StateDb.account_view, Hview by done. by rewrite lookup_insert_ne by congruence. }
  assert (creditable b1 l) as Hc1.
  { intros y Hy. destruct (decide (x = y)) as [<-|Hne].
    - eexists. split; [exact Hx|]. cbn. split; [done|lia].
    - destruct (Hc y) as (o' & Ho' & Hw); [set_solver|]. exists o'. split; [|done]. rewrite Hother; [done|].
      intros Hk%Hinj; [done|set_solver..]. }
  destruct (IH b1 (index + 1) Hok1 Hc1) as (b' & reports & Hl & Hok' & Hall); [intros y z Hy Hz; apply Hinj; set_solver|].
  eexists b', _. split; [|split; [done|]].
  - cbn [credit_loop]. unfold reading, mbind, action_bind. rewrite Ho. cbn [map_err default from_option]. fold acc.
    assert (mkAccount (a_nonce acc) (saturating_add u256_mod (a_balance acc) amount) (a_storage_root acc) (a_code_hash acc)
      = credited amount 1 acc) as -> by (unfold credited, saturating_add; f_equal; lia).
    rewrite Hset. cbn [map_err]. rewrite Hl. done.
  - intros a Ha. rewrite Hall by (intros y Hy; apply Ha; set_solver). rewrite times_cons.
    destruct (decide (x = a)) as [<-|Hne].
    + rewrite (bool_decide_eq_true_2 (x ∈ x :: l)), Hx, Ho by set_solver. cbn [mbind res_bind default from_option].
      change (default EMPTY_ACCOUNT o) with acc. cbn [id].
      case_bool_decide as Hin; [by rewrite credited_again|].
      by rewrite (times_none x l), N.add_0_r.
    + rewrite (Hother a) by (intros Hk; apply Hne, Ha; [set_solver|done]).
      rewrite N.add_0_l. assert (bool_decide (a ∈ x :: l) = bool_decide (a ∈ l)) as -> by (apply bool_decide_ext; set_solver).
      done.
Qed.

(** A credit of a well-formed positive amount gives each recipient the amount, as often as
    it is listed, up to the maximum of 256 bits; nonces, code and storage stay, and so does
    every other account. *)
Theorem state_credit_exact data_dir recipients amount_aii (amount : N) (b : B) :
  kv_ok b -> creditable b recipients -> recipients <> [] ->
  amount_text (trim amount_aii) amount -> 0 < amount ->
  (forall x y, x ∈ recipients -> y ∈ recipients -> state_key x = state_key y -> x = y) ->
  exists b' report, run_state_credit data_dir recipients amount_aii b = (b', Ok report) /\ kv_ok b' /\
    sc_amount_wei report = to_radix 10 amount /\
    forall a, (forall x, x ∈ recipients -> state_key x = state_key a -> x = a) ->
    account a b' =
      if bool_decide (a ∈ recipients)
      then (o ← account a b; Ok (Some (credited amount (times a recipients) (default EMPTY_ACCOUNT o))))
      else account a b.
Proof.
  intros Hok Hc Hne Ha%parse_amount_iff Hpos Hinj.
  destruct (credit_loop_spec amount recipients b 0 Hok Hc Hinj) as (b' & reports & Hl & Hok' & Hall).
  exists b'. eexists. split; [|split; [done|split; [|exact Hall]]].
  - unfold run_state_credit. destruct recipients as [|r l]; [done|]. rewrite Ha, (proj2 (N.eqb_neq _ _)) by lia.
    unfold mbind at 1, action_bind at 1. by rewrite Hl.
  - done.
Qed.
End credit_facts.

(** ** Funding addresses from one key *)
Inductive FundError :=
| FundAmount (e : CreditError)
| KeyHex
| KeyLength (got : N)
| KeyInvalid (e : CryptoError)
| BadU256 (msg : string)
| RpcFailed (e : text)
| InsufficientBalance (have need : N)
| FundSigning (e : CliError).

Record FundRecipientReport := mkFundRecipient {
  fu_index : N;
  fu_address : text;
  fu_amount_wei : text;
  fu_tx_hash : option text;
  fu_error : option text
}.

Record FundAddressesReport := mkFundReport {
  fu_chain_id : N;
  fu_from_address : text;
  fu_initial_nonce : N;
  fu_initial_balance_wei : text;
  fu_final_balance_wei : text;
  fu_amount_aii : text;
  fu_total_amount_wei : text;
  fu_gas_price_wei : text;
  fu_submitted : N;
  fu_accepted : N;
  fu_rejected : N;
  fu_recipients : list FundRecipientReport;
  fu_settle_sec : N;
  fu_elapsed_ms : N
}.

Section fund.
Context `{Primitives} `{Rlp} `{K256} `{HexCrate}.

(** After the file is read. *)
Definition read_secp_secret_file (raw : text) : res FundError ec_sk :=
  let s := strip_or (trim raw) in
  bytes ← ok_or (hex_decode s) KeyHex;
  arr ← ok_or (arr_of bytes) (KeyLength (len bytes));
  map_err KeyInvalid (secp.SecretKey_from_bytes arr).

Definition cli_parse_hex_u256 (s : text) : res FundError N :=
  let s := strip_or s in
  if bool_decide (s = []) then Ok 0
  else
    let padded_hex := if len s mod 2 =? 0 then s else x30 :: s in
    bytes ← ok_or (hex_decode padded_hex) (BadU256 "bad hex u256");
    _ ← guard_err (32 <? len bytes) (BadU256 "hex u256 exceeds 32 bytes");
    mret (be_value (replicate (32 - length bytes) x00 ++ bytes)).

(** The answers of the node: to [aii_getAccount], before and after what it was sent, to
    [eth_gasPrice], and to [eth_sendRawTransaction]. *)
Context (account_of : list text -> text -> res text (option AccountView)).
Context (gas_price_hex : res text text).
Context (answer : list text -> text -> text + text).

Definition balance_of (view : option AccountView) : res FundError N :=
  match view with Some a => cli_parse_hex_u256 (av_balance a) | None => Ok 0 end.

Fixpoint fund_loop (sk : ec_sk) (chain_id initial_nonce amount_wei gas_price index : N) (sent : list text)
    (recipients : list Address) : list text * res FundError (list FundRecipientReport) :=
  match recipients with
  | [] => (sent, Ok [])
  | recipient :: recipients =>
      match sign_legacy_transfer sk chain_id (wrapping_add u64_mod initial_nonce index) recipient amount_wei gas_price with
      | Ok tx =>
          let raw_hex := hex_bytes (tx_encode tx) in
          let '(hash, error) :=
            match answer sent raw_hex with
            | inl hash => (Some hash, None)
            | inr e => (None, Some (str "hash=" ++ hex_bytes (arr_bytes (tx_hash tx)) ++ str ": " ++ e))
            end in
          let '(sent, r) := fund_loop sk chain_id initial_nonce amount_wei gas_price (index + 1) (sent ++ [raw_hex]) recipients in
          (sent, reports ← r;
                 mret (mkFundRecipient index (hex_bytes (arr_bytes recipient)) (to_radix 10 amount_wei) hash error :: reports))
      | Err e => (sent, Err (FundSigning e))
      | Panic => (sent, Panic)
      end
  end.

(** What is read and checked before anything is sent: the key, the sender's address, its
    nonce and balance, the amount and the price of gas. *)
Definition fund_prepare (key_text : text) (recipients : list Address) (amount_aii : text)
    : res FundError (ec_sk * N * N * N * N) :=
  _ ← guard_err (bool_decide (recipients = [])) (FundAmount NoRecipients);
  amount_wei ← map_err FundAmount (parse_aii_decimal_to_wei amount_aii);
  _ ← guard_err (amount_wei =? 0) (FundAmount ZeroAmount);
  sk ← read_secp_secret_file key_text;
  view ← map_err RpcFailed (account_of [] (hex_bytes (arr_bytes (secp.address (ec_verifying_key sk)))));
  let initial_nonce := match view with Some a => av_nonce a | None => 0 end in
  initial_balance ← balance_of view;
  price_hex ← map_err RpcFailed gas_price_hex;
  gas_price ← cli_parse_hex_u256 price_hex;
  let total_value := saturating_mul u256_mod amount_wei (len recipients) in
  let gas_budget := saturating_mul u256_mod (saturating_mul u256_mod gas_price 21000) (len recipients) in
  let required := saturating_add u256_mod total_value gas_budget in
  _ ← guard_err (initial_balance <? required) (InsufficientBalance initial_balance required);
  mret (sk, initial_nonce, initial_balance, amount_wei, gas_price).

Definition is_some {A} (o : option A) : bool := match o with Some _ => true | None => false end.

(** The texts sent to the node, and the report; [elapsed] is what the clock measures. *)
Definition run_fund_addresses (chain_id : N) (key_text : text) (recipients : list Address) (amount_aii : text)
    (settle_sec elapsed : N) : list text * res FundError FundAddressesReport :=
  match fund_prepare key_text recipients amount_aii with
  | Ok (sk, initial_nonce, initial_balance, amount_wei, gas_price) =>
      let from_hex := hex_bytes (arr_bytes (secp.address (ec_verifying_key sk))) in
      let '(sent, r) := fund_loop sk chain_id initial_nonce amount_wei gas_price 0 [] recipients in
      (sent,
       reports ← r;
       view ← map_err RpcFailed (account_of sent from_hex);
       final_balance ← balance_of view;
       mret (mkFundReport chain_id from_hex initial_nonce (to_radix 10 initial_balance) (to_radix 10 final_balance)
               amount_aii (to_radix 10 amount_wei) (to_radix 10 gas_price) (len recipients)
               (len (filter (fun r => is_some (fu_tx_hash r) = true) reports))
               (len (filter (fun r => is_some (fu_error r) = true) reports)) reports settle_sec elapsed))
  | Err e => ([], Err e)
  | Panic => ([], Panic)
  end.
End fund.

Section fund_facts.
Context `{HP : Primitives} `{R : Rlp} `{U : RlpUint} `{K : K256} `{X : HexCrate}.
Context `{!RlpLaws R} `{!RlpUintLaws R U} `{!K256Laws K}.
Context (account_of : list text -> text -> res text (option AccountView)).
Context (gas_price_hex : res text text).
Context (answer : list text -> text -> text + text).
Context (chain_id : N) (Hchain : chain_id * 2 + 38 < u64_mod).

Lemma parse_hex_u256_lt s n : cli_parse_hex_u256 s = Ok n -> n < u256_mod.
Proof.
  unfold cli_parse_hex_u256. case_bool_decide; [by intros [= <-]|]. intros Hp. inv_ok. subst.
  match goal with H : (32 <? len ?b) = false |- _ => apply N.ltb_ge in H; unfold len in H end.
  match goal with |- be_value ?l < _ => pose proof (be_value_lt l) as Hlt end.
  rewrite length_app, length_replicate in Hlt. eapply N.lt_le_trans; [exact Hlt|].
  change u256_mod with (256 ^ 32). apply N.pow_le_mono_r; lia.
Qed.

Lemma fund_prepare_bounds key_text recipients amount_aii sk nonce balance amount price :
  fund_prepare account_of gas_price_hex key_text recipients amount_aii = Ok (sk, nonce, balance, amount, price) ->
  0 < amount < u128_mod /\ price < u256_mod /\ balance < u256_mod /\
  saturating_add u256_mod (saturating_mul u256_mod amount (len recipients))
    (saturating_mul u256_mod (saturating_mul u256_mod price 21000) (len recipients)) <= balance.
Proof.
  unfold fund_prepare. intros Hp. inv_ok. simplify_eq.
  repeat match goal with
  | H : (_ =? _) = false |- _ => apply N.eqb_neq in H
  | H : (_ <? _) = false |- _ => apply N.ltb_ge in H
  | H : parse_aii_decimal_to_wei _ = Ok _ |- _ => apply parse_amount_iff in H as (? & _ & _ & ? & _)
  | H : cli_parse_hex_u256 _ = Ok _ |- _ => apply parse_hex_u256_lt in H
  | H : balance_of ?v = Ok _ |- _ => destruct v; cbn [balance_of] in H
  | H : Ok 0 = Ok _ |- _ => injection H as <-
  end; split_and!; done || lia.
Qed.

(** The transfer that goes to the [i]-th recipient. *)
Definition is_funding (sk : ec_sk) (nonce amount price : N) (i : nat) (recipient : Address) (raw : text) : Prop :=
  exists t, raw = hex_bytes (tx_encode (TLegacy t)) /\ submitted_tx (tx_encode (TLegacy t)) = Ok (TLegacy t) /\
    (tl_v t <= chain_id * 2 + 36 ->
     recover_signer (TLegacy t) chain_id = Ok (secp.address (ec_verifying_key sk))) /\
    tl_nonce t = wrapping_add u64_mod nonce (N.of_nat i) /\ tl_to t = Some recipient /\ tl_value t = amount /\
    tl_gas_price t = price /\ tl_gas_limit t = 21000 /\ tl_data t = [].

Lemma signed_transfer sk nonce i recipient amount price :
  amount < u256_mod -> price < u256_mod -> exists tx,
  sign_legacy_transfer sk chain_id (wrapping_add u64_mod nonce (N.of_nat i)) recipient amount price = Ok tx /\
  is_funding sk nonce amount price i recipient (hex_bytes (tx_encode tx)).
Proof.
  intros Ha Hp. set (n := wrapping_add u64_mod nonce (N.of_nat i)).
  assert (n < u64_mod) as Hn by (apply N.mod_lt; lia).
  set (hash := legacy_signing_hash_eip155 (unsigned_transfer n price amount recipient) chain_id).
  destruct (secp.sign sk hash) as [sig|e|] eqn:Hs.
  2,3: unfold secp.sign in Hs; destruct (ec_sign_total sk hash) as [[s v] Hv]; rewrite Hv in Hs; done.
  destruct (sign_recover _ _ _ Hs) as (_ & _ & Hrec).
  destruct (sign_legacy_transfer_Ok sk chain_id n recipient amount price sig ltac:(lia) Hs) as (r & s & -> & Hrs).
  eexists. split; [done|]. eexists. split; [done|]. split; [apply submitted_legacy, legacy_wf_small; done || (cbn; lia)|].
  split; [|done]. cbn [recover_signer tl_v]. intros Hv. rewrite (recover_legacy_eip155 _ chain_id (secp.recovery_id sig)) by (done || lia).
  rewrite N.eqb_refl. cbn [tl_r tl_s]. by apply (recover_signed sk).
Qed.

Lemma fund_loop_spec sk nonce amount price recipients : forall i sent,
  amount < u256_mod -> price < u256_mod ->
  exists new reports, fund_loop answer sk chain_id nonce amount price (N.of_nat i) sent recipients = (sent ++ new, Ok reports) /\
    length new = length recipients /\ length reports = length recipients /\
    forall j recipient raw, recipients !! j = Some recipient -> new !! j = Some raw ->
      is_funding sk nonce amount price (i + j) recipient raw.
Proof.
  induction recipients as [|x l IH]; intros i sent Ha Hp; cbn [fund_loop].
  { exists [], []. by rewrite app_nil_r. }
  destruct (signed_transfer sk nonce i x amount price Ha Hp) as (tx & -> & Htx).
  destruct (match answer sent (hex_bytes (tx_encode tx)) with inl _ => _ | inr _ => _ end) as [hash error].
  destruct (IH (S i) (sent ++ [hex_bytes (tx_encode tx)]) Ha Hp) as (new & reports & Hl & Hn & Hr & Hall).
  replace (N.of_nat i + 1) with (N.of_nat (S i)) by lia. rewrite Hl. cbn [mbind res_bind].
  eexists (_ :: new), _. rewrite <-app_assoc. cbn [app]. split; [done|]. cbn [length]. split_and!; [lia|by f_equal|].
  intros [|j] recipient raw Hj Hraw; cbn in Hj, Hraw; simplify_eq.
  - by rewrite Nat.add_0_r.
  - rewrite Nat.add_succ_r. by apply Hall.
Qed.

(** C40. A funding run that passes its checks sends one transfer to each recipient, in order,
    that the node decodes, with the amount asked for and consecutive nonces from the
    account's own; the signer that the node recovers is the funding account, unless [k256]
    returned one of the recovery ids 2 and 3 (then [v] exceeds twice the chain id plus 36);
    and the balance it has read pays for all of them, their gas included, unless the sum
    itself does not fit 256 bits.  Twice the chain id plus 38 fits in 64 bits. *)
Theorem funding_is_covered key_text recipients amount_aii settle elapsed sk nonce balance amount price :
  fund_prepare account_of gas_price_hex key_text recipients amount_aii = Ok (sk, nonce, balance, amount, price) ->
  (amount * len recipients + price * 21000 * len recipients < u256_mod ->
   amount * len recipients + price * 21000 * len recipients <= balance) /\
  let '(sent, r) := run_fund_addresses account_of gas_price_hex answer chain_id key_text recipients amount_aii settle elapsed in
  length sent = length recipients /\
  forall j recipient raw, recipients !! j = Some recipient -> sent !! j = Some raw ->
    is_funding sk nonce amount price j recipient raw.
Proof.
  intros Hp. destruct (fund_prepare_bounds _ _ _ _ _ _ _ _ Hp) as (Ha & Hpr & Hb & Hcov). split.
  - intros Hsmall. destruct (N.eq_dec (len recipients) 0) as [Hz|Hz]; [rewrite Hz in *; lia|].
    assert (price * 21000 <= price * 21000 * len recipients) by nia.
    rewrite (saturating_mul_small _ price), !saturating_mul_small, saturating_add_small in Hcov by lia. done.
  - unfold run_fund_addresses. rewrite Hp.
    destruct (fund_loop_spec sk nonce amount price recipients 0 []) as (new & reports & Hl & Hn & _ & Hall); [lia|done|].
    cbn [app] in Hl. change (N.of_nat 0) with 0 in Hl. rewrite Hl. split; [done|]. exact Hall.
Qed.
End fund_facts.

(** ** The commands on concrete input *)
Module FundingDemo.
Export CliDemo.

Definition alice : Address := be_array 20 1.
Definition bob : Address := be_array 20 2.

Lemma keys_differ : @state_key prims alice <> @state_key prims bob.
Proof. apply (bool_decide_eq_false_1 _). vm_compute. reflexivity. Qed.

Lemma keys_inj x y : x ∈ [alice; bob; alice] -> y ∈ [alice; bob; alice] -> @state_key prims x = @state_key prims y -> x = y.
Proof.
  intros Hx Hy Hk. pose proof keys_differ as Hne.
  assert (forall z, z ∈ [alice; bob; alice] -> z = alice \/ z = bob) as Hz.
  { intros z [->|[->|[->|[]%not_elem_of_nil]%elem_of_cons]%elem_of_cons]%elem_of_cons; auto. }
  destruct (Hz x Hx) as [-> | ->], (Hz y Hy) as [-> | ->]; congruence.
Qed.
End FundingDemo.
Import FundingDemo.

(** 1.5 AII twice to one account, once to another. *)
Lemma state_credit_exact_witness :
  exists b' report, run_state_credit (B := MemoryBackend) (str "data") [alice; bob; alice] (str " 1.5") MemoryBackend_new = (b', Ok report) /\
    account alice b' = Ok (Some (mkAccount 0 3000000000000000000 EMPTY_TRIE_HASH EMPTY_CODE_HASH)).
Proof.
  destruct (state_credit_exact (H := Toy.prims) (RlpLaws0 := ToyRlp.rlp_laws) (RlpUintLaws0 := ToyUint.laws) (HL := memory_laws)
    (str "data") [alice; bob; alice] (str " 1.5") 1500000000000000000 MemoryBackend_new MemoryBackend_new_ok)
    as (b' & report & Hrun & _ & _ & Ha).
  - intros x _. exists None. split; [|split; reflexivity]. reflexivity.
  - discriminate.
  - exists (str "1"). split; [discriminate|]. split; [apply digits_iff; reflexivity|]. split; [reflexivity|]. right.
    exists (str "5"). split; [apply digits_iff; reflexivity|]. split; [apply Nat.leb_le; reflexivity|]. split; reflexivity.
  - reflexivity.
  - exact keys_inj.
  - exists b', report. split; [exact Hrun|]. rewrite Ha.
    + reflexivity.
    + intros x Hx Hk. apply keys_inj; [exact Hx|apply elem_of_cons; left; reflexivity|exact Hk].
Defined.

(** The funding account holds 10 AII; the node refuses the first transfer. *)
Definition key_file : text := hex_bytes (arr_bytes sk) ++ [x0a].
Definition view (_ : list text) (_ : text) : res text (option AccountView) :=
  Ok (Some (mkAccountView 3 (hex_bytes (be_bytes 32 10000000000000000000)) [] [])).
Definition price_hex : res text text := Ok (str "0x3b9aca00").
Definition funder : ec_sk := match read_secp_secret_file key_file with Ok k => k | _ => sk end.

Lemma funding_is_covered_witness :
  exists raws, (run_fund_addresses view price_hex parent 9999 key_file [alice; bob] (str "1.5") 0 0).1 = raws /\
    length raws = 2%nat /\ 3000000000000000000 + 42000000000000 <= 10000000000000000000.
Proof.
  assert (fund_prepare view price_hex key_file [alice; bob] (str "1.5") =
    Ok (funder, 3, 10000000000000000000, 1500000000000000000, 1000000000)) as Hp by (vm_compute; reflexivity).
  pose proof (funding_is_covered (RlpLaws0 := ToyRlp.rlp_laws) (RlpUintLaws0 := ToyUint.laws) (K256Laws0 := ToySecp.laws)
    view price_hex parent 9999 eq_refl key_file [alice; bob] (str "1.5") 0 0 _ _ _ _ _ Hp) as [Hc Hw].
  destruct (run_fund_addresses view price_hex parent 9999 key_file [alice; bob] (str "1.5") 0 0) as [sent r].
  destruct Hw as [Hl _]. exists sent. split; [reflexivity|]. split; [exact Hl|]. exact (Hc eq_refl).
Defined.
