(* ===== verification/Wallet.v ===== *)
(** * Wallet: local signing keys, encrypted keystores, mnemonics

    Models [src/crates/aii-wallet] ([wallet.rs], [keystore.rs], [mnemonic.rs]) and the account
    commands of [src/crates/aii-cli/src/lib.rs].  scrypt, the stream cipher, BIP-39, BIP-32 and
    the JSON text are third-party: the class [WalletCrates] with its laws.  Random bytes and
    identifiers are arguments. *)
From stdpp Require Import base tactics gmap numbers sets strings list.
From Stdlib Require Import NArith Lia.
From Stdlib.Init Require Import Byte.
From S2P Require Import Prelude Bytes Crypto Secp.

Record ScryptParams := mkScrypt { sp_n : N; sp_r : N; sp_p : N }.

Definition light : ScryptParams := mkScrypt 4096 8 6.
Definition geth_default : ScryptParams := mkScrypt 262144 8 1.

Record KdfParams := mkKdf { dklen : N; kp_salt : text; kp_n : N; kp_r : N; kp_p : N }.
Record CipherParams := mkCipherParams { cp_iv : text }.

Record CryptoBlock := mkCrypto {
  ciphertext : text;
  cipherparams : CipherParams;
  cipher : text;
  kdf : text;
  kdfparams : KdfParams;
  mac : text
}.

(** The ids are [Uuid]s. *)
Record EncryptedKeystore := mkKeystore { ks_version : N; ks_id : array 16; ks_address : text; ks_crypto : CryptoBlock }.
Record EncryptedBytes := mkEncrypted { eb_version : N; eb_id : array 16; eb_label : text; eb_crypto : CryptoBlock }.

(** The numbers of a keystore are 32-bit words. *)
Definition params_wf (p : ScryptParams) : Prop := sp_n p < u32_mod /\ sp_r p < u32_mod /\ sp_p p < u32_mod.

Definition keystore_wf (k : EncryptedKeystore) : Prop :=
  let p := kdfparams (ks_crypto k) in
  ks_version k < u32_mod /\ dklen p < u32_mod /\ params_wf (mkScrypt (kp_n p) (kp_r p) (kp_p p)).

Inductive KeystoreError :=
| UnsupportedVersion (v : N)
| UnsupportedCipher (c : text)
| UnsupportedKdf (k : text)
| InvalidScryptN (n : N)
| ScryptError (msg : text)
| BadMac
| BadIvLength (n : N)
| BadCiphertextLength (n : N)
| BadAddressLength (n : N)
| KeystoreHex
| WalletConstruct (e : CryptoError)
| KeystoreJson (msg : text).

Inductive MnemonicError :=
| Bip39Error (msg : text)
| BadWordCount (n : N)
| InvalidPhrase (msg : text)
| Bip32Error (msg : text)
| MnemonicWallet (e : CryptoError).

(** [CliError::Client] with the message of the error. *)
Inductive AccountError :=
| NoValidScalar
| AccountKeystore (e : KeystoreError)
| AccountMnemonic (e : MnemonicError).

Class WalletCrates `{K256} := {
  ec_secret_bytes : ec_sk -> array 32;
  scrypt_params : Type;
  (** [scrypt::Params::new] of log2 n, r, p and the length *)
  scrypt_params_new : N -> N -> N -> N -> text + scrypt_params;
  scrypt : bytes -> bytes -> scrypt_params -> text + array 32;
  (** AES-128 in counter mode: key, counter block, text *)
  aes_ctr : bytes -> bytes -> bytes -> bytes;
  keystore_to_json : EncryptedKeystore -> text;
  keystore_of_json : text -> text + EncryptedKeystore;
  bip39_mnemonic : Type;
  bip39_from_entropy : bytes -> text + bip39_mnemonic;
  bip39_parse : text -> text + bip39_mnemonic;
  bip39_phrase : bip39_mnemonic -> text;
  bip39_word_count : bip39_mnemonic -> N;
  bip39_to_seed : bip39_mnemonic -> text -> array 64;
  bip32_path : Type;
  bip32_parse_path : text -> text + bip32_path;
  bip32_derive : array 64 -> bip32_path -> text + array 32
}.

(** Documented behaviour: the cipher is its own inverse, records read back from their text,
    an entropy of a standard length is a phrase of three words for every four bytes. *)
Class WalletLaws `{WalletCrates} : Prop := {
  ec_secret_roundtrip : forall b sk, ec_sk_from_bytes b = Some sk -> ec_secret_bytes sk = b;
  aes_ctr_involutive : forall k iv b, aes_ctr k iv (aes_ctr k iv b) = b;
  aes_ctr_length : forall k iv b, length (aes_ctr k iv b) = length b;
  keystore_json_roundtrip : forall k, keystore_wf k -> keystore_of_json (keystore_to_json k) = inr k;
  bip39_phrase_parse : forall m, bip39_parse (bip39_phrase m) = inr m;
  bip39_entropy_words : forall e, len e ∈ [16; 20; 24; 28; 32] ->
    exists m, bip39_from_entropy e = inr m /\ bip39_word_count m = len e * 3 / 4
}.

(** [u32::trailing_zeros] and the like: [w] for zero. *)
Fixpoint trailing_zeros (w : nat) (n : N) : N :=
  match w with
  | O => 0
  | S w => if N.odd n then 0 else N.succ (trailing_zeros w (N.div2 n))
  end.

Definition of_sum {E E' A} (f : E -> E') (s : E + A) : res E' A :=
  match s with inl e => Err (f e) | inr a => Ok a end.

Section wallet.
Context `{Primitives} `{HexCrate} `{WalletCrates}.

(** ** [wallet.rs] *)
Record LocalWallet := mkWallet { lw_secret : ec_sk; lw_address : Address }.

Definition from_secret_bytes (b : array 32) : res CryptoError LocalWallet :=
  secret ← secp.SecretKey_from_bytes b;
  mret (mkWallet secret (secp.address (ec_verifying_key secret))).

Definition secret_bytes (self : LocalWallet) : array 32 := ec_secret_bytes (lw_secret self).

Definition sign_message_hash (self : LocalWallet) (message_hash : H256) : res CryptoError secp.Signature :=
  secp.sign (lw_secret self) message_hash.

(** ** [keystore.rs] *)
(** The shift is by the count modulo 32. *)
Definition derive_key (password : text) (salt : bytes) (params : ScryptParams) : res KeystoreError (array 32) :=
  let log_n := trailing_zeros 32 (sp_n params) in
  _ ← guard_err (255 <? log_n) (InvalidScryptN (sp_n params));
  _ ← guard_err (negb (N.shiftl 1 (log_n mod 32) mod u32_mod =? sp_n params)) (InvalidScryptN (sp_n params));
  scrypt_params ← of_sum ScryptError (scrypt_params_new log_n (sp_r params) (sp_p params) 32);
  of_sum ScryptError (scrypt password salt scrypt_params).

(** The first half of the derived key enciphers, the second authenticates the ciphertext. *)
Definition cipher_key (derived : array 32) : bytes := take 16 (arr_bytes derived).
Definition keystore_mac (derived : array 32) (ct : bytes) : H256 := keccak256 (drop 16 (arr_bytes derived) ++ ct).

Definition crypto_block (derived : array 32) (ct : bytes) (salt : array 32) (iv : array 16) (params : ScryptParams) : CryptoBlock :=
  mkCrypto (hex_encode ct) (mkCipherParams (hex_encode (arr_bytes iv))) (str "aes-128-ctr") (str "scrypt")
    (mkKdf 32 (hex_encode (arr_bytes salt)) (sp_n params) (sp_r params) (sp_p params))
    (hex_encode (arr_bytes (keystore_mac derived ct))).

Definition EncryptedKeystore_encrypt (salt : array 32) (iv : array 16) (id : array 16)
    (wallet : LocalWallet) (password : text) (params : ScryptParams) : res KeystoreError EncryptedKeystore :=
  derived ← derive_key password (arr_bytes salt) params;
  let secret := aes_ctr (cipher_key derived) (arr_bytes iv) (arr_bytes (secret_bytes wallet)) in
  mret (mkKeystore 3 id (hex_encode (arr_bytes (lw_address wallet))) (crypto_block derived secret salt iv params)).

(** The checks on the names, then the decoding of the four fields: salt, iv, ciphertext, mac. *)
Definition crypto_fields (version expected : N) (c : CryptoBlock) : res KeystoreError (bytes * bytes * bytes * bytes) :=
  _ ← guard_err (negb (version =? expected)) (UnsupportedVersion version);
  _ ← guard_err (negb (bool_decide (cipher c = str "aes-128-ctr"))) (UnsupportedCipher (cipher c));
  _ ← guard_err (negb (bool_decide (kdf c = str "scrypt"))) (UnsupportedKdf (kdf c));
  salt ← ok_or (hex_decode (kp_salt (kdfparams c))) KeystoreHex;
  iv ← ok_or (hex_decode (cp_iv (cipherparams c))) KeystoreHex;
  ct ← ok_or (hex_decode (ciphertext c)) KeystoreHex;
  expected_mac ← ok_or (hex_decode (mac c)) KeystoreHex;
  _ ← guard_err (negb (len iv =? 16)) (BadIvLength (len iv));
  mret (salt, iv, ct, expected_mac).

(** The key, the check of the mac, the deciphered text. *)
Definition open_block (password : text) (salt iv ct expected_mac : bytes) (params : ScryptParams) : res KeystoreError bytes :=
  derived ← derive_key password salt params;
  _ ← guard_err (negb (bool_decide (arr_bytes (keystore_mac derived ct) = expected_mac))) BadMac;
  mret (aes_ctr (cipher_key derived) iv ct).

Definition block_params (c : CryptoBlock) : ScryptParams := mkScrypt (kp_n (kdfparams c)) (kp_r (kdfparams c)) (kp_p (kdfparams c)).

Definition EncryptedKeystore_decrypt (self : EncryptedKeystore) (password : text) : res KeystoreError LocalWallet :=
  '(salt, iv, ct, expected_mac) ← crypto_fields (ks_version self) 3 (ks_crypto self);
  _ ← guard_err (negb (len ct =? 32)) (BadCiphertextLength (len ct));
  plain ← open_block password salt iv ct expected_mac (block_params (ks_crypto self));
  secret ← expect (arr_of plain);
  map_err WalletConstruct (from_secret_bytes secret).

Definition parsed_address (self : EncryptedKeystore) : res KeystoreError Address :=
  b ← ok_or (hex_decode (ks_address self)) KeystoreHex;
  ok_or (arr_of b) (BadAddressLength (len b)).

Definition EncryptedBytes_encrypt (salt : array 32) (iv : array 16) (id : array 16)
    (payload : bytes) (password : text) (params : ScryptParams) (label : text) : res KeystoreError EncryptedBytes :=
  derived ← derive_key password (arr_bytes salt) params;
  let ct := aes_ctr (cipher_key derived) (arr_bytes iv) payload in
  mret (mkEncrypted 1 id label (crypto_block derived ct salt iv params)).

Definition EncryptedBytes_decrypt (self : EncryptedBytes) (password : text) : res KeystoreError bytes :=
  '(salt, iv, ct, expected_mac) ← crypto_fields (eb_version self) 1 (eb_crypto self);
  open_block password salt iv ct expected_mac (block_params (eb_crypto self)).

(** ** [mnemonic.rs] *)
Definition ETH_BIP44_PREFIX : text := str "m/44'/60'/0'/0".

Definition entropy_bytes (word_count : N) : res MnemonicError N :=
  if word_count =? 12 then Ok 16
  else if word_count =? 15 then Ok 20
  else if word_count =? 18 then Ok 24
  else if word_count =? 21 then Ok 28
  else if word_count =? 24 then Ok 32
  else Err (BadWordCount word_count).

(** The generator fills a buffer of the length that it is asked for. *)
Definition generate (rng : N -> bytes) (word_count : N) : res MnemonicError bip39_mnemonic :=
  n ← entropy_bytes word_count;
  of_sum Bip39Error (bip39_from_entropy (rng n)).

Definition from_phrase (phrase : text) : res MnemonicError bip39_mnemonic := of_sum InvalidPhrase (bip39_parse phrase).

Definition derive_from_seed (seed : array 64) (index : N) : res MnemonicError LocalWallet :=
  path ← of_sum Bip32Error (bip32_parse_path (ETH_BIP44_PREFIX ++ str "/" ++ to_radix 10 index));
  secret ← of_sum Bip32Error (bip32_derive seed path);
  map_err MnemonicWallet (from_secret_bytes secret).

Definition to_wallet (self : bip39_mnemonic) (passphrase : text) (index : N) : res MnemonicError LocalWallet :=
  derive_from_seed (bip39_to_seed self passphrase) index.

(** ** The account commands *)
(** At most sixteen tries. *)
Fixpoint first_wallet (tries : nat) (rng : nat -> array 32) : option LocalWallet :=
  match tries with
  | O => None
  | S tries => match from_secret_bytes (rng O) with Ok w => Some w | _ => first_wallet tries (fun i => rng (S i)) end
  end.

Definition run_account_new (rng : nat -> array 32) : res AccountError Address :=
  w ← ok_or (first_wallet 16 rng) NoValidScalar;
  mret (lw_address w).

Definition run_account_new_encrypted (rng : nat -> array 32) (salt : array 32) (iv : array 16) (id : array 16)
    (password : text) : res AccountError text :=
  w ← ok_or (first_wallet 16 rng) NoValidScalar;
  ks ← map_err AccountKeystore (EncryptedKeystore_encrypt salt iv id w password light);
  mret (keystore_to_json ks).

Definition run_account_verify (keystore_json password : text) : res AccountError Address :=
  ks ← of_sum (fun e => AccountKeystore (KeystoreJson e)) (keystore_of_json keystore_json);
  w ← map_err AccountKeystore (EncryptedKeystore_decrypt ks password);
  mret (lw_address w).

Record MnemonicReport := mkMnemonicReport { mr_phrase : text; mr_word_count : N; mr_address : text }.

Definition run_account_mnemonic (rng : N -> bytes) (word_count : N) : res AccountError MnemonicReport :=
  m ← map_err AccountMnemonic (generate rng word_count);
  w ← map_err AccountMnemonic (to_wallet m [] 0);
  mret (mkMnemonicReport (bip39_phrase m) (bip39_word_count m) (str "0x" ++ hex_encode (arr_bytes (lw_address w)))).

Definition run_account_from_mnemonic (phrase passphrase : text) (index : N) : res AccountError Address :=
  m ← map_err AccountMnemonic (from_phrase phrase);
  w ← map_err AccountMnemonic (to_wallet m passphrase index);
  mret (lw_address w).
End wallet.

(** ** The cost parameter *)
Lemma trailing_zeros_pow w k : (N.to_nat k < w)%nat -> trailing_zeros w (2 ^ k) = k.
Proof.
  revert k. induction w as [|w IH]; intros k Hk; [lia|]. cbn [trailing_zeros].
  destruct (N.eq_dec k 0) as [->|Hz]; [done|]. destruct (N.zero_or_succ k) as [?|[j ->]]; [done|].
  assert (N.odd (2 ^ N.succ j) = false) as ->.
  { rewrite N.pow_succ_r', N.odd_mul. done. }
  rewrite N.div2_div, N.pow_succ_r', N.mul_comm, N.div_mul by done. rewrite IH by lia. done.
Qed.

Section facts.
Context `{Primitives} `{HC : HexCrate} `{!HexLaws HC} `{K : K256} {W : WalletCrates} {WL : WalletLaws}.

(** Exactly the powers of two are accepted, and their logarithm goes to scrypt. *)
Lemma derive_key_pow password salt k r p :
  k < 32 ->
  derive_key password salt (mkScrypt (2 ^ k) r p) =
    sp ← of_sum ScryptError (scrypt_params_new k r p 32); of_sum ScryptError (scrypt password salt sp).
Proof.
  intros Hk. unfold derive_key. cbn [sp_n sp_r sp_p]. rewrite trailing_zeros_pow by lia.
  rewrite (proj2 (N.ltb_ge _ _)) by lia. cbn [guard_err mbind res_bind].
  rewrite (N.mod_small k 32), N.shiftl_1_l by lia. rewrite N.mod_small.
  - by rewrite N.eqb_refl.
  - change u32_mod with (2 ^ 32). apply N.pow_lt_mono_r; lia.
Qed.

Lemma derive_key_not_pow password salt n r p :
  (forall k, k < 32 -> n <> 2 ^ k) -> exists m, derive_key password salt (mkScrypt n r p) = Err (InvalidScryptN m).
Proof.
  intros Hn. unfold derive_key. cbn [sp_n]. destruct (255 <? _) eqn:E; [by eexists|]. cbn [guard_err mbind res_bind].
  assert (N.shiftl 1 (trailing_zeros 32 n mod 32) mod u32_mod <> n) as Hne.
  { pose proof (N.mod_lt (trailing_zeros 32 n) 32 ltac:(done)). rewrite N.shiftl_1_l, N.mod_small.
    - intros He. by eapply Hn.
    - change u32_mod with (2 ^ 32). apply N.pow_lt_mono_r; lia. }
  apply N.eqb_neq in Hne. rewrite Hne. by eexists.
Qed.

(** ** A wallet is its secret *)
Lemma from_secret_bytes_Ok b w :
  from_secret_bytes b = Ok w -> secret_bytes w = b /\ lw_address w = secp.address (ec_verifying_key (lw_secret w)).
Proof.
  unfold from_secret_bytes, secp.SecretKey_from_bytes. destruct (ec_sk_from_bytes b) as [sk|] eqn:E; [|done].
  intros [= <-]. unfold secret_bytes. cbn. by rewrite (ec_secret_roundtrip b sk E).
Qed.

Lemma first_wallet_Some tries rng w : first_wallet tries rng = Some w -> exists b, from_secret_bytes b = Ok w.
Proof.
  revert rng. induction tries as [|tries IH]; intros rng; [done|]. cbn.
  destruct (from_secret_bytes (rng O)) as [w'|e|] eqn:E; [|apply IH..]. intros [= ->]. by eexists.
Qed.

(** ** Sealed blocks *)
Lemma crypto_fields_block v derived ct salt iv params :
  crypto_fields v v (crypto_block derived ct salt iv params) =
    Ok (arr_bytes salt, arr_bytes iv, ct, arr_bytes (keystore_mac derived ct)).
Proof.
  unfold crypto_fields, crypto_block. rewrite N.eqb_refl. cbn [negb guard_err mbind res_bind cipher kdf kdfparams cipherparams kp_salt cp_iv ciphertext mac].
  rewrite !bool_decide_eq_true_2 by done. cbn [negb guard_err mbind res_bind]. rewrite !hex_roundtrip. cbn [ok_or mbind res_bind].
  unfold len. rewrite arr_length. done.
Qed.

Lemma block_params_block derived ct salt iv params : block_params (crypto_block derived ct salt iv params) = params.
Proof. by destruct params. Qed.

Lemma open_block_seal password salt iv plain params derived :
  derive_key password salt params = Ok derived ->
  let ct := aes_ctr (cipher_key derived) iv plain in
  open_block password salt iv ct (arr_bytes (keystore_mac derived ct)) params = Ok plain.
Proof.
  intros Hd ct. unfold open_block. rewrite Hd. cbn [mbind res_bind]. rewrite bool_decide_eq_true_2 by done.
  cbn. unfold ct. by rewrite aes_ctr_involutive.
Qed.

(** Whatever opens a block has its mac. *)
Lemma open_block_Ok password salt iv ct m params plain :
  open_block password salt iv ct m params = Ok plain ->
  exists derived, derive_key password salt params = Ok derived /\ arr_bytes (keystore_mac derived ct) = m.
Proof.
  unfold open_block. destruct (derive_key password salt params) as [derived|e|] eqn:E; [|done..]. cbn [mbind res_bind].
  case_bool_decide as Hm; [|done]. intros _. eauto.
Qed.

(** ** Keystores *)
Lemma keystore_decrypts salt iv id w password params derived :
  (exists b, from_secret_bytes b = Ok w) -> derive_key password (arr_bytes salt) params = Ok derived ->
  exists ks, EncryptedKeystore_encrypt salt iv id w password params = Ok ks /\
    (params_wf params -> keystore_wf ks) /\ parsed_address ks = Ok (lw_address w) /\
    EncryptedKeystore_decrypt ks password = Ok w /\
    forall other w', EncryptedKeystore_decrypt ks other = Ok w' ->
      exists derived', derive_key other (arr_bytes salt) params = Ok derived' /\
        let ct := aes_ctr (cipher_key derived) (arr_bytes iv) (arr_bytes (secret_bytes w)) in
        keystore_mac derived' ct = keystore_mac derived ct.
Proof.
  intros [b Hw] Hd. unfold EncryptedKeystore_encrypt. rewrite Hd. cbn [mbind res_bind]. eexists. split; [done|].
  destruct (from_secret_bytes_Ok _ _ Hw) as [Hs _].
  split; [by intros (?&?&?)|].
  split; [unfold parsed_address; cbn; rewrite hex_roundtrip; cbn; by rewrite arr_of_arr_bytes|].
  unfold EncryptedKeystore_decrypt. cbn [ks_version ks_crypto]. rewrite crypto_fields_block. cbn [mbind res_bind].
  unfold len. rewrite aes_ctr_length, arr_length, block_params_block. change (negb (N.of_nat 32 =? 32)) with false. cbn [guard_err mbind res_bind].
  split.
  - rewrite open_block_seal by done. cbn [mbind res_bind]. rewrite arr_of_arr_bytes, Hs. cbn [expect mbind res_bind]. by rewrite Hw.
  - intros other w'. destruct (open_block _ _ _ _ _ _) as [plain|e|] eqn:E; [|done..]. intros _.
    apply open_block_Ok in E as (derived' & Hd' & Hm). exists derived'. split; [done|]. by apply arr_ext.
Qed.

(** An encrypted payload of any length comes back. *)
Lemma encrypted_bytes_roundtrip salt iv id payload password params label derived :
  derive_key password (arr_bytes salt) params = Ok derived ->
  exists eb, EncryptedBytes_encrypt salt iv id payload password params label = Ok eb /\
    EncryptedBytes_decrypt eb password = Ok payload.
Proof.
  intros Hd. unfold EncryptedBytes_encrypt. rewrite Hd. cbn [mbind res_bind]. eexists. split; [done|].
  unfold EncryptedBytes_decrypt. cbn [eb_version eb_crypto]. rewrite crypto_fields_block. cbn [mbind res_bind].
  by rewrite block_params_block, open_block_seal.
Qed.

(** C38. An account that the command line makes under a password from which scrypt derives a
    key: the keystore's text reads back as a record whose address field is the address of the
    first valid secret; it opens with that password to the account of that secret; and with
    another password only if scrypt derives a key from it whose mac is the same. *)
Theorem account_keystore_opens rng salt iv id password w derived :
  first_wallet 16 rng = Some w -> derive_key password (arr_bytes salt) light = Ok derived ->
  run_account_new rng = Ok (lw_address w) /\
  exists json, run_account_new_encrypted rng salt iv id password = Ok json /\
    (exists ks, keystore_of_json json = inr ks /\ parsed_address ks = Ok (lw_address w) /\
       EncryptedKeystore_decrypt ks password = Ok w) /\
    run_account_verify json password = Ok (lw_address w) /\
    forall other a, run_account_verify json other = Ok a ->
      exists derived', derive_key other (arr_bytes salt) light = Ok derived' /\
        let ct := aes_ctr (cipher_key derived) (arr_bytes iv) (arr_bytes (secret_bytes w)) in
        keystore_mac derived' ct = keystore_mac derived ct.
Proof.
  intros Hf Hd. unfold run_account_new. rewrite Hf. split; [done|].
  destruct (keystore_decrypts salt iv id w password light derived (first_wallet_Some _ _ _ Hf) Hd) as (ks & He & Hwf & Haddr & Hdec & Hother).
  specialize (Hwf ltac:(done)).
  exists (keystore_to_json ks). unfold run_account_new_encrypted. rewrite Hf. cbn [ok_or mbind res_bind]. rewrite He.
  split; [done|]. unfold run_account_verify. rewrite keystore_json_roundtrip by done. split; [by exists ks|]. cbn [of_sum mbind res_bind]. rewrite Hdec.
  split; [done|]. intros other a. destruct (EncryptedKeystore_decrypt ks other) as [w'|e|] eqn:E; [|done..]. intros _. by eapply Hother.
Qed.

(** The mac covers neither the address nor the counter block: with another address the
    keystore opens as before, and with another counter block it opens to another secret. *)
Lemma keystore_address_unchecked v id a a' c password :
  EncryptedKeystore_decrypt (mkKeystore v id a c) password = EncryptedKeystore_decrypt (mkKeystore v id a' c) password.
Proof. done. Qed.

Lemma keystore_iv_unchecked salt (iv iv' : array 16) id w password params derived address :
  derive_key password (arr_bytes salt) params = Ok derived ->
  let ct := aes_ctr (cipher_key derived) (arr_bytes iv) (arr_bytes (secret_bytes w)) in
  let c := crypto_block derived ct salt iv params in
  EncryptedKeystore_decrypt
    (mkKeystore 3 id address (mkCrypto (ciphertext c) (mkCipherParams (hex_encode (arr_bytes iv'))) (cipher c) (kdf c) (kdfparams c) (mac c))) password =
  secret ← expect (arr_of (aes_ctr (cipher_key derived) (arr_bytes iv') ct)); map_err WalletConstruct (from_secret_bytes secret).
Proof.
  intros Hd ct c. unfold EncryptedKeystore_decrypt. cbn [ks_version ks_crypto].
  change (mkCrypto _ _ _ _ _ _) with (crypto_block derived ct salt iv' params). rewrite crypto_fields_block. cbn [mbind res_bind].
  assert (len ct = 32) as ->. { unfold ct, len. by rewrite aes_ctr_length, arr_length. }
  cbn [N.eqb Pos.eqb negb guard_err mbind res_bind]. rewrite block_params_block. unfold open_block. rewrite Hd. cbn [mbind res_bind].
  by rewrite bool_decide_eq_true_2.
Qed.

(** ** Phrases *)
Lemma entropy_bytes_Ok word_count n : entropy_bytes word_count = Ok n -> n ∈ [16; 20; 24; 28; 32] /\ n * 3 / 4 = word_count.
Proof.
  unfold entropy_bytes.
  repeat (match goal with |- context [if word_count =? ?k then _ else _] => destruct (N.eqb_spec word_count k) as [->|?] end;
    [intros [= <-]; split; [set_solver|done]|]). done.
Qed.

(** A phrase that the command line makes has the words asked for, and gives the account it
    was reported with; a word count that BIP-39 does not have is refused. *)
Theorem mnemonic_rederives rng word_count :
  (forall n, len (rng n) = n) ->
  match run_account_mnemonic rng word_count with
  | Ok r => mr_word_count r = word_count /\ word_count ∈ [12; 15; 18; 21; 24] /\
      exists a, run_account_from_mnemonic (mr_phrase r) [] 0 = Ok a /\ mr_address r = str "0x" ++ hex_encode (arr_bytes a)
  | Err (AccountMnemonic (BadWordCount n)) => n = word_count /\ word_count ∉ [12; 15; 18; 21; 24]
  | Err (AccountMnemonic (Bip39Error _)) => False
  | Err _ => word_count ∈ [12; 15; 18; 21; 24]
  | Panic => False
  end.
Proof.
  intros Hrng. unfold run_account_mnemonic, generate. destruct (entropy_bytes word_count) as [n|e|] eqn:E.
  - apply entropy_bytes_Ok in E as [Hn Hw]. cbn [mbind res_bind].
    destruct (bip39_entropy_words (rng n)) as (m & Hm & Hc); [by rewrite Hrng|]. rewrite Hm, Hrng, Hw in *. cbn [of_sum map_err mbind res_bind].
    assert (word_count ∈ [12; 15; 18; 21; 24]) as Hin.
    { subst word_count. revert Hn. clear. rewrite !elem_of_cons, !elem_of_nil. intros Hn. destruct_or! Hn; subst n; cbn; tauto. }
    unfold run_account_from_mnemonic, from_phrase.
    assert (forall r, to_wallet m [] 0 = r -> match r with Err (Bip39Error _) | Err (BadWordCount _) | Panic => False | _ => True end) as Hno.
    { intros r <-. unfold to_wallet, derive_from_seed. destruct (bip32_parse_path _); [done|]. cbn [of_sum mbind res_bind].
      destruct (bip32_derive _ _); [done|]. cbn [of_sum mbind res_bind]. unfold from_secret_bytes, secp.SecretKey_from_bytes.
      by destruct (ec_sk_from_bytes _). }
    specialize (Hno _ eq_refl).
    destruct (to_wallet m [] 0) as [w|e|] eqn:Ew; cbn [map_err mbind res_bind]; [|by destruct e|done].
    cbn. rewrite bip39_phrase_parse. cbn. rewrite Ew. cbn. split_and!; [done..|]. eauto.
  - unfold entropy_bytes in E. cbn [mbind res_bind map_err].
    repeat (match type of E with context [if word_count =? ?k then _ else _] => destruct (N.eqb_spec word_count k) end; [done|]).
    injection E as <-. split; [done|]. set_solver.
  - unfold entropy_bytes in E. repeat (destruct (_ =? _) in E; [done|]). done.
Qed.
End facts.

(** ** A toy of the crates *)
Module WalletDemo.
Export ToySecp ToyHex Toy.

(** The fields one after the other, each length and number in unary. *)
Fixpoint get_unary (s : text) : nat * text :=
  match s with
  | x01 :: s => let '(n, s) := get_unary s in (S n, s)
  | _ :: s => (O, s)
  | [] => (O, [])
  end.
Definition put_unary (n : nat) (s : text) : text := repeat x01 n ++ x00 :: s.
Definition put_text (t s : text) : text := put_unary (length t) (t ++ s).
Definition get_text (s : text) : text * text := let '(n, s) := get_unary s in (take n s, drop n s).
Definition put_N (n : N) : text -> text := put_unary (N.to_nat n).
Definition get_N (s : text) : N * text := let '(n, s) := get_unary s in (N.of_nat n, s).

Lemma get_put_unary n s : get_unary (put_unary n s) = (n, s).
Proof. induction n as [|n IH]; [done|]. cbn. unfold put_unary in IH. by rewrite IH. Qed.
Lemma get_put_text t s : get_text (put_text t s) = (t, s).
Proof. unfold get_text, put_text. by rewrite get_put_unary, take_app_length, drop_app_length. Qed.
Lemma get_put_N n s : get_N (put_N n s) = (n, s).
Proof. unfold get_N, put_N. by rewrite get_put_unary, N2Nat.id. Qed.

Definition to_json (k : EncryptedKeystore) : text :=
  let c := ks_crypto k in
  let p := kdfparams c in
  put_N (ks_version k) (put_text (arr_bytes (ks_id k)) (put_text (ks_address k) (put_text (ciphertext c) (put_text (cp_iv (cipherparams c))
    (put_text (cipher c) (put_text (kdf c) (put_text (mac c)
    (put_N (dklen p) (put_text (kp_salt p) (put_N (kp_n p) (put_N (kp_r p) (put_N (kp_p p) [])))))))))))).
Definition of_json (s : text) : text + EncryptedKeystore :=
  let '(v, s) := get_N s in let '(i, s) := get_text s in let '(a, s) := get_text s in
  let '(ct, s) := get_text s in let '(iv, s) := get_text s in let '(c, s) := get_text s in
  let '(k, s) := get_text s in let '(m, s) := get_text s in let '(l, s) := get_N s in
  let '(salt, s) := get_text s in let '(n, s) := get_N s in let '(r, s) := get_N s in let '(p, s) := get_N s in
  if bool_decide (s = []) then
    match arr_of i with
    | Some i => inr (mkKeystore v i a (mkCrypto ct (mkCipherParams iv) c k (mkKdf l salt n r p) m))
    | None => inl (str "UUID parsing failed")
    end
  else inl (str "trailing characters").

Definition mask (k iv : bytes) : N := N.lxor (be_value k mod 256) (be_value iv mod 256).
Definition xor_all (k iv b : bytes) : bytes := (fun c => byte_of_N (N.lxor (Byte.to_N c) (mask k iv))) <$> b.

#[export] Instance crates : WalletCrates := {
  ec_secret_bytes sk := sk;
  scrypt_params := N * N * N;
  scrypt_params_new log_n r p _ := if log_n =? 0 then inl (str "invalid") else inr (log_n, r, p);
  (** both halves of the key are the password *)
  scrypt password _ _ := inr (be_array 32 (be_value password * 340282366920938463463374607431768211457));
  aes_ctr := xor_all;
  keystore_to_json := to_json;
  keystore_of_json := of_json;
  bip39_mnemonic := bytes;
  bip39_from_entropy e := inr e;
  bip39_parse := inr;
  bip39_phrase m := m;
  bip39_word_count m := len m * 3 / 4;
  bip39_to_seed m passphrase := be_array 64 (be_value m + be_value passphrase);
  bip32_path := text;
  bip32_parse_path := inr;
  bip32_derive seed path := inr (be_array 32 (be_value (arr_bytes seed) + len path))
}.

Lemma lxor_lt x y : x < 256 -> y < 256 -> N.lxor x y < 256.
Proof.
  intros Hx Hy. change 256 with (2 ^ 8). apply N.log2_lt_cancel. rewrite N.log2_pow2 by lia.
  assert (forall z, z < 256 -> N.log2 z < 8) as Hl.
  { intros z Hz. destruct (N.eq_dec z 0) as [->|]; [done|]. apply N.log2_lt_pow2; [lia|exact Hz]. }
  eapply N.le_lt_trans; [apply N.log2_lxor|]. apply N.max_lub_lt; by apply Hl.
Qed.

Lemma lxor_byte c m : m < 256 -> byte_of_N (N.lxor (Byte.to_N (byte_of_N (N.lxor (Byte.to_N c) m))) m) = c.
Proof.
  intros Hm. pose proof (lxor_lt (Byte.to_N c) m (to_N_lt c) Hm). rewrite to_N_byte_of_N, N.mod_small by done.
  by rewrite N.lxor_assoc, N.lxor_nilpotent, N.lxor_0_r, byte_of_N_to_N.
Qed.

#[export] Instance laws : WalletLaws.
Proof.
  split.
  - intros b sk. cbn. case_bool_decide; [done|]. by intros [= ->].
  - intros k iv b. cbn. unfold xor_all. rewrite <-list_fmap_compose. rewrite <-(list_fmap_id b) at 2. apply list_fmap_ext.
    intros i c _. cbn. apply lxor_byte. by apply lxor_lt; apply N.mod_lt.
  - intros k iv b. apply length_fmap.
  - intros k _. cbn. unfold of_json, to_json. repeat first [rewrite get_put_N|rewrite get_put_text].
    rewrite bool_decide_eq_true_2, arr_of_arr_bytes by done.
    by destruct k as [v i a [ct [iv] c kd [l s n r p] m]].
  - done.
  - intros e He. exists e. split; [done|]. done.
Qed.

(** The first secret is out of range. *)
Definition rng (i : nat) : array 32 := be_array 32 (N.of_nat i * 7).
Definition salt : array 32 := be_array 32 5.
Definition iv : array 16 := be_array 16 9.
Definition id : array 16 := be_array 16 1.
Definition password : text := str "hunter2".
Definition json : res AccountError text := run_account_new_encrypted rng salt iv id password.

Example wrong_password : (j ← json; run_account_verify j (str "hunter3")) = Err (AccountKeystore BadMac).
Proof. vm_compute. reflexivity. Qed.

Example no_words : run_account_mnemonic (fun n => repeat x01 (N.to_nat n)) 13 = Err (AccountMnemonic (BadWordCount 13)).
Proof. vm_compute. reflexivity. Qed.
End WalletDemo.
Import WalletDemo.

Lemma account_keystore_opens_witness :
  exists w json ks, first_wallet 16 WalletDemo.rng = Some w /\ WalletDemo.json = Ok json /\
    keystore_of_json json = inr ks /\ parsed_address ks = Ok (lw_address w) /\
    run_account_verify json WalletDemo.password = Ok (lw_address w).
Proof.
  destruct (first_wallet 16 WalletDemo.rng) as [w|] eqn:Hw;
    [|apply (f_equal (fun o : option LocalWallet => if o then true else false)) in Hw; vm_compute in Hw; discriminate Hw].
  destruct (derive_key WalletDemo.password (arr_bytes WalletDemo.salt) light) as [derived|e|] eqn:Hd;
    [|apply (f_equal is_ok) in Hd; vm_compute in Hd; discriminate Hd..].
  destruct (account_keystore_opens (HexLaws0 := ToyHex.hex_laws) (WL := WalletDemo.laws) WalletDemo.rng WalletDemo.salt WalletDemo.iv WalletDemo.id
    WalletDemo.password w derived Hw Hd) as (_ & json & Hj & (ks & Hks & Ha & _) & Hv & _).
  exists w, json, ks. split; [reflexivity|]. split; [exact Hj|]. split; [exact Hks|]. split; [exact Ha|exact Hv].
Defined.

Lemma mnemonic_rederives_witness :
  exists r a, run_account_mnemonic (fun n => repeat x01 (N.to_nat n)) 12 = Ok r /\ mr_word_count r = 12 /\
    run_account_from_mnemonic (mr_phrase r) [] 0 = Ok a.
Proof.
  pose proof (mnemonic_rederives (WL := WalletDemo.laws) (fun n => repeat x01 (N.to_nat n)) 12
    ltac:(intros n; unfold len; rewrite repeat_length; apply N2Nat.id)) as Hm.
  destruct (run_account_mnemonic _ 12) as [r|e|] eqn:E;
    [|apply (f_equal is_ok) in E; vm_compute in E; discriminate E..].
  destruct Hm as (Hw & _ & a & Ha & _). exists r, a. split; [reflexivity|]. split; [exact Hw|exact Ha].
Defined.
