(* ===== verification/ValidatorLoop.v ===== *)
(** * ValidatorLoop: one iteration of a validating node

    Models from [src/crates/aii-node/src/main.rs] the task that drives a BFT node and its
    start, with the snapshot of [src/crates/aii-node/src/bft_state.rs].  It joins the
    gossip driver (which owns the engine here; the source shares one engine between
    the driver and the loop), the node's state, the mempool and the rotation check.
    What the loop reads from outside is an argument: the payloads that arrived, the
    clock, and whether a write of the snapshot succeeds.  Log lines, the sleep and the
    peer discovery, a task of its own, are not modelled. *)
From stdpp Require Import base tactics gmap numbers strings list.
From Stdlib Require Import NArith Lia.
From S2P Require Import Prelude Bytes Crypto Bft Coordinator Slashing Codec Secp Tx Trie Block Engine Wire Gossip.
From S2P Require Import Storage StateDb Evm Staking ChainSpec Dpos Precompile NodeExec NodeState TxPool Rotation Bootstrap.

(** [BftStateSnapshot] *)
Record BftStateSnapshot := mkSnapshot { snap_height : N; snap_round : N }.

(** The file as [save] leaves it and [load] reads it: nothing, or the last snapshot. *)
Abbreviation state_file := (option BftStateSnapshot).

(** [save]: a failure leaves the old file, which is replaced by a rename. *)
Definition save (ok : bool) (snap : BftStateSnapshot) (file : state_file) : state_file :=
  if ok then Some snap else file.

Section validator.
Context `{Primitives} `{Rlp} `{K256} `{Revm} {B : Type} `{KvBackend B}.

(** The fixed settings: the chain specification and the round timeout. *)
Record LoopConfig := mkLoopConfig { lc_spec : ChainSpec; lc_round_timeout : N }.

Definition max_txs_per_block (c : LoopConfig) : nat :=
  N.to_nat (cs_initial_gas_limit (lc_spec c) / PLACEHOLDER_TX_GAS).

Definition slash_amount_wei (c : LoopConfig) : N := N.max 1 (min_validator_stake_wei (lc_spec c) / 100).

Record LoopState := mkLoop {
  l_gossip : BftGossip;
  l_node : NodeState (B := B);
  l_pool : TxPool;
  l_rotation_epoch : option N;
  l_timeout_key : option (N * N);
  l_deadline : N;
  l_persisted : N * N;
  l_file : state_file
}.

(** What an iteration reads: the payloads before each tick, the clock at the deadline
    check and where the deadline is renewed, and the outcome of each kind of save. *)
Record LoopInput := mkInput {
  in_payloads : list bytes;
  in_late_payloads : list bytes;
  in_now : N;
  in_renewed : N;
  in_save_commit : bool;
  in_save_round : bool
}.

Definition receive (g : BftGossip) (payloads : list bytes) : BftGossip :=
  mkGossip (engine g) (inbox g ++ payloads) (outbox g) (flags g) (harvested_blocks g).

(** One piece of evidence: the record, and the debit of the validator it names. *)
Definition punish (c : LoopConfig) (node : NodeState (B := B)) (ev : EquivocationEvidence) : NodeState (B := B) :=
  let b := record_slashing ev (ns_backend node) in
  let b := match latest_validator_address_by_index (ev_validator_index ev) b with
           | Some (_, offender) => debit_slash_stake offender (slash_amount_wei c) b
           | None => b
           end in
  set_backend node b.

(** One finalised block: state, head, rotation, snapshot. *)
Definition apply_block (save_ok : bool) (l : LoopState) (block : Block) : LoopState :=
  let n := number (header block) in
  let node := set_head (commit_block (l_node l) block) n in
  let '(epoch, e) := rotation_check (l_rotation_epoch l) (engine (l_gossip l)) (ns_backend node) in
  mkLoop (with_engine (l_gossip l) e) node (l_pool l) epoch (l_timeout_key l) (l_deadline l) (l_persisted l)
    (save save_ok (mkSnapshot (wrapping_add u64_mod n 1) 0) (l_file l)).

(** The loop up to the commits: tick, mempool, evidence; then every finalised block. *)
Definition stage_txs (c : LoopConfig) (l : LoopState) : LoopState :=
  let '(pool, txs) := drain_up_to (l_pool l) (max_txs_per_block c) in
  mkLoop (with_engine (l_gossip l) (extend_pending_txs (engine (l_gossip l)) txs)) (l_node l) pool
    (l_rotation_epoch l) (l_timeout_key l) (l_deadline l) (l_persisted l) (l_file l).

Definition punish_all (c : LoopConfig) (l : LoopState) : LoopState :=
  let '(e, evidence) := drain_evidence (engine (l_gossip l)) in
  mkLoop (with_engine (l_gossip l) e) (foldl (punish c) (l_node l) evidence) (l_pool l)
    (l_rotation_epoch l) (l_timeout_key l) (l_deadline l) (l_persisted l) (l_file l).

(** The blocks to apply, oldest first. *)
Definition finalised (g : BftGossip) : BftGossip * list Block :=
  let '(g, harvested) := drain_harvested g in
  let '(e, block) := try_harvest_committed (engine g) in
  (with_engine g e, harvested ++ option_list block).

Definition apply_finalised (save_ok : bool) (l : LoopState) : LoopState :=
  let '(g, blocks) := finalised (l_gossip l) in
  foldl (apply_block save_ok)
    (mkLoop g (l_node l) (l_pool l) (l_rotation_epoch l) (l_timeout_key l) (l_deadline l) (l_persisted l) (l_file l))
    blocks.

Definition with_gossip (l : LoopState) (g : BftGossip) : LoopState :=
  mkLoop g (l_node l) (l_pool l) (l_rotation_epoch l) (l_timeout_key l) (l_deadline l) (l_persisted l) (l_file l).

Definition with_timer (l : LoopState) (key : option (N * N)) (deadline : N) : LoopState :=
  mkLoop (l_gossip l) (l_node l) (l_pool l) (l_rotation_epoch l) key deadline (l_persisted l) (l_file l).

Definition round_key (e : BftEngine) : option (N * N) := (fun '(h, r, _) => (h, r)) <$> current_round_state e.

(** The round timer: a new round restarts it; an expired one fires the timeout. *)
Definition run_timer (c : LoopConfig) (i : LoopInput) (l : LoopState) : res BftError LoopState :=
  let e := engine (l_gossip l) in
  let key := default (saturating_add u64_mod (head_number (state e)) 1, 0) (round_key e) in
  let renewed := in_renewed i + lc_round_timeout c in
  if negb (bool_decide (l_timeout_key l = Some key)) then Ok (with_timer l (Some key) renewed)
  else if l_deadline l <=? in_now i then
    match tick_timeout e with
    | (e, Ok _) =>
        let l := with_timer (with_gossip l (with_engine (l_gossip l) e)) (round_key e) renewed in
        '(g, _) ← tick (receive (l_gossip l) (in_late_payloads i));
        mret (with_gossip l g)
    | (e, Err _) => Ok (with_timer (with_gossip l (with_engine (l_gossip l) e)) (l_timeout_key l) renewed)
    | (_, Panic) => Panic
    end
  else Ok l.

(** The snapshot of the active round, when it differs from the last one written. *)
Definition persist_round (save_ok : bool) (l : LoopState) : LoopState :=
  match round_key (engine (l_gossip l)) with
  | Some (h, r) =>
      if negb ((l_persisted l).2 =? r) || negb ((l_persisted l).1 =? h) then
        mkLoop (l_gossip l) (l_node l) (l_pool l) (l_rotation_epoch l) (l_timeout_key l) (l_deadline l)
          (if save_ok then (h, r) else l_persisted l) (save save_ok (mkSnapshot h r) (l_file l))
      else l
  | None => l
  end.

Definition iteration (c : LoopConfig) (i : LoopInput) (l : LoopState) : res BftError LoopState :=
  '(g, _) ← tick (receive (l_gossip l) (in_payloads i));
  let l := stage_txs c (with_gossip l g) in
  let l := punish_all c l in
  let l := apply_finalised (in_save_commit i) l in
  l ← run_timer c i l;
  mret (persist_round (in_save_round i) l).

(** ** The start *)

(** The engine resumes at the recovered head, the accounts of the genesis file are written,
    the engine takes the latest elected set, and the round of a snapshot for its next height. *)
Definition resume_round (recovered_head_number : N) (file : state_file) (e : BftEngine) : BftEngine :=
  match file with
  | Some snap =>
      if (snap_height snap =? wrapping_add u64_mod recovered_head_number 1) && (0 <? snap_round snap)
      then (fast_forward_to_round e (snap_round snap)).1
      else e
  | None => e
  end.

Definition to_account (self : GenesisAlloc) : Account :=
  mkAccount 0 (ga_balance self) EMPTY_TRIE_HASH (default EMPTY_CODE_HASH (ga_code_hash self)).

Fixpoint write_alloc (alloc : list GenesisAlloc) : action B StateError unit :=
  match alloc with
  | [] => mret tt
  | entry :: alloc => set_account (ga_address entry) (to_account entry);; write_alloc alloc
  end.

Definition apply_genesis_alloc (node_state : NodeState (B := B)) (genesis : Genesis)
    : NodeState (B := B) * res StateError unit :=
  let '(b, r) := write_alloc (g_alloc genesis) (ns_backend node_state) in (set_backend node_state b, r).

Inductive StartError := StartBoot (e : BootstrapError) | StartAlloc (e : StateError).

Context `{!KeyCodec} `{HexCrate}.

Definition boot_engine (genesis : Genesis) (keystore : ValidatorKeystore) (coinbase : Address)
    (node : NodeState (B := B)) : res BootstrapError BftEngine :=
  match head_block node with
  | Some head =>
      if 0 <? number (header head) then boot_bft_engine_with_recovered_head genesis keystore coinbase head
      else boot_bft_engine genesis keystore coinbase
  | None => boot_bft_engine genesis keystore coinbase
  end.

(** An error ends the process. *)
Definition start (c : LoopConfig) (genesis : Genesis) (keystore : ValidatorKeystore) (coinbase : Address)
    (node : NodeState (B := B)) (pool : TxPool) (file : state_file) (now : N) : res StartError LoopState :=
  let recovered := from_option (fun b => number (header b)) 0 (head_block node) in
  e ← map_err StartBoot (boot_engine genesis keystore coinbase node);
  let '(node, r) := apply_genesis_alloc node genesis in
  _ ← map_err StartAlloc r;
  let e := (rotate_bft_engine_to_latest_dpos e (ns_backend node)).1 in
  let e := resume_round recovered file e in
  mret (mkLoop (BftGossip_new e) node pool None None (now + lc_round_timeout c) (0, u64_mod - 1) file).
End validator.
