(* ===== verification/SlashProps.v ===== *)
(** * SlashProps: from equivocation evidence to the stake table

    What the validator loop does with one piece of evidence of the detector: the slash
    record, and the debit of the address at that index of the latest epoch record. *)
From stdpp Require Import base tactics gmap numbers sets strings list.
From Stdlib Require Import NArith Lia.
From Stdlib.Init Require Import Byte.
From S2P Require Import Prelude Bytes Crypto Bft Coordinator Slashing Codec Secp Tx Trie Block Engine.
From S2P Require Import Storage StateDb Evm Staking Governance ChainSpec Dpos Simulate Precompile NodeExec Frames NodeState NodeSim ValidatorLoop.

Section slash.
Context `{P : Primitives} `{R : Rlp} `{K : K256} `{V : Revm} {B : Type} `{HB : KvBackend B} {HL : KvLaws B}.
Implicit Types (b : B) (ev : EquivocationEvidence).

(** The record of a piece of evidence, as [list_slashings] reports it. *)
Definition record_of ev : SlashRecord :=
  let '(_, phase_str, hashes) := evidence_record ev in
  mkSlash (ev_validator_index ev) (ev_height ev) phase_str hashes.

Definition evidence_key ev : bytes :=
  slash_key (ev_validator_index ev) (ev_height ev) (evidence_record ev).1.1.

Lemma slash_entry_record ev b :
  kv_ok b -> ev_validator_index ev < u32_mod -> ev_height ev < u64_mod ->
  same_but (fun cf k => cf = Meta /\ k = evidence_key ev) b (record_slashing ev b) /\
  exists v, kv_view (record_slashing ev b) !! (Meta, evidence_key ev) = Some v /\
    slash_entry (evidence_key ev, v) = Some (record_of ev).
Proof.
  intros Hok Hi Hh. unfold record_slashing, meta_write, record_of, evidence_key.
  destruct (evidence_record ev) as [[phase_byte phase_str] [h0 h1]] eqn:Hev. cbn [fst].
  set (key := slash_key _ _ _). set (value := _ ++ _ ++ _ ++ _).
  split; [by apply put_same_but|]. destruct (kv_put_view b Meta key value Hok) as (b' & -> & _ & Hv). cbn [fst].
  exists value. split; [by rewrite Hv, lookup_insert_eq|].
  assert (phase_byte = x00 /\ phase_str = "prevote"%string \/ phase_byte = x01 /\ phase_str = "precommit"%string) as Hph.
  { unfold evidence_record in Hev. destruct ev; simplify_eq; auto. }
  unfold slash_entry, key, slash_key. rewrite drop_app_length.
  set (suffix := be_bytes 4 _ ++ be_bytes 8 _ ++ _).
  assert (len suffix =? 4 + 8 + 1 = true) as -> by (unfold suffix, len; by rewrite !length_app, !length_be_bytes).
  cbn [negb].
  assert (take 4 suffix = be_bytes 4 (ev_validator_index ev)) as -> by (unfold suffix; by rewrite take_app_length').
  assert (drop 4 suffix = be_bytes 8 (ev_height ev) ++ [phase_byte]) as -> by (unfold suffix; by rewrite drop_app_length').
  assert (take 8 (be_bytes 8 (ev_height ev) ++ [phase_byte]) = be_bytes 8 (ev_height ev)) as -> by by rewrite take_app_length'.
  assert (nth 12 suffix x00 = phase_byte) as ->.
  { unfold suffix. rewrite app_assoc. rewrite app_nth2 by (rewrite length_app, !length_be_bytes; lia).
    by rewrite length_app, !length_be_bytes. }
  rewrite !be_value_small by done.
  assert ((if bool_decide (phase_byte = x00) then "prevote"%string else "precommit"%string) = phase_str) as -> by
    by destruct Hph as [[-> ->]|[-> ->]].
  set (phase := String.list_byte_of_string phase_str) in *.
  assert (len phase < 256) as Hlen by by destruct Hph as [[_ ->]|[_ ->]].
  assert (len value = 1 + len phase + 64) as Hvl.
  { unfold value. rewrite !len_app. unfold len. rewrite !arr_length. cbn. lia. }
  cbv zeta. rewrite Hvl, (proj2 (N.ltb_ge _ _)) by lia.
  assert (Byte.to_N (nth 0 value x00) = len phase) as ->.
  { unfold value. cbn [app nth]. rewrite to_N_byte_of_N. by apply N.mod_small. }
  rewrite (proj2 (N.ltb_ge _ _)) by lia.
  assert (drop (N.to_nat (1 + len phase)) value = arr_bytes h0 ++ arr_bytes h1) as ->.
  { unfold value. rewrite app_assoc. apply drop_app_length'. rewrite length_app. unfold len. cbn. lia. }
  rewrite take_app_length', drop_app_length' by by rewrite arr_length.
  rewrite (take_ge (arr_bytes h1)) by by rewrite arr_length. by rewrite !arr_of_arr_bytes.
Qed.

(** The record touches no row outside the slash records. *)
Definition off_slash (cf : ColumnFamily) (k : bytes) : Prop := ~ (cf = Meta /\ META_KEY_SLASH_PREFIX `prefix_of` k).

Lemma off_slash_tables : table_keys off_slash.
Proof. split; intros s [_ [x Hx]]; discriminate Hx. Qed.

Lemma record_agrees ev b :
  kv_ok b -> ev_validator_index ev < u32_mod -> ev_height ev < u64_mod ->
  agree off_slash b (record_slashing ev b).
Proof.
  intros Hok Hi Hh. destruct (slash_entry_record ev b Hok Hi Hh) as [[Hok' Hs] _]. split; [done|done|].
  intros cf k Hk. symmetry. apply Hs. intros [-> ->]. apply Hk. split; [done|]. by eexists.
Qed.

Lemma agree_stake_map b1 b2 : agree off_slash b1 b2 -> stake_map b1 = stake_map b2.
Proof.
  intros Hag. apply map_eq. intros a. rewrite !lookup_stake_map.
  rewrite (ag_view _ _ _ Hag Meta (stake_key a)); [done|]. apply (tk_stake _ off_slash_tables).
Qed.

(** The debit of [debit_slash_stake], an absent stake included. *)
Definition debited (offender : Address) (amount : N) (m : gmap Address (N * N)) : gmap Address (N * N) :=
  match m !! offender with Some (x, u) => <[offender := (x - amount, u)]> m | None => m end.

Lemma debit_spec offender amount b :
  kv_ok b -> let b' := debit_slash_stake offender amount b in
  kv_ok b' /\ stake_map b' = debited offender amount (stake_map b) /\ only_stake offender b b'.
Proof.
  intros Hok. cbn zeta. unfold debit_slash_stake, debited. rewrite stake_get_map by done.
  destruct (stake_map b !! offender) as [[x u]|] eqn:Hs; cbn [fmap option_fmap option_map]; [|by split_and!].
  pose proof (stake_apply_spec (SSlash offender amount) b Hok) as (b' & Heq & Hok' & Hm & Ho).
  cbn [stake_apply stake_spec op_addr] in Heq, Hm, Ho. rewrite Hs in Hm.
  unfold mbind, action_bind in Heq. destruct (slash offender amount b) as [b1 [u1|e|]]; injection Heq as <- _; done.
Qed.

(** C15. Equivocation is punished: one piece of evidence of the detector, as the validator
    loop handles it, leaves a slash record that [list_slashings] reports with the
    validator index, the height, the phase and both block hashes; and the stake of the
    address at that index of the latest epoch record (not of the set that was active at
    the evidence's height) falls by the slash amount, at most to zero.  Nothing else in
    the database changes, and no other stake. *)
Theorem evidence_punished (c : LoopConfig) (node : NodeState (B := B)) ev :
  kv_ok (ns_backend node) -> ev_validator_index ev < u32_mod -> ev_height ev < u64_mod ->
  let b := ns_backend node in
  let b' := ns_backend (punish c node ev) in
  let offender := snd <$> latest_validator_address_by_index (ev_validator_index ev) b in
  kv_ok b' /\
  (exists records, list_slashings b' = Ok records /\ record_of ev ∈ records) /\
  stake_map b' = match offender with Some a => debited a (slash_amount_wei c) (stake_map b) | None => stake_map b end /\
  (forall cf k, ~ (cf = Meta /\ (k = evidence_key ev \/ exists a, offender = Some a /\ k = stake_key a)) ->
     kv_view b' !! (cf, k) = kv_view b !! (cf, k)).
Proof.
  intros Hok Hi Hh. cbn zeta. unfold punish. cbn [ns_backend set_backend].
  set (b := ns_backend node) in *. pose proof (record_agrees ev b Hok Hi Hh) as Hag.
  destruct (slash_entry_record ev b Hok Hi Hh) as [[Hok1 Hs1] (v & Hv & Hentry)].
  set (b1 := record_slashing ev b) in *.
  assert (latest_validator_address_by_index (ev_validator_index ev) b1 =
    latest_validator_address_by_index (ev_validator_index ev) b) as Hlat.
  { unfold latest_validator_address_by_index. by rewrite (latest_validator_set_same _ off_slash_tables b b1 Hag). }
  rewrite Hlat. pose proof (agree_stake_map b b1 Hag) as Hsm.
  set (found := latest_validator_address_by_index (ev_validator_index ev) b) in *.
  set (b2 := match found with Some (_, offender) => debit_slash_stake offender (slash_amount_wei c) b1 | None => b1 end).
  assert (kv_ok b2 /\ stake_map b2 = match snd <$> found with Some a => debited a (slash_amount_wei c) (stake_map b)
      | None => stake_map b end /\
    forall cf k, ~ (cf = Meta /\ exists a, snd <$> found = Some a /\ k = stake_key a) ->
      kv_view b2 !! (cf, k) = kv_view b1 !! (cf, k)) as (Hok2 & Hst & Hfr).
  { unfold b2. destruct found as [[epoch a]|]; cbn [fmap option_fmap option_map snd]; [|by split_and!].
    destruct (debit_spec a (slash_amount_wei c) b1 Hok1) as (H1 & H2 & H3). rewrite <-Hsm in H2.
    split_and!; [done|done|]. intros cf k Hk. apply H3. intros [= -> ->]. apply Hk. split; [done|]. by exists a. }
  split_and!; [done| |done|].
  - unfold list_slashings. destruct (kv_iter_prefix_view b2 Meta META_KEY_SLASH_PREFIX Hok2) as (items & -> & _ & Hin).
    rewrite collect_entries_Ok. eexists. split; [done|]. apply list_elem_of_omap.
    exists (evidence_key ev, v). split; [|done]. apply Hin. split; [|by eexists].
    rewrite Hfr; [done|]. intros [_ (a & _ & Hk)]. discriminate Hk.
  - intros cf k Hk. rewrite Hfr, Hs1; [done| |].
    + intros [-> ->]. apply Hk. auto.
    + intros [-> H']. apply Hk. auto.
Qed.
End slash.
