(* ===== verification/LoopProps.v ===== *)
(** * LoopProps: the node follows its engine

    What a tick hands over, and what an iteration of the validator loop makes of it: the
    blocks applied are exactly those finalised, each with its quorum certificate; the
    node's head is the engine's; no payload stops the loop. *)
From stdpp Require Import base tactics gmap numbers strings list.
From Stdlib Require Import NArith Lia.
From S2P Require Import Prelude Bytes Crypto Bft BftFacts Coordinator CoordinatorFacts Slashing.
From S2P Require Import Codec Secp Tx Trie Block Engine EngineFacts EngineProps Wire Gossip GossipProps.
From S2P Require Import Storage StateDb Evm Staking ChainSpec Dpos Precompile NodeExec NodeState NodeIndex TxPool Rotation Bootstrap ValidatorLoop.

(** ** Calls that leave the head and the set alone *)
Section engine.
Context `{HL : PrimitiveLaws} `{R : Rlp}.
Implicit Types (g : BftEngineState) (self : BftEngine).

Definition quiet g g' : Prop :=
  head_hash g' = head_hash g /\ head_number g' = head_number g /\ validator_set g' = validator_set g.

Lemma quiet_refl g : quiet g g.
Proof. done. Qed.

Lemma then_drain_quiet self g0 g : engine_inv g -> quiet g0 g -> quiet g0 (state (then_drain self g).1).
Proof.
  intros Hg Hq. destruct (then_drain_inv self g Hg) as (_ & _ & Hov & _). unfold only_votes in Hov.
  rewrite Hov. exact Hq.
Qed.

Lemma ensure_quiet g : quiet g (ensure_coordinator g).
Proof. unfold ensure_coordinator. by destruct (coordinator g). Qed.

Lemma cast_proposal_quiet self : quiet (state self) (state (cast_proposal self).1).
Proof.
  unfold cast_proposal. destruct (coordinator (ensure_coordinator (state self))); [|apply ensure_quiet].
  destruct (negb _); [apply ensure_quiet|]. destruct (drain_pending_txs_into_body _) as [b s].
  destruct (submit_proposal _ _ _) as [c1 [[]|e|]]; apply ensure_quiet.
Qed.

Lemma cast_prevote_quiet self : quiet (state self) (state (cast_prevote self).1).
Proof.
  unfold cast_prevote. destruct (coordinator (state self)) as [c|]; [|done].
  destruct (proposed_block c); [|done]. by destruct (submit_prevote c _).
Qed.

Lemma cast_precommit_quiet self : quiet (state self) (state (cast_precommit self).1).
Proof.
  unfold cast_precommit. destruct (coordinator (state self)) as [c|]; [|done]. destruct (negb _); [done|].
  destruct (proposed_block c); [|done]. by destruct (submit_precommit c _).
Qed.

Lemma fast_forward_quiet self r : quiet (state self) (state (fast_forward_to_round self r).1).
Proof. unfold fast_forward_to_round. by destruct (match coordinator _ with Some _ => _ | None => _ end). Qed.

Lemma remote_proposal_quiet self blk pf :
  engine_inv (state self) -> quiet (state self) (state (submit_remote_proposal self blk pf).1).
Proof.
  intros Hg. unfold submit_remote_proposal. destruct (ensure_spec (state self) Hg) as (c & Hc & Hok & Heq). rewrite Hc.
  assert (engine_inv (ensure_coordinator (state self))) as Hens by (rewrite Heq in *; by apply engine_inv_round).
  pose proof (coord_ok_proposal _ c blk pf tt Hok) as Hprop.
  destruct (submit_proposal c (block_hash blk) pf) as [c1 [[]|e|]]; cbn; [|apply ensure_quiet..].
  apply then_drain_quiet; [|apply ensure_quiet]. apply engine_inv_round; [done|]. by apply Hprop.
Qed.

Lemma remote_prevote_quiet self v :
  engine_inv (state self) -> quiet (state self) (state (submit_remote_prevote self v).1).
Proof.
  intros Hg. unfold submit_remote_prevote. destruct (record_prevote _ _) as [d ev]. set (g1 := with_detector _ _ _).
  assert (Hg1 : engine_inv g1) by by eapply engine_inv_frame. destruct (_ <=? _); [done|].
  destruct (coordinator g1) as [c|] eqn:Ec; [|done].
  destruct (coord_ok_prevote _ c v (ei_coord _ Hg1 _ Ec)) as [Hok _].
  destruct (submit_prevote c v) as [c1 [u|e|]]; [|destruct (retryable e)|]; try done.
  apply then_drain_quiet; [|done]. apply engine_inv_round; [done|]. by eapply coord_ok_frame.
Qed.

Lemma remote_precommit_quiet self v :
  engine_inv (state self) -> quiet (state self) (state (submit_remote_precommit self v).1).
Proof.
  intros Hg. unfold submit_remote_precommit. destruct (record_precommit _ _) as [d ev]. set (g1 := with_detector _ _ _).
  assert (Hg1 : engine_inv g1) by by eapply engine_inv_frame. destruct (_ <=? _); [done|].
  destruct (coordinator g1) as [c|] eqn:Ec; [|done].
  destruct (coord_ok_precommit _ c v (ei_coord _ Hg1 _ Ec)) as [Hok _].
  destruct (submit_precommit c v) as [c1 [u|e|]]; [|destruct (retryable e)|]; try done.
  apply then_drain_quiet; [|done]. apply engine_inv_round; [done|]. by eapply coord_ok_frame.
Qed.

Lemma tick_timeout_quiet self :
  engine_inv (state self) -> is_committed (state self) = false -> quiet (state self) (state (tick_timeout self).1).
Proof.
  intros Hg Hnc. unfold tick_timeout. destruct (ensure_spec (state self) Hg) as (c & Hc & _ & _). rewrite Hc.
  apply then_drain_quiet; [by apply timeout_round_inv|apply ensure_quiet].
Qed.

(** A quorum certificate for the block at a height, which the set verifies unless the
    keys of its signers cancel out (possible keys, as none is proved to be owned). *)
Definition certified (v : ValidatorSet) (n : N) (blk : Block) : Prop :=
  exists cert : PrecommitCertificate, c_block_hash cert = block_hash blk /\ c_height cert = n /\
    (blst_pks_cancel (keys_of v (signers v (signer_bitmap cert))) = false -> PrecommitCertificate_verify cert v = Ok tt).

(** A harvest hands over the committed block, certified, which is the new head. *)
Lemma harvest_certified self :
  engine_inv (state self) ->
  let '(self', r) := try_harvest_committed self in
  engine_inv (state self') /\ validator_set (state self') = validator_set (state self) /\
  match r with
  | Some blk => head_hash (state self') = block_hash blk /\ head_number (state self') = number (header blk) /\
                certified (validator_set (state self)) (next_height (state self)) blk
  | None => self' = self /\ is_committed (state self) = false
  end.
Proof.
  intros Hg. pose proof (harvest_inv self Hg) as Hi. destruct (is_committed (state self)) eqn:Hc.
  - destruct (harvest_spec self Hg Hc) as (c & blk & pf & cert & _ & _ & _ & _ & [Hb Hn Hv] & Heq).
    rewrite Heq in *. split_and!; try done. by exists cert.
  - unfold try_harvest_committed. rewrite Hc. done.
Qed.

Lemma adopt_certified self blk cert :
  engine_inv (state self) ->
  let '(self', r) := adopt_synced_block self blk cert in
  match r with
  | Ok b => b = blk /\ validator_set (state self') = validator_set (state self) /\
            head_hash (state self') = block_hash blk /\ head_number (state self') = number (header blk) /\
            certified (validator_set (state self)) (next_height (state self)) blk
  | _ => self' = self
  end.
Proof.
  intros Hg. destruct (adopt_cases self blk cert) as [Ha|Hn].
  - rewrite (adopt_Ok _ _ _ Ha). destruct Ha as (Hn & Hn' & _ & Hb & Hv). split_and!; try done. exists cert.
    split_and!; [done|congruence|done].
  - destruct (adopt_not_Ok self blk cert Hn) as [Hs Hr]. destruct (adopt_synced_block self blk cert) as [e [b|x|]]; [|done..].
    by destruct (Hr b).
Qed.
End engine.

(** ** What a tick hands over *)
Section gossip.
Context `{HL : PrimitiveLaws} `{R : Rlp} `{!RlpSafe R}.
Implicit Types (self g : BftGossip).

(** The head after the blocks [new] were finalised in order. *)
Definition tip (head : H256 * N) (new : list Block) : H256 * N :=
  match last new with Some b => (block_hash b, number (header b)) | None => head end.

Lemma tip_app h new new' : tip h (new ++ new') = tip (tip h new) new'.
Proof.
  unfold tip. rewrite last_app. by destruct (last new').
Qed.

(** Each block is certified for the height after the head it is finalised on. *)
Fixpoint certified_from (v : ValidatorSet) (head : H256 * N) (blocks : list Block) : Prop :=
  match blocks with
  | [] => True
  | b :: blocks =>
      certified v (wrapping_add u64_mod head.2 1) b /\ certified_from v (block_hash b, number (header b)) blocks
  end.

Lemma tip_cons h b bs : tip h (b :: bs) = tip (block_hash b, number (header b)) bs.
Proof. unfold tip. rewrite (last_cons b). by destruct (last bs). Qed.

Lemma certified_from_app v h new new' :
  certified_from v h (new ++ new') <-> certified_from v h new /\ certified_from v (tip h new) new'.
Proof.
  revert h. induction new as [|b new IH]; intros h; [cbn; tauto|]. cbn [app certified_from].
  rewrite IH, tip_cons. tauto.
Qed.

Definition engine_head g : H256 * N := (head_hash (state (engine g)), head_number (state (engine g))).
Definition active_set g : ValidatorSet := validator_set (state (engine g)).

(** Blocks were queued, certified by the active set, up to the engine's new head. *)
Record follows g g' : Prop := {
  fo_inv : gossip_inv g';
  fo_set : active_set g' = active_set g;
  fo_queue : exists new, harvested_blocks g' = harvested_blocks g ++ new /\
    engine_head g' = tip (engine_head g) new /\ certified_from (active_set g) (engine_head g) new
}.

Lemma follows_quiet g g' :
  gossip_inv g' -> quiet (state (engine g)) (state (engine g')) -> harvested_blocks g' = harvested_blocks g ->
  follows g g'.
Proof.
  intros Hi (Hh & Hn & Hv) Hq. split; [done|exact Hv|]. exists []. unfold engine_head. rewrite app_nil_r, Hh, Hn.
  done.
Qed.

Lemma follows_refl g : gossip_inv g -> follows g g.
Proof. intros. by apply follows_quiet. Qed.

Lemma follows_trans g1 g2 g3 : follows g1 g2 -> follows g2 g3 -> follows g1 g3.
Proof.
  intros [_ H1 (n1 & Hq1 & Hh1 & Hc1)] [Hi H2 (n2 & Hq2 & Hh2 & Hc2)]. split; [done|congruence|].
  exists (n1 ++ n2). rewrite Hq2, Hq1, Hh2, Hh1, tip_app, app_assoc. split_and!; [done|done|].
  apply certified_from_app. split; [done|]. by rewrite <-H1, <-Hh1.
Qed.

(** One block queued, as the engine's new head. *)
Lemma follows_block g g' b :
  gossip_inv g' -> active_set g' = active_set g -> harvested_blocks g' = harvested_blocks g ++ [b] ->
  engine_head g' = (block_hash b, number (header b)) ->
  certified (active_set g) (next_height (state (engine g))) b -> follows g g'.
Proof. intros Hi Hs Hq Hh Hc. split; [done..|]. by exists [b]. Qed.

(** A method that does not panic and only adds to the queue. *)
Definition act_follows g (r : acting) : Prop := exists g' a, r = Ok (g', a) /\ follows g g'.

Lemma act_follows_quiet g r :
  safe_act r -> (forall g' a, r = Ok (g', a) -> quiet (state (engine g)) (state (engine g')) /\
    harvested_blocks g' = harvested_blocks g) -> act_follows g r.
Proof.
  intros (g' & a & -> & Hi) Hq. destruct (Hq g' a eq_refl) as [H1 H2]. exists g', a. split; [done|].
  by apply follows_quiet.
Qed.

Lemma auto_harvest_follows g : gossip_inv g -> follows g (auto_harvest g).
Proof.
  unfold auto_harvest. generalize 2%nat as fuel. intros fuel. revert g.
  induction fuel as [|fuel IH]; intros g Hi; cbn [auto_harvest_loop]; [by apply follows_refl|].
  pose proof (harvest_certified (engine g) Hi) as Hh.
  destruct (try_harvest_committed (engine g)) as [e [b|]]; destruct Hh as (He & Hv & Hb).
  - destruct Hb as (H1 & H2 & H3). assert (follows g (push_harvested (with_engine g e) b)) as Hf.
    { apply (follows_block _ _ b); [done|done|done| |done]. unfold engine_head. cbn. by rewrite H1, H2. }
    eapply follows_trans; [exact Hf|]. by apply IH.
  - destruct Hb as [-> _]. by apply follows_quiet.
Qed.

(** Proposing and voting. *)
Lemma drive_phase_follows g h r ph : gossip_inv g -> act_follows g (drive_phase g h r ph).
Proof.
  intros Hi. apply act_follows_quiet; [by apply drive_phase_safe|]. intros g' a.
  unfold drive_phase, retransmit_proposal, retransmit_prevote, retransmit_precommit, retransmit.
  destruct ph; [| | |by intros [= <- _]]; intros ([g1 a1] & H1 & H2)%bind_Ok.
  all: assert (quiet (state (engine g)) (state (engine g1)) /\ harvested_blocks g1 = harvested_blocks g) as [Hq Hb];
    [|repeat case_match; cbn in H2; injection H2 as <- _; simplify_eq; done].
  - unfold maybe_propose in H1. pose proof (cast_proposal_quiet (engine g)) as Hcp.
    destruct (cast_proposal (engine g)) as [e [[blk pf]| |]]; repeat (case_match; simplify_eq); done.
  - unfold maybe_prevote in H1. pose proof (cast_prevote_quiet (engine g)) as Hcp.
    destruct (cast_prevote (engine g)) as [e [v| |]]; repeat (case_match; simplify_eq); done.
  - unfold maybe_precommit in H1. pose proof (cast_precommit_quiet (engine g)) as Hcp.
    destruct (cast_precommit (engine g)) as [e [v| |]]; repeat (case_match; simplify_eq); done.
Qed.

Lemma bootstrap_follows g : gossip_inv g -> act_follows g (bootstrap_propose g).
Proof.
  intros Hi. apply act_follows_quiet; [by apply bootstrap_safe|]. intros g' a. unfold bootstrap_propose.
  pose proof (cast_proposal_quiet (engine g)) as Hcp.
  destruct (cast_proposal (engine g)) as [e [[blk pf]| |]]; [|intros [= <- _]; done|done].
  destruct (current_round_state e) as [[[h r] ph]|]; [|done]. generalize (encode (proposal_msg e h r blk pf)).
  intros m [= <- _]. done.
Qed.

Lemma request_catchup_quiet g h :
  engine (request_catchup_if_future_height g h).1 = engine g /\
  harvested_blocks (request_catchup_if_future_height g h).1 = harvested_blocks g.
Proof. unfold request_catchup_if_future_height. by repeat case_match. Qed.

Lemma handle_proposal_quiet g h r bh pf cb b :
  gossip_inv g -> quiet (state (engine g)) (state (engine (handle_proposal_msg g h r bh pf cb b).1)) /\
    harvested_blocks (handle_proposal_msg g h r bh pf cb b).1 = harvested_blocks g.
Proof.
  intros Hi. unfold handle_proposal_msg.
  assert (exists e j, (if should_jump (engine g) h r then fast_forward_to_round (engine g) r else (engine g, Ok tt)) = (e, j) /\
    quiet (state (engine g)) (state e) /\ engine_inv (state e)) as (e & j & -> & Hq & He).
  { destruct (should_jump _ _ _); [|eexists _, _; split; [done|]; split; [apply quiet_refl|exact Hi]]. pose proof (fast_forward_quiet (engine g) r) as H1.
    pose proof (fast_forward_inv (engine g) r Hi) as [H2 _].
    destruct (fast_forward_to_round (engine g) r) as [e j]. exists e, j. split; [done|]. split; [exact H1|exact H2]. }
  destruct j as [[]| |]; cbn [mbind res_bind]; [|done..]. destruct (decode_block_body b) as [body| |]; [|done..].
  destruct (negb _); [done|].
  pose proof (remote_proposal_quiet e (reconstruct_proposed_block_with_body e h pf cb body) pf He) as Hr.
  destruct (submit_remote_proposal e _ pf) as [e' r']. split; [|done]. cbn [fst engine with_engine] in *.
  destruct Hq as (?&?&?), Hr as (?&?&?). split_and!; congruence.
Qed.

Lemma dispatch_follows g m : gossip_inv g -> follows g (dispatch_inbound g m).1.
Proof.
  intros Hi. pose proof (proj1 (dispatch_safe g m Hi)) as Hi'. revert Hi'.
  destruct m as [h r bh pf cb b|v|v|h|b cert]; cbn [dispatch_inbound].
  - destruct (request_catchup_quiet g h) as [He Hq]. pose proof (request_catchup_inv g h Hi) as Hs.
    destruct (request_catchup_if_future_height g h) as [s future]. cbn [fst] in *. intros Hi'.
    destruct future; [apply follows_quiet; [done|cbn [fst]; by rewrite He|done]|].
    destruct (handle_proposal_quiet s h r bh pf cb b Hs) as [H1 H2]. apply follows_quiet; [done| |congruence].
    by rewrite <-He.
  - destruct (request_catchup_quiet g (vote_height v)) as [He Hq]. pose proof (request_catchup_inv g (vote_height v) Hi) as Hs.
    destruct (request_catchup_if_future_height g (vote_height v)) as [s future]. cbn [fst] in *. intros Hi'.
    destruct future; [apply follows_quiet; [done|cbn [fst]; by rewrite He|done]|].
    pose proof (remote_prevote_quiet (engine s) v Hs) as H1. destruct (submit_remote_prevote (engine s) v).
    apply follows_quiet; [done| |done]. by rewrite <-He.
  - destruct (request_catchup_quiet g (vote_height v)) as [He Hq]. pose proof (request_catchup_inv g (vote_height v) Hi) as Hs.
    destruct (request_catchup_if_future_height g (vote_height v)) as [s future]. cbn [fst] in *. intros Hi'.
    destruct future; [apply follows_quiet; [done|cbn [fst]; by rewrite He|done]|].
    pose proof (remote_precommit_quiet (engine s) v Hs) as H1. destruct (submit_remote_precommit (engine s) v).
    apply follows_quiet; [done| |done]. by rewrite <-He.
  - intros _. destruct (committed_block_at _ _) as [[blk cert]|]; by apply follows_quiet.
  - unfold handle_block_response. destruct (map_err _ (decode_block b)) as [[blk rest]| |]; [|intros; by apply follows_quiet..].
    destruct (negb _); [intros; by apply follows_quiet|].
    pose proof (adopt_certified (engine g) blk cert Hi) as Ha.
    destruct (adopt_synced_block (engine g) blk cert) as [e [a| |]]; intros Hi'.
    + destruct Ha as (-> & Hv & Hh & Hn & Hc). apply (follows_block _ _ blk); [done|exact Hv|done| |done].
      unfold engine_head. cbn. by rewrite Hh, Hn.
    + subst e. by apply follows_quiet.
    + subst e. by apply follows_quiet.
Qed.

Lemma drain_inbox_follows msgs g a : gossip_inv g -> act_follows g (drain_inbox msgs g a).
Proof.
  revert g a. induction msgs as [|b msgs IH]; intros g a Hi; cbn [drain_inbox].
  { exists g, a. split; [done|by apply follows_refl]. }
  assert (forall g1 a, follows g g1 -> act_follows g (drain_inbox msgs (auto_harvest g1) a)) as Hgo.
  { intros g1 a1 Hf. pose proof (auto_harvest_follows g1 (fo_inv _ _ Hf)) as Hh.
    destruct (IH (auto_harvest g1) a1 (fo_inv _ _ Hh)) as (g2 & a2 & Heq & Hf2). exists g2, a2. split; [done|].
    eapply follows_trans; [exact Hf|]. by eapply follows_trans. }
  pose proof (decode_no_panic b) as Hd. destruct (decode b) as [m| |]; [| |done].
  - pose proof (dispatch_follows g m Hi) as Hf. destruct (dispatch_safe g m Hi) as [_ Hn].
    destruct (dispatch_inbound g m) as [s [| |]]; [by apply Hgo..|done].
  - apply Hgo. by apply follows_refl.
Qed.

(** A tick, whatever is in the inbox. *)
Lemma tick_follows g : gossip_inv g -> act_follows g (tick g).
Proof.
  intros Hi. unfold tick, take_inbox.
  destruct (drain_inbox_follows (inbox g) (mkGossip (engine g) [] (outbox g) (flags g) (harvested_blocks g)) 0 Hi)
    as (s & a & -> & Hf). cbn [mbind res_bind].
  assert (follows g s) as Hgs by (destruct Hf; by split).
  match goal with |- act_follows g (?x ≫= _) => assert (act_follows s x) as (s1 & a1 & -> & Hs1) end.
  { pose proof (fo_inv _ _ Hf). destruct (current_round_state (engine s)) as [[[h r] ph]|]; [by apply drive_phase_follows|].
    destruct (would_be_leader_next_height _); [by apply bootstrap_follows|]. exists s, 0. split; [done|by apply follows_refl]. }
  cbn [mbind res_bind]. eexists _, _. split; [reflexivity|].
  eapply follows_trans; [exact Hgs|]. eapply follows_trans; [exact Hs1|]. apply auto_harvest_follows, (fo_inv _ _ Hs1).
Qed.
End gossip.

(** ** The validator loop *)
Section loop.
Context `{HL : PrimitiveLaws} `{R : Rlp} `{!RlpSafe R} `{K256} `{Revm} {B : Type} `{KvBackend B}.
Implicit Types (l : LoopState (B := B)) (node : NodeState (B := B)) (e : BftEngine).

(** The head, and that no finished round waits. *)
Definition same_tip e e' : Prop :=
  head_hash (state e') = head_hash (state e) /\ head_number (state e') = head_number (state e) /\
  (is_committed (state e) = false -> is_committed (state e') = false).

Lemma rotation_keeps last e (b : B) :
  engine_inv (state e) -> engine_inv (state (rotation_check last e b).2) /\ same_tip e (rotation_check last e b).2.
Proof.
  intros Hi. unfold rotation_check. destruct (latest_validator_set b) as [[[epoch entries]|]| |]; [|done..].
  destruct (bool_decide _); [done|]. destruct (bft_my_index_from_entries _ _) as [i|]; [|done].
  destruct (bft_validator_set_from_entries entries) as [set| |] eqn:Hs; [|done..]. apply bft_set_Ok in Hs as [_ Hwf].
  cbn [snd]. split; [by apply rotate_inv|]. unfold rotate_validator_set.
  destruct (size set <=? i); [done|]. by destruct (coordinator (state e)), (proposal (state e)).
Qed.

(** What the loop does to the node for one block, and for evidence. *)
Definition commit_one node (b : Block) : NodeState (B := B) := set_head (commit_block node b) (number (header b)).

Definition store_ok node : Prop :=
  store_wf (ns_blocks node) /\ (length (order (ns_blocks node)) <= MAX_BLOCKS_IN_MEMORY)%nat.

(** The block is in the index, or its height was taken by another. *)
Definition recorded node (b : Block) : Prop :=
  is_Some (by_hash (ns_blocks node) !! block_hash b) \/
  exists other, by_number (ns_blocks node) !! number (header b) = Some other /\ other <> block_hash b.

Lemma commit_one_ok node b :
  store_ok node -> store_ok (commit_one node b) /\ ns_head (commit_one node b) = number (header b) /\
    recorded (commit_one node b) b.
Proof.
  intros [Hwf Hlen]. split; [by apply commit_wf|]. split; [done|]. unfold recorded, commit_one, set_head. cbn [ns_blocks].
  unfold commit_block, commit_block_capped. set (hash := block_hash b). set (s := ns_blocks node) in *.
  destruct (by_hash s !! hash) as [hd|] eqn:Hh; [left; by exists hd|].
  destruct (by_number s !! number (header b)) as [x|] eqn:Hn.
  - case_bool_decide as Hx; [|right; by exists x]. exfalso. subst x.
    apply (sw_numbers _ Hwf) in Hn as (hd & Hl & _). congruence.
  - left. cbn [ns_blocks]. destruct (index_block_wf MAX_BLOCKS_IN_MEMORY s b hash Hwf Hh Hn) as [Hw _].
    apply (sw_hashes _ Hw). rewrite index_block_order, drop_app_le by (unfold MAX_BLOCKS_IN_MEMORY; lia).
    apply elem_of_app. right. left.
Qed.

Lemma punish_blocks c node evs :
  ns_blocks (foldl (punish c) node evs) = ns_blocks node /\ ns_head (foldl (punish c) node evs) = ns_head node.
Proof. revert node. induction evs as [|ev evs IH]; intros node; [done|]. cbn [foldl]. by destruct (IH (punish c node ev)) as [-> ->]. Qed.

(** The blocks of an iteration: the node is committed to each in turn; the engine's head
    stays where the last one put it. *)
Lemma apply_blocks ok l blocks :
  gossip_inv (l_gossip l) -> store_ok (l_node l) ->
  let l' := foldl (apply_block ok) l blocks in
  gossip_inv (l_gossip l') /\ same_tip (engine (l_gossip l)) (engine (l_gossip l')) /\
  harvested_blocks (l_gossip l') = harvested_blocks (l_gossip l) /\
  l_node l' = foldl commit_one (l_node l) blocks /\ store_ok (l_node l') /\
  ns_head (l_node l') = from_option (fun b => number (header b)) (ns_head (l_node l)) (last blocks) /\
  (forall b, last blocks = Some b -> recorded (l_node l') b).
Proof.
  cbv zeta. revert l. induction blocks as [|b blocks IH]; intros l Hi Hs; [done|]. cbn [foldl].
  pose proof (rotation_keeps (l_rotation_epoch l) (engine (l_gossip l)) (ns_backend (commit_one (l_node l) b)) Hi) as [Hi1 Ht1].
  destruct (commit_one_ok (l_node l) b Hs) as (Hs1 & Hh1 & Hr1).
  assert (l_node (apply_block ok l b) = commit_one (l_node l) b /\ gossip_inv (l_gossip (apply_block ok l b)) /\
  same_tip (engine (l_gossip l)) (engine (l_gossip (apply_block ok l b))) /\
  harvested_blocks (l_gossip (apply_block ok l b)) = harvested_blocks (l_gossip l)) as (Hn & Hg & Ht & Hq).
  { unfold apply_block. fold (commit_one (l_node l) b). by destruct (rotation_check _ _ _). }
  rewrite <-Hn in Hs1, Hh1, Hr1. destruct (IH _ Hg Hs1) as (Hi2 & Ht2 & Hq2 & Hn2 & Hs2 & Hh2 & Hr2).
  split_and!; [done| |congruence|by rewrite Hn2, Hn|done| |].
  - destruct Ht as (?&?&?), Ht2 as (?&?&?). unfold same_tip. split_and!; [congruence..|auto].
  - rewrite Hh2, Hh1. rewrite (last_cons b). by destruct (last blocks).
  - intros b'. rewrite (last_cons b). destruct (last blocks) as [b2|] eqn:Hl; [intros [= ->]; by apply Hr2|].
    intros [= <-]. apply last_None in Hl as ->. done.
Qed.

(** The loop between iterations, with [head] the last block committed to the node: the
    queue leads from it to the engine's head, every block in it certified. *)
Record loop_inv (head : H256 * N) l : Prop := {
  li_gossip : gossip_inv (l_gossip l);
  li_store : store_ok (l_node l);
  li_node : ns_head (l_node l) = head.2;
  li_head : engine_head (l_gossip l) = tip head (harvested_blocks (l_gossip l));
  li_certified : certified_from (active_set (l_gossip l)) head (harvested_blocks (l_gossip l))
}.

(** The phases before the timer. *)
Definition collect (c : LoopConfig) l g : LoopState := punish_all c (stage_txs c (with_gossip l g)).

(** What an iteration takes from the engine and the driver after its tick: the evidence
    of equivocations, and the blocks that were finalised. *)
Definition iteration_evidence (c : LoopConfig) (i : LoopInput) l : list EquivocationEvidence :=
  match tick (receive (l_gossip l) (in_payloads i)) with
  | Ok (g, _) => pending_evidence (state (engine g))
  | _ => []
  end.

Definition iteration_blocks (c : LoopConfig) (i : LoopInput) l : list Block :=
  match tick (receive (l_gossip l) (in_payloads i)) with
  | Ok (g, _) => harvested_blocks g ++ option_list (try_harvest_committed (engine (l_gossip (collect c l g)))).2
  | _ => []
  end.

(** What every iteration does, from the head [head]. *)
Record applied (c : LoopConfig) (i : LoopInput) (head : H256 * N) l l' : Prop := {
  ap_certified : certified_from (active_set (l_gossip l)) head (iteration_blocks c i l);
  ap_node : l_node l' =
    foldl commit_one (foldl (punish c) (l_node l) (iteration_evidence c i l)) (iteration_blocks c i l);
  ap_last : forall b, last (iteration_blocks c i l) = Some b -> recorded (l_node l') b
}.

Lemma collect_spec c l g :
  gossip_inv g ->
  l_node (collect c l g) = foldl (punish c) (l_node l) (pending_evidence (state (engine g))) /\ gossip_inv (l_gossip (collect c l g)) /\
  engine_head (l_gossip (collect c l g)) = engine_head g /\ active_set (l_gossip (collect c l g)) = active_set g /\
  harvested_blocks (l_gossip (collect c l g)) = harvested_blocks g /\
  l_timeout_key (collect c l g) = l_timeout_key l /\ l_deadline (collect c l g) = l_deadline l.
Proof.
  intros Hi. unfold collect, stage_txs. destruct (drain_up_to _ _) as [pool txs]. unfold punish_all. cbn.
  assert (state (extend_pending_txs (engine g) txs) = state (engine g)) as Hst by (unfold extend_pending_txs; by destruct txs).
  unfold engine_head, active_set, gossip_inv. cbn. rewrite Hst. split_and!; try done.
  by apply (engine_inv_frame _ _ Hi).
Qed.

Lemma finalised_spec g :
  gossip_inv g ->
  let '(g', blocks) := finalised g in
  gossip_inv g' /\ harvested_blocks g' = [] /\ is_committed (state (engine g')) = false /\
  let new := option_list (try_harvest_committed (engine g)).2 in
  blocks = harvested_blocks g ++ new /\ engine_head g' = tip (engine_head g) new /\
  active_set g' = active_set g /\ certified_from (active_set g) (engine_head g) new.
Proof.
  intros Hi. unfold finalised, drain_harvested. cbn [engine].
  pose proof (harvest_certified (engine g) Hi) as Hh.
  destruct (try_harvest_committed (engine g)) as [e [b|]] eqn:Ht; destruct Hh as (He & Hv & Hb); cbn [option_list].
  - destruct Hb as (Hb1 & Hb2 & Hb3). split; [done|]. split; [done|]. split.
    + cbn. unfold try_harvest_committed in Ht. destruct (negb _); [done|].
      destruct (proposal (state (engine g))) as [[b1 pf]|]; [|done]. destruct (_ ≫= _); [|done]. by injection Ht as <- _.
    + cbn zeta. split; [done|]. split; [|by split]. unfold engine_head. cbn. by rewrite Hb1, Hb2.
  - destruct Hb as [-> Hc]. by split_and!.
Qed.

(** The timer changes neither the node nor the head but through a tick. *)
Lemma run_timer_spec c i l :
  gossip_inv (l_gossip l) -> is_committed (state (engine (l_gossip l))) = false -> harvested_blocks (l_gossip l) = [] ->
  exists l', run_timer c i l = Ok l' /\ l_node l' = l_node l /\ gossip_inv (l_gossip l') /\
    engine_head (l_gossip l') = tip (engine_head (l_gossip l)) (harvested_blocks (l_gossip l')) /\
    certified_from (active_set (l_gossip l')) (engine_head (l_gossip l)) (harvested_blocks (l_gossip l')).
Proof.
  intros Hi Hnc Hq. unfold run_timer.
  assert (forall l', l_gossip l' = l_gossip l -> l_node l' = l_node l -> l_node l' = l_node l /\ gossip_inv (l_gossip l') /\
    engine_head (l_gossip l') = tip (engine_head (l_gossip l)) (harvested_blocks (l_gossip l')) /\
    certified_from (active_set (l_gossip l')) (engine_head (l_gossip l)) (harvested_blocks (l_gossip l'))) as Hsame.
  { intros l' -> ->. by rewrite Hq. }
  destruct (negb _); [eexists; split; [reflexivity|by apply Hsame]|].
  destruct (l_deadline l <=? in_now i); [|eexists; split; [reflexivity|by apply Hsame]].
  pose proof (tick_timeout_inv (engine (l_gossip l)) Hi Hnc) as [Hi1 Hnp].
  pose proof (tick_timeout_quiet (engine (l_gossip l)) Hi Hnc) as (Hh & Hn & Hv).
  destruct (tick_timeout (engine (l_gossip l))) as [e [u|err|]]; cbn [fst snd] in *; [| |done].
  - set (g := receive _ _). assert (gossip_inv g) as Hg by exact Hi1.
    destruct (tick_follows g Hg) as (g' & a & Ht & [Hi2 Hs2 (new & Hq2 & Hh2 & Hc2)]). rewrite Ht. cbn [mbind res_bind].
    assert (harvested_blocks g = []) as Hqg by (unfold g; cbn; exact Hq). rewrite Hqg in Hq2. cbn [app] in Hq2.
    eexists. split; [reflexivity|]. cbn [with_gossip l_gossip l_node with_timer].
    assert (engine_head g = engine_head (l_gossip l)) as He by (unfold g, engine_head; cbn; by rewrite Hh, Hn).
    rewrite Hs2, Hq2, Hh2, <-He. done.
  - eexists. split; [reflexivity|]. cbn [with_gossip l_gossip l_node with_timer with_engine harvested_blocks].
    rewrite Hq. split_and!; [done|exact Hi1| |done]. unfold engine_head. cbn. by rewrite Hh, Hn.
Qed.

Lemma persist_round_same ok l : l_gossip (persist_round ok l) = l_gossip l /\ l_node (persist_round ok l) = l_node l.
Proof. unfold persist_round. destruct (round_key _) as [[h r]|]; [|done]. by destruct (_ || _). Qed.

Lemma iteration_spec c i head l :
  loop_inv head l -> exists l', iteration c i l = Ok l' /\
    loop_inv (tip head (iteration_blocks c i l)) l' /\ applied c i head l l'.
Proof.
  intros [Hi Hs Hnode Hhd Hcert]. unfold iteration.
  destruct (tick_follows (receive (l_gossip l) (in_payloads i)) Hi) as (g & a & Htick & [Hig Hset (new & Hq & Hh & Hc)]).
  change (engine_head (receive _ _)) with (engine_head (l_gossip l)) in Hh, Hc.
  change (harvested_blocks (receive _ _)) with (harvested_blocks (l_gossip l)) in Hq.
  change (active_set (receive _ _)) with (active_set (l_gossip l)) in Hset, Hc.
  assert (iteration_evidence c i l = pending_evidence (state (engine g))) as Hev
    by (unfold iteration_evidence; by rewrite Htick).
  assert (iteration_blocks c i l = harvested_blocks g ++
    option_list (try_harvest_committed (engine (l_gossip (collect c l g)))).2) as Hbs
    by (unfold iteration_blocks; by rewrite Htick).
  rewrite Htick. cbn [mbind res_bind]. fold (collect c l g).
  destruct (collect_spec c l g Hig) as (Hn1 & Hi1 & Hh1 & Ha1 & Hq1 & _). rewrite <-Hev in Hn1.
  set (l1 := collect c l g) in *. clearbody l1.
  unfold apply_finalised. pose proof (finalised_spec (l_gossip l1) Hi1) as Hf.
  destruct (finalised (l_gossip l1)) as [g2 blocks]. destruct Hf as (Hi2 & Hq2 & Hnc2 & Hblocks & Hh2 & Ha2 & Hc2).
  rewrite Hq1, <-Hbs in Hblocks. subst blocks.
  set (new2 := option_list _) in *. set (blocks := iteration_blocks c i l) in *. clearbody new2.
  assert (engine_head g2 = tip head blocks /\ certified_from (active_set (l_gossip l)) head blocks) as [Hh2' Hcs].
  { rewrite Hbs, Hq, Hh2, Hh1, Hh, Hhd, !tip_app. split; [done|].
    rewrite Ha1, Hset, Hh1, Hh, Hhd in Hc2. rewrite Hhd in Hc. rewrite !certified_from_app, tip_app. done. }
  set (l2 := mkLoop g2 _ _ _ _ _ _ _).
  destruct (punish_blocks c (l_node l) (iteration_evidence c i l)) as [Hpb Hph].
  assert (store_ok (l_node l2)) as Hs2 by (unfold store_ok; cbn; by rewrite Hn1, Hpb).
  destruct (apply_blocks (in_save_commit i) l2 blocks Hi2 Hs2) as (Hi3 & Ht3 & Hq3 & Hn3 & Hs3 & Hh3 & Hr3).
  set (l3 := foldl _ l2 blocks) in *. destruct Ht3 as (Hth & Htn & Htc). cbn [l_gossip l2] in Hth, Htn, Htc, Hq3.
  destruct (run_timer_spec c i l3 Hi3 (Htc Hnc2)) as (l4 & -> & Hn4 & Hi4 & Hh4 & Hc4); [by rewrite Hq3|].
  cbn [mbind res_bind]. destruct (persist_round_same (in_save_round i) l4) as [Hpg Hpn].
  exists (persist_round (in_save_round i) l4). split; [done|].
  assert (engine_head (l_gossip l3) = tip head blocks) as Hh3'.
  { unfold engine_head at 1. rewrite Hth, Htn. exact Hh2'. }
  rewrite Hh3' in Hh4, Hc4. split; split; rewrite ?Hpg, ?Hpn, ?Hn4; [done|done| |done|done|..].
  - rewrite Hh3. cbn [l_node l2]. rewrite Hn1, Hph, Hnode. unfold tip. by destruct (last blocks).
  - exact Hcs.
  - fold blocks. by rewrite Hn3, <-Hn1.
  - exact Hr3.
Qed.

(** Runs of the loop, with transactions submitted in between. *)
Inductive loop_event := Iterate (i : LoopInput) | Submit (raw : bytes).

Definition loop_step (c : LoopConfig) (r : res BftError (LoopState (B := B))) (ev : loop_event)
    : res BftError (LoopState (B := B)) :=
  l ← r;
  match ev with
  | Iterate i => iteration c i l
  | Submit raw =>
      let '(pool, _) := submit_raw_tx (chain_id (ns_spec (l_node l))) raw (l_pool l) in
      mret (mkLoop (l_gossip l) (l_node l) pool (l_rotation_epoch l) (l_timeout_key l) (l_deadline l) (l_persisted l) (l_file l))
  end.

(** The blocks that a run commits to the node, in order. *)
Definition step_blocks (c : LoopConfig) (ev : loop_event) l : list Block :=
  match ev with
  | Iterate i => iteration_blocks c i l
  | Submit _ => []
  end.

Fixpoint run_blocks (c : LoopConfig) l (events : list loop_event) : list Block :=
  match events with
  | [] => []
  | ev :: events =>
      step_blocks c ev l ++
        match loop_step c (Ok l) ev with
        | Ok l' => run_blocks c l' events
        | _ => []
        end
  end.

Lemma loop_run_inv c head l events :
  loop_inv head l -> exists l', foldl (loop_step c) (Ok l) events = Ok l' /\
    loop_inv (tip head (run_blocks c l events)) l'.
Proof.
  revert head l. induction events as [|ev events IH]; intros head l Hi; [by exists l|]. cbn [foldl run_blocks].
  assert (exists l1, loop_step c (Ok l) ev = Ok l1 /\ loop_inv (tip head (step_blocks c ev l)) l1)
    as (l1 & -> & Hl1); [|rewrite tip_app; by apply IH].
  destruct ev as [i|raw]; cbn [loop_step mbind res_bind step_blocks].
  - destruct (iteration_spec c i head l Hi) as (l1 & Heq & Hl1 & _). by exists l1.
  - destruct (submit_raw_tx _ _ _) as [pool r]. eexists. split; [reflexivity|]. by destruct Hi.
Qed.

(** ** The start *)
Lemma rotate_latest_keeps e (b : B) :
  engine_inv (state e) -> engine_inv (state (rotate_bft_engine_to_latest_dpos e b).1) /\
    same_tip e (rotate_bft_engine_to_latest_dpos e b).1.
Proof.
  intros Hi. unfold rotate_bft_engine_to_latest_dpos.
  destruct (latest_validator_set b) as [[[epoch entries]|]| |]; [|done..].
  destruct (bft_my_index_from_entries _ _) as [i|]; [|done].
  destruct (bft_validator_set_from_entries entries) as [set| |] eqn:Hs; [|done..]. apply bft_set_Ok in Hs as [_ Hwf].
  pose proof (rotate_inv e set i Hi Hwf) as [Hr _].
  assert (same_tip e (rotate_validator_set e set i).1) as Ht.
  { unfold rotate_validator_set. destruct (size set <=? i); [done|]. by destruct (coordinator (state e)), (proposal (state e)). }
  by destruct (rotate_validator_set e set i).
Qed.

Context `{!KeyCodec} `{HexCrate}.

(** A configuration that was built is one for which the engine's invariant holds. *)
Lemma built_config_ok genesis ks coinbase o cfg :
  build_bft_config genesis ks coinbase o = Ok cfg -> cfg_ok cfg.
Proof.
  unfold build_bft_config. intros Hb. inv_ok. unfold from_genesis in *. inv_ok.
  match goal with Hs : ValidatorSet_new _ = Ok _ |- _ => apply ValidatorSet_new_Ok in Hs as [_ Hwf] end.
  match goal with Hi : (_ <=? _) = false |- _ => apply N.leb_gt in Hi end. subst cfg. by split.
Qed.

Lemma boot_engine_Ok genesis ks coinbase node e :
  boot_engine genesis ks coinbase node = Ok e ->
  exists cfg, build_bft_config genesis ks coinbase None = Ok cfg /\
    ((exists head, head_block node = Some head /\ 0 < number (header head) /\ e = from_recovered cfg head) \/
     (match head_block node with Some head => number (header head) = 0 | None => True end) /\
     e = BftEngine_new cfg (genesis_block genesis)).
Proof.
  unfold boot_engine, boot_bft_engine, boot_bft_engine_with_recovered_head. intros Hb.
  destruct (head_block node) as [head|] eqn:Hhead; [destruct (N.ltb_spec 0 (number (header head)))|]; inv_ok.
  - eexists. split; [eassumption|]. left. by exists head.
  - eexists. split; [eassumption|]. right. split; [lia|done].
  - eexists. split; [eassumption|]. by right.
Qed.

(** The block a start resumes at: the recovered head, or the genesis block. *)
Definition boot_block (genesis : Genesis) node : Block :=
  match head_block node with
  | Some head => if 0 <? number (header head) then head else genesis_block genesis
  | None => genesis_block genesis
  end.

Definition boot_head (genesis : Genesis) node : H256 * N :=
  (block_hash (boot_block genesis node), number (header (boot_block genesis node))).

Lemma boot_engine_head genesis ks coinbase node e :
  store_ok node -> (head_block node = None -> ns_head node = 0) ->
  boot_engine genesis ks coinbase node = Ok e ->
  engine_inv (state e) /\ (head_hash (state e), head_number (state e)) = boot_head genesis node /\
    (boot_head genesis node).2 = ns_head node.
Proof.
  intros Hs Hnone He. apply boot_engine_Ok in He as (cfg & Hcfg%built_config_ok & He).
  assert (forall b, head_block node = Some b -> number (header b) = ns_head node) as Hbn.
  { intros b Hb. unfold head_block, block_by_number in Hb. apply bind_Some in Hb as (hash & Hh & Hb).
    apply bind_Some in Hb as (hd & Hhd & [= <-]). destruct Hs as [Hwf _].
    apply (sw_numbers _ Hwf) in Hh as (hd' & Hhd' & Hn). cbn. congruence. }
  unfold boot_head, boot_block. destruct He as [(head & Hhead & Hpos & ->)|[Hz ->]].
  - rewrite Hhead, (proj2 (N.ltb_lt _ _) Hpos). split; [by apply initial_inv|]. split; [done|by apply Hbn].
  - split; [by apply initial_inv|]. destruct (head_block node) as [head|].
    + rewrite Hz. cbn. split; [done|]. by rewrite <-(Hbn head).
    + split; [done|]. by rewrite Hnone.
Qed.

(** The start keeps the node's blocks and its head, and sets up the loop's invariant. *)
Lemma start_inv c genesis ks coinbase node pool file now l :
  store_ok node -> (head_block node = None -> ns_head node = 0) ->
  start c genesis ks coinbase node pool file now = Ok l ->
  loop_inv (boot_head genesis node) l /\ ns_blocks (l_node l) = ns_blocks node /\ ns_head (l_node l) = ns_head node /\
    ns_backend (l_node l) = (write_alloc (g_alloc genesis) (ns_backend node)).1.
Proof.
  intros Hs Hnone Hst. unfold start in Hst.
  apply bind_Ok in Hst as (e0 & He0%map_err_Ok & Hst). unfold apply_genesis_alloc in Hst.
  destruct (write_alloc (g_alloc genesis) (ns_backend node)) as [b1 r] eqn:Hw. apply bind_Ok in Hst as ([] & Hr & Hst).
  cbv zeta in Hst. injection Hst as <-. set (node1 := set_backend node b1) in *.
  destruct (boot_engine_head genesis ks coinbase node e0 Hs Hnone He0) as (Hi0 & Hh0 & Hn0).
  destruct (rotate_latest_keeps e0 (ns_backend node1) Hi0) as [Hi1 (Hh1 & Hn1 & _)].
  set (e1 := (rotate_bft_engine_to_latest_dpos e0 (ns_backend node1)).1) in *.
  match goal with |- context [resume_round ?rec file ?e] => change e with e1; set (e2 := resume_round rec file e1) end.
  assert (engine_inv (state e2) /\ quiet (state e1) (state e2)) as [Hi2 (Hh2 & Hn2 & _)].
  { unfold e2, resume_round. destruct file as [snap|]; [|done]. destruct (_ && _); [|done].
    split; [by apply fast_forward_inv|]. apply fast_forward_quiet. }
  split; [|done].
  split; [exact Hi2|done|by rewrite Hn0| |done]. cbn [l_gossip l_node harvested_blocks BftGossip_new].
  unfold engine_head, tip. cbn. by rewrite Hh2, Hn2, Hh1, Hn1.
Qed.

(** C3. The node follows its engine.  Start a validator on any database whose index is
    consistent and within its cap, and whose head number is 0 while it holds no head block; run the loop for any number of iterations with arbitrary payloads, clock
    readings and disk failures and any transactions submitted in between: nothing
    panics.  Let [head] be the hash and the number of the last block committed so far, or
    of the block the engine booted from (the recovered head, or the genesis block).  In
    every further iteration the node's state changes only by the debits for the evidence
    that the engine holds after the tick, then by the blocks that the driver has queued
    and the engine finalised, committed in order.  Block after block these blocks have a
    quorum certificate for their hash and for the height after the block before them
    (after [head] for the first), which the validator set active at the start of the
    iteration verifies unless the public keys of the signers cancel out.  The node's head number is
    that of the last of them, which is in its index unless another block already holds
    its height; and the engine's head, hash and number, is that block, or the last block
    that waits in the driver's queue, whose blocks go on from there in the same way under
    the set that is active at the end. *)
Theorem node_follows_engine c genesis ks coinbase node pool file now l0 events i :
  store_ok node -> (head_block node = None -> ns_head node = 0) ->
  start c genesis ks coinbase node pool file now = Ok l0 ->
  exists l l',
    foldl (loop_step c) (Ok l0) events = Ok l /\ iteration c i l = Ok l' /\
    let head := tip (boot_head genesis node) (run_blocks c l0 events) in
    let blocks := iteration_blocks c i l in
    let queue := harvested_blocks (l_gossip l') in
    l_node l' = foldl commit_one (foldl (punish c) (l_node l) (iteration_evidence c i l)) blocks /\
    certified_from (active_set (l_gossip l)) head blocks /\
    ns_head (l_node l) = head.2 /\ ns_head (l_node l') = (tip head blocks).2 /\
    (forall b, last blocks = Some b -> recorded (l_node l') b) /\
    engine_head (l_gossip l') = tip (tip head blocks) queue /\
    certified_from (active_set (l_gossip l')) (tip head blocks) queue.
Proof.
  intros Hs Hnone Hst.
  destruct (start_inv c genesis ks coinbase node pool file now l0 Hs Hnone Hst) as [Hl0 _].
  destruct (loop_run_inv c _ _ events Hl0) as (l & Hrun & Hl).
  destruct (iteration_spec c i _ l Hl) as (l' & Hi & [_ _ Hn' Hh' Hc'] & [Hcert Hnode Hlast]). exists l, l'.
  cbn zeta. split_and!; try done. apply (li_node _ _ Hl).
Qed.
End loop.

(** ** The accounts of the genesis file *)
Section alloc.
Context `{HL : PrimitiveLaws} `{R : Rlp} `{!RlpLaws R} `{!RlpSafe R} `{K256} `{Revm} `{!KeyCodec} `{HexCrate}.
Context {B : Type} `{HB : KvBackend B} {HK : KvLaws B}.
Implicit Types (node : NodeState (B := B)) (b : B).

(** The keys of the accounts, which are hashes. *)
Definition alloc_keys (alloc : list GenesisAlloc) : list bytes := (fun e => state_key (ga_address e)) <$> alloc.

(** The writes go through, the last entry of an address counts, and other rows stay. *)
Lemma write_alloc_spec alloc : forall b, kv_ok b -> Forall (fun e => account_wf (to_account e)) alloc ->
  exists b', write_alloc alloc b = (b', Ok tt) /\ kv_ok b' /\
    (forall a, state_key a ∉ alloc_keys alloc -> account a b' = account a b) /\
    (NoDup (alloc_keys alloc) -> forall e, e ∈ alloc -> account (ga_address e) b' = Ok (Some (to_account e))).
Proof.
  induction alloc as [|e alloc IH]; intros b Hok Hwf.
  { exists b. split_and!; [done|done|done|]. intros _ e He. by apply not_elem_of_nil in He. }
  apply Forall_cons in Hwf as [He Hwf].
  destruct (account_set b (ga_address e) (to_account e) Hok He) as (b1 & Hset & Hok1 & Hget & Hv1).
  destruct (IH b1 Hok1 Hwf) as (b' & Hw & Hok' & Hother & Hin). exists b'.
  assert (forall a, state_key a <> state_key (ga_address e) -> account a b1 = account a b) as Hne.
  { intros a Ha. rewrite !account_view, Hv1 by done. rewrite lookup_insert_ne; [done|]. congruence. }
  split_and!; [|done| |].
  - cbn [write_alloc]. unfold mbind, action_bind. by rewrite Hset.
  - intros a Ha. unfold alloc_keys in Ha. rewrite fmap_cons in Ha. apply not_elem_of_cons in Ha as [Ha1 Ha2].
    rewrite Hother by done. by apply Hne.
  - intros Hnd e' He'. unfold alloc_keys in Hnd. rewrite fmap_cons in Hnd. apply NoDup_cons in Hnd as [Hni Hnd].
    apply elem_of_cons in He' as [->|He']; [by rewrite Hother|by apply Hin].
Qed.

(** C4. Every start of a validator writes the accounts of the genesis file again, whatever the chain did
    with them since: on any database of a chain at any height, a start with a valid
    configuration succeeds, keeps the blocks and the head, and leaves each allocated account
    with nonce 0 and its genesis balance; only the other accounts keep what the chain gave them. *)
Theorem restart_resets_genesis_accounts c genesis ks coinbase node pool file now cfg :
  store_ok node -> (head_block node = None -> ns_head node = 0) -> kv_ok (ns_backend node) ->
  build_bft_config genesis ks coinbase None = Ok cfg ->
  NoDup (alloc_keys (g_alloc genesis)) -> Forall (fun e => account_wf (to_account e)) (g_alloc genesis) ->
  exists l, start c genesis ks coinbase node pool file now = Ok l /\
    ns_blocks (l_node l) = ns_blocks node /\ ns_head (l_node l) = ns_head node /\
    (forall e, e ∈ g_alloc genesis -> account (ga_address e) (ns_backend (l_node l)) = Ok (Some (to_account e))) /\
    (forall a, state_key a ∉ alloc_keys (g_alloc genesis) ->
      account a (ns_backend (l_node l)) = account a (ns_backend node)).
Proof.
  intros Hs Hnone Hok Hcfg Hnd Hwf.
  destruct (write_alloc_spec (g_alloc genesis) (ns_backend node) Hok Hwf) as (b' & Hw & Hok' & Hother & Hin).
  assert (exists l, start c genesis ks coinbase node pool file now = Ok l) as [l Hl].
  { unfold start, apply_genesis_alloc, boot_engine, boot_bft_engine, boot_bft_engine_with_recovered_head.
    rewrite Hcfg, Hw. destruct (head_block node) as [head|]; [destruct (0 <? number (header head))|]; by eexists. }
  exists l. split; [done|].
  destruct (start_inv c genesis ks coinbase node pool file now l Hs Hnone Hl) as (_ & Hb & Hh & Hbe).
  rewrite Hbe, Hw. cbn [fst]. split_and!; [done|done|by apply Hin|done].
Qed.
End alloc.
