(* ===== verification/LoopDemo.v ===== *)
(** * LoopDemo: a single validator runs the loop

    The wallet of [NodeDemo] submits a transfer to a fresh node whose only validator is
    the node itself; the loop proposes, votes, finalises and commits the block. *)
From stdpp Require Import base tactics gmap numbers strings list.
From Stdlib Require Import NArith Lia.
From S2P Require Import Prelude Bytes Crypto Bft BftFacts Coordinator Slashing Codec Secp Tx ToyRlp Transfer.
From S2P Require Import Trie Receipt Block Engine EngineFacts Demo EngineDemo Gossip GossipProps Storage StateDb Evm.
From S2P Require Import Staking ChainSpec Dpos Precompile NodeExec NodeState NodeIndex NodeDemo TxPool Rotation Bootstrap ValidatorLoop SlashProps LoopProps.

Module LoopDemo.
Export NodeDemo ToyHex ToyKeys.

(** The chain of validator 0, which also gives the wallet its first funds. *)
Definition first_funds : GenesisAlloc := mkGenesisAlloc wallet (7 * aii) None.
Definition genesis0 : Genesis :=
  mkGenesis testnet 0 (str "aii-testnet") [] [mkGenesisValidator (Demo.sk 0) (vsk 0) 10] seed0.
Definition funded_genesis : Genesis :=
  mkGenesis testnet 0 (str "aii-testnet") [first_funds] [mkGenesisValidator (Demo.sk 0) (vsk 0) 10] seed0.
Definition keystore0 : ValidatorKeystore := keystore_of (C := codec) (Demo.sk 0, vsk 0).

Definition config : LoopConfig := mkLoopConfig testnet 3000.
Definition boot (genesis : Genesis) (n : NodeState) (now : N) : res StartError (LoopState (B := MemoryBackend)) :=
  start config genesis keystore0 (be_array 20 0) n (TxPool_new 100) None now.

Definition booted : LoopState :=
  match boot genesis0 node 0 with
  | Ok l => l
  | _ => mkLoop (BftGossip_new solo) node (TxPool_new 100) None None 0 (0, 0) None
  end.

Lemma booted_ok : boot genesis0 node 0 = Ok booted.
Proof. reflexivity. Qed.

Definition quiet_input (now : N) : LoopInput := mkInput [] [] now now true true.
Definition run (events : list loop_event) : res BftError LoopState := foldl (loop_step config) (Ok booted) events.
Definition raw_transfer : bytes := tx_encode_2718 transfer.
Definition events : list loop_event :=
  Submit raw_transfer :: ((fun t => Iterate (quiet_input t)) <$> [50; 100; 150; 200; 250; 300; 350; 400]: list loop_event).

Lemma booted_node_ok : store_ok node.
Proof. split; [apply store_wf_default|cbn; lia]. Qed.

Lemma booted_inv : loop_inv (boot_head genesis0 node) booted.
Proof.
  exact (proj1 (start_inv config genesis0 keystore0 (be_array 20 0) node (TxPool_new 100) None 0 booted
    booted_node_ok (fun _ => eq_refl) booted_ok)).
Qed.

(** The node of the run, as the process leaves it. *)
Definition settled : NodeState := match run events with Ok l => l_node l | _ => node end.

Lemma settled_reached : exists l, run events = Ok l /\ settled = l_node l.
Proof.
  destruct (loop_run_inv config _ booted events booted_inv) as (l & Hl & _).
  exists l. split; [exact Hl|]. unfold settled. change (run events) with (foldl (loop_step config) (Ok booted) events).
  by rewrite Hl.
Qed.

Lemma settled_store : store_ok settled.
Proof.
  destruct (loop_run_inv config _ booted events booted_inv) as (l & Hl & Hl').
  destruct settled_reached as (l2 & Hl2 & ->). change (run events) with (foldl (loop_step config) (Ok booted) events) in Hl2.
  rewrite Hl in Hl2. injection Hl2 as <-. apply (li_store _ _ Hl').
Qed.

Lemma settled_ok : kv_ok (ns_backend settled).
Proof. apply mem_ok_all. vm_compute. reflexivity. Qed.

Lemma settled_head : head_block settled = None -> ns_head settled = 0.
Proof.
  assert (bool_decide (head_block settled = None) = false) as Hh by (vm_compute; reflexivity).
  apply bool_decide_eq_false_1 in Hh. intros Hn. destruct (Hh Hn).
Qed.

Lemma funded_config : exists cfg, build_bft_config funded_genesis keystore0 (be_array 20 0) None = Ok cfg.
Proof. eexists. reflexivity. Qed.

Lemma first_funds_wf : account_wf (to_account first_funds).
Proof. split; vm_compute; reflexivity. Qed.

(** The wallet is validator 0 of the latest record, and equivocates. *)
Definition recorded_store : MemoryBackend :=
  (persist_validator_set 1 [mkEntry wallet 1000 None None] (bond wallet (1000000 * aii) funded).1).1.
Definition vote_for (h : H256) : PrevoteVote := mkVote _ h 5 0 0 (vote_sig forged).
Definition double_vote : EquivocationEvidence := EvPrevote (vote_for (be_array 32 8)) (vote_for (be_array 32 9)).

Lemma recorded_ok : kv_ok recorded_store.
Proof. apply mem_ok_all. vm_compute. reflexivity. Qed.
End LoopDemo.
Import LoopDemo.

(** Eight iterations after the submission the node is at height 2; the transfer is in its
    head block and has been executed: bob holds 5 wei. *)
Example transfer_end_to_end :
  match run events with
  | Ok l =>
      (ns_head (l_node l) =? 2) && bool_decide ((transactions ∘ body <$> head_block (l_node l)) = Some [transfer]) &&
      match account bob (ns_backend (l_node l)) with Ok (Some a) => a_balance a =? 5 | _ => false end
  | _ => false
  end = true.
Proof. vm_compute. reflexivity. Qed.

Lemma node_follows_engine_witness :
  exists l l', run events = Ok l /\
    iteration config (mkInput GossipDemo.junk [[]] 9000 9000 false false) l = Ok l' /\
    engine_head (l_gossip l') =
      tip (tip (boot_head genesis0 node) (run_blocks config booted events ++
          iteration_blocks config (mkInput GossipDemo.junk [[]] 9000 9000 false false) l))
        (harvested_blocks (l_gossip l')).
Proof.
  destruct (node_follows_engine (HL := Toy.laws) (RlpSafe0 := ToyRlp.rlp_safe) config genesis0 keystore0 (be_array 20 0) node (TxPool_new 100) None 0
    booted events (mkInput GossipDemo.junk [[]] 9000 9000 false false) booted_node_ok (fun _ => eq_refl) booted_ok)
    as (l & l' & Hrun & Hi & _ & _ & _ & _ & _ & Hh & _).
  exists l, l'. split; [exact Hrun|]. split; [exact Hi|]. rewrite tip_app. exact Hh.
Defined.

Lemma evidence_punished_witness :
  let b' := ns_backend (punish config (set_backend node recorded_store) double_vote) in
  (exists records, list_slashings b' = Ok records /\ record_of double_vote ∈ records) /\
  stake_map b' !! wallet = Some (1000000 * aii - slash_amount_wei config, 0).
Proof.
  pose proof (evidence_punished (HL := memory_laws) config (set_backend node recorded_store) double_vote
    recorded_ok eq_refl eq_refl) as H.
  destruct H as (_ & H1 & H2 & _). split; [exact H1|].
  cbn zeta. rewrite H2. vm_compute. reflexivity.
Defined.

Lemma restart_resets_genesis_accounts_witness :
  exists l, boot funded_genesis settled 9000 = Ok l /\ ns_head (l_node l) = ns_head settled /\
    account wallet (ns_backend (l_node l)) = Ok (Some (to_account first_funds)) /\
    account bob (ns_backend (l_node l)) = account bob (ns_backend settled).
Proof.
  destruct funded_config as [cfg Hcfg].
  destruct (restart_resets_genesis_accounts (RlpLaws0 := ToyRlp.rlp_laws)
    config funded_genesis keystore0 (be_array 20 0) settled
    (TxPool_new 100) None 9000 cfg settled_store settled_head settled_ok Hcfg
    ltac:(apply NoDup_singleton) ltac:(apply Forall_singleton; exact first_funds_wf))
    as (l & Hl & _ & Hh & Hin & Hother).
  exists l. split; [exact Hl|]. split; [exact Hh|]. split; [apply (Hin first_funds); left|].
  apply Hother. apply (bool_decide_eq_true_1 _). vm_compute. reflexivity.
Defined.
